(* ===== verification/_CoqProject ===== *)
-Q . S2P
Prelude.v
Order.v
GoLib.v
Os.v
Netip.v
NetipText.v
Float64.v
Cidr.v
CidrFacts.v
CidrSpec.v
Aggregator.v
Plan.v
Config.v
ConfigSpec.v
Duration.v
DurationSpec.v
Settings.v
SettingsSpec.v
SettingsDemo.v
SettingsForm.v
Routing.v
RoutingSpec.v
Machine.v
Legacy.v
LegacySpec.v
Exporter.v
ExporterSpec.v
Events.v
EventsSpec.v
EventStream.v
Watcher.v
WatcherSpec.v
Cache.v
CacheSpec.v
Migrate.v
MigrateSpec.v
Resolver.v
ResolverSpec.v
Pool.v
Orchestrator.v
OrchestratorSpec.v
Resolution.v
Scheduler.v
SchedulerSpec.v
Sourcereg.v
SourceregSpec.v
Api.v
ApiSpec.v
PolicyApiSpec.v
CacheApiSpec.v
Plaintext.v
PlaintextSpec.v
Store.v
Providers.v
Ipverse.v
Geoip.v
Mmdb.v
RwMutex.v
RwMutexSpec.v
ProvidersSpec.v
ProvidersDemo.v
Outage.v
ApiDemo.v
StoreSpec.v
Upload.v
Server.v
ServerSpec.v
Download.v
Assets.v
Domainlist.v
DomainlistSpec.v
Geosite.v
GeositeSpec.v
Cmd.v
CmdSpec.v
CmdDemo.v
Metrics.v
Serve.v
ServeSpec.v
ServerDemo.v
