(* ===== verification/Prelude.v ===== *)
(** * d2ip: a verification library

  d2ip turns lists of domains into routes.  Sources (files and remote lists)
  provide domains and prefixes under categories; policies name categories and a
  backend.  A pipeline run resolves the domains of each enabled policy through a
  cache, aggregates the addresses into prefixes, exports them as files and installs
  them with [ip] or [nft].  A scheduler and an HTTP interface start runs and change
  the configuration.  The sources are Go, under [src/]; paths below are relative to
  it.

  ** Parts and files

  A file [X.v] holds the translation of a part, [XSpec.v] what is proved of it.
  Definitions keep the names of the code; a suffix or prefix is added where two
  parts use the same one ([Set_], [Stats_], [ip_], [nft_], [ir_], [nr_]).

  - Foundations.  [Prelude] (results, tactics, machine integers), [Order] (total
    comparisons and sorting), [GoLib] (errors with wrapping, [strings], [strconv]),
    [Os] (files, commands, clock), [Netip] and [NetipText] ([net/netip] and its text
    form), [Float64] (binary64 over SpecFloat).
  - Aggregation.  [Cidr], [CidrFacts], [CidrSpec]: [pkg/cidr].  [Aggregator]:
    [internal/aggregator].
  - Configuration, [internal/config].  [Config], [ConfigSpec]: schema, defaults,
    validation.  [Duration], [Settings] and their specifications: [load.go],
    [store.go]; [SettingsDemo] runs them; [SettingsForm]: the settings as a client sees
    them.  [Watcher]: [watch.go].  [Events]:
    [internal/events]; [EventStream]: the clients of the bus, [internal/api/events.go].
  - Routing, [internal/routing].  [Plan]: plans and diffs.  [Routing]: the policy
    routers, their state files, the validator, the composite router.  [Legacy]: the
    single-policy routers.  [Machine]: a kernel that interprets their commands.
  - Export, [internal/exporter].  [Exporter].
  - Cache, [internal/cache].  [Cache]: the statements and transactions.  [Migrate]:
    [sqlite.go].
  - Resolver, [internal/resolver].  [Resolver]: one domain.  [Pool]: the workers.
  - Sources.  [Sourcereg]: [internal/sourcereg].  [Plaintext], [Geosite], [Ipverse],
    [Geoip] and [Mmdb]: its five providers, with what they share in [Providers], their
    specification in [ProvidersSpec] and examples in [ProvidersDemo]; [RwMutex]: the
    lock of a provider.  [Store]: [internal/source].  [Domainlist]:
    [internal/domainlist].
  - Control.  [Orchestrator]: [internal/orchestrator].  [Resolution]: the
    orchestrator over the cache and a batch resolver; [Outage]: a run of the
    orchestrator over sources that cannot be read and the real outputs.  [Scheduler]:
    [internal/scheduler].  [Api], with [ApiSpec], [PolicyApiSpec], [CacheApiSpec] and
    the examples of [ApiDemo]: [internal/api]; [Upload]: the uploads; [Download]:
    exports and their download; [Assets]: the embedded web interface.  [Server]: the
    server itself, its state, its routes and the requests it serves, with the agents the
    orchestrator gets from that state; [ServerSpec].
  - Metrics, [internal/metrics].  [Metrics]: the registry and its set-up.
  - Commands, [cmd/d2ip].  [Cmd]: [dump], [resolve], [export] and the registry [serve]
    fills; [CmdSpec], and [CmdDemo] with examples.  [Serve]: the subcommands,
    [internal/logging], [serve] up to the listening server and its shutdown;
    [ServeSpec].  [ServerDemo] runs a server on a concrete machine.

  ** How code is represented

  Effects are a state-and-error monad [IO K A] over a world of files, a kernel state
  [K] and a counter of calls ([Os]).  Each system call, statement or command asks the
  environment (class [Env]) if it fails; nothing restricts the answers, so a theorem
  over [Env] covers a failure at every call and the torn writes that go with it.
  Sequential operations are functions; what goroutines can observe of each other is a
  step relation: the bus ([Events]), the watcher, the concurrent calls of [Run] and
  [Cancel] ([Orchestrator]), the worker pool ([Pool]), the scheduler, the locks of a
  provider ([RwMutex]), a client of the event stream.  Channels and
  subscriptions are shared objects of a store, so aliasing is visible.  A server, its
  watcher, bus, registry and orchestrator are one state ([Server.State]), and a pipeline
  run works on that state, not on a copy.  What a computation leaves alone is the relation
  of [respects] between its world before and after ([Os]), closed under the combinators of
  the monad.  A panic is [None].  Integers that can overflow are wrapped ([wrap_s]); maps are [gmap] and
  their iteration order is a parameter ([MapOrder]).

  Code outside the repository is an interface, a class with the laws the code relies
  on, and every one with laws has an instance in the library: [StateCodec], [IPRouteKernel],
  [NFTKernel], [NftCodec] (JSON and kernel, instances in [Machine]); [Digest],
  [TempNames] ([ExporterSpec]); [GeoIPCodec], [MmdbReader] ([ProvidersDemo]); [Marshal]
  ([EventStream]); [Gunzip] ([Assets]); [JsonRound] ([SettingsForm]); [Http], [VersionCodec], [ListCodec], [Idna]
  ([GeositeSpec]); [ConfigCodec], [Source], [Factories] ([PlaintextSpec]); [Sqlite]
  ([CacheSpec]); [Dns] ([ResolverSpec]); [SchemaDb] ([MigrateSpec]); [Json], [Viper],
  [ViperLaws], [DecodeLaws] ([SettingsDemo]); [Prometheus] and [PrometheusLaws]
  ([Metrics]); [Uuid] and [Zerolog] ([ServerDemo]).  [Agents] is the record of operations
  the orchestrator is given, and [Orchestrator] and [Resolution] put the parts of the
  library in it.

  ** What is proved

  - [CidrSpec], [Aggregator]: every address is in exactly one emitted prefix, whatever
    the order of the inputs; the conservative level adds nothing for IPv4, merged
    prefixes are as dense as their level says, and where the test overflows for IPv6.
  - [RoutingSpec], [Plan], [LegacySpec]: plans are minimal and executing them gives
    the desired set; a successful apply installs exactly the policy's prefixes next to
    foreign routes; state files are replaced atomically; the parsers read back what
    the tools print; what an unchanged nftables policy does.
  - [ExporterSpec]: readers see the old or the new file whatever fails.
  - [ConfigSpec]: [Validate] accepts exactly the configurations that meet the rules.
    [SettingsSpec]: the order environment, row, file, default for every field; types
    of parsed rows.  [SettingsForm]: what is shown can be sent back, except short
    durations.
  - [WatcherSpec], [EventsSpec]: no operation panics in the reachable states (for the
    bus: of callers that keep its conditions), snapshots are valid and in order.
  - [CacheSpec]: the tables refine a map from domains to outcomes and addresses under
    failures at every statement, and what a batch that fails half-way leaves.
    [MigrateSpec]: an interrupted migration can be resumed.
  - [ResolverSpec], [Pool]: the number of queries is bounded, alias chains are followed
    to their end, and every execution of a batch ends with at most one result for each
    domain.
  - [OrchestratorSpec], [Resolution]: the outputs of a policy cover its addresses, a
    dry run touches nothing, at most one run at a time; a run resolves exactly what
    needs it.  [Outage]: what a run does to installed routes while no source can be
    read.  [SchedulerSpec]: one schedule at a time.
  - [SourceregSpec], [PlaintextSpec], [GeositeSpec], [StoreSpec], [DomainlistSpec],
    [ProvidersSpec]: unique prefixes and persisted sources, what each source serves
    after a load that succeeds or fails, atomic downloads.  [RwMutexSpec]: the methods
    of the providers end, except where one takes its lock twice.
  - [PolicyApiSpec], [ApiSpec], [CacheApiSpec]: the policy handlers refine a map;
    what settings requests, deleted overrides and the vacuum button do; paging.
    [EventStream]: what a connected client is sent, and that it makes a shutdown panic.
    [Upload]: uploads are saved whole.  [Download]: which exports can be downloaded.
    [Assets]: which paths of the web interface have a page.
  - [CmdSpec]: the commands [resolve] and [export] one after the other, as one
    statement about the written files; the level [off]; lists without metadata.
  - [ServerSpec]: the invariant of a server's state under requests, scheduled runs and
    clients of the stream, so that no request panics but one; what [GET] requests leave
    alone; what a server answers without a component it needs; a created policy is part
    of the next run.
  - [ServeSpec]: a start that succeeds gives a server with that invariant on the
    configuration of file, environment and rows; a created policy survives a restart; a
    setting that was refused can keep the program from starting; which shutdowns panic.

  ** Fuel and bounds

  [deliver_fuel] is 2: a buffer within its capacity has room after one value is
  drained, and the watcher's theorems prove that it is never used up.  [chunks_loop]
  and [duration_parts] get the length of their input, and every turn consumes part of
  it.  [resolve_loop] counts the retries and [follow] the hops of the configuration.
  The loops over prefixes have the width of the address.  Other recursion is
  structural.

  ** Not modelled

  The parsing of flags, sockets and signals, since they are [net/http] and [os]: a
  request is given with its decoded body, and an answer is its status and value, without
  JSON text or headers (but those of the web interface).  The logging middleware, what
  the metrics count and what [/metrics] prints.  Handlers that run at the same time:
  requests are served one after the other, and what [Run] and [Cancel], the watcher, the
  bus and the locks do concurrently is in the parts named above.  The generated protobuf
  code and the reader of MMDB files; the text of SQL statements, which is taken
  for what it says; deadlines in the rate limiter of the resolver.  [strings.ToLower]
  and white space are those of ASCII text. *)

From stdpp Require Export base tactics list list_numbers option numbers strings gmap sets sorting.
From Stdlib Require Export ZArith Lia.

(** ** Notation scope of the library *)

Declare Scope d2ip_scope.
Delimit Scope d2ip_scope with d2ip.

(** ** Hint databases *)

Create HintDb d2ip.
Create Rewrite HintDb d2ip_rw.

(** ** Errors as values

  Go returns [(value, error)]; a function whose value is meaningless when the
  error is set is modelled by [res]. *)

Inductive res (E A : Type) : Type :=
| Ok (a : A)
| Err (e : E).
Arguments Ok {E A} a.
Arguments Err {E A} e.

Definition res_bind {E A B : Type} (x : res E A) (f : A -> res E B) : res E B :=
  match x with Ok a => f a | Err e => Err e end.

Notation "'let?' x := c1 'in' c2" := (res_bind c1 (fun x => c2))
  (at level 10, x pattern, c1 at level 200, c2 at level 200) : d2ip_scope.

Lemma res_bind_assoc {E A B C} (x : res E A) (f : A -> res E B) (g : B -> res E C) :
  res_bind (res_bind x f) g = res_bind x (fun a => res_bind (f a) g).
Proof. by destruct x. Qed.

(** ** Tactics *)

(** Split every boolean connective and comparison in the context. *)
Ltac bool_hyps :=
  repeat match goal with
  | H : _ && _ = true |- _ => apply andb_true_iff in H; destruct H
  | H : _ || _ = false |- _ => apply orb_false_iff in H; destruct H
  | H : negb _ = true |- _ => apply negb_true_iff in H
  | H : negb _ = false |- _ => apply negb_false_iff in H
  | H : (_ <? _)%Z = true |- _ => apply Z.ltb_lt in H
  | H : (_ <? _)%Z = false |- _ => apply Z.ltb_ge in H
  | H : (_ <=? _)%Z = true |- _ => apply Z.leb_le in H
  | H : (_ <=? _)%Z = false |- _ => apply Z.leb_gt in H
  | H : (_ =? _)%Z = true |- _ => apply Z.eqb_eq in H
  | H : (_ =? _)%Z = false |- _ => apply Z.eqb_neq in H
  | H : bool_decide _ = true |- _ => apply bool_decide_eq_true in H
  | H : bool_decide _ = false |- _ => apply bool_decide_eq_false in H
  end.

(** Case analysis on the guard of the first conditional of the goal. *)
Ltac case_if :=
  match goal with
  | |- context [if ?b then _ else _] => destruct b eqn:?
  end.

(** ** Machine integers *)

(** Two's-complement reading of the low [w] bits, what a Go [intW] keeps. *)
Definition wrap_s (w : Z) (n : Z) : Z := (n + 2 ^ (w - 1)) mod 2 ^ w - 2 ^ (w - 1).

Abbreviation int64_wrap := (wrap_s 64).

Lemma wrap_s_id w n :
  (0 < w)%Z -> (- 2 ^ (w - 1) <= n < 2 ^ (w - 1))%Z -> wrap_s w n = n.
Proof.
  intros Hw Hn. unfold wrap_s.
  assert (2 ^ w = 2 * 2 ^ (w - 1))%Z as Hp.
  { rewrite <- Z.pow_succ_r by lia. f_equal. lia. }
  rewrite Z.mod_small; lia.
Qed.

Lemma wrap_s_range w n :
  (0 < w)%Z -> (- 2 ^ (w - 1) <= wrap_s w n < 2 ^ (w - 1))%Z.
Proof.
  intros Hw. unfold wrap_s.
  assert (2 ^ w = 2 * 2 ^ (w - 1))%Z as Hp.
  { rewrite <- Z.pow_succ_r by lia. f_equal. lia. }
  assert (0 < 2 ^ (w - 1))%Z by (apply Z.pow_pos_nonneg; lia).
  pose proof (Z.mod_pos_bound (n + 2 ^ (w - 1)) (2 ^ w)). lia.
Qed.

(** Go's [1 << k] at type [int] (64 bits): shifting out every bit gives 0. *)
Definition shl1_int (k : Z) : Z := int64_wrap (Z.shiftl 1 k).

Lemma shl1_int_small k : (0 <= k <= 62)%Z -> shl1_int k = (2 ^ k)%Z.
Proof.
  intros Hk. unfold shl1_int. rewrite Z.shiftl_1_l, wrap_s_id; [done|lia|].
  split; [pose proof (Z.pow_nonneg 2 k); lia|apply Z.pow_lt_mono_r; lia].
Qed.

Lemma shl1_int_63 : shl1_int 63 = (- 2 ^ 63)%Z.
Proof. reflexivity. Qed.

Lemma shl1_int_big k : (64 <= k)%Z -> shl1_int k = 0%Z.
Proof.
  intros Hk. unfold shl1_int, wrap_s. rewrite Z.shiftl_1_l.
  replace k with ((k - 64) + 64)%Z by lia. rewrite Z.pow_add_r by lia.
  rewrite Z.add_comm, Z_mod_plus_full. reflexivity.
Qed.

#[export] Hint Rewrite @shl1_int_small using lia : d2ip_rw.

(** ** Sorting

  [sort.Slice] takes a [less] predicate and returns a permutation that the
  predicate orders.  [go_sort] is a stable sort; the lemmas below are the only
  facts the library uses, and they hold of every correct sort as soon as the
  keys of the list are distinct. *)

Section go_sort.
Context {A : Type} (less : A -> A -> bool).

(** [x] may stand before [y]. *)
Definition not_less (x y : A) : Prop := less y x = false.

#[global] Instance not_less_dec : RelDecision not_less.
Proof. intros x y. unfold not_less. apply _. Defined.

Definition go_sort (l : list A) : list A := merge_sort not_less l.

Lemma go_sort_perm l : go_sort l ≡ₚ l.
Proof. apply merge_sort_Permutation. Qed.

Lemma elem_of_go_sort x l : x ∈ go_sort l <-> x ∈ l.
Proof. by rewrite go_sort_perm. Qed.

Lemma go_sort_sorted l :
  (forall x y, less x y = true -> less y x = false) ->
  (forall x y z, less x y = false -> less y z = false -> less x z = false) ->
  StronglySorted not_less (go_sort l).
Proof.
  intros Hasym Htrans. apply StronglySorted_merge_sort.
  - intros x y z Hxy Hyz. unfold not_less in *. eauto.
  - intros x y. unfold not_less. destruct (less y x) eqn:E; [right|left]; auto.
Qed.

(** A sorted list whose distinct elements are strictly ordered is determined
    by its elements. *)
Lemma sorted_unique l1 l2 :
  (forall x y, x ∈ l1 -> y ∈ l1 -> less x y = false -> less y x = false -> x = y) ->
  StronglySorted not_less l1 -> StronglySorted not_less l2 -> l1 ≡ₚ l2 -> l1 = l2.
Proof.
  intros Hanti H1. revert l2. induction H1 as [|x l1 H1 IH Hx]; intros l2 H2 Hp.
  { symmetry. by apply Permutation_nil. }
  destruct H2 as [|y l2 H2 Hy]; [by apply Permutation_nil_r in Hp|].
  assert (x = y) as ->.
  { assert (y ∈ x :: l1) as Hyin by (rewrite Hp; left).
    assert (x ∈ y :: l2) as Hxin by (rewrite <- Hp; left).
    apply elem_of_cons in Hyin as [->|Hyin]; [done|].
    apply elem_of_cons in Hxin as [->|Hxin]; [done|].
    rewrite Forall_forall in Hx, Hy.
    apply Hanti; [left|by right|apply (Hy x)|apply (Hx y)];
      done. }
  f_equal. apply IH; [|done|by apply Permutation_cons_inv in Hp].
  intros a b Ha Hb. apply Hanti; by right.
Qed.
End go_sort.
#[global] Arguments go_sort : simpl never.
#[export] Hint Rewrite @elem_of_go_sort : d2ip_rw.

(** ** Lists *)

Lemma filter_none {A} (P : A -> Prop) `{forall x, Decision (P x)} (l : list A) :
  (forall x, x ∈ l -> ~ P x) -> filter P l = [].
Proof.
  induction l as [|x l IH]; intros Hl; [done|].
  rewrite filter_cons_False by (apply Hl; left). apply IH. intros; apply Hl; by right.
Qed.

Lemma filter_perm {A} (P : A -> Prop) `{forall x, Decision (P x)} (l1 l2 : list A) :
  l1 ≡ₚ l2 -> length (filter P l1) = length (filter P l2).
Proof. by intros ->. Qed.

Lemma length_pos_elem {A} (l : list A) : (exists x, x ∈ l) -> (0 < length l)%nat.
Proof. intros [x Hx]. destruct l; [by apply elem_of_nil in Hx|cbn; lia]. Qed.

Lemma filter_every {A} (P : A -> Prop) `{forall x, Decision (P x)} (l : list A) :
  (forall x, x ∈ l -> P x) -> filter P l = l.
Proof.
  induction l as [|x l IH]; intros Hl; [done|].
  rewrite filter_cons_True by (apply Hl; left). f_equal. apply IH. intros; apply Hl; by right.
Qed.

Lemma StronglySorted_app {A} (R : A -> A -> Prop) l1 l2 :
  StronglySorted R l1 -> StronglySorted R l2 ->
  (forall x y, x ∈ l1 -> y ∈ l2 -> R x y) -> StronglySorted R (l1 ++ l2).
Proof.
  intros H1 H2. induction H1 as [|a l1 H1 IH Ha]; cbn; [done|]. intros Hc.
  constructor; [apply IH; intros; apply Hc; [by right|done]|].
  apply Forall_app. split; [done|]. apply Forall_forall. intros y Hy.
  apply Hc; [left|done].
Qed.

(** [fold_left] of commuting steps does not depend on the order. *)
Lemma fold_left_perm {A B} (f : A -> B -> A) (l1 l2 : list B) :
  (forall a x y, x ∈ l1 -> y ∈ l1 -> f (f a x) y = f (f a y) x) ->
  l1 ≡ₚ l2 -> forall a, fold_left f l1 a = fold_left f l2 a.
Proof.
  intros Hc Hp. induction Hp as [|x l1 l2 Hp IH|x y l|l1 l2 l3 Hp1 IH1 Hp2 IH2]; intros a; cbn.
  - done.
  - apply IH. intros; apply Hc; by right.
  - by rewrite Hc by set_solver.
  - rewrite IH1 by done. apply IH2. intros b x y Hx Hy.
    apply Hc; by rewrite Hp1.
Qed.

(** ** Enumerations of maps *)

(** What Go guarantees about the enumeration of a map's keys: each once, in some
    order. *)
Class MapOrder `{Countable A} (map_order : gset A -> list A) : Prop :=
  map_order_perm : forall s, map_order s ≡ₚ elements s.

#[export] Instance elements_MapOrder `{Countable A} : MapOrder (elements (C := gset A)).
Proof. by intros s. Qed.

Lemma elem_of_map_order `{Countable A} (order : gset A -> list A) `{!MapOrder order} x s :
  x ∈ order s <-> x ∈ s.
Proof. rewrite (map_order_perm s). apply elem_of_elements. Qed.
