(* ===== verification/Order.v ===== *)
(** * Total comparisons

  What a three-way comparison must satisfy to sort by it, closed under keys and
  lexicographic combination. *)

From S2P Require Import Prelude.
From Stdlib Require Import Strings.Ascii Strings.String.

Class TotalCmp {A} (cmp : A -> A -> comparison) : Prop := {
  cmp_antisym x y : cmp y x = CompOpp (cmp x y);
  cmp_trans x y z : cmp x y <> Gt -> cmp y z <> Gt -> cmp x z <> Gt
}.

Definition cmp_on {A B} (f : A -> B) (cmp : B -> B -> comparison) (x y : A) : comparison :=
  cmp (f x) (f y).

Definition cmp_lex {A} (c1 c2 : A -> A -> comparison) (x y : A) : comparison :=
  match c1 x y with Eq => c2 x y | c => c end.

Definition cmp_less {A} (cmp : A -> A -> comparison) (x y : A) : bool :=
  match cmp x y with Lt => true | _ => false end.

Section TotalCmp.
Context {A : Type} (cmp : A -> A -> comparison) `{!TotalCmp cmp}.

Lemma cmp_refl x : cmp x x = Eq.
Proof. pose proof (cmp_antisym (cmp := cmp) x x). destruct (cmp x x); done. Qed.

Lemma cmp_eq_l x y z : cmp x y = Eq -> cmp x z = cmp y z.
Proof.
  intros Hxy. pose proof (cmp_antisym (cmp := cmp) x y) as Hyx. rewrite Hxy in Hyx. cbn in Hyx.
  pose proof (cmp_trans (cmp := cmp) x y z) as H1. pose proof (cmp_trans (cmp := cmp) y x z) as H2.
  pose proof (cmp_trans (cmp := cmp) z y x) as H3. pose proof (cmp_trans (cmp := cmp) z x y) as H4.
  pose proof (cmp_antisym (cmp := cmp) x z) as Ha. pose proof (cmp_antisym (cmp := cmp) y z) as Hb.
  rewrite Hxy, Hyx, Ha, Hb in *.
  destruct (cmp x z), (cmp y z); cbn in *; naive_solver.
Qed.

Lemma cmp_less_asym x y : cmp_less cmp x y = true -> cmp_less cmp y x = false.
Proof. unfold cmp_less. rewrite (cmp_antisym (cmp := cmp) x y). by destruct (cmp x y). Qed.

Lemma cmp_less_negtrans x y z :
  cmp_less cmp x y = false -> cmp_less cmp y z = false -> cmp_less cmp x z = false.
Proof.
  unfold cmp_less. pose proof (cmp_trans (cmp := cmp) z y x) as H.
  rewrite (cmp_antisym (cmp := cmp) x y), (cmp_antisym (cmp := cmp) y z), (cmp_antisym (cmp := cmp) x z) in H.
  destruct (cmp x y), (cmp y z), (cmp x z); cbn in *; naive_solver.
Qed.

(** Sorting by a predicate that agrees with a total comparison: the result is
    ordered, and the same for every enumeration of a set when the comparison
    only equates equal elements. *)
Lemma go_sort_ordered less l :
  (forall x y, less x y = cmp_less cmp x y) -> StronglySorted (not_less less) (go_sort less l).
Proof.
  intros Hl. apply go_sort_sorted.
  - intros x y. rewrite !Hl. apply cmp_less_asym.
  - intros x y z. rewrite !Hl. apply cmp_less_negtrans.
Qed.

Lemma go_sort_unique less l1 l2 :
  (forall x y, less x y = cmp_less cmp x y) ->
  (forall x y, x ∈ l1 -> y ∈ l1 -> cmp x y = Eq -> x = y) -> l1 ≡ₚ l2 ->
  go_sort less l1 = go_sort less l2.
Proof.
  intros Hl Heq Hp. apply (sorted_unique less); [|by apply go_sort_ordered..|by rewrite !go_sort_perm].
  intros x y Hx Hy. rewrite elem_of_go_sort in Hx, Hy. rewrite !Hl. intros Hxy Hyx.
  apply Heq; [done..|]. unfold cmp_less in *. rewrite (cmp_antisym (cmp := cmp) x y) in Hyx.
  by destruct (cmp x y).
Qed.
End TotalCmp.

#[export] Instance cmp_on_total {A B} (f : A -> B) cmp : TotalCmp cmp -> TotalCmp (cmp_on f cmp).
Proof. intros [Ha Ht]. split; unfold cmp_on; intros; eauto. Qed.

#[export] Instance cmp_lex_total {A} (c1 c2 : A -> A -> comparison) :
  TotalCmp c1 -> TotalCmp c2 -> TotalCmp (cmp_lex c1 c2).
Proof.
  intros H1 H2. split; unfold cmp_lex.
  - intros x y. rewrite (cmp_antisym (cmp := c1) x y). destruct (c1 x y); cbn; try done. apply (cmp_antisym (cmp := c2)).
  - intros x y z. destruct (c1 x y) eqn:E1; [|destruct (c1 y z) eqn:E2|done].
    + rewrite (cmp_eq_l c1 x y z E1). destruct (c1 y z); [|done..]. apply (cmp_trans (cmp := c2)).
    + intros _ _. pose proof (cmp_antisym (cmp := c1) y z) as Hz. rewrite E2 in Hz. cbn in Hz.
      pose proof (cmp_eq_l c1 z y x Hz) as Hzx. rewrite (cmp_antisym (cmp := c1) x y), E1 in Hzx.
      rewrite (cmp_antisym (cmp := c1) z x), Hzx. done.
    + intros _ _. pose proof (cmp_trans (cmp := c1) x y z) as Ht. rewrite E1, E2 in Ht.
      destruct (c1 x z) eqn:E3; [|done|naive_solver].
      exfalso. rewrite (cmp_eq_l c1 x z y E3) in E1.
      rewrite (cmp_antisym (cmp := c1) y z), E2 in E1. done.
    + intros _ ?. done.
Qed.

#[export] Instance Z_compare_total : TotalCmp Z.compare.
Proof. split; [intros; by rewrite Z.compare_antisym|intros x y z; rewrite !Z.compare_le_iff; lia]. Qed.

#[export] Instance Ascii_compare_total : TotalCmp Ascii.compare.
Proof.
  unfold Ascii.compare. split; [intros; by rewrite N.compare_antisym|].
  intros x y z. rewrite !N.compare_le_iff. lia.
Qed.

Lemma string_compare_cons a s b t :
  String.compare (String a s) (String b t) = match Ascii.compare a b with Eq => String.compare s t | c => c end.
Proof. done. Qed.

#[export] Instance String_compare_total : TotalCmp String.compare.
Proof.
  split.
  - intros x. induction x as [|a x IH]; intros [|b y]; try done.
    rewrite !string_compare_cons, (cmp_antisym (cmp := Ascii.compare) a b), (IH y).
    by destruct (Ascii.compare a b).
  - intros x. induction x as [|a x IH]; intros [|b y] [|c z]; try done.
    rewrite !string_compare_cons.
    destruct (Ascii.compare a b) eqn:E1; [|destruct (Ascii.compare b c) eqn:E2|done].
    + rewrite (cmp_eq_l Ascii.compare a b c E1). destruct (Ascii.compare b c); [|done..]. apply IH.
    + intros _ _. pose proof (cmp_antisym (cmp := Ascii.compare) b c) as Hz. rewrite E2 in Hz. cbn in Hz.
      pose proof (cmp_eq_l Ascii.compare c b a Hz) as Hzx.
      rewrite (cmp_antisym (cmp := Ascii.compare) a b), E1 in Hzx.
      rewrite (cmp_antisym (cmp := Ascii.compare) c a), Hzx. done.
    + intros _ _. pose proof (cmp_trans (cmp := Ascii.compare) a b c) as Ht. rewrite E1, E2 in Ht.
      destruct (Ascii.compare a c) eqn:E3; [|done|naive_solver].
      exfalso. rewrite (cmp_eq_l Ascii.compare a c b E3) in E1.
      rewrite (cmp_antisym (cmp := Ascii.compare) b c), E2 in E1. done.
    + done.
Qed.

(** The order of [sort.Strings]: by bytes. *)
Definition string_less (a b : string) : bool := match String.compare a b with Lt => true | _ => false end.

Lemma string_less_cmp x y : string_less x y = cmp_less String.compare x y.
Proof. done. Qed.

Lemma sort_strings_unique l1 l2 : l1 ≡ₚ l2 -> go_sort string_less l1 = go_sort string_less l2.
Proof.
  apply (go_sort_unique String.compare); [exact string_less_cmp|].
  intros x y _ _. apply String.compare_eq_iff.
Qed.

Lemma sort_strings_sorted l : StronglySorted (not_less string_less) (go_sort string_less l).
Proof. apply (go_sort_ordered String.compare), string_less_cmp. Qed.
