(* ===== verification/GoLib.v ===== *)
(** * The parts of Go's standard library the code relies on

  Errors with [%w] wrapping and [errors.Is]; [strings], [strconv]; a file
  system whose every call may fail.  Strings are byte strings; [ToLower] and
  white space are those of ASCII text. *)

From S2P Require Import Prelude.
From Stdlib Require Export Strings.Ascii Strings.String.
From stdpp Require Export pretty.

(** ** Errors *)

(** [errors.New] / [fmt.Errorf] without [%w], and [fmt.Errorf("msg: %w", inner)]. *)
Inductive error : Type :=
| ErrNew (msg : string)
| ErrWrap (msg : string) (inner : error).

#[export] Instance error_eq_dec : EqDecision error.
Proof. solve_decision. Defined.

Fixpoint errors_Is (e target : error) : bool :=
  bool_decide (e = target)
  || match e with ErrNew _ => false | ErrWrap _ i => errors_Is i target end.

Fixpoint Error (e : error) : string :=
  match e with
  | ErrNew msg => msg
  | ErrWrap msg i => msg +:+ ": " +:+ Error i
  end.

Lemma errors_Is_refl e : errors_Is e e = true.
Proof. by destruct e; cbn; rewrite bool_decide_true. Qed.

Lemma errors_Is_wrap msg e target : errors_Is e target = true -> errors_Is (ErrWrap msg e) target = true.
Proof. intros H. cbn. rewrite H. apply orb_true_r. Qed.

#[export] Hint Resolve errors_Is_refl errors_Is_wrap : d2ip.

(** ** [strings] *)

Definition code (c : ascii) : Z := Z.of_N (N_of_ascii c).

Definition is_space (c : ascii) : bool := ((9 <=? code c) && (code c <=? 13) || (code c =? 32))%Z.
Definition is_digit (c : ascii) : bool := ((48 <=? code c) && (code c <=? 57))%Z.
Definition digit_val (c : ascii) : Z := (code c - 48)%Z.

Fixpoint trimLeft (s : string) : string :=
  match s with
  | EmptyString => EmptyString
  | String c s' => if is_space c then trimLeft s' else s
  end.

Fixpoint trimRight (s : string) : string :=
  match s with
  | EmptyString => EmptyString
  | String c s' =>
      let t := trimRight s' in
      match t with
      | EmptyString => if is_space c then EmptyString else String c EmptyString
      | String _ _ => String c t
      end
  end.

Definition TrimSpace (s : string) : string := trimRight (trimLeft s).

(** The pieces of [s] between the characters that satisfy [sep]. *)
Fixpoint split_at (sep : ascii -> bool) (s : string) : list string :=
  match s with
  | EmptyString => [EmptyString]
  | String c s' =>
      if sep c then EmptyString :: split_at sep s'
      else match split_at sep s' with
           | [] => [String c EmptyString]
           | w :: ws => String c w :: ws
           end
  end.

Definition Split (s : string) (sep : ascii) : list string := split_at (Ascii.eqb sep) s.

Definition Fields (s : string) : list string :=
  List.filter (fun w => negb (String.eqb w EmptyString)) (split_at is_space s).

Fixpoint Join (elems : list string) (sep : string) : string :=
  match elems with
  | [] => EmptyString
  | [w] => w
  | w :: ws => w +:+ sep +:+ Join ws sep
  end.

Definition HasPrefix (s p : string) : bool := String.prefix p s.
Fixpoint str_drop (n : nat) (s : string) : string :=
  match n, s with
  | S n', String _ s' => str_drop n' s'
  | _, _ => s
  end.
Definition str_take (n : nat) (s : string) : string := String.substring 0 n s.
Definition TrimPrefix (s p : string) : string :=
  if HasPrefix s p then str_drop (String.length p) s else s.
Definition HasSuffix (s p : string) : bool :=
  Nat.leb (String.length p) (String.length s)
  && String.eqb (str_drop (String.length s - String.length p) s) p.
Definition TrimSuffix (s p : string) : string :=
  if HasSuffix s p then str_take (String.length s - String.length p) s else s.
(** [strings.ReplaceAll] for a text [old] that is not empty: [skip] characters of a match
    are still to be left out. *)
Fixpoint replace_from (old new : string) (skip : nat) (s : string) : string :=
  match s with
  | EmptyString => EmptyString
  | String c s' =>
      match skip with
      | S k => replace_from old new k s'
      | O =>
          if HasPrefix s old then new +:+ replace_from old new (String.length old - 1) s'
          else String c (replace_from old new 0 s')
      end
  end.
Definition ReplaceAll (s old new : string) : string := replace_from old new 0 s.
Definition Index (s sub : string) : option nat := String.index 0 sub s.
Definition StrContains (s sub : string) : bool :=
  match Index s sub with Some _ => true | None => false end.

Definition lower (c : ascii) : ascii :=
  if ((65 <=? code c) && (code c <=? 90))%Z then ascii_of_N (N_of_ascii c + 32) else c.
Definition upper (c : ascii) : ascii :=
  if ((97 <=? code c) && (code c <=? 122))%Z then ascii_of_N (N_of_ascii c - 32) else c.
Fixpoint str_map (f : ascii -> ascii) (s : string) : string :=
  match s with EmptyString => EmptyString | String c s' => String (f c) (str_map f s') end.
Definition ToLower (s : string) : string := str_map lower s.
Definition ToUpper (s : string) : string := str_map upper s.

Fixpoint str_forallb (f : ascii -> bool) (s : string) : bool :=
  match s with EmptyString => true | String c s' => f c && str_forallb f s' end.
Definition str_existsb (f : ascii -> bool) (s : string) : bool :=
  negb (str_forallb (fun c => negb (f c)) s).

(** [s[:i]] and [s[i+1:]] at the first byte that satisfies [f]. *)
Fixpoint cut_at (f : ascii -> bool) (s : string) : option (string * string) :=
  match s with
  | EmptyString => None
  | String c s' =>
      if f c then Some (EmptyString, s')
      else match cut_at f s' with
           | Some (a, b) => Some (String c a, b)
           | None => None
           end
  end.

(** The same at the last such byte. *)
Fixpoint cut_last (f : ascii -> bool) (s : string) : option (string * string) :=
  match s with
  | EmptyString => None
  | String c s' =>
      match cut_last f s' with
      | Some (a, b) => Some (String c a, b)
      | None => if f c then Some (EmptyString, s') else None
      end
  end.

(** ** [strconv] *)

Fixpoint digits_val (s : string) (acc : Z) : option Z :=
  match s with
  | EmptyString => Some acc
  | String c s' => if is_digit c then digits_val s' (acc * 10 + digit_val c)%Z else None
  end.

Definition in_int64 (n : Z) : bool := ((- 2 ^ 63 <=? n) && (n <? 2 ^ 63))%Z.

(** [strconv.Atoi] / [ParseInt(s, 10, 64)]: an optional sign, then digits. *)
Definition Atoi (s : string) : option Z :=
  let '(neg, body) :=
    match s with
    | String c s' =>
        if Ascii.eqb c "-" then (true, s') else if Ascii.eqb c "+" then (false, s') else (false, s)
    | EmptyString => (false, s)
    end in
  if String.eqb body EmptyString then None else
  match digits_val body 0 with
  | Some n =>
      let n := if neg : bool then (- n)%Z else n in
      if in_int64 n then Some n else None
  | None => None
  end.

Definition Itoa (n : Z) : string := pretty n.

(** A [switch] on string constants. *)
Definition one_of (s : string) (l : list string) : bool := existsb (String.eqb s) l.

(** ** Lemmas on strings *)

Lemma str_app_nil_r (s : string) : s +:+ EmptyString = s.
Proof. induction s as [|c s IH]; [done|]. change (String c (s +:+ "") = String c s). by rewrite IH. Qed.

Lemma str_app_assoc (s t u : string) : (s +:+ t) +:+ u = s +:+ (t +:+ u).
Proof. induction s as [|c s IH]; [done|]. change (String c ((s +:+ t) +:+ u) = String c (s +:+ (t +:+ u))).
  by rewrite IH. Qed.

Lemma str_app_cons c (s t : string) : String c s +:+ t = String c (s +:+ t).
Proof. done. Qed.

Lemma str_forallb_app f s t : str_forallb f (s +:+ t) = str_forallb f s && str_forallb f t.
Proof.
  induction s as [|c s IH]; [done|]. rewrite str_app_cons. cbn. by rewrite IH, andb_assoc.
Qed.

(** A separator free piece, then a separator. *)
Lemma split_at_app sep c s t :
  str_forallb (fun c => negb (sep c)) s = true -> sep c = true ->
  split_at sep (s +:+ String c t) = s :: split_at sep t.
Proof.
  intros Hs Hc. induction s as [|d s IH].
  - change (EmptyString +:+ String c t) with (String c t). cbn. by rewrite Hc.
  - cbn in Hs. bool_hyps. rewrite str_app_cons. cbn. by rewrite H, IH.
Qed.

Lemma split_at_none sep s :
  str_forallb (fun c => negb (sep c)) s = true -> split_at sep s = [s].
Proof.
  induction s as [|d s IH]; cbn; [done|]. intros. bool_hyps. by rewrite H, IH.
Qed.

(** Splitting at a one-byte separator undoes joining with it. *)
Lemma Split_Join (l : list string) (c : ascii) :
  l <> [] -> Forall (fun s => str_forallb (fun d => negb (Ascii.eqb c d)) s = true) l ->
  Split (Join l (String c EmptyString)) c = l.
Proof.
  intros Hne Hl. induction Hl as [|s l Hs Hl IH]; [done|].
  destruct l as [|t l]; [by apply split_at_none|].
  change (Join (s :: t :: l) (String c "")) with (s +:+ String c (Join (t :: l) (String c ""))).
  unfold Split in *. rewrite split_at_app by (done || apply Ascii.eqb_refl). by rewrite IH.
Qed.

Lemma cut_last_none f s :
  str_forallb (fun c => negb (f c)) s = true -> cut_last f s = None.
Proof.
  induction s as [|d s IH]; cbn; [done|]. intros. bool_hyps. by rewrite IH, H.
Qed.

Lemma cut_last_app f s c t :
  f c = true -> str_forallb (fun c => negb (f c)) t = true ->
  cut_last f (s +:+ String c t) = Some (s, t).
Proof.
  intros Hc Ht. induction s as [|d s IH].
  - change (EmptyString +:+ String c t) with (String c t). cbn. by rewrite cut_last_none, Hc.
  - rewrite str_app_cons. cbn [cut_last]. by rewrite IH.
Qed.

Lemma str_forallb_impl (f g : ascii -> bool) s :
  (forall c, f c = true -> g c = true) -> str_forallb f s = true -> str_forallb g s = true.
Proof. intros Hfg. induction s as [|c s IH]; cbn; [done|]. intros. bool_hyps. by rewrite Hfg, IH. Qed.

Lemma cut_at_app f s c t :
  str_forallb (fun c => negb (f c)) s = true -> f c = true -> cut_at f (s +:+ String c t) = Some (s, t).
Proof.
  intros Hs Hc. induction s as [|d s IH].
  - change (EmptyString +:+ String c t) with (String c t). cbn. by rewrite Hc.
  - cbn in Hs. bool_hyps. rewrite str_app_cons. cbn. by rewrite H, IH.
Qed.

Lemma cut_at_none f s : str_forallb (fun c => negb (f c)) s = true -> cut_at f s = None.
Proof. induction s as [|d s IH]; cbn; [done|]. intros. bool_hyps. by rewrite H, IH. Qed.

Lemma str_length_app s t : String.length (s +:+ t) = (String.length s + String.length t)%nat.
Proof. induction s as [|c s IH]; [done|]. rewrite str_app_cons. cbn. by rewrite IH. Qed.

(** ** Searching and trimming *)

Lemma index_char c a b :
  str_forallb (fun d => negb (Ascii.eqb c d)) a = true ->
  Index (a +:+ String c b) (String c EmptyString) = Some (String.length a).
Proof.
  unfold Index. induction a as [|d a IH].
  - intros _. change (EmptyString +:+ String c b) with (String c b). cbn.
    destruct (ascii_dec c c); [|done]. by destruct b.
  - cbn [str_forallb]. intros. bool_hyps. rewrite str_app_cons. cbn.
    destruct (ascii_dec c d) as [->|_]; [by rewrite Ascii.eqb_refl in H|].
    by rewrite IH.
Qed.

Lemma substring_app a b c :
  String.substring (String.length a) (String.length b) (a +:+ (b +:+ c)) = b.
Proof.
  induction a as [|d a IH].
  - change (EmptyString +:+ (b +:+ c)) with (b +:+ c). cbn [String.length].
    induction b as [|e b IHb]; [by destruct (EmptyString +:+ c)|].
    rewrite str_app_cons. cbn. by rewrite IHb.
  - rewrite str_app_cons. cbn. apply IH.
Qed.

(** Text without white space. *)
Definition word (s : string) : bool := str_forallb (fun c => negb (is_space c)) s && negb (String.eqb s EmptyString).

Lemma trimRight_word s : word s = true -> trimRight s = s.
Proof.
  unfold word. intros [Hs _]%andb_true_iff. induction s as [|c s IH]; [done|].
  cbn in *. bool_hyps. rewrite IH by done. by destruct s; rewrite ?H.
Qed.

Lemma trimRight_app s t : trimRight t = EmptyString -> trimRight (s +:+ t) = trimRight s.
Proof.
  intros Ht. induction s as [|c s IH]; [done|]. rewrite str_app_cons. cbn. by rewrite IH.
Qed.

Lemma trimRight_app_ne s t : trimRight t <> EmptyString -> trimRight (s +:+ t) = s +:+ trimRight t.
Proof.
  intros Ht. induction s as [|c s IH]; [done|]. rewrite !str_app_cons. cbn. rewrite IH.
  destruct (s +:+ trimRight t) eqn:E; [|done]. destruct s; [|done]. by destruct (Ht E).
Qed.

Lemma trimLeft_word s t : word s = true -> trimLeft (s +:+ t) = s +:+ t.
Proof.
  unfold word. destruct s as [|c s]; [done|]. rewrite str_app_cons. cbn.
  intros [[Hc _]%andb_true_iff _]%andb_true_iff. apply negb_true_iff in Hc. by rewrite Hc.
Qed.

Lemma TrimSpace_word s : word s = true -> TrimSpace s = s.
Proof.
  intros Hs. unfold TrimSpace. rewrite <- (str_app_nil_r s) at 1. rewrite trimLeft_word, str_app_nil_r by done.
  by apply trimRight_word.
Qed.

Lemma TrimSpace_pad s post :
  word s = true -> trimRight post = EmptyString -> TrimSpace (String " " (s +:+ post)) = s.
Proof.
  intros Hs Hp. unfold TrimSpace. change (trimLeft (String " " (s +:+ post))) with (trimLeft (s +:+ post)).
  rewrite trimLeft_word, trimRight_app by done. by apply trimRight_word.
Qed.

(** The first field of a line that starts with a word. *)
Lemma Fields_head s t :
  word s = true -> exists l, Fields (TrimSpace (s +:+ String " " t)) = s :: l.
Proof.
  intros Hs. unfold TrimSpace. rewrite trimLeft_word by done.
  assert (str_forallb (fun c => negb (is_space c)) s = true /\ String.eqb s EmptyString = false) as [Hw Hn]
    by (unfold word in Hs; by bool_hyps).
  unfold Fields. destruct (decide (trimRight (String " " t) = EmptyString)) as [He|He].
  - rewrite trimRight_app, trimRight_word by done. rewrite split_at_none by done. cbn. rewrite Hn. by exists [].
  - rewrite trimRight_app_ne by done.
    assert (exists u, trimRight (String " " t) = String " " u) as [u ->].
    { cbn in *. destruct (trimRight t); [done|]. eauto. }
    rewrite split_at_app by done. cbn [List.filter]. rewrite Hn. cbn. eauto.
Qed.

Lemma str_forallb_drop f n s : str_forallb f s = true -> str_forallb f (str_drop n s) = true.
Proof.
  revert s. induction n as [|n IH]; intros [|c s]; cbn; try done. intros. bool_hyps. auto.
Qed.

Lemma HasSuffix_char c s :
  str_forallb (fun d => negb (Ascii.eqb c d)) s = true -> HasSuffix s (String c EmptyString) = false.
Proof.
  intros Hs. unfold HasSuffix. destruct (Nat.leb _ _); [|done]. cbn [andb].
  apply String.eqb_neq. intros E. pose proof (str_forallb_drop _ (String.length s - 1) s Hs) as Hd.
  cbn [String.length] in E. rewrite E in Hd. cbn in Hd. by rewrite Ascii.eqb_refl in Hd.
Qed.

Lemma str_drop_app s t n : str_drop (String.length s + n) (s +:+ t) = str_drop n t.
Proof. induction s as [|c s IH]; [done|]. by rewrite str_app_cons. Qed.

Lemma prefix_app (p s : string) : HasPrefix (p +:+ s) p = true.
Proof. unfold HasPrefix. induction p as [|c p IH]; [by destruct s|]. rewrite str_app_cons. cbn. by destruct (ascii_dec c c). Qed.

Lemma TrimPrefix_app (p s : string) : TrimPrefix (p +:+ s) p = s.
Proof. unfold TrimPrefix. rewrite prefix_app, <- (Nat.add_0_r (String.length p)). by rewrite str_drop_app. Qed.

Lemma HasSuffix_app s t suf :
  (String.length suf <= String.length t)%nat -> HasSuffix (s +:+ t) suf = HasSuffix t suf.
Proof.
  intros Hl. unfold HasSuffix. rewrite str_length_app.
  rewrite !(proj2 (Nat.leb_le _ _)) by lia. cbn [andb].
  replace (String.length s + String.length t - String.length suf)%nat
    with (String.length s + (String.length t - String.length suf))%nat by lia.
  by rewrite str_drop_app.
Qed.

Lemma TrimSuffix_app s suf : TrimSuffix (s +:+ suf) suf = s.
Proof.
  unfold TrimSuffix. rewrite HasSuffix_app by lia. unfold HasSuffix.
  rewrite Nat.leb_refl, Nat.sub_diag. cbn [str_drop andb]. rewrite String.eqb_refl.
  rewrite str_length_app, Nat.add_sub. unfold str_take.
  induction s as [|c s IH]; [by destruct suf|]. rewrite str_app_cons. cbn. by rewrite IH.
Qed.

(** ** [bufio] *)

(** [bufio.Scanner] with [ScanLines]: the lines, and whether one is too long. *)
Definition chomp (line : string) : string := TrimSuffix line (String (ascii_of_nat 13) "").

Fixpoint scan_lines (raws : list string) : list string * bool :=
  match raws with
  | [] => ([], false)
  | [last] =>
      if (65536 <=? Z.of_nat (String.length last))%Z then ([], true)
      else if String.eqb last "" then ([], false) else ([chomp last], false)
  | line :: raws' =>
      if (65536 <=? Z.of_nat (String.length line))%Z then ([], true)
      else let '(ls, bad) := scan_lines raws' in (chomp line :: ls, bad)
  end.

Definition ErrTooLong : error := ErrNew "bufio.Scanner: token too long".

(** Lines terminated by a newline, and what reading them back gives. *)
Definition lines_text (lines : list string) : string :=
  foldr (fun l acc => l +:+ String (ascii_of_nat 10) acc) "" lines.

Definition plain_char (c : ascii) : bool :=
  negb (Ascii.eqb (ascii_of_nat 10) c) && negb (Ascii.eqb (ascii_of_nat 13) c).

Definition plain_line (l : string) : Prop :=
  str_forallb plain_char l = true /\ (Z.of_nat (String.length l) < 65536)%Z.

#[export] Instance plain_line_dec l : Decision (plain_line l).
Proof. unfold plain_line. apply _. Defined.

Lemma split_at_nonempty f s : split_at f s <> [].
Proof. destruct s as [|c s]; cbn; [done|]. destruct (f c); [done|]. by destruct (split_at f s). Qed.

Lemma scan_lines_text lines :
  Forall plain_line lines -> scan_lines (Split (lines_text lines) (ascii_of_nat 10)) = (lines, false).
Proof.
  unfold Split. induction 1 as [|l lines [Hp Hl] _ IH]; [done|].
  change (lines_text (l :: lines)) with (l +:+ String (ascii_of_nat 10) (lines_text lines)).
  rewrite split_at_app; [|by apply (str_forallb_impl plain_char); [intros c [? _]%andb_true_iff|]|done].
  assert (HasSuffix l (String (ascii_of_nat 13) "") = false) as Hcr.
  { apply HasSuffix_char. by apply (str_forallb_impl plain_char); [intros c [_ ?]%andb_true_iff|]. }
  pose proof (split_at_nonempty (Ascii.eqb (ascii_of_nat 10)) (lines_text lines)) as Hne.
  destruct (split_at _ (lines_text lines)) as [|s ss] eqn:Es; [done|].
  cbn [scan_lines]. assert ((65536 <=? Z.of_nat (String.length l))%Z = false) as -> by (apply Z.leb_gt; lia).
  cbn [scan_lines] in IH. rewrite IH. unfold chomp, TrimSuffix. by rewrite Hcr.
Qed.
