(* ===== verification/Os.v ===== *)
(** * The operating system the program runs on

  A world of files, a kernel and a clock.  Every system call may fail: which
  ones do, what a failed write leaves behind and what a command prints are the
  environment's choice, an instance of [Env] that the theorems quantify over. *)

From S2P Require Import Prelude GoLib.

(** ** The world and the monad of operations *)

Record World (K : Type) := MkWorld {
  w_files : gmap string string;
  w_kern : K;
  w_calls : nat
}.
Arguments MkWorld {K}.
Arguments w_files {K}.
Arguments w_kern {K}.
Arguments w_calls {K}.

Class Env (K : Type) := {
  (** the failure of the [n]-th system call *)
  fault : nat -> option string;
  (** what a failed write of [data] leaves of the file *)
  torn : nat -> option string -> string -> option string;
  (** a command with its standard input: its error if it fails, stdout, stderr *)
  exec : list string -> string -> K -> option string * string * string * K;
  look_path : string -> K -> bool;
  clock : nat -> Z
}.

Definition IO (K A : Type) : Type := World K -> res error A * World K.

#[export] Instance io_ret K : MRet (IO K) := fun A a w => (Ok a, w).
#[export] Instance io_bind K : MBind (IO K) := fun A B f m w =>
  match m w with
  | (Ok a, w') => f a w'
  | (Err e, w') => (Err e, w')
  end.

Definition io_err {K A} (e : error) : IO K A := fun w => (Err e, w).

(** [v, err := m]: the error as a value. *)
Definition io_try {K A} (m : IO K A) : IO K (res error A) := fun w =>
  let '(r, w') := m w in (Ok r, w').

(** [if err := m; err != nil { return fmt.Errorf("msg: %w", err) }]. *)
Definition io_wrap {K A} (msg : string) (m : IO K A) : IO K A := fun w =>
  match m w with
  | (Ok a, w') => (Ok a, w')
  | (Err e, w') => (Err (ErrWrap msg e), w')
  end.

Definition io_fun {K A} (f : World K -> res error A * World K) : IO K A := f.

Definition io_lift {K A} (r : res error A) : IO K A := fun w => (r, w).

Section Os.
Context {K : Type} `{Env K}.
Local Notation IO := (IO K).

Definition ErrNotExist : error := ErrNew "file does not exist".

Definition tick (w : World K) : World K := MkWorld (w_files w) (w_kern w) (S (w_calls w)).
Definition set_files (m : gmap string string) (w : World K) : World K :=
  MkWorld m (w_kern w) (w_calls w).
Definition set_file (path : string) (v : option string) (w : World K) : World K :=
  set_files (partial_alter (fun _ => v) path (w_files w)) w.

(** A system call that changes no file. *)
Definition syscall : IO unit := fun w =>
  (match fault (w_calls w) with Some e => Err (ErrNew e) | None => Ok tt end, tick w).

Definition MkdirAll (path : string) : IO unit := syscall.
Definition Chmod (path : string) : IO unit := syscall.
Definition Sync (path : string) : IO unit := syscall.

Definition ReadFile (path : string) : IO string :=
  syscall;; io_fun (fun w =>
    match w_files w !! path with
    | Some b => (Ok b, w)
    | None => (Err ErrNotExist, w)
    end).

Definition WriteFile (path data : string) : IO unit := fun w =>
  let n := w_calls w in
  match fault n with
  | Some e => (Err (ErrNew e), set_file path (torn n (w_files w !! path) data) (tick w))
  | None => (Ok tt, set_file path (Some data) (tick w))
  end.

Definition Remove (path : string) : IO unit :=
  syscall;; io_fun (fun w =>
    match w_files w !! path with
    | Some _ => (Ok tt, set_file path None w)
    | None => (Err ErrNotExist, w)
    end).

(** The rename of POSIX: the target is replaced in one step or not at all. *)
Definition Rename (old new : string) : IO unit :=
  syscall;; io_fun (fun w =>
    match w_files w !! old with
    | Some b => (Ok tt, set_file new (Some b) (set_file old None w))
    | None => (Err ErrNotExist, w)
    end).

Definition Now : IO Z := fun w => (Ok (clock (w_calls w)), tick w).

(** [exec.CommandContext(...).Run()]: stdout and stderr are returned also when
    the command fails. *)
Definition Exec (argv : list string) (stdin : string) : IO (option string * string * string) :=
  fun w =>
    let '(e, out, errb, k) := exec argv stdin (w_kern w) in
    (Ok (e, out, errb), MkWorld (w_files w) k (S (w_calls w))).

Definition Run (argv : list string) : IO unit :=
  '(e, _, _) ← Exec argv "";
  match e with Some m => io_err (ErrNew m) | None => mret tt end.

Definition LookPath (bin : string) : IO unit := fun w =>
  if look_path bin (w_kern w) then (Ok tt, w)
  else (Err (ErrNew "executable file not found in $PATH"), w).

(** [filepath.Join] of two clean elements. *)
Definition path_join (a b : string) : string := a +:+ "/" +:+ b.
End Os.

#[export] Hint Unfold mret mbind io_ret io_bind io_err io_try io_wrap io_lift io_fun : d2ip.

(** Run the monad on the surface of a goal or hypothesis. *)
Ltac io_unfold :=
  unfold mret, mbind, io_ret, io_bind, io_err, io_try, io_wrap, io_lift, io_fun in *; cbn beta iota in *.

(** ** Frames: what an operation may change *)

Section Frame.
Context {K : Type} `{Env K}.

(** Only the files of [X] change. *)
Definition touches {A} (X : gset string) (m : IO K A) : Prop :=
  forall w r w', m w = (r, w') ->
    (forall p, p ∉ X -> w_files w' !! p = w_files w !! p).

Lemma lookup_set_file p q v (w : World K) :
  w_files (set_file p v w) !! q = if decide (p = q) then v else w_files w !! q.
Proof.
  unfold set_file, set_files; cbn [w_files]. destruct (decide (p = q)) as [<-|Hne].
  - by rewrite lookup_partial_alter_eq.
  - by rewrite lookup_partial_alter_ne.
Qed.

Lemma touches_mono {A} X Y (m : IO K A) : touches X m -> X ⊆ Y -> touches Y m.
Proof. intros Hm HXY w r w' E p Hp. eapply Hm; [done|set_solver]. Qed.

Lemma touches_bind {A B} X (m : IO K A) (f : A -> IO K B) :
  touches X m -> (forall a, touches X (f a)) -> touches X (m ≫= f).
Proof.
  intros Hm Hf w r w' E p Hp. unfold mbind, io_bind in E.
  destruct (m w) as [[a|e] w1] eqn:E1.
  - rewrite (Hf a w1 r w' E p Hp). eauto.
  - injection E as <- <-. eauto.
Qed.

Lemma touches_wrap {A} X msg (m : IO K A) : touches X m -> touches X (io_wrap msg m).
Proof. intros Hm w r w' E. unfold io_wrap in E. destruct (m w) as [[] ] eqn:E1; injection E as <- <-; eauto. Qed.

Lemma touches_try {A} X (m : IO K A) : touches X m -> touches X (io_try m).
Proof. intros Hm w r w' E. unfold io_try in E. destruct (m w) as [? ?] eqn:E1; injection E as <- <-; eauto. Qed.

Lemma touches_ret {A} X (a : A) : touches X (mret a : IO K A).
Proof. by intros w r w' [= <- <-]. Qed.
Lemma touches_err {A} X e : touches X (io_err e : IO K A).
Proof. by intros w r w' [= <- <-]. Qed.
Lemma touches_lift {A} X (r : res error A) : touches X (io_lift r : IO K A).
Proof. by intros w r' w' [= <- <-]. Qed.

Lemma touches_syscall X : touches X (syscall : IO K unit).
Proof. by intros w r w' [= <- <-]. Qed.
Lemma touches_Now X : touches X (Now : IO K Z).
Proof. by intros w r w' [= <- <-]. Qed.
Lemma touches_Exec X argv stdin : touches X (Exec argv stdin : IO K _).
Proof. intros w r w'. unfold Exec. destruct (exec _ _ _) as [[[]]]. by intros [= <- <-]. Qed.
Lemma touches_LookPath X bin : touches X (LookPath bin : IO K unit).
Proof. intros w r w'. unfold LookPath. by destruct (look_path _ _); intros [= <- <-]. Qed.

Lemma touches_Run X argv : touches X (Run argv : IO K unit).
Proof.
  apply touches_bind; [apply touches_Exec|]. intros [[[]] ?]; [apply touches_err|apply touches_ret].
Qed.

Lemma touches_ReadFile X path : touches X (ReadFile path : IO K string).
Proof.
  apply touches_bind; [apply touches_syscall|]. intros _ w r w'. unfold io_fun.
  by destruct (w_files w !! path); intros [= <- <-].
Qed.

Lemma touches_WriteFile path data : touches {[path]} (WriteFile path data : IO K unit).
Proof.
  intros w r w'. unfold WriteFile. intros E p Hp.
  destruct (fault (w_calls w)); injection E as <- <-; rewrite lookup_set_file;
    (destruct (decide (path = p)); [set_solver|done]).
Qed.

Lemma touches_Remove path : touches {[path]} (Remove path : IO K unit).
Proof.
  apply touches_bind; [apply touches_syscall|]. intros _ w r w' E p Hp. unfold io_fun in E.
  destruct (w_files w !! path); injection E as <- <-; [|done].
  rewrite lookup_set_file. destruct (decide (path = p)); [set_solver|done].
Qed.

Lemma touches_Rename old new : touches {[old; new]} (Rename old new : IO K unit).
Proof.
  apply touches_bind; [apply touches_syscall|]. intros _ w r w' E p Hp. unfold io_fun in E.
  destruct (w_files w !! old); injection E as <- <-; [|done].
  rewrite !lookup_set_file. destruct (decide (new = p)), (decide (old = p)); set_solver.
Qed.
End Frame.

#[export] Hint Resolve touches_ret touches_err touches_lift touches_syscall touches_Now touches_Exec
  touches_Run touches_LookPath touches_ReadFile touches_WriteFile touches_Remove touches_Rename
  touches_wrap touches_try touches_bind : d2ip.

(** ** Relations between the world before and after *)

Section Respects.
Context {K : Type} (R : relation (World K)) `{!PreOrder R}.

(** Whatever [m] answers, [R] holds of the worlds. *)
Definition respects {A} (m : IO K A) : Prop := forall w r w', m w = (r, w') -> R w w'.

Lemma respects_bind {A B} (m : IO K A) (f : A -> IO K B) :
  respects m -> (forall a, respects (f a)) -> respects (m ≫= f).
Proof.
  intros Hm Hf w r w'. unfold mbind, io_bind. destruct (m w) as [[a|e] w1] eqn:E1.
  - intros E. etrans; [by eapply Hm|by eapply Hf].
  - intros [= <- <-]. by eapply Hm.
Qed.
Lemma respects_wrap {A} msg (m : IO K A) : respects m -> respects (io_wrap msg m).
Proof. intros Hm w r w'. unfold io_wrap. destruct (m w) as [[a|e] w1] eqn:E; intros [= <- <-]; by eapply Hm. Qed.
Lemma respects_try {A} (m : IO K A) : respects m -> respects (io_try m).
Proof. intros Hm w r w'. unfold io_try. destruct (m w) as [x w1] eqn:E. intros [= <- <-]. by eapply Hm. Qed.
Lemma respects_ret {A} (a : A) : respects (mret a).
Proof. by intros w r w' [= <- <-]. Qed.
Lemma respects_err {A} e : respects (io_err e : IO K A).
Proof. by intros w r w' [= <- <-]. Qed.
Lemma respects_lift {A} (r : res error A) : respects (io_lift r).
Proof. by intros w r' w' [= <- <-]. Qed.

(** A system call that only counts. *)
Context `{Env K} (R_tick : forall w, R w (tick w)).
Lemma respects_syscall : respects syscall.
Proof. intros w r w' [= <- <-]. apply R_tick. Qed.
Lemma respects_Now : respects Now.
Proof. intros w r w' [= <- <-]. apply R_tick. Qed.
End Respects.

(** Walk over a computation whose leaves are solved by [leaf]. *)
Ltac respects_walk leaf :=
  repeat first [ progress intros | solve [leaf] | solve [typeclasses eauto] | apply respects_ret | apply respects_err | apply respects_lift
               | apply respects_bind | apply respects_try | apply respects_wrap | case_match | case_if ].

(** Nothing but the counter of calls changes. *)
Definition same_state {K} (w w' : World K) : Prop := w_files w' = w_files w /\ w_kern w' = w_kern w.

#[export] Instance same_state_preorder {K} : PreOrder (@same_state K).
Proof. split; [done|]. intros w1 w2 w3 [? ?] [? ?]. split; congruence. Qed.

Definition reads_only {K A} (m : IO K A) : Prop := respects same_state m.

Section Reads.
Context {K : Type} `{Env K}.

Lemma reads_syscall : reads_only (syscall : IO K unit).
Proof. by apply respects_syscall. Qed.
Lemma reads_Now : reads_only (Now : IO K Z).
Proof. by apply respects_Now. Qed.
Lemma reads_ReadFile path : reads_only (ReadFile path : IO K string).
Proof.
  apply respects_bind; [apply _|apply reads_syscall|]. intros _ w r w'. unfold io_fun.
  by destruct (w_files w !! path); intros [= <- <-].
Qed.
End Reads.

(** ** Inversion of successful runs *)

Section Inversion.
Context {K : Type} `{Env K}.

Lemma io_bind_ok {A B} (m : IO K A) (f : A -> IO K B) w b w' :
  (m ≫= f) w = (Ok b, w') <-> exists a w1, m w = (Ok a, w1) /\ f a w1 = (Ok b, w').
Proof.
  unfold mbind, io_bind. destruct (m w) as [[a|e] w1]; split; naive_solver.
Qed.

Lemma io_bind_any {A B} (m : IO K A) (f : A -> IO K B) w r w' :
  (m ≫= f) w = (r, w') ->
  (exists a w1, m w = (Ok a, w1) /\ f a w1 = (r, w')) \/ (exists e, m w = (Err e, w') /\ r = Err e).
Proof. unfold mbind, io_bind. destruct (m w) as [[a|e] w1]; naive_solver. Qed.

Lemma io_wrap_ok {A} msg (m : IO K A) w a w' : io_wrap msg m w = (Ok a, w') -> m w = (Ok a, w').
Proof. unfold io_wrap. destruct (m w) as [[] ?]; naive_solver. Qed.

Lemma io_try_ok {A} (m : IO K A) w r w' : io_try m w = (Ok r, w') -> m w = (r, w').
Proof. unfold io_try. destruct (m w) as [? ?]; naive_solver. Qed.

Lemma io_try_run {A B} (m : IO K A) (f : res error A -> IO K B) w p :
  m w = p -> (io_try m ≫= f) w = f (fst p) (snd p).
Proof. intros <-. unfold mbind, io_bind, io_try. by destruct (m w). Qed.

Lemma io_ret_ok {A} (a b : A) (w w' : World K) : (mret a : IO K A) w = (Ok b, w') <-> a = b /\ w = w'.
Proof. unfold mret, io_ret. naive_solver. Qed.

(** A command: the kernel moves, the files stay. *)
Lemma Run_spec argv w r w' :
  Run argv w = (r, w') ->
  exists e out err k', exec argv "" (w_kern w) = (e, out, err, k')
    /\ w' = MkWorld (w_files w) k' (S (w_calls w))
    /\ r = match e with Some m => Err (ErrNew m) | None => Ok tt end.
Proof.
  unfold Run, mbind, io_bind, Exec. destruct (exec argv "" (w_kern w)) as [[[e out] err] k'] eqn:E.
  intros Hr. exists e, out, err, k'. split; [done|]. destruct e; by injection Hr as <- <-.
Qed.

Lemma ReadFile_ok path (w : World K) b w' :
  ReadFile path w = (Ok b, w') -> w_files w !! path = Some b /\ w' = tick w.
Proof.
  unfold ReadFile, mbind, io_bind, syscall, io_fun. destruct (fault (w_calls w)); [done|]. cbn.
  destruct (w_files w !! path) as [c|]; [|done]. intros [= <- <-]. done.
Qed.

(** Reading without a fault. *)
Lemma ReadFile_nofault path w :
  fault (w_calls w) = None ->
  ReadFile path w = (match w_files w !! path with Some b => Ok b | None => Err ErrNotExist end, tick w).
Proof.
  intros Hf. unfold ReadFile, mbind, io_bind, syscall, io_fun. rewrite Hf. cbn.
  by destruct (w_files w !! path).
Qed.

(** The kernel is left alone. *)
Definition files_only {A} (m : IO K A) : Prop :=
  forall w r w', m w = (r, w') -> w_kern w' = w_kern w.

Lemma files_only_bind {A B} (m : IO K A) (f : A -> IO K B) :
  files_only m -> (forall a, files_only (f a)) -> files_only (m ≫= f).
Proof.
  intros Hm Hf w r w' [(a & w1 & E1 & E2)|(e & E1 & ->)]%io_bind_any; [|eauto].
  rewrite (Hf a _ _ _ E2). eauto.
Qed.
Lemma files_only_ret {A} (a : A) : files_only (mret a : IO K A).
Proof. by intros w r w' [= <- <-]. Qed.
Lemma files_only_err {A} e : files_only (io_err e : IO K A).
Proof. by intros w r w' [= <- <-]. Qed.
Lemma files_only_syscall : files_only (syscall : IO K unit).
Proof. by intros w r w' [= <- <-]. Qed.
Lemma files_only_Now : files_only (Now : IO K Z).
Proof. by intros w r w' [= <- <-]. Qed.
Lemma files_only_wrap {A} msg (m : IO K A) : files_only m -> files_only (io_wrap msg m).
Proof. intros Hm w r w' E. unfold io_wrap in E. destruct (m w) as [[] ?] eqn:E1; injection E as <- <-; eauto. Qed.
Lemma files_only_try {A} (m : IO K A) : files_only m -> files_only (io_try m).
Proof. intros Hm w r w' E. unfold io_try in E. destruct (m w) as [? ?] eqn:E1; injection E as <- <-; eauto. Qed.
Lemma files_only_fun {A} (f : World K -> res error A * World K) :
  (forall w, w_kern (f w).2 = w_kern w) -> files_only (io_fun f).
Proof. intros Hf w r w' E. unfold io_fun in E. pose proof (Hf w) as Hw. by rewrite E in Hw. Qed.
Lemma files_only_ReadFile path : files_only (ReadFile path : IO K string).
Proof.
  apply files_only_bind; [apply files_only_syscall|]. intros _. apply files_only_fun.
  intros w. by destruct (w_files w !! path).
Qed.
Lemma files_only_WriteFile path data : files_only (WriteFile path data : IO K unit).
Proof. intros w r w'. unfold WriteFile. by destruct (fault _); intros [= <- <-]. Qed.
Lemma files_only_Remove path : files_only (Remove path : IO K unit).
Proof.
  apply files_only_bind; [apply files_only_syscall|]. intros _. apply files_only_fun.
  intros w. by destruct (w_files w !! path).
Qed.
Lemma files_only_Rename old new : files_only (Rename old new : IO K unit).
Proof.
  apply files_only_bind; [apply files_only_syscall|]. intros _. apply files_only_fun.
  intros w. by destruct (w_files w !! old).
Qed.
Lemma Rename_cases old new (w : World K) r w' :
  Rename old new w = (r, w') -> old <> new ->
  match r with
  | Ok _ => w_files w' !! new = w_files w !! old
  | Err _ => w_files w' = w_files w
  end.
Proof.
  intros E Hne. unfold Rename, mbind, io_bind, syscall, io_fun in E.
  destruct (fault (w_calls w)); [by injection E as <- <-|]. cbn in E.
  destruct (w_files w !! old) as [b|] eqn:Ef; injection E as <- <-; [|done].
  rewrite !lookup_set_file. by rewrite decide_True.
Qed.
End Inversion.

#[export] Hint Resolve files_only_ret files_only_err files_only_syscall files_only_Now
  files_only_wrap files_only_try files_only_bind files_only_ReadFile files_only_WriteFile
  files_only_Remove files_only_Rename : d2ip.
