(* ===== verification/Netip.v ===== *)
(** * Go's [net/netip]: addresses, prefixes and their byte forms

  The part of the standard library the program computes with: an address is a
  32-bit or a 128-bit number (with a zone for IPv6), a prefix an address and a
  length.  [As16] and the array operations of the program are byte lists; the
  bit lemmas at the end relate them to the numbers. *)

From S2P Require Import Prelude.

Local Open Scope Z_scope.

(** ** Addresses *)

Inductive Addr : Type :=
| AddrZero                          (** the zero [Addr], not valid *)
| Addr4 (u : Z)
| Addr6 (u : Z) (zone : string).

#[export] Instance Addr_eq_dec : EqDecision Addr.
Proof. solve_decision. Defined.

#[export] Instance Addr_countable : Countable Addr.
Proof.
  apply (inj_countable'
    (fun a => match a with
              | AddrZero => inl tt
              | Addr4 u => inr (inl u)
              | Addr6 u z => inr (inr (u, z))
              end)
    (fun s => match s with
              | inl _ => AddrZero
              | inr (inl u) => Addr4 u
              | inr (inr (u, z)) => Addr6 u z
              end)).
  by intros [].
Defined.

Definition IsValid (a : Addr) : bool :=
  match a with AddrZero => false | _ => true end.
Definition Is4 (a : Addr) : bool :=
  match a with Addr4 _ => true | _ => false end.
Definition Is6 (a : Addr) : bool :=
  match a with Addr6 _ _ => true | _ => false end.
Definition BitLen (a : Addr) : Z :=
  match a with AddrZero => 0 | Addr4 _ => 32 | Addr6 _ _ => 128 end.
Definition Zone (a : Addr) : string :=
  match a with Addr6 _ z => z | _ => "" end.
Definition withoutZone (a : Addr) : Addr :=
  match a with Addr6 u _ => Addr6 u "" | _ => a end.

(** IPv4-mapped IPv6: the 96 high bits are [::ffff]. *)
Definition Is4In6 (a : Addr) : bool :=
  match a with Addr6 u _ => Z.shiftr u 32 =? 0xffff | _ => false end.

(** The 128-bit field of the representation; IPv4 sits under [::ffff]. *)
Definition addr128 (a : Addr) : Z :=
  match a with
  | AddrZero => 0
  | Addr4 u => 0xffff * 2 ^ 32 + u
  | Addr6 u _ => u
  end.

(** The number of an address in its own family. *)
Definition addr_num (a : Addr) : Z :=
  match a with AddrZero => 0 | Addr4 u => u | Addr6 u _ => u end.

Definition addr_wf (a : Addr) : Prop := 0 <= addr_num a < 2 ^ BitLen a.

#[export] Instance addr_wf_dec a : Decision (addr_wf a).
Proof. unfold addr_wf. apply _. Defined.

(** [Addr.Compare]: bit length, then the 128 bits, then the IPv6 zone. *)
Definition string_cmp (s t : string) : comparison := String.compare s t.

Definition Compare (a b : Addr) : comparison :=
  match BitLen a ?= BitLen b with
  | Eq => match addr128 a ?= addr128 b with
          | Eq => if Is6 a then string_cmp (Zone a) (Zone b) else Eq
          | c => c
          end
  | c => c
  end.

(** ** Prefixes *)

(** [p_bits1] is [bits + 1]; 0 marks an invalid prefix. *)
Record Prefix : Type := MkPrefix { p_ip : Addr; p_bits1 : Z }.

#[export] Instance Prefix_eq_dec : EqDecision Prefix.
Proof. solve_decision. Defined.

#[export] Instance Prefix_countable : Countable Prefix.
Proof.
  apply (inj_countable' (fun p => (p_ip p, p_bits1 p)) (fun '(a, b) => MkPrefix a b)).
  by intros [].
Defined.

Definition zeroPrefix : Prefix := MkPrefix AddrZero 0.

Definition PrefixFrom (a : Addr) (bits : Z) : Prefix :=
  MkPrefix (withoutZone a)
    (if IsValid a && (0 <=? bits) && (bits <=? BitLen a) then bits + 1 else 0).

Definition PAddr (p : Prefix) : Addr := p_ip p.
Definition Bits (p : Prefix) : Z := p_bits1 p - 1.
Definition PIsValid (p : Prefix) : bool := 0 <? p_bits1 p.

(** Clear the [w - b] low bits of a [w]-bit number. *)
Definition mask_low (w b u : Z) : Z := Z.ldiff u (Z.ones (w - b)).

(** [Addr.Prefix]: the network of [a] with [b] bits, an error out of range. *)
Definition AddrPrefix (a : Addr) (b : Z) : option Prefix :=
  if b <? 0 then None else
  match a with
  | AddrZero => Some zeroPrefix
  | Addr4 u => if 32 <? b then None else Some (PrefixFrom (Addr4 (mask_low 32 b u)) b)
  | Addr6 u z => if 128 <? b then None else Some (PrefixFrom (Addr6 (mask_low 128 b u) z) b)
  end.

(** [Prefix.Masked] drops the error of [Addr.Prefix] with the zero prefix. *)
Definition Masked (p : Prefix) : Prefix := default zeroPrefix (AddrPrefix (p_ip p) (Bits p)).

(** [Prefix.Contains]: same family, no zone, same leading bits. *)
Definition Contains (p : Prefix) (a : Addr) : bool :=
  PIsValid p && bool_decide (Zone a = ""%string) && (BitLen (p_ip p) =? BitLen a)
  && IsValid a
  && (Z.shiftr (Z.lxor (addr_num (p_ip p)) (addr_num a)) (BitLen a - Bits p) =? 0).

(** ** Byte arrays *)

(** The [n] big-endian bytes of [u]. *)
Definition be_bytes (n : nat) (u : Z) : list Z :=
  map (fun i => Z.land (Z.shiftr u (8 * (Z.of_nat n - 1 - Z.of_nat i))) 255) (seq 0 n).

Definition be_val (bs : list Z) : Z := fold_left (fun acc b => acc * 256 + b) bs 0.

Definition As16 (a : Addr) : list Z := be_bytes 16 (addr128 a).
Definition AddrFrom4 (bs : list Z) : Addr := Addr4 (be_val bs).
Definition AddrFrom16 (bs : list Z) : Addr := Addr6 (be_val bs) "".

(** [bs[i]]; the program never indexes out of range. *)
Definition byte_at (bs : list Z) (i : Z) : Z := bs !!! Z.to_nat i.

(** ** Lemmas on prefixes *)

Lemma PrefixFrom_valid a b :
  IsValid a = true -> 0 <= b <= BitLen a ->
  PrefixFrom a b = MkPrefix (withoutZone a) (b + 1).
Proof.
  intros Ha Hb. unfold PrefixFrom. rewrite Ha.
  by rewrite !(proj2 (Z.leb_le _ _)) by lia.
Qed.

Lemma addr_num_withoutZone a : addr_num (withoutZone a) = addr_num a.
Proof. by destruct a. Qed.
Lemma BitLen_withoutZone a : BitLen (withoutZone a) = BitLen a.
Proof. by destruct a. Qed.
Lemma BitLen_nonneg a : 0 <= BitLen a.
Proof. by destruct a. Qed.

(** A number whose [k] low bits are zero covers exactly [2 ^ k] numbers. *)
Lemma shiftr_lxor_zero (b x k : Z) :
  0 <= k -> 0 <= b -> 0 <= x -> b mod 2 ^ k = 0 ->
  Z.shiftr (Z.lxor b x) k = 0 <-> b <= x < b + 2 ^ k.
Proof.
  intros Hk Hb Hx Hm.
  assert (0 < 2 ^ k) as Hp by (apply Z.pow_pos_nonneg; lia).
  rewrite Z.shiftr_lxor, Z.lxor_eq_0_iff, !Z.shiftr_div_pow2 by done.
  pose proof (Z.div_mod b (2 ^ k) ltac:(lia)) as Eb.
  pose proof (Z.div_mod x (2 ^ k) ltac:(lia)) as Ex.
  pose proof (Z.mod_pos_bound x (2 ^ k) Hp).
  split; intros H'; [rewrite H' in Eb; lia|].
  apply (Z.div_unique x (2 ^ k) (b / 2 ^ k) (x - b)); lia.
Qed.

(** The addresses a prefix built by [PrefixFrom] contains. *)
Lemma Contains_PrefixFrom (a x : Addr) (b : Z) :
  IsValid a = true -> addr_wf a -> addr_wf x -> 0 <= b <= BitLen a ->
  addr_num a mod 2 ^ (BitLen a - b) = 0 ->
  Contains (PrefixFrom a b) x = true <->
  BitLen x = BitLen a /\ Zone x = ""%string /\
  addr_num a <= addr_num x < addr_num a + 2 ^ (BitLen a - b).
Proof.
  intros Ha Hwa Hwx Hb Hm. rewrite PrefixFrom_valid by done.
  unfold Contains, PIsValid, Bits. cbn [p_ip p_bits1].
  rewrite addr_num_withoutZone, BitLen_withoutZone.
  rewrite !andb_true_iff, bool_decide_eq_true, Z.ltb_lt, !Z.eqb_eq.
  replace (b + 1 - 1) with b by lia. unfold addr_wf in *.
  split.
  - intros ((((_ & Hz) & Hl) & Hv) & Hs). split_and!; [done|done|..];
      rewrite <- Hl in Hs; apply shiftr_lxor_zero in Hs; lia.
  - intros (Hl & Hz & Hr). split_and!; [lia|done|done| |].
    + destruct x; [|done..]. destruct a; done.
    + rewrite Hl. apply shiftr_lxor_zero; lia.
Qed.

Lemma mask_low_id (w b u : Z) :
  0 <= b <= w -> u mod 2 ^ (w - b) = 0 -> mask_low w b u = u.
Proof.
  intros Hb Hm. unfold mask_low. rewrite Z.ldiff_ones_r by lia.
  rewrite Z.shiftr_div_pow2, Z.shiftl_mul_pow2 by lia.
  assert (0 < 2 ^ (w - b)) by (apply Z.pow_pos_nonneg; lia).
  pose proof (Z.div_mod u (2 ^ (w - b))). lia.
Qed.

Lemma Masked_PrefixFrom (a : Addr) (b : Z) :
  IsValid a = true -> 0 <= b <= BitLen a ->
  addr_num a mod 2 ^ (BitLen a - b) = 0 ->
  Masked (PrefixFrom a b) = PrefixFrom a b.
Proof.
  intros Ha Hb Hm. rewrite PrefixFrom_valid by done.
  unfold Masked, Bits. cbn [p_ip p_bits1]. replace (b + 1 - 1) with b by lia.
  unfold AddrPrefix. rewrite (proj2 (Z.ltb_ge _ _)) by lia.
  destruct a as [|u|u z]; cbn [withoutZone BitLen addr_num] in *; [done|..].
  all: rewrite (proj2 (Z.ltb_ge _ _)) by lia; cbn [default].
  all: by rewrite mask_low_id, PrefixFrom_valid by (done || cbn; lia).
Qed.

(** ** Lemmas on byte arrays *)

(** The bit the program reads: [(bytes[off + d/8] >> (7 - d%8)) & 1]. *)
Definition bit_at (bs : list Z) (off d : Z) : Z :=
  Z.land (Z.shiftr (byte_at bs (off + d / 8)) (7 - d mod 8)) 1.

(** The bit the program sets: [bytes[off + d/8] |= 1 << (7 - d%8)]. *)
Definition set_bit (bs : list Z) (off d : Z) : list Z :=
  <[Z.to_nat (off + d / 8) := Z.lor (byte_at bs (off + d / 8)) (Z.shiftl 1 (7 - d mod 8))]> bs.

Lemma length_be_bytes n u : length (be_bytes n u) = n.
Proof. unfold be_bytes. by rewrite length_map, length_seq. Qed.

Lemma byte_at_be_bytes n u i :
  0 <= i < Z.of_nat n ->
  byte_at (be_bytes n u) i = Z.land (Z.shiftr u (8 * (Z.of_nat n - 1 - i))) 255.
Proof.
  intros Hi. unfold byte_at, be_bytes.
  rewrite list_lookup_total_alt, list_lookup_fmap, lookup_seq_lt by lia. cbn.
  do 2 f_equal. lia.
Qed.

Lemma land_1 (x : Z) : Z.land x 1 = Z.b2z (Z.testbit x 0).
Proof. rewrite Z.bit0_mod. apply (Z.land_ones x 1). lia. Qed.

Lemma bit_at_be_bytes n u off d :
  0 <= u -> 0 <= off -> 0 <= d -> off + d / 8 < Z.of_nat n ->
  bit_at (be_bytes n u) off d
  = Z.b2z (Z.testbit u (8 * Z.of_nat n - 1 - (8 * off + d))).
Proof.
  intros Hu Hoff Hd Hn. unfold bit_at.
  pose proof (Z.div_mod d 8 ltac:(lia)). pose proof (Z.mod_pos_bound d 8 ltac:(lia)).
  rewrite byte_at_be_bytes by (pose proof (Z.div_pos d 8); lia).
  rewrite land_1, Z.shiftr_spec by lia.
  rewrite Z.land_spec, Z.shiftr_spec by lia.
  change 255 with (Z.ones 8). rewrite (Z.ones_spec_low 8) by lia.
  rewrite andb_true_r. do 2 f_equal. lia.
Qed.

Lemma be_val_app l1 l2 : be_val (l1 ++ l2) = be_val l1 * 256 ^ Z.of_nat (length l2) + be_val l2.
Proof.
  unfold be_val. rewrite fold_left_app. generalize (fold_left (fun acc b => acc * 256 + b) l1 0).
  induction l2 as [|b l2 IH] using rev_ind; intros z; [cbn; lia|].
  rewrite !fold_left_app. cbn. rewrite IH, length_app, Nat2Z.inj_add. cbn [length].
  rewrite Z.pow_add_r by lia. change (256 ^ Z.of_nat 1) with 256. lia.
Qed.

(** Changing one byte moves the value by the weighted difference. *)
Lemma be_val_insert bs (i : nat) y :
  (i < length bs)%nat ->
  be_val (<[i := y]> bs) = be_val bs + (y - bs !!! i) * 256 ^ Z.of_nat (length bs - 1 - i).
Proof.
  intros Hi. destruct (lookup_lt_is_Some_2 bs i Hi) as [x Hx].
  rewrite (list_lookup_total_correct _ _ _ Hx).
  rewrite <- (take_drop_middle bs i x Hx) at 2. rewrite insert_take_drop by done.
  rewrite !be_val_app. cbn [length]. rewrite !length_drop.
  replace (S (length bs - S i)) with ((length bs - 1 - i) + 1)%nat by lia.
  assert (forall b l, be_val (b :: l) = b * 256 ^ Z.of_nat (length l) + be_val l) as Hc.
  { intros b l. change (b :: l) with ([b] ++ l). rewrite be_val_app. cbn [length be_val fold_left]. lia. }
  rewrite !Hc, !length_drop.
  replace (length bs - S i)%nat with (length bs - 1 - i)%nat by lia. lia.
Qed.

Lemma lor_disjoint_add (x k : Z) :
  0 <= k -> Z.testbit x k = false -> Z.lor x (Z.shiftl 1 k) = x + 2 ^ k.
Proof.
  intros Hk Hb. rewrite Z.shiftl_1_l.
  rewrite <- Z.lxor_lor, Z.add_nocarry_lxor; [done|..];
    apply Z.bits_inj'; intros n Hn; rewrite Z.land_spec, Z.bits_0;
    (destruct (decide (n = k)) as [->|Hne];
      [by rewrite Hb|rewrite (Z.pow2_bits_false k n) by congruence; apply andb_false_r]).
Qed.
