(* ===== verification/NetipText.v ===== *)
(** * [net/netip]: the text form of addresses and prefixes

  [Addr.String], [Prefix.String], [ParseAddr] and [ParsePrefix] of Go 1.22; the
  messages of parse errors are not modelled.  The round trip gives the
  injectivity of [Prefix.String], which the routing plans rely on. *)

From S2P Require Import Prelude GoLib Netip.

Local Open Scope Z_scope.

(** ** Printing *)

Definition hexdigit (d : Z) : ascii :=
  default "0"%char (String.get (Z.to_nat d) "0123456789abcdef").

(** [appendHex]: no leading zeros. *)
Definition appendHex (x : Z) : string :=
  (if 4096 <=? x then String (hexdigit (Z.shiftr x 12)) "" else "")
  +:+ (if 256 <=? x then String (hexdigit (Z.land (Z.shiftr x 8) 15)) "" else "")
  +:+ (if 16 <=? x then String (hexdigit (Z.land (Z.shiftr x 4) 15)) "" else "")
  +:+ String (hexdigit (Z.land x 15)) "".

(** The 16-bit groups of an IPv6 address. *)
Definition v6u16 (u : Z) (i : nat) : Z :=
  Z.land (Z.shiftr u (16 * (7 - Z.of_nat i))) 65535.
Definition groups (u : Z) : list Z := v6u16 u <$> seq 0 8.

(** The number of zero groups at the head. *)
Fixpoint zero_run (gs : list Z) : nat :=
  match gs with
  | g :: gs' => if g =? 0 then S (zero_run gs') else O
  | [] => O
  end.

(** The longest run of at least two zero groups, the first of equal ones:
    [(start, length)]; [length = 0] when there is none. *)
Fixpoint best_run (i : nat) (gs : list Z) (best : nat * nat) : nat * nat :=
  match gs with
  | [] => best
  | _ :: gs' =>
      let l := zero_run gs in
      best_run (S i) gs' (if Nat.leb 2 l && Nat.ltb (snd best) l then (i, l) else best)
  end.

Definition join_groups (gs : list Z) : string := Join (appendHex <$> gs) ":".

Definition string6 (u : Z) : string :=
  let gs := groups u in
  let '(start, len) := best_run 0 gs (0%nat, 0%nat) in
  if Nat.eqb len 0 then join_groups gs
  else join_groups (take start gs) +:+ "::" +:+ join_groups (drop (start + len) gs).

Definition string4 (u : Z) : string :=
  Itoa (Z.land (Z.shiftr u 24) 255) +:+ "." +:+ Itoa (Z.land (Z.shiftr u 16) 255) +:+ "."
  +:+ Itoa (Z.land (Z.shiftr u 8) 255) +:+ "." +:+ Itoa (Z.land u 255).

Definition AString (a : Addr) : string :=
  match a with
  | AddrZero => "invalid IP"
  | Addr4 u => string4 u
  | Addr6 u zone =>
      (if Is4In6 a then "::ffff:" +:+ string4 (Z.land u (Z.ones 32)) else string6 u)
      +:+ (if String.eqb zone "" then "" else "%" +:+ zone)
  end.

Definition PString (p : Prefix) : string :=
  if negb (PIsValid p) then "invalid Prefix"
  else AString (PAddr p) +:+ "/" +:+ Itoa (Bits p).

(** ** Parsing *)

(** The loop of [parseIPv4Fields]: the previous character (none at the start),
    the value and digit count of the current field, the fields before it. *)
Fixpoint v4_loop (s : string) (prev : option ascii) (val digLen : Z) (fields : list Z)
    : option (list Z) :=
  match s with
  | EmptyString => if Nat.ltb (length fields) 3 then None else Some (fields ++ [val])
  | String c s' =>
      if is_digit c then
        if (digLen =? 1) && (val =? 0) then None else
        let val := val * 10 + digit_val c in
        if 255 <? val then None else v4_loop s' (Some c) val (digLen + 1) fields
      else if Ascii.eqb c "." then
        if match prev with None => true | Some d => Ascii.eqb d "." end || String.eqb s' ""
        then None
        else if Nat.eqb (length fields) 3 then None
        else v4_loop s' (Some c) 0 0 (fields ++ [val])
      else None
  end.

Definition parseIPv4Fields (s : string) : option (list Z) := v4_loop s None 0 0 [].

Definition parseIPv4 (s : string) : option Addr :=
  fields ← parseIPv4Fields s; Some (AddrFrom4 fields).

Definition hexval (c : ascii) : option Z :=
  let n := code c in
  if (48 <=? n) && (n <=? 57) then Some (n - 48)
  else if (97 <=? n) && (n <=? 102) then Some (n - 97 + 10)
  else if (65 <=? n) && (n <=? 70) then Some (n - 65 + 10)
  else None.

(** A group of hexadecimal digits: the count of digits, the value and the rest. *)
Fixpoint scan_hex (s : string) (off : Z) (acc : Z) : option (Z * Z * string) :=
  match s with
  | EmptyString => Some (off, acc, EmptyString)
  | String c s' =>
      match hexval c with
      | None => Some (off, acc, s)
      | Some d =>
          let acc := Z.shiftl acc 4 + d in
          if 3 <? off then None
          else if 65535 <? acc then None
          else scan_hex s' (off + 1) acc
      end
  end.

(** The loop of [parseIPv6], [n] groups before its bound; [ip] are the bytes
    read so far, [ellipsis] the position of [::] in them.  The result is what
    is left of the text, the bytes and the ellipsis. *)
Fixpoint v6_loop (n : nat) (s : string) (ip : list Z) (ellipsis : option nat)
    : option (string * list Z * option nat) :=
  match n with
  | O => Some (s, ip, ellipsis)
  | S n' =>
      match scan_hex s 0 0 with
      | None => None
      | Some (off, acc, rest) =>
          if off =? 0 then None else
          if match rest with String c _ => Ascii.eqb c "." | EmptyString => false end then
            if match ellipsis with None => negb (Nat.eqb (length ip) 12) | Some _ => false end
            then None
            else if Nat.ltb 16 (length ip + 4) then None
            else match parseIPv4Fields s with
                 | None => None
                 | Some fields => Some (EmptyString, ip ++ fields, ellipsis)
                 end
          else
            let ip := ip ++ [Z.shiftr acc 8; Z.land acc 255] in
            match rest with
            | EmptyString => Some (EmptyString, ip, ellipsis)
            | String c rest' =>
                if negb (Ascii.eqb c ":") then None else
                match rest' with
                | EmptyString => None
                | String d rest'' =>
                    if Ascii.eqb d ":" then
                      match ellipsis with
                      | Some _ => None
                      | None =>
                          if String.eqb rest'' "" then Some (rest'', ip, Some (length ip))
                          else v6_loop n' rest'' ip (Some (length ip))
                      end
                    else v6_loop n' rest' ip ellipsis
                end
            end
      end
  end.

Definition WithZone (a : Addr) (zone : string) : Addr :=
  match a with Addr6 u _ => Addr6 u zone | _ => a end.

(** The bytes with the ellipsis expanded. *)
Definition finish6 (r : string * list Z * option nat) : option Addr :=
  let '(s, ip, ellipsis) := r in
  if negb (String.eqb s "") then None
  else if Nat.ltb (length ip) 16 then
    match ellipsis with
    | None => None
    | Some e => Some (AddrFrom16 (take e ip ++ replicate (16 - length ip) 0 ++ drop e ip))
    end
  else match ellipsis with
       | Some _ => None
       | None => Some (AddrFrom16 ip)
       end.

Definition parse6_body (s : string) : option Addr :=
  match s with
  | String ":" (String ":" s') =>
      if String.eqb s' "" then Some (Addr6 0 "")
      else r ← v6_loop 8 s' [] (Some 0%nat); finish6 r
  | _ => r ← v6_loop 8 s [] None; finish6 r
  end.

Definition parseIPv6 (s : string) : option Addr :=
  match cut_at (Ascii.eqb "%") s with
  | Some (s', zone) =>
      if String.eqb zone "" then None
      else a ← parse6_body s'; Some (WithZone a zone)
  | None => parse6_body s
  end.

Fixpoint dispatch (s whole : string) : option Addr :=
  match s with
  | EmptyString => None
  | String c s' =>
      if Ascii.eqb c "." then parseIPv4 whole
      else if Ascii.eqb c ":" then parseIPv6 whole
      else if Ascii.eqb c "%" then None
      else dispatch s' whole
  end.

Definition ParseAddr (s : string) : option Addr := dispatch s s.

Definition ParsePrefix (s : string) : option Prefix :=
  match cut_last (Ascii.eqb "/") s with
  | None => None
  | Some (addr, bitsStr) =>
      ip ← ParseAddr addr;
      if Is6 ip && negb (String.eqb (Zone ip) "") then None else
      if match bitsStr with
         | String c (String _ _) => (code c <? 49) || (57 <? code c)
         | _ => false
         end then None else
      bits ← Atoi bitsStr;
      let maxBits := if Is6 ip then 128 else 32 in
      if (bits <? 0) || (maxBits <? bits) then None else Some (PrefixFrom ip bits)
  end.

(** ** Printing and parsing, IPv4 *)

(** What a run of digits does to the state of [v4_loop]. *)
Fixpoint scan4 (s : string) (last : option ascii) (val digLen : Z) : option (option ascii * Z * Z) :=
  match s with
  | EmptyString => Some (last, val, digLen)
  | String c s' =>
      if is_digit c then
        if (digLen =? 1) && (val =? 0) then None else
        let val := val * 10 + digit_val c in
        if 255 <? val then None else scan4 s' (Some c) val (digLen + 1)
      else None
  end.

Lemma v4_loop_scan s rest last val dl fields r :
  scan4 s last val dl = Some r ->
  v4_loop (s +:+ rest) last val dl fields = v4_loop rest r.1.1 r.1.2 r.2 fields.
Proof.
  revert last val dl. induction s as [|c s IH]; intros last val dl; cbn [scan4].
  - by intros [= <-].
  - rewrite str_app_cons. cbn [v4_loop].
    destruct (is_digit c); [|done]. destruct (_ && _); [done|].
    destruct (255 <? _); [done|]. apply IH.
Qed.

Definition octet_ok (d : Z) : bool :=
  match scan4 (Itoa d) None 0 0 with
  | Some (Some c, val, _) => (val =? d) && negb (Ascii.eqb c ".")
  | _ => false
  end
  && str_forallb is_digit (Itoa d) && negb (String.eqb (Itoa d) "").

(** The decimal texts of the octets, checked one by one. *)
Lemma octets_ok : forallb octet_ok (seqZ 0 256) = true.
Proof. vm_compute. reflexivity. Qed.

Lemma octet_facts d : 0 <= d < 256 -> octet_ok d = true.
Proof.
  intros Hd. pose proof (proj1 (forallb_forall _ _) octets_ok d) as H.
  apply H, list_elem_of_In, elem_of_seqZ. lia.
Qed.

Lemma scan4_last s last1 last2 val dl :
  s <> ""%string -> scan4 s last1 val dl = scan4 s last2 val dl.
Proof. by destruct s. Qed.

Lemma v4_loop_octet d rest last fields :
  0 <= d < 256 ->
  exists c dl, Ascii.eqb c "." = false
    /\ v4_loop (Itoa d +:+ rest) last 0 0 fields = v4_loop rest (Some c) d dl fields.
Proof.
  intros Hd%octet_facts. unfold octet_ok in Hd.
  destruct (scan4 (Itoa d) None 0 0) as [[[[c|] v] dl]|] eqn:E; [|done..]. bool_hyps.
  exists c, dl. split; [done|]. subst v.
  apply (v4_loop_scan _ rest last 0 0 fields (Some c, d, dl)).
  rewrite <- E. apply scan4_last. intros He. by rewrite He in *.
Qed.

Lemma v4_loop_dot rest c val dl fields :
  Ascii.eqb c "." = false -> rest <> ""%string -> (length fields < 3)%nat ->
  v4_loop ("." +:+ rest) (Some c) val dl fields = v4_loop rest (Some "."%char) 0 0 (fields ++ [val]).
Proof.
  intros Hc Hr Hl. change ("." +:+ rest) with (String "." rest). cbn [v4_loop].
  change (is_digit ".") with false. change (Ascii.eqb "." ".") with true. cbn iota.
  rewrite Hc. assert (String.eqb rest "" = false) as -> by by apply String.eqb_neq.
  cbn [orb]. assert (Nat.eqb (length fields) 3 = false) as -> by (apply Nat.eqb_neq; lia). done.
Qed.

Definition octets (u : Z) : list Z :=
  [Z.land (Z.shiftr u 24) 255; Z.land (Z.shiftr u 16) 255; Z.land (Z.shiftr u 8) 255; Z.land u 255].

Lemma land_255 x : 0 <= Z.land x 255 < 256.
Proof. change 255 with (Z.ones 8). rewrite Z.land_ones by lia. apply Z.mod_pos_bound. lia. Qed.

Lemma Itoa_octet_nonempty d : 0 <= d < 256 -> Itoa d <> ""%string.
Proof. intros Hd%octet_facts Heq. unfold octet_ok in Hd. rewrite Heq in Hd. by bool_hyps. Qed.

Lemma str_app_nonempty (s t : string) : s <> ""%string -> s +:+ t <> ""%string.
Proof. by destruct s. Qed.

Lemma parseIPv4Fields_string4 u : parseIPv4Fields (string4 u) = Some (octets u).
Proof.
  unfold parseIPv4Fields, string4, octets.
  pose proof (land_255 (Z.shiftr u 24)) as Ha. pose proof (land_255 (Z.shiftr u 16)) as Hb.
  pose proof (land_255 (Z.shiftr u 8)) as Hc. pose proof (land_255 u) as Hd.
  set (a := Z.land (Z.shiftr u 24) 255) in *. set (b := Z.land (Z.shiftr u 16) 255) in *.
  set (c := Z.land (Z.shiftr u 8) 255) in *. set (d := Z.land u 255) in *.
  destruct (v4_loop_octet a ("." +:+ Itoa b +:+ "." +:+ Itoa c +:+ "." +:+ Itoa d) None [] Ha)
    as (l1 & k1 & E1 & ->).
  rewrite v4_loop_dot; [|done|by apply str_app_nonempty, Itoa_octet_nonempty|cbn; lia].
  destruct (v4_loop_octet b ("." +:+ Itoa c +:+ "." +:+ Itoa d) (Some "."%char) ([] ++ [a]) Hb)
    as (l2 & k2 & E2 & ->).
  rewrite v4_loop_dot; [|done|by apply str_app_nonempty, Itoa_octet_nonempty|cbn; lia].
  destruct (v4_loop_octet c ("." +:+ Itoa d) (Some "."%char) (([] ++ [a]) ++ [b]) Hc)
    as (l3 & k3 & E3 & ->).
  rewrite v4_loop_dot; [|done|by apply Itoa_octet_nonempty|cbn; lia].
  destruct (v4_loop_octet d "" (Some "."%char) ((([] ++ [a]) ++ [b]) ++ [c]) Hd)
    as (l4 & k4 & E4 & E).
  by rewrite str_app_nil_r in E.
Qed.

Lemma be_val_octets u : 0 <= u < 2 ^ 32 -> be_val (octets u) = u.
Proof.
  intros Hu. unfold be_val, octets. cbn [fold_left].
  change 255 with (Z.ones 8). rewrite !Z.land_ones, !Z.shiftr_div_pow2 by lia.
  change (2 ^ 32) with 4294967296 in Hu. change (2 ^ 24) with 16777216.
  change (2 ^ 16) with 65536. change (2 ^ 8) with 256.
  pose proof (Z.div_mod u 256 ltac:(lia)). pose proof (Z.div_mod (u / 256) 256 ltac:(lia)).
  pose proof (Z.div_mod (u / 65536) 256 ltac:(lia)).
  assert (u / 65536 = u / 256 / 256) by (rewrite Z.div_div by lia; done).
  assert (u / 16777216 = u / 65536 / 256) by (rewrite Z.div_div by lia; done).
  assert (0 <= u / 16777216 < 256)
    by (split; [apply Z.div_pos|apply Z.div_lt_upper_bound]; lia).
  rewrite (Z.mod_small (u / 16777216)) by lia. lia.
Qed.

(** ** Printing and parsing, IPv6 *)

Lemma hexval_hexdigit n : 0 <= n < 16 -> hexval (hexdigit n) = Some n.
Proof.
  intros Hn. assert (forallb (fun n => bool_decide (hexval (hexdigit n) = Some n)) (seqZ 0 16) = true)
    as H by (vm_compute; reflexivity).
  pose proof (proj1 (forallb_forall _ _) H n) as Hb.
  eapply bool_decide_eq_true, Hb, list_elem_of_In, elem_of_seqZ. lia.
Qed.

(** A separator is no hexadecimal digit. *)
Definition is_hex (c : ascii) : bool := match hexval c with Some _ => true | None => false end.

Lemma is_hex_neq c d : is_hex c = true -> is_hex d = false -> Ascii.eqb d c = false.
Proof. intros Hc Hd. apply Ascii.eqb_neq. congruence. Qed.

(** Text at which a run of hexadecimal digits ends. *)
Definition stops (s : string) : Prop :=
  match s with EmptyString => True | String c _ => is_hex c = false end.

Lemma scan_hex_stop s off acc : stops s -> scan_hex s off acc = Some (off, acc, s).
Proof. destruct s as [|c s]; [done|]. unfold stops, is_hex. cbn. by destruct (hexval c). Qed.

Lemma scan_hex_step n s off acc :
  0 <= n < 16 -> off <= 3 -> 0 <= acc * 16 + n <= 65535 ->
  scan_hex (String (hexdigit n) s) off acc = scan_hex s (off + 1) (acc * 16 + n).
Proof.
  intros Hn Ho Ha. cbn [scan_hex]. rewrite hexval_hexdigit by done.
  rewrite Z.shiftl_mul_pow2 by lia. change (2 ^ 4) with 16.
  rewrite !(proj2 (Z.ltb_ge _ _)) by lia. done.
Qed.

Lemma nibble x k : 0 <= k -> Z.land (Z.shiftr x k) 15 = x / 2 ^ k mod 16.
Proof. intros Hk. change 15 with (Z.ones 4). by rewrite Z.land_ones, Z.shiftr_div_pow2 by lia. Qed.

Lemma scan_hex_appendHex g rest :
  0 <= g <= 65535 -> stops rest ->
  exists off, 0 < off /\ scan_hex (appendHex g +:+ rest) 0 0 = Some (off, g, rest).
Proof.
  intros Hg Hs. unfold appendHex.
  assert (Z.land g 15 = g mod 16) as -> by (change 15 with (Z.ones 4); by rewrite Z.land_ones by lia).
  rewrite !nibble, Z.shiftr_div_pow2 by lia.
  change (2 ^ 12) with 4096. change (2 ^ 8) with 256. change (2 ^ 4) with 16.
  pose proof (Z.div_mod g 16 ltac:(lia)) as E0.
  pose proof (Z.div_mod (g / 16) 16 ltac:(lia)) as E1.
  pose proof (Z.div_mod (g / 256) 16 ltac:(lia)) as E2.
  assert (g / 16 / 16 = g / 256) as D1 by (by rewrite Z.div_div by lia).
  assert (g / 256 / 16 = g / 4096) as D2 by (by rewrite Z.div_div by lia).
  rewrite D1 in E1. rewrite D2 in E2.
  pose proof (Z.mod_pos_bound g 16 ltac:(lia)). pose proof (Z.mod_pos_bound (g / 16) 16 ltac:(lia)).
  pose proof (Z.mod_pos_bound (g / 256) 16 ltac:(lia)).
  set (a := g / 4096) in *. set (b := (g / 256) mod 16) in *. set (c := (g / 16) mod 16) in *.
  set (d := g mod 16) in *. set (h := g / 256) in *. set (q := g / 16) in *.
  clearbody a b c d h q.
  destruct (Z.leb_spec 4096 g); [|destruct (Z.leb_spec 256 g); [|destruct (Z.leb_spec 16 g)]];
    rewrite ?(proj2 (Z.leb_le _ _)) by lia; rewrite ?(proj2 (Z.leb_gt _ _)) by lia;
    rewrite ?str_app_assoc, ?str_app_cons;
    repeat match goal with |- context [EmptyString +:+ ?s] => change (EmptyString +:+ s) with s end;
    rewrite !scan_hex_step by lia; rewrite scan_hex_stop by done.
  - exists 4. split; [lia|]. repeat f_equal; lia.
  - exists 3. split; [lia|]. repeat f_equal; lia.
  - exists 2. split; [lia|]. repeat f_equal; lia.
  - exists 1. split; [lia|]. repeat f_equal; lia.
Qed.

Definition group_bytes (g : Z) : list Z := [Z.shiftr g 8; Z.land g 255].
Definition is_group (g : Z) : Prop := 0 <= g <= 65535.

Lemma appendHex_hex g : is_group g -> str_forallb is_hex (appendHex g) = true.
Proof.
  intros Hg. unfold appendHex.
  assert (forall k, 0 <= k -> is_hex (hexdigit (Z.land (Z.shiftr g k) 15)) = true) as Hn.
  { intros k Hk. unfold is_hex. rewrite nibble by done.
    by rewrite hexval_hexdigit by (apply Z.mod_pos_bound; lia). }
  assert (is_hex (hexdigit (Z.shiftr g 12)) = true) as H12.
  { unfold is_hex. rewrite hexval_hexdigit; [done|]. rewrite Z.shiftr_div_pow2 by lia. unfold is_group in Hg.
    split; [apply Z.div_pos; lia|apply Z.div_lt_upper_bound; lia]. }
  assert (is_hex (hexdigit (Z.land g 15)) = true) as H0 by apply (Hn 0 ltac:(done)).
  rewrite !str_forallb_app.
  destruct (4096 <=? g), (256 <=? g), (16 <=? g); cbn [str_forallb];
    rewrite ?H12, ?H0, ?Hn by lia; done.
Qed.

Lemma appendHex_nonempty g : appendHex g <> ""%string.
Proof. unfold appendHex. by destruct (4096 <=? g), (256 <=? g), (16 <=? g). Qed.

Lemma appendHex_head g s :
  is_group g -> exists c s', appendHex g +:+ s = String c s' /\ is_hex c = true.
Proof.
  intros Hg. pose proof (appendHex_hex g Hg) as Hh. pose proof (appendHex_nonempty g) as Hn.
  destruct (appendHex g) as [|c t]; [done|]. cbn in Hh. bool_hyps. by eexists c, _.
Qed.

(** One group of the loop, by what follows it. *)
Lemma v6_loop_end n g ip e :
  is_group g -> v6_loop (S n) (appendHex g) ip e = Some ("", ip ++ group_bytes g, e).
Proof.
  intros Hg. cbn [v6_loop].
  destruct (scan_hex_appendHex g "" Hg I) as (off & Ho & E). rewrite str_app_nil_r in E.
  rewrite E, (proj2 (Z.eqb_neq _ _)) by lia. done.
Qed.

Lemma v6_loop_colon n g g' s ip e :
  is_group g -> is_group g' ->
  v6_loop (S n) (appendHex g +:+ ":" +:+ appendHex g' +:+ s) ip e
  = v6_loop n (appendHex g' +:+ s) (ip ++ group_bytes g) e.
Proof.
  intros Hg Hg'. cbn [v6_loop].
  destruct (scan_hex_appendHex g (":" +:+ appendHex g' +:+ s) Hg eq_refl) as (off & Ho & E).
  rewrite E, (proj2 (Z.eqb_neq _ _)) by lia.
  destruct (appendHex_head g' s Hg') as (c & s' & -> & Hc).
  change (":" +:+ String c s') with (String ":" (String c s')).
  change (Ascii.eqb ":" ".") with false. change (Ascii.eqb ":" ":") with true. cbn [negb].
  by rewrite (Ascii.eqb_sym c ":"), (is_hex_neq c ":").
Qed.

Lemma v6_loop_ellipsis n g t ip :
  is_group g ->
  v6_loop (S n) (appendHex g +:+ "::" +:+ t) ip None
  = let ip' := ip ++ group_bytes g in
    if String.eqb t "" then Some (t, ip', Some (length ip')) else v6_loop n t ip' (Some (length ip')).
Proof.
  intros Hg. cbn [v6_loop].
  destruct (scan_hex_appendHex g ("::" +:+ t) Hg eq_refl) as (off & Ho & E).
  rewrite E, (proj2 (Z.eqb_neq _ _)) by lia. done.
Qed.

Definition bytes_of (gs : list Z) : list Z := mjoin (group_bytes <$> gs).

Lemma bytes_of_cons g gs : bytes_of (g :: gs) = group_bytes g ++ bytes_of gs.
Proof. done. Qed.

Lemma bytes_of_app gs gs' : bytes_of (gs ++ gs') = bytes_of gs ++ bytes_of gs'.
Proof. unfold bytes_of. by rewrite fmap_app, join_app. Qed.

Lemma length_bytes_of gs : length (bytes_of gs) = (2 * length gs)%nat.
Proof. induction gs as [|g gs IH]; [done|]. rewrite bytes_of_cons, length_app, IH. cbn. lia. Qed.

Lemma join_groups_cons g g' gs :
  join_groups (g :: g' :: gs) = appendHex g +:+ ":" +:+ join_groups (g' :: gs).
Proof. done. Qed.

Lemma join_groups_head g gs : exists s, join_groups (g :: gs) = appendHex g +:+ s.
Proof.
  destruct gs as [|g' gs]; [exists ""%string; by rewrite str_app_nil_r|].
  rewrite join_groups_cons. eauto.
Qed.

Lemma join_groups_nonempty gs : gs <> [] -> join_groups gs <> ""%string.
Proof.
  destruct gs as [|g gs]; [done|]. intros _. destruct (join_groups_head g gs) as [s ->].
  apply str_app_nonempty, appendHex_nonempty.
Qed.

Lemma v6_loop_join n gs ip e :
  gs <> [] -> (length gs <= n)%nat -> Forall is_group gs ->
  v6_loop n (join_groups gs) ip e = Some ("", ip ++ bytes_of gs, e).
Proof.
  intros Hne Hn Hgs. revert n ip Hn Hne. induction Hgs as [|g gs Hg Hgs IH]; intros n ip Hn Hne; [done|].
  destruct n as [|n]; [cbn in Hn; lia|]. cbn in Hn. destruct gs as [|g' gs].
  - change (join_groups [g]) with (appendHex g). rewrite v6_loop_end by done.
    unfold bytes_of; cbn. done.
  - rewrite join_groups_cons. destruct (join_groups_head g' gs) as [s Hs]. rewrite Hs.
    rewrite v6_loop_colon by (done || by inversion Hgs). rewrite <- Hs, IH by (done || lia).
    by rewrite (bytes_of_cons g), app_assoc.
Qed.

Lemma v6_loop_join_ellipsis n gs t ip :
  gs <> [] -> (length gs <= n)%nat -> Forall is_group gs ->
  v6_loop n (join_groups gs +:+ "::" +:+ t) ip None
  = let ip' := ip ++ bytes_of gs in
    if String.eqb t "" then Some (t, ip', Some (length ip'))
    else v6_loop (n - length gs) t ip' (Some (length ip')).
Proof.
  intros Hne Hn Hgs. revert n ip Hn Hne. induction Hgs as [|g gs Hg Hgs IH]; intros n ip Hn Hne; [done|].
  destruct n as [|n]; [cbn in Hn; lia|]. cbn in Hn. destruct gs as [|g' gs].
  - change (join_groups [g]) with (appendHex g). rewrite v6_loop_ellipsis by done.
    cbn [length]. rewrite Nat.sub_succ, Nat.sub_0_r. done.
  - rewrite join_groups_cons. destruct (join_groups_head g' gs) as [s Hs]. rewrite Hs.
    rewrite !str_app_assoc, v6_loop_colon by (done || by inversion Hgs).
    rewrite <- (str_app_assoc (appendHex g') s), <- Hs, IH by (done || lia).
    cbv zeta. cbn [length]. rewrite Nat.sub_succ.
    by rewrite (bytes_of_cons g (g' :: gs)), app_assoc.
Qed.

(** The run that [::] replaces consists of zero groups. *)
Definition zero_at (G : list Z) (r : nat * nat) : Prop :=
  r.2 = 0%nat \/ (2 <= r.2 /\ r.1 + r.2 <= length G
                  /\ take r.2 (drop r.1 G) = replicate r.2 0%Z)%nat.

Lemma zero_run_spec gs :
  (zero_run gs <= length gs)%nat /\ take (zero_run gs) gs = replicate (zero_run gs) 0.
Proof.
  induction gs as [|g gs [IHl IHt]]; [done|]. cbn. destruct (Z.eqb_spec g 0) as [->|]; cbn.
  - split; [lia|by rewrite IHt].
  - split; [lia|done].
Qed.

Lemma best_run_spec G pre gs best :
  G = pre ++ gs -> zero_at G best -> zero_at G (best_run (length pre) gs best).
Proof.
  revert pre best. induction gs as [|g gs IH]; intros pre best HG Hb; [done|]. cbn [best_run].
  replace (S (length pre)) with (length (pre ++ [g])) by (rewrite length_app; cbn; lia).
  apply IH; [by rewrite <- app_assoc|].
  destruct (Nat.leb_spec 2 (zero_run (g :: gs))); [|done]. cbn [andb].
  destruct (Nat.ltb _ _); [|done]. right. cbn [fst snd].
  destruct (zero_run_spec (g :: gs)) as [Hl Ht]. subst G.
  rewrite drop_app_length, length_app. split; [done|]. split; [lia|done].
Qed.

Lemma groups_best u : zero_at (groups u) (best_run 0 (groups u) (0%nat, 0%nat)).
Proof. apply (best_run_spec _ []); [done|]. by left. Qed.

Lemma groups_range u : Forall is_group (groups u).
Proof.
  unfold groups. apply Forall_fmap, Forall_forall. intros i _. cbn. unfold v6u16, is_group.
  change 65535 with (Z.ones 16). rewrite Z.land_ones by lia. change (Z.ones 16) with (2 ^ 16 - 1).
  pose proof (Z.mod_pos_bound (Z.shiftr u (16 * (7 - Z.of_nat i))) (2 ^ 16) ltac:(lia)). lia.
Qed.

Lemma length_groups u : length (groups u) = 8%nat.
Proof. done. Qed.

Lemma bytes_of_zeros n : bytes_of (replicate n 0) = replicate (2 * n) 0.
Proof.
  induction n as [|n IH]; [done|]. cbn [replicate]. rewrite bytes_of_cons, IH.
  by replace (2 * S n)%nat with (S (S (2 * n))) by lia.
Qed.

Lemma be_val_cons2 g l :
  is_group g -> be_val (group_bytes g ++ l) = g * 256 ^ Z.of_nat (length l) + be_val l.
Proof.
  intros Hg. rewrite be_val_app. f_equal. f_equal. unfold be_val, group_bytes. cbn [fold_left].
  change 255 with (Z.ones 8). rewrite Z.land_ones, Z.shiftr_div_pow2 by lia.
  pose proof (Z.div_mod g (2 ^ 8) ltac:(lia)). change (2 ^ 8) with 256 in *. lia.
Qed.

(** Horner's rule on the groups. *)
Definition horner (gs : list Z) : Z := fold_left (fun acc g => acc * 65536 + g) gs 0.

Lemma be_val_bytes_of gs acc :
  Forall is_group gs ->
  fold_left (fun a b => a * 256 + b) (bytes_of gs) acc = fold_left (fun a g => a * 65536 + g) gs acc.
Proof.
  intros Hgs. revert acc. induction Hgs as [|g gs Hg Hgs IH]; intros acc; [done|].
  rewrite bytes_of_cons, fold_left_app, IH. cbn [fold_left]. f_equal.
  unfold group_bytes. cbn [fold_left]. unfold is_group in Hg.
  change 255 with (Z.ones 8). rewrite Z.land_ones, Z.shiftr_div_pow2 by lia.
  pose proof (Z.div_mod g (2 ^ 8) ltac:(lia)). change (2 ^ 8) with 256 in *. lia.
Qed.

Lemma horner_groups u : 0 <= u < 2 ^ 128 -> horner (groups u) = u.
Proof.
  intros Hu. assert (forall k, 0 <= k -> forall n, n = Z.shiftr u (16 * (k + 1)) ->
    n * 65536 + Z.land (Z.shiftr u (16 * k)) 65535 = Z.shiftr u (16 * k)) as Hstep.
  { intros k Hk n ->. change 65535 with (Z.ones 16). rewrite Z.land_ones by lia.
    replace (16 * (k + 1)) with (16 * k + 16) by lia. rewrite <- Z.shiftr_shiftr by lia.
    rewrite (Z.shiftr_div_pow2 (Z.shiftr _ _)) by lia.
    pose proof (Z.div_mod (Z.shiftr u (16 * k)) (2 ^ 16) ltac:(lia)).
    change (2 ^ 16) with 65536 in *. lia. }
  unfold horner, groups. cbn [seq fmap list_fmap fold_left]. unfold v6u16.
  change (16 * (7 - Z.of_nat 0)) with (16 * 7). change (16 * (7 - Z.of_nat 1)) with (16 * 6).
  change (16 * (7 - Z.of_nat 2)) with (16 * 5). change (16 * (7 - Z.of_nat 3)) with (16 * 4).
  change (16 * (7 - Z.of_nat 4)) with (16 * 3). change (16 * (7 - Z.of_nat 5)) with (16 * 2).
  change (16 * (7 - Z.of_nat 6)) with (16 * 1). change (16 * (7 - Z.of_nat 7)) with (16 * 0).
  rewrite (Hstep 7), (Hstep 6), (Hstep 5), (Hstep 4), (Hstep 3), (Hstep 2), (Hstep 1), (Hstep 0);
    try done.
  symmetry. rewrite Z.shiftr_div_pow2 by lia. apply Z.div_small. done.
Qed.

Lemma AddrFrom16_groups u : 0 <= u < 2 ^ 128 -> AddrFrom16 (bytes_of (groups u)) = Addr6 u "".
Proof.
  intros Hu. unfold AddrFrom16, be_val. f_equal.
  rewrite be_val_bytes_of by apply groups_range. by apply horner_groups.
Qed.

Lemma parse6_body_hex c s :
  is_hex c = true -> parse6_body (String c s) = (r ← v6_loop 8 (String c s) [] None; finish6 r).
Proof. intros Hc. destruct c as [[] [] [] [] [] [] [] []]; try done; vm_compute in Hc; done. Qed.

(** What [finish6] makes of the two sides of an ellipsis. *)
Lemma finish6_split u (start len : nat) :
  0 <= u < 2 ^ 128 -> (2 <= len)%nat -> (start + len <= 8)%nat ->
  take len (drop start (groups u)) = replicate len 0 ->
  finish6 (""%string, bytes_of (take start (groups u)) ++ bytes_of (drop (start + len) (groups u)),
    Some (2 * start)%nat) = Some (Addr6 u "").
Proof.
  intros Hu Hl Hsl Hz. rewrite <- (AddrFrom16_groups u Hu). unfold finish6. cbn [negb String.eqb].
  assert (length (take start (groups u)) = start) as Hlt by (rewrite length_take, length_groups; lia).
  assert (length (drop (start + len) (groups u)) = (8 - (start + len))%nat) as Hld
    by (by rewrite length_drop, length_groups).
  assert (length (bytes_of (take start (groups u)) ++ bytes_of (drop (start + len) (groups u)))
          = (16 - 2 * len)%nat) as Hlen by (rewrite length_app, !length_bytes_of; lia).
  rewrite Hlen. assert (Nat.ltb (16 - 2 * len) 16 = true) as -> by (apply Nat.ltb_lt; lia).
  replace (2 * start)%nat with (length (bytes_of (take start (groups u))))
    by (rewrite length_bytes_of; lia).
  rewrite take_app_length, drop_app_length. do 2 f_equal.
  replace (16 - (16 - 2 * len))%nat with (2 * len)%nat by lia.
  rewrite <- bytes_of_zeros, <- Hz, <- !bytes_of_app. f_equal.
  rewrite <- drop_drop. by rewrite !take_drop.
Qed.

Lemma parse6_body_string6 u : 0 <= u < 2 ^ 128 -> parse6_body (string6 u) = Some (Addr6 u "").
Proof.
  intros Hu. unfold string6. pose proof (groups_best u) as Hb. pose proof (groups_range u) as Hr.
  destruct (best_run 0 (groups u) (0%nat, 0%nat)) as [start len]. unfold zero_at in Hb; cbn [fst snd] in Hb.
  destruct (Nat.eqb_spec len 0) as [->|Hne].
  - pose proof (v6_loop_join 8 (groups u) [] None ltac:(done) ltac:(done) Hr) as El.
    destruct (groups u) as [|g gs] eqn:Hg; [done|].
    destruct (join_groups_head g gs) as [s Hs].
    destruct (appendHex_head g s ltac:(by inversion Hr)) as (c & s' & Hc & Hx).
    rewrite Hs, Hc in El |- *. rewrite parse6_body_hex, El by done. cbn [mbind option_bind].
    rewrite <- Hg. rewrite <- (AddrFrom16_groups u Hu). unfold finish6. cbn [negb String.eqb].
    by rewrite length_app, length_bytes_of, length_groups.
  - destruct Hb as [?|(H2 & Hsl & Hz)]; [lia|]. rewrite length_groups in Hsl.
    rewrite <- (finish6_split u start len Hu H2 Hsl Hz).
    set (R := drop (start + len) (groups u)).
    assert (Forall is_group R) as HR by by apply Forall_drop.
    assert (length R <= 8 - (start + len))%nat as HlR by (unfold R; by rewrite length_drop, length_groups).
    destruct start as [|start].
    + change (take 0 (groups u)) with (@nil Z). change (join_groups []) with ""%string.
      change ("" +:+ "::" +:+ join_groups R) with (String ":" (String ":" (join_groups R))).
      destruct (decide (R = [])) as [->|HRn].
      { reflexivity. }
      cbn [parse6_body]. assert (String.eqb (join_groups R) "" = false) as ->
        by (by apply String.eqb_neq, join_groups_nonempty).
      rewrite v6_loop_join by (done || lia). done.
    + set (T := take (S start) (groups u)).
      assert (Forall is_group T) as HT by by apply Forall_take.
      assert (length T = S start) as HlT by (unfold T; rewrite length_take, length_groups; lia).
      destruct T as [|g T'] eqn:ET; [done|]. rewrite <- ET in *.
      assert (exists c s, join_groups T = String c s /\ is_hex c = true) as (c & s & Hcs & Hx).
      { rewrite ET. destruct (join_groups_head g T') as [s ->]. apply appendHex_head.
        rewrite ET in HT. by inversion HT. }
      pose proof (v6_loop_join_ellipsis 8 T (join_groups R) [] ltac:(by rewrite ET) ltac:(lia) HT) as El.
      rewrite Hcs, str_app_cons in El |- *. rewrite parse6_body_hex, El by done. cbv zeta.
      rewrite app_nil_l, length_bytes_of, HlT. destruct (decide (R = [])) as [->|HRn].
      * change (join_groups []) with ""%string. cbn [String.eqb]. cbn [mbind option_bind].
        by rewrite app_nil_r.
      * assert (String.eqb (join_groups R) "" = false) as ->
          by (by apply String.eqb_neq, join_groups_nonempty).
        by rewrite v6_loop_join by (done || lia).
Qed.

(** ** The texts of addresses *)

Lemma string4_digits u f :
  (forall c, is_digit c = true -> f c = true) -> f "."%char = true ->
  str_forallb f (string4 u) = true.
Proof.
  intros Hf Hdot.
  assert (forall d, 0 <= d < 256 -> str_forallb f (Itoa d) = true) as Hd.
  { intros d Hd%octet_facts. unfold octet_ok in Hd. bool_hyps. by apply (str_forallb_impl is_digit). }
  unfold string4. rewrite !str_forallb_app, !Hd by apply land_255. cbn. by rewrite Hdot.
Qed.

Lemma join_groups_chars gs f :
  Forall is_group gs -> (forall c, is_hex c = true -> f c = true) -> f ":"%char = true ->
  str_forallb f (join_groups gs) = true.
Proof.
  intros Hgs Hf Hc. induction Hgs as [|g gs Hg Hgs IH]; [done|].
  assert (str_forallb f (appendHex g) = true) as Hh.
  { apply (str_forallb_impl is_hex); [done|by apply appendHex_hex]. }
  destruct gs as [|g' gs]; [done|]. rewrite join_groups_cons, !str_forallb_app, Hh, IH.
  cbn. by rewrite Hc.
Qed.

Lemma string6_chars u f :
  (forall c, is_hex c = true -> f c = true) -> f ":"%char = true -> str_forallb f (string6 u) = true.
Proof.
  intros Hf Hc. unfold string6. pose proof (groups_range u) as Hr.
  destruct (best_run _ _ _) as [start len]. destruct (Nat.eqb len 0); [by apply join_groups_chars|].
  rewrite !str_forallb_app, !join_groups_chars by (auto using Forall_take, Forall_drop).
  cbn. by rewrite Hc.
Qed.

Lemma scan_hex_app s rest off acc off' acc' :
  scan_hex s off acc = Some (off', acc', ""%string) -> stops rest ->
  scan_hex (s +:+ rest) off acc = Some (off', acc', rest).
Proof.
  intros E Hs. revert off acc E. induction s as [|c s IH]; intros off acc; cbn [scan_hex].
  - intros [= -> ->]. change ("" +:+ rest) with rest. by apply scan_hex_stop.
  - rewrite str_app_cons. cbn [scan_hex]. destruct (hexval c); [|done].
    destruct (_ <? _); [done|]. destruct (_ <? _); [done|]. apply IH.
Qed.

Definition octet_hex_ok (d : Z) : bool :=
  match scan_hex (Itoa d) 0 0 with
  | Some (off, _, EmptyString) => negb (off =? 0)
  | _ => false
  end.

Lemma octets_hex_ok : forallb octet_hex_ok (seqZ 0 256) = true.
Proof. vm_compute. reflexivity. Qed.

Lemma scan_hex_octet d rest :
  0 <= d < 256 -> stops rest ->
  exists off acc, (off =? 0) = false /\ scan_hex (Itoa d +:+ rest) 0 0 = Some (off, acc, rest).
Proof.
  intros Hd Hs. pose proof (proj1 (forallb_forall _ _) octets_hex_ok d) as H.
  specialize (H ltac:(apply list_elem_of_In, elem_of_seqZ; lia)). unfold octet_hex_ok in H.
  destruct (scan_hex (Itoa d) 0 0) as [[[off acc] []]|] eqn:E; [|done..]. bool_hyps.
  exists off, acc. split; [by apply Z.eqb_neq|]. by apply scan_hex_app.
Qed.

(** An embedded IPv4 address. *)
Lemma parse6_body_4in6 v :
  0 <= v < 2 ^ 32 -> parse6_body ("::ffff:" +:+ string4 v) = Some (Addr6 (65535 * 2 ^ 32 + v) "").
Proof.
  intros Hv. change ("::ffff:" +:+ string4 v) with (String ":" (String ":" ("ffff" +:+ ":" +:+ string4 v))).
  unfold parse6_body. cbn [String.eqb].
  change (String.eqb ("ffff" +:+ ":" +:+ string4 v) "") with false. cbn iota.
  destruct (scan_hex_appendHex 65535 (":" +:+ string4 v) ltac:(lia) eq_refl) as (o1 & Ho1 & E1).
  change (appendHex 65535) with "ffff"%string in E1. cbn [v6_loop].
  rewrite E1, (proj2 (Z.eqb_neq o1 0)) by lia.
  change (":" +:+ string4 v) with (String ":" (string4 v)).
  change (Ascii.eqb ":" ".") with false. change (Ascii.eqb ":" ":") with true. cbn [negb].
  assert (exists rest, string4 v = Itoa (Z.land (Z.shiftr v 24) 255) +:+ String "." rest) as [rest Er]
    by (unfold string4; eexists; done).
  destruct (scan_hex_octet (Z.land (Z.shiftr v 24) 255) (String "." rest) (land_255 _) eq_refl)
    as (o2 & a2 & Ho2 & E2). rewrite <- Er in E2.
  pose proof (parseIPv4Fields_string4 v) as Ef.
  destruct (string4 v) as [|d s'] eqn:Es; [destruct (Itoa _) in Er; done|].
  assert (Ascii.eqb d ":" = false) as ->.
  { pose proof (string4_digits v (fun c => negb (Ascii.eqb c ":"))) as Hc. rewrite Es in Hc.
    cbn in Hc. specialize (Hc ltac:(by intros [[] [] [] [] [] [] [] []]) eq_refl). by bool_hyps. }
  cbn [v6_loop]. rewrite E2, Ho2. change (Ascii.eqb "." ".") with true. cbn iota.
  rewrite Ef. change (Nat.ltb 16 (length ([] ++ [Z.shiftr 65535 8; Z.land 65535 255]) + 4)) with false.
  cbn iota. cbn [mbind option_bind].
  change (finish6 ("", ([] ++ [Z.shiftr 65535 8; Z.land 65535 255]) ++ octets v, Some 0%nat)
          = Some (Addr6 (65535 * 2 ^ 32 + v) "")).
  unfold finish6. cbn [negb String.eqb]. rewrite length_app. cbn [length app octets].
  change (Nat.ltb (2 + 4) 16) with true. cbn iota. do 2 f_equal. unfold AddrFrom16. f_equal.
  transitivity (65535 * 2 ^ 32 + be_val (octets v)); [|by rewrite be_val_octets].
  change (be_val ((replicate 10 0 ++ [255; 255]) ++ octets v) = 65535 * 2 ^ 32 + be_val (octets v)).
  by rewrite be_val_app.
Qed.

(** ** Round trips *)

Lemma dispatch_skip f s t whole :
  (forall c, f c = true -> Ascii.eqb c "." = false /\ Ascii.eqb c ":" = false
                         /\ Ascii.eqb c "%" = false) ->
  str_forallb f s = true -> dispatch (s +:+ t) whole = dispatch t whole.
Proof.
  intros Hf. induction s as [|c s IH]; [done|]. cbn. intros. bool_hyps.
  rewrite str_app_cons. cbn. destruct (Hf c H) as (-> & -> & ->). by apply IH.
Qed.

Lemma ParseAddr_string4 u : 0 <= u < 2 ^ 32 -> ParseAddr (string4 u) = Some (Addr4 u).
Proof.
  intros Hu. unfold ParseAddr. unfold string4 at 1.
  pose proof (octet_facts _ (land_255 (Z.shiftr u 24))) as Hd. unfold octet_ok in Hd. bool_hyps.
  rewrite (dispatch_skip is_digit); [|by intros [[] [] [] [] [] [] [] []]|done].
  change (parseIPv4 (string4 u) = Some (Addr4 u)). unfold parseIPv4.
  rewrite parseIPv4Fields_string4. cbn [mbind option_bind]. unfold AddrFrom4.
  by rewrite be_val_octets.
Qed.

Lemma dispatch_colon s t whole :
  str_forallb (fun c => is_hex c || Ascii.eqb c ":") s = true ->
  str_existsb (Ascii.eqb ":") s = true -> dispatch (s +:+ t) whole = parseIPv6 whole.
Proof.
  unfold str_existsb. induction s as [|c s IH]; [done|]. rewrite str_app_cons.
  cbn [str_forallb dispatch]. intros [Hc Hs]%andb_true_iff He.
  destruct (Ascii.eqb_spec c ":") as [->|Hne]; [done|]. rewrite orb_false_r in Hc.
  rewrite (Ascii.eqb_sym c "."), (Ascii.eqb_sym c "%"), !(is_hex_neq c) by done.
  apply IH; [done|]. rewrite Ascii.eqb_sym in He.
  by rewrite (proj2 (Ascii.eqb_neq c ":")) in He.
Qed.

Lemma str_existsb_app f s t : str_existsb f (s +:+ t) = str_existsb f s || str_existsb f t.
Proof. unfold str_existsb. by rewrite str_forallb_app, negb_andb. Qed.

Lemma string6_colon u : str_existsb (Ascii.eqb ":") (string6 u) = true.
Proof.
  unfold string6. destruct (best_run _ _ _) as [start len]. destruct (Nat.eqb len 0).
  - unfold groups. cbn [seq fmap list_fmap]. rewrite join_groups_cons, !str_existsb_app.
    cbn. by rewrite orb_true_r.
  - rewrite !str_existsb_app. cbn. by rewrite orb_true_r.
Qed.

(** The body of an IPv6 text, without its zone. *)
Definition body6 (u : Z) : string :=
  if Is4In6 (Addr6 u "") then "::ffff:" +:+ string4 (Z.land u (Z.ones 32)) else string6 u.

Lemma parse6_body_body6 u : 0 <= u < 2 ^ 128 -> parse6_body (body6 u) = Some (Addr6 u "").
Proof.
  intros Hu. unfold body6. destruct (Is4In6 (Addr6 u "")) eqn:E; [|by apply parse6_body_string6].
  unfold Is4In6 in E. apply Z.eqb_eq in E. rewrite Z.land_ones by lia.
  rewrite parse6_body_4in6 by (apply Z.mod_pos_bound; lia).
  rewrite Z.shiftr_div_pow2 in E by lia. pose proof (Z.div_mod u (2 ^ 32) ltac:(lia)).
  do 2 f_equal. lia.
Qed.

Lemma dispatch_body6 u t whole : dispatch (body6 u +:+ t) whole = parseIPv6 whole.
Proof.
  unfold body6. destruct (Is4In6 _); [done|].
  apply dispatch_colon; [|apply string6_colon]. apply string6_chars; [|done].
  intros c Hc. by rewrite Hc.
Qed.

Lemma body6_chars u f :
  (forall c, is_hex c = true -> f c = true) -> f ":"%char = true -> f "."%char = true ->
  str_forallb f (body6 u) = true.
Proof.
  intros Hf Hc Hd. unfold body6. destruct (Is4In6 _); [|by apply string6_chars].
  rewrite str_forallb_app, string4_digits; [|intros c Hx; apply Hf|done].
  - cbn. by rewrite Hc, !Hf.
  - by destruct c as [[] [] [] [] [] [] [] []].
Qed.

(** [ParseAddr] reads back what [Addr.String] writes, for every valid
    address: IPv4, IPv6 with its longest zero run elided, IPv4-mapped IPv6,
    with any zone. *)
Lemma ParseAddr_AString a : IsValid a = true -> addr_wf a -> ParseAddr (AString a) = Some a.
Proof.
  intros Hv Hw. destruct a as [|u|u zone]; [done|by apply ParseAddr_string4|].
  change (AString (Addr6 u zone))
    with (body6 u +:+ (if String.eqb zone "" then "" else "%" +:+ zone)).
  unfold ParseAddr. rewrite dispatch_body6. unfold parseIPv6.
  assert (str_forallb (fun c => negb (Ascii.eqb "%" c)) (body6 u) = true) as Hp.
  { apply body6_chars; [|done..]. intros c Hc. by rewrite (is_hex_neq c "%"). }
  destruct (String.eqb_spec zone "") as [->|Hz].
  - rewrite str_app_nil_r, cut_at_none by done. by apply parse6_body_body6.
  - change ("%" +:+ zone) with (String "%" zone). rewrite cut_at_app by done.
    rewrite (proj2 (String.eqb_neq _ _)) by done. by rewrite parse6_body_body6.
Qed.

(** A prefix as [PrefixFrom] builds it from a valid address. *)
Definition prefix_wf (p : Prefix) : Prop :=
  addr_wf (PAddr p) /\ IsValid (PAddr p) = true /\ Zone (PAddr p) = ""%string
  /\ 0 <= Bits p <= BitLen (PAddr p).

#[export] Instance prefix_wf_dec p : Decision (prefix_wf p).
Proof. unfold prefix_wf. apply _. Defined.

Lemma AString_no_slash a :
  IsValid a = true -> Zone a = ""%string ->
  str_forallb (fun c => negb (Ascii.eqb "/" c)) (AString a) = true.
Proof.
  intros Hv Hz. destruct a as [|u|u zone]; [done|..].
  - apply string4_digits; [|done]. by intros [[] [] [] [] [] [] [] []].
  - cbn in Hz. subst zone.
    change (AString (Addr6 u "")) with (body6 u +:+ ""). rewrite str_app_nil_r.
    apply body6_chars; [|done..]. intros c Hc. by rewrite (is_hex_neq c "/").
Qed.

Definition bits_text_ok (b : Z) : bool :=
  str_forallb (fun c => negb (Ascii.eqb "/" c)) (Itoa b)
  && bool_decide (Atoi (Itoa b) = Some b)
  && match Itoa b with
     | String c (String _ _) => negb ((code c <? 49) || (57 <? code c))
     | _ => true
     end.

Lemma bits_texts_ok : forallb bits_text_ok (seqZ 0 129) = true.
Proof. vm_compute. reflexivity. Qed.

Lemma ParsePrefix_PString p : prefix_wf p -> ParsePrefix (PString p) = Some p.
Proof.
  intros (Hw & Hv & Hz & Hb).
  assert (BitLen (PAddr p) <= 128) as H128 by by destruct (PAddr p).
  pose proof (proj1 (forallb_forall _ _) bits_texts_ok (Bits p)) as Ht.
  specialize (Ht ltac:(apply list_elem_of_In, elem_of_seqZ; lia)). unfold bits_text_ok in Ht. bool_hyps.
  unfold PString. assert (PIsValid p = true) as -> by (unfold PIsValid, Bits in *; apply Z.ltb_lt; lia).
  cbn [negb]. unfold ParsePrefix. change ("/" +:+ Itoa (Bits p)) with (String "/" (Itoa (Bits p))).
  rewrite cut_last_app by done. rewrite ParseAddr_AString by done.
  cbn [mbind option_bind]. rewrite Hz, andb_false_r.
  assert (match Itoa (Bits p) with
          | String c (String _ _) => (code c <? 49) || (57 <? code c) | _ => false end = false) as ->
    by (revert H0; destruct (Itoa (Bits p)) as [|c [|]]; [done|done|by intros ->%negb_true_iff]).
  rewrite H1. cbn [mbind option_bind].
  assert ((if Is6 (PAddr p) then 128 else 32) = BitLen (PAddr p)) as -> by by destruct (PAddr p).
  rewrite !(proj2 (Z.ltb_ge _ _)) by lia. cbn [orb]. f_equal.
  rewrite PrefixFrom_valid by done. destruct p as [ip b]. cbn in *.
  f_equal; [by destruct ip; cbn in *; subst|unfold Bits; cbn; lia].
Qed.

(** Two prefixes with one text are the same: what keying a map by [String]
    needs. *)
Lemma PString_inj p q : prefix_wf p -> prefix_wf q -> PString p = PString q -> p = q.
Proof.
  intros Hp%ParsePrefix_PString Hq%ParsePrefix_PString E. rewrite E in Hp. congruence.
Qed.

(** ** The characters of a prefix *)

Lemma digit_hex c : is_digit c = true -> is_hex c = true.
Proof. by destruct c as [[] [] [] [] [] [] [] []]. Qed.

Lemma bits_digits_ok : forallb (fun b => str_forallb is_digit (Itoa b)) (seqZ 0 129) = true.
Proof. vm_compute. reflexivity. Qed.

Lemma PString_chars p f :
  prefix_wf p -> (forall c, is_hex c = true -> f c = true) ->
  f "."%char = true -> f ":"%char = true -> f "/"%char = true -> str_forallb f (PString p) = true.
Proof.
  intros (Hw & Hv & Hz & Hb) Hf Hd Hc Hs.
  assert (BitLen (PAddr p) <= 128) as H128 by by destruct (PAddr p).
  unfold PString. assert (PIsValid p = true) as -> by (unfold PIsValid, Bits in *; apply Z.ltb_lt; lia).
  cbn [negb]. rewrite !str_forallb_app.
  assert (str_forallb f (AString (PAddr p)) = true) as ->.
  { destruct (PAddr p) as [|u|u zone]; [done|..].
    - apply string4_digits; [|done]. intros c Hdc. by apply Hf, digit_hex.
    - cbn in Hz. subst zone. change (AString (Addr6 u "")) with (body6 u +:+ "").
      rewrite str_app_nil_r. by apply body6_chars. }
  assert (str_forallb f (Itoa (Bits p)) = true) as ->.
  { apply (str_forallb_impl is_digit); [intros c Hdc; by apply Hf, digit_hex|].
    pose proof (proj1 (forallb_forall _ _) bits_digits_ok (Bits p)) as Ht.
    apply Ht, list_elem_of_In, elem_of_seqZ. lia. }
  cbn. by rewrite Hs.
Qed.

Lemma PString_slash p :
  prefix_wf p -> exists a b, PString p = a +:+ String "/" b
    /\ str_forallb (fun d => negb (Ascii.eqb "/" d)) a = true.
Proof.
  intros (Hw & Hv & Hz & Hb). exists (AString (PAddr p)), (Itoa (Bits p)). split.
  - unfold PString. assert (PIsValid p = true) as -> by (unfold PIsValid, Bits in *; apply Z.ltb_lt; lia).
    done.
  - by apply AString_no_slash.
Qed.

Lemma PString_word p : prefix_wf p -> word (PString p) = true.
Proof.
  intros Hp. unfold word. rewrite PString_chars; [|done| |done..].
  - destruct (PString_slash p Hp) as (a & b & -> & _). by destruct a.
  - by intros [[] [] [] [] [] [] [] []].
Qed.

(** ** The length of a prefix *)

Lemma small_texts_short : forallb (fun b => Nat.leb (String.length (Itoa b)) 3) (seqZ 0 256) = true.
Proof. vm_compute. reflexivity. Qed.

Lemma Itoa_short b : 0 <= b < 256 -> (String.length (Itoa b) <= 3)%nat.
Proof.
  intros Hb. pose proof (proj1 (forallb_forall _ _) small_texts_short b) as H.
  apply Nat.leb_le, H, list_elem_of_In, elem_of_seqZ. lia.
Qed.

Lemma appendHex_length g : (String.length (appendHex g) <= 4)%nat.
Proof.
  unfold appendHex. rewrite !str_length_app.
  destruct (4096 <=? g), (256 <=? g), (16 <=? g); cbn [String.length]; lia.
Qed.

Lemma join_groups_length gs : (String.length (join_groups gs) <= 5 * length gs)%nat.
Proof.
  induction gs as [|g [|g' gs] IH]; [cbn; lia| |].
  - pose proof (appendHex_length g). cbn. lia.
  - rewrite join_groups_cons, !str_length_app. pose proof (appendHex_length g). cbn [String.length length] in *. lia.
Qed.

Lemma string4_length u : (String.length (string4 u) <= 15)%nat.
Proof.
  unfold string4. rewrite !str_length_app. cbn [String.length].
  pose proof (Itoa_short _ (land_255 (Z.shiftr u 24))). pose proof (Itoa_short _ (land_255 (Z.shiftr u 16))).
  pose proof (Itoa_short _ (land_255 (Z.shiftr u 8))). pose proof (Itoa_short _ (land_255 u)). lia.
Qed.

Lemma body6_length u : (String.length (body6 u) <= 100)%nat.
Proof.
  unfold body6. case_if.
  { rewrite str_length_app. pose proof (string4_length (Z.land u (Z.ones 32))). cbn [String.length]. lia. }
  unfold string6. destruct (best_run _ _ _) as [start len].
  pose proof (length_groups u) as Hl. case_if.
  - pose proof (join_groups_length (groups u)). lia.
  - rewrite !str_length_app. cbn [String.length].
    pose proof (join_groups_length (take start (groups u))).
    pose proof (join_groups_length (drop (start + len) (groups u))).
    rewrite length_take in *. rewrite length_drop in *. lia.
Qed.

Lemma PString_length p : prefix_wf p -> (String.length (PString p) < 110)%nat.
Proof.
  intros (Hw & Hv & Hz & Hb). assert (BitLen (PAddr p) <= 128) as H128 by by destruct (PAddr p).
  unfold PString. assert (PIsValid p = true) as -> by (unfold PIsValid, Bits in *; apply Z.ltb_lt; lia).
  cbn [negb]. rewrite !str_length_app. cbn [String.length].
  pose proof (Itoa_short (Bits p) ltac:(lia)).
  assert (String.length (AString (PAddr p)) <= 100)%nat; [|lia].
  destruct (PAddr p) as [|u|u zone]; [done| |].
  - cbn [AString]. pose proof (string4_length u). lia.
  - cbn in Hz. subst zone. change (AString (Addr6 u "")) with (body6 u +:+ "").
    rewrite str_app_nil_r. apply body6_length.
Qed.

Lemma PString_plain p : prefix_wf p -> str_forallb plain_char (PString p) = true.
Proof. intros Hp. apply PString_chars; [done| |done..]. by intros [[] [] [] [] [] [] [] []]. Qed.

Lemma PString_line p : prefix_wf p -> plain_line (PString p).
Proof. intros Hp. split; [by apply PString_plain|]. pose proof (PString_length p Hp). lia. Qed.
