(* ===== verification/Float64.v ===== *)
(** * IEEE 754 binary64, as Go's [float64] uses it

  The aggregation threshold test divides two [int]s converted to [float64] and
  compares the quotient with a [float64] constant.  The operations are those of
  the Standard Library's [SpecFloat] at precision 53 and exponent bound 1024.
  The lemmas show when the computation is exact: a positive integer below
  [2^53] over a power of two. *)

From S2P Require Import Prelude.
From Stdlib Require Import SpecFloat.

Local Open Scope Z_scope.

Module F64.

Definition of_int (n : Z) : spec_float := binary_normalize 53 1024 n 0 false.
Definition div : spec_float -> spec_float -> spec_float := SFdiv 53 1024.

(** [a >= b]. *)
Definition geb (a b : spec_float) : bool := SFleb b a.

(** The constants of the program. *)
Definition one : spec_float := of_int 1.
Definition half : spec_float := div (of_int 1) (of_int 2).
Definition three_quarters : spec_float := div (of_int 3) (of_int 4).
Definition minus_one : spec_float := of_int (-1).


(** ** Exactness *)

Lemma digits2_pos_bounds (p : positive) :
  2 ^ (Zpos (digits2_pos p) - 1) <= Zpos p < 2 ^ Zpos (digits2_pos p).
Proof.
  induction p as [p IH|p IH|]; cbn [digits2_pos]; [| |done].
  all: rewrite Pos2Z.inj_succ; set (d := Zpos (digits2_pos p)) in *.
  all: assert (0 < d) by (unfold d; lia).
  all: replace (Z.succ d - 1) with (Z.succ (d - 1)) by lia.
  all: rewrite !Z.pow_succ_r by lia; lia.
Qed.

Lemma digits2_pos_unique (p : positive) (d : Z) :
  0 < d -> 2 ^ (d - 1) <= Zpos p < 2 ^ d -> Zpos (digits2_pos p) = d.
Proof.
  intros Hd Hp. pose proof (digits2_pos_bounds p) as Hq.
  set (e := Zpos (digits2_pos p)) in *.
  assert (0 < e) by (unfold e; lia).
  destruct (Z.lt_trichotomy e d) as [Hlt|[->|Hgt]]; [|done|].
  - assert (2 ^ e <= 2 ^ (d - 1)) by (apply Z.pow_le_mono_r; lia). lia.
  - assert (2 ^ d <= 2 ^ (e - 1)) by (apply Z.pow_le_mono_r; lia). lia.
Qed.

(** The significand of [p] scaled to 53 binary digits. *)
Definition scaled (p : positive) : positive :=
  match (53 - Zpos (digits2_pos p))%Z with
  | Zpos s => Pos.iter xO p s
  | _ => p
  end.

Lemma iter_xO (p s : positive) : Zpos (Pos.iter xO p s) = Zpos p * 2 ^ Zpos s.
Proof.
  induction s as [|s IH] using Pos.peano_ind; [cbn; lia|].
  rewrite Pos.iter_succ, Pos2Z.inj_succ, Z.pow_succ_r by lia. lia.
Qed.

Lemma scaled_val (p : positive) :
  Zpos p < 2 ^ 53 ->
  Zpos (scaled p) = Zpos p * 2 ^ (53 - Zpos (digits2_pos p)).
Proof.
  intros Hp. unfold scaled.
  pose proof (digits2_pos_bounds p) as Hd.
  assert (Zpos (digits2_pos p) <= 53) as Hle.
  { destruct (Z.le_gt_cases (Zpos (digits2_pos p)) 53) as [|Hgt]; [done|].
    assert (2 ^ 53 <= 2 ^ (Zpos (digits2_pos p) - 1))
      by (apply Z.pow_le_mono_r; lia). lia. }
  destruct (53 - Zpos (digits2_pos p)) as [|s|s] eqn:E; [lia|apply iter_xO|lia].
Qed.

Lemma digits_le_53 (p : positive) :
  Zpos p < 2 ^ 53 -> 1 <= Zpos (digits2_pos p) <= 53.
Proof.
  intros Hp. split; [lia|].
  pose proof (digits2_pos_bounds p).
  destruct (Z.le_gt_cases (Zpos (digits2_pos p)) 53) as [|Hgt]; [done|].
  assert (2 ^ 53 <= 2 ^ (Zpos (digits2_pos p) - 1))
    by (apply Z.pow_le_mono_r; lia). lia.
Qed.

Lemma scaled_bounds (p : positive) :
  Zpos p < 2 ^ 53 -> 2 ^ 52 <= Zpos (scaled p) < 2 ^ 53.
Proof.
  intros Hp. rewrite scaled_val by done.
  pose proof (digits2_pos_bounds p) as [Hl Hu].
  pose proof (digits_le_53 p Hp) as Hd. set (d := Zpos (digits2_pos p)) in *.
  replace 52 with ((d - 1) + (53 - d)) by lia.
  replace (2 ^ 53) with (2 ^ d * 2 ^ (53 - d))
    by (rewrite <- Z.pow_add_r by lia; f_equal; lia).
  rewrite Z.pow_add_r by lia.
  assert (0 < 2 ^ (53 - d)) by (apply Z.pow_pos_nonneg; lia).
  split; [apply Z.mul_le_mono_pos_r|apply Z.mul_lt_mono_pos_r]; done.
Qed.

Lemma scaled_digits (p : positive) :
  Zpos p < 2 ^ 53 -> digits2_pos (scaled p) = 53%positive.
Proof.
  intros Hp. pose proof (scaled_bounds p Hp).
  assert (Zpos (digits2_pos (scaled p)) = 53); [|lia].
  apply digits2_pos_unique; [lia|]. done.
Qed.

(** Rounding leaves a 53-digit significand alone. *)
Lemma round_exact (s : bool) (m : positive) (e : Z) :
  digits2_pos m = 53%positive -> -1074 <= e <= 971 ->
  binary_round_aux 53 1024 s (Zpos m) e loc_Exact = S754_finite s m e.
Proof.
  intros Hm He. unfold binary_round_aux, shr_fexp, fexp, emin.
  cbn [Zdigits2 shr_record_of_loc]. rewrite Hm.
  replace (Z.max _ _ - e) with 0 by lia.
  cbn [shr shr_m shr_r shr_s loc_of_shr_record round_nearest_even Zdigits2 shr_record_of_loc].
  rewrite Hm. replace (Z.max _ _ - e) with 0 by lia.
  cbn [shr shr_m shr_r shr_s]. rewrite (proj2 (Z.leb_le _ _)) by lia. done.
Qed.

Lemma of_int_pos (p : positive) :
  Zpos p < 2 ^ 53 ->
  of_int (Zpos p) = S754_finite false (scaled p) (Zpos (digits2_pos p) - 53).
Proof.
  intros Hp. unfold of_int, binary_normalize, binary_round.
  pose proof (digits_le_53 p Hp) as Hd.
  assert (shl_align p 0 (fexp 53 1024 (Zpos (digits2_pos p) + 0))
          = (scaled p, Zpos (digits2_pos p) - 53)) as ->.
  { unfold shl_align, fexp, emin, scaled.
    replace (Z.max _ _ - 0) with (- (53 - Zpos (digits2_pos p))) by lia.
    destruct (53 - Zpos (digits2_pos p)) as [|s|s] eqn:E; cbn [Z.opp];
      [f_equal; lia|f_equal; lia|lia]. }
  apply round_exact; [by apply scaled_digits|lia].
Qed.

(** A power of two is [2 ^ 52] at the right exponent. *)
Lemma of_int_pow2_small (k : Z) :
  0 <= k <= 52 -> of_int (2 ^ k) = S754_finite false (2 ^ 52) (k - 52).
Proof.
  intros Hk. assert (0 < 2 ^ k) by (apply Z.pow_pos_nonneg; lia).
  assert (2 ^ k < 2 ^ 53) by (apply Z.pow_lt_mono_r; lia).
  destruct (2 ^ k) as [|p|p] eqn:E; [lia| |lia].
  assert (Zpos (digits2_pos p) = k + 1) as Hd.
  { apply digits2_pos_unique; [lia|]. rewrite <- E. split.
    - replace (k + 1 - 1) with k by lia. lia.
    - rewrite Z.pow_add_r by lia. lia. }
  rewrite of_int_pos by lia. rewrite Hd.
  f_equal; [|lia]. apply Pos2Z.inj.
  rewrite scaled_val, Hd, <- E by lia.
  rewrite <- Z.pow_add_r by lia. rewrite Pos2Z.inj_pow. f_equal. lia.
Qed.

Lemma of_int_pow2 (k : Z) :
  0 <= k <= 62 -> of_int (2 ^ k) = S754_finite false (2 ^ 52) (k - 52).
Proof.
  intros Hk. destruct (Z.le_gt_cases k 52); [apply of_int_pow2_small; lia|].
  assert (k = 53 \/ k = 54 \/ k = 55 \/ k = 56 \/ k = 57 \/ k = 58 \/ k = 59
          \/ k = 60 \/ k = 61 \/ k = 62) as Hc by lia.
  by repeat (destruct Hc as [->|Hc]; [done|]); subst k.
Qed.

Lemma of_int_min_int64 : of_int (- 2 ^ 63) = S754_finite true (2 ^ 52) 11.
Proof. by vm_compute. Qed.

(** Dividing a 53-digit significand by a power of two only moves the exponent. *)
Lemma div_pow2 (s : bool) (m : positive) (e f : Z) :
  digits2_pos m = 53%positive -> -52 <= e <= 0 -> -52 <= f <= 11 ->
  div (S754_finite false m e) (S754_finite s (2 ^ 52) f)
  = S754_finite s m (e - f - 52).
Proof.
  intros Hm He Hf. unfold div, SFdiv, SFdiv_core_binary.
  replace (xorb false s) with s by by destruct s.
  assert (Zdigits2 (Zpos m) = 53) as -> by (cbn [Zdigits2]; by rewrite Hm).
  assert (Zdigits2 (Zpos (2 ^ 52)) = 53) as -> by reflexivity.
  unfold fexp, emin.
  replace (Z.min _ _) with (e - f - 53) by lia.
  replace (e - f - (e - f - 53)) with 53 by lia. cbn iota.
  assert (Z.shiftl (Zpos m) 53 = (2 * Zpos m) * Zpos (2 ^ 52)) as ->.
  { rewrite Z.shiftl_mul_pow2 by lia. change (Zpos (2 ^ 52)) with (2 ^ 52).
    replace (2 ^ 53) with (2 * 2 ^ 52) by reflexivity. lia. }
  assert (Z.div_eucl (2 * Zpos m * Zpos (2 ^ 52)) (Zpos (2 ^ 52)) = (2 * Zpos m, 0)) as ->.
  { pose proof (Z.div_mul (2 * Zpos m) (Zpos (2 ^ 52)) ltac:(lia)) as Hd.
    pose proof (Z.mod_mul (2 * Zpos m) (Zpos (2 ^ 52)) ltac:(lia)) as Hr.
    unfold Z.div in Hd. unfold Z.modulo in Hr.
    destruct (Z.div_eucl _ _); congruence. }
  change (new_location (Zpos (2 ^ 52)) 0) with loc_Exact.
  unfold binary_round_aux, shr_fexp, fexp, emin.
  change (2 * Zpos m) with (Zpos (xO m)).
  assert (Zdigits2 (Zpos (xO m)) = 54) as ->.
  { change (Zdigits2 (Zpos (xO m))) with (Zpos (Pos.succ (digits2_pos m))). by rewrite Hm. }
  cbn [shr_record_of_loc].
  replace (Z.max _ _ - (e - f - 53)) with 1 by lia.
  cbn [shr iter_pos shr_1 shr_m loc_of_shr_record orb round_nearest_even Zdigits2 shr_record_of_loc].
  rewrite Hm. replace (Z.max _ _ - (e - f - 53 + 1)) with 0 by lia.
  cbn [shr shr_m]. rewrite (proj2 (Z.leb_le _ _)) by lia. f_equal. lia.
Qed.

(** The quotient the aggregation test computes, exactly. *)
Lemma ratio_exact (p : positive) (k : Z) :
  Zpos p < 2 ^ 53 -> 0 <= k <= 62 ->
  div (of_int (Zpos p)) (of_int (2 ^ k))
  = S754_finite false (scaled p) (Zpos (digits2_pos p) - 53 - k).
Proof.
  intros Hp Hk. pose proof (digits_le_53 p Hp).
  rewrite of_int_pos, of_int_pow2, div_pow2;
    [f_equal; lia|by apply scaled_digits|lia..].
Qed.

(** [p / 2^k >= t / 2^j], for a 53-digit [t], is the comparison of the integers. *)
Lemma geb_ratio (p t : positive) (k j : Z) :
  Zpos p < 2 ^ 53 -> 0 <= k <= 62 -> digits2_pos t = 53%positive -> 0 <= j ->
  geb (div (of_int (Zpos p)) (of_int (2 ^ k))) (S754_finite false t (- j))
  = (Zpos t * 2 ^ k <=? Zpos p * 2 ^ j).
Proof.
  intros Hp Hk Ht Hj. rewrite ratio_exact by done.
  unfold geb, SFleb, SFcompare.
  pose proof (digits_le_53 p Hp) as Hd.
  pose proof (scaled_bounds p Hp) as Hs. pose proof (scaled_val p Hp) as Hv.
  pose proof (digits2_pos_bounds t) as Hb. rewrite Ht in Hb. change (53 - 1) with 52 in Hb.
  set (d := Zpos (digits2_pos p)) in *.
  destruct (Z.compare_spec (- j) (d - 53 - k)) as [Heq|Hlt|Hgt].
  - assert (Zpos p * 2 ^ j = Zpos (scaled p) * 2 ^ k) as ->.
    { rewrite Hv, <- Z.mul_assoc, <- Z.pow_add_r by lia. f_equal. f_equal. lia. }
    change (Pos.compare_cont Eq t (scaled p)) with (Zpos t ?= Zpos (scaled p)).
    assert (0 < 2 ^ k) by (apply Z.pow_pos_nonneg; lia).
    destruct (Z.compare_spec (Zpos t) (Zpos (scaled p)));
      symmetry; (apply Z.leb_le; nia) || (apply Z.leb_gt; nia).
  - symmetry. apply Z.leb_le.
    assert (Zpos p * 2 ^ j = Zpos (scaled p) * 2 ^ (k + (d - 53 - k + j))) as ->.
    { rewrite Hv, <- Z.mul_assoc, <- Z.pow_add_r by lia. f_equal. f_equal. lia. }
    assert (2 ^ k * 2 <= 2 ^ (k + (d - 53 - k + j))).
    { replace (2 ^ k * 2) with (2 ^ (k + 1)) by (rewrite Z.pow_add_r by lia; lia).
      apply Z.pow_le_mono_r; lia. }
    assert (0 < 2 ^ k) by (apply Z.pow_pos_nonneg; lia). nia.
  - symmetry. apply Z.leb_gt.
    assert (Zpos p * 2 ^ j * 2 ^ (53 - d) = Zpos (scaled p) * 2 ^ j) as Heq
      by (rewrite Hv; lia).
    assert (2 ^ j * 2 <= 2 ^ (k + (53 - d))).
    { replace (2 ^ j * 2) with (2 ^ (j + 1)) by (rewrite Z.pow_add_r by lia; lia).
      apply Z.pow_le_mono_r; lia. }
    rewrite Z.pow_add_r in H by lia.
    assert (0 < 2 ^ k) by (apply Z.pow_pos_nonneg; lia).
    assert (0 < 2 ^ j) by (apply Z.pow_pos_nonneg; lia).
    assert (0 < 2 ^ (53 - d)) by (apply Z.pow_pos_nonneg; lia).
    apply (Z.mul_lt_mono_pos_r (2 ^ (53 - d))); [done|]. nia.
Qed.

(** The divisor has overflowed to 0: the quotient is +Inf, above every number. *)
Lemma geb_overflow_zero (p : positive) (t : spec_float) :
  Zpos p < 2 ^ 53 -> t <> S754_nan -> geb (div (of_int (Zpos p)) (of_int 0)) t = true.
Proof.
  intros Hp Ht. rewrite of_int_pos by done.
  change (of_int 0) with (S754_zero false). by destruct t as [| [] | |[]].
Qed.

(** The divisor has overflowed to [-2^63]: the quotient is negative. *)
Lemma geb_overflow_neg (p t : positive) (e : Z) :
  Zpos p < 2 ^ 53 ->
  geb (div (of_int (Zpos p)) (of_int (- 2 ^ 63))) (S754_finite false t e) = false.
Proof.
  intros Hp. pose proof (digits_le_53 p Hp).
  rewrite of_int_pos, of_int_min_int64, div_pow2; [done|by apply scaled_digits|lia..].
Qed.

Lemma one_eq : one = S754_finite false (2 ^ 52) (Z.opp 52).
Proof. by vm_compute. Qed.
Lemma half_eq : half = S754_finite false (2 ^ 52) (Z.opp 53).
Proof. by vm_compute. Qed.
Lemma three_quarters_eq : three_quarters = S754_finite false (3 * 2 ^ 51) (Z.opp 53).
Proof. by vm_compute. Qed.
Lemma minus_one_eq : minus_one = S754_finite true (2 ^ 52) (Z.opp 52).
Proof. by vm_compute. Qed.

(** The three thresholds of the program, as integer comparisons. *)
Lemma geb_one (p : positive) (k : Z) :
  Zpos p < 2 ^ 53 -> 0 <= k <= 62 ->
  geb (div (of_int (Zpos p)) (of_int (2 ^ k))) one = (2 ^ k <=? Zpos p).
Proof.
  intros Hp Hk. rewrite one_eq, (geb_ratio p (2 ^ 52) k 52) by (reflexivity || lia).
  change (Zpos (2 ^ 52)) with (2 ^ 52).
  apply eq_bool_prop_intro. rewrite !Is_true_true, !Z.leb_le.
  rewrite (Z.mul_comm (2 ^ 52)), <- Z.mul_le_mono_pos_r by done. done.
Qed.

Lemma geb_half (p : positive) (k : Z) :
  Zpos p < 2 ^ 53 -> 0 <= k <= 62 ->
  geb (div (of_int (Zpos p)) (of_int (2 ^ k))) half = (2 ^ k <=? 2 * Zpos p).
Proof.
  intros Hp Hk. rewrite half_eq, (geb_ratio p (2 ^ 52) k 53) by (reflexivity || lia).
  change (Zpos (2 ^ 52)) with (2 ^ 52). change (2 ^ 53) with (2 * 2 ^ 52).
  apply eq_bool_prop_intro. rewrite !Is_true_true, !Z.leb_le. lia.
Qed.

Lemma geb_three_quarters (p : positive) (k : Z) :
  Zpos p < 2 ^ 53 -> 0 <= k <= 62 ->
  geb (div (of_int (Zpos p)) (of_int (2 ^ k))) three_quarters
  = (3 * 2 ^ k <=? 4 * Zpos p).
Proof.
  intros Hp Hk. rewrite three_quarters_eq, (geb_ratio p (3 * 2 ^ 51) k 53) by (reflexivity || lia).
  change (Zpos (3 * 2 ^ 51)) with (3 * 2 ^ 51). change (2 ^ 53) with (4 * 2 ^ 51).
  apply eq_bool_prop_intro. rewrite !Is_true_true, !Z.leb_le. lia.
Qed.

Lemma geb_minus_one (p : positive) (k : Z) :
  Zpos p < 2 ^ 53 -> 0 <= k <= 62 ->
  geb (div (of_int (Zpos p)) (of_int (2 ^ k))) minus_one = true.
Proof. intros Hp Hk. by rewrite ratio_exact, minus_one_eq by done. Qed.

End F64.

(** The conversion to an integer type, towards zero. *)
Definition truncate (x : spec_float) : Z :=
  match x with
  | S754_finite s m e =>
      let n := if 0 <=? e then Zpos m * 2 ^ e else Z.quot (Zpos m) (2 ^ (- e)) in if s then - n else n
  | _ => 0
  end.
