(* ===== verification/Cidr.v ===== *)
(** * [pkg/cidr]: CIDR aggregation on a binary radix tree

  [tree.go]: [radixNode], [radixTree], [newRadixTree], [insert], [aggregate],
  [collectPrefixes], [countLeavesRecursive].
  [aggregate.go]: [Aggregate], [aggregateFamily], [compareAddrs].

  A Go pointer that may be nil is the constructor [Nil].  The order in which Go
  iterates over a map is unspecified: it is a parameter of [aggregateFamily]
  and [Aggregate], any enumeration of the set. *)

From S2P Require Import Prelude Netip Float64.
From Stdlib Require Import SpecFloat.

Local Open Scope Z_scope.

(** ** The tree *)

Inductive radixNode : Type :=
| Nil
| Node (left right : radixNode) (isLeaf : bool) (prefix : Prefix).

Record radixTree : Type := MkTree { t_root : radixNode; t_bits : Z; t_isV6 : bool }.

(** [&radixNode{}]. *)
Definition emptyNode : radixNode := Node Nil Nil false zeroPrefix.

Definition newRadixTree (isV6 : bool) : radixTree :=
  MkTree emptyNode (if isV6 then 128 else 32) isV6.

(** The loop of [insert] from [depth] on, [n = prefixLen - depth] levels above
    the leaf; a nil child is allocated on the way down. *)
Fixpoint insert_loop (bytes : list Z) (byteOffset : Z) (prefix : Prefix)
    (n : nat) (depth : Z) (node : radixNode) : radixNode :=
  let '(l, r, lf, p) :=
    match node with
    | Nil => (Nil, Nil, false, zeroPrefix)
    | Node l r lf p => (l, r, lf, p)
    end in
  match n with
  | O => Node l r true prefix
  | S n' =>
      let bit := bit_at bytes byteOffset depth in
      if bit =? 0
      then Node (insert_loop bytes byteOffset prefix n' (depth + 1) l) r lf p
      else Node l (insert_loop bytes byteOffset prefix n' (depth + 1) r) lf p
  end.

Definition insert (t : radixTree) (addr : Addr) : radixTree :=
  if negb (IsValid addr) then t else
  let prefixLen := if Is6 addr then 128 else 32 in
  let prefix := PrefixFrom addr prefixLen in
  let bytes := As16 addr in
  let byteOffset := if Is4 addr then 12 else 0 in
  MkTree (insert_loop bytes byteOffset prefix (Z.to_nat prefixLen) 0 (t_root t))
    (t_bits t) (t_isV6 t).

Fixpoint countLeavesRecursive (node : radixNode) : Z :=
  match node with
  | Nil => 0
  | Node l r isLeaf _ =>
      if isLeaf then 1 else countLeavesRecursive l + countLeavesRecursive r
  end.

(** [float64(totalCount)/float64(maxPossible) >= threshold] with
    [maxPossible := 1 << (t.bits - depth)] at type [int]. *)
Definition ratio_ge (bits depth totalCount : Z) (threshold : spec_float) : bool :=
  F64.geb (F64.div (F64.of_int totalCount) (F64.of_int (shl1_int (bits - depth)))) threshold.

Definition canMerge (bits depth totalCount : Z) (threshold : spec_float) (maxPrefix : Z) : bool :=
  (0 <? depth) && (maxPrefix <=? depth) && ratio_ge bits depth totalCount threshold.

(** The prefix emitted by a merge at [depth]. *)
Definition merged_prefix (isV6 : bool) (addrBytes : list Z) (depth : Z) : Prefix :=
  let addr := if isV6 then AddrFrom16 addrBytes else AddrFrom4 (drop 12 addrBytes) in
  Masked (PrefixFrom addr depth).

Fixpoint collectPrefixes (bits : Z) (isV6 : bool) (threshold : spec_float) (maxPrefix : Z)
    (node : radixNode) (depth : Z) (addrBytes : list Z) : list Prefix :=
  match node with
  | Nil => []
  | Node l r isLeaf prefix =>
      if isLeaf then [prefix] else
      let leftPrefixes :=
        collectPrefixes bits isV6 threshold maxPrefix l (depth + 1) addrBytes in
      let rightBytes :=
        if depth <? bits
        then set_bit addrBytes (if isV6 then 0 else 12) depth else addrBytes in
      let rightPrefixes :=
        collectPrefixes bits isV6 threshold maxPrefix r (depth + 1) rightBytes in
      let leftCount := countLeavesRecursive l in
      let rightCount := countLeavesRecursive r in
      let totalCount := leftCount + rightCount in
      if totalCount =? 0 then []
      else if (leftCount =? 0) || (rightCount =? 0) then leftPrefixes ++ rightPrefixes
      else if canMerge bits depth totalCount threshold maxPrefix
      then [merged_prefix isV6 addrBytes depth]
      else leftPrefixes ++ rightPrefixes
  end.

Definition aggregate (t : radixTree) (threshold : spec_float) (maxPrefix : Z) : list Prefix :=
  collectPrefixes (t_bits t) (t_isV6 t) threshold maxPrefix (t_root t) 0 (replicate 16 0).

(** ** Aggregation of a list of addresses *)

(** The loop of [compareAddrs] over the two byte arrays. *)
Fixpoint bytes_less (a b : list Z) : bool :=
  match a, b with
  | x :: a', y :: b' => if x <? y then true else if y <? x then false else bytes_less a' b'
  | _, _ => false
  end.

Definition compareAddrs (a b : Addr) : bool := bytes_less (As16 a) (As16 b).

Definition clampMaxPrefix (isV6 : bool) (maxPrefix : Z) : Z :=
  Z.min (Z.max maxPrefix 0) (if isV6 then 128 else 32).

Section Aggregate.
(** The enumeration [for addr := range addrSet]. *)
Context (map_order : gset Addr -> list Addr).

Definition aggregateFamily (addrs : list Addr) (isV6 : bool) (threshold : spec_float)
    (maxPrefix : Z) : list Prefix :=
  let maxPrefix := clampMaxPrefix isV6 maxPrefix in
  let addrSet : gset Addr := list_to_set addrs in
  let uniqueAddrs := go_sort compareAddrs (map_order addrSet) in
  let tree := fold_left insert uniqueAddrs (newRadixTree isV6) in
  aggregate tree threshold maxPrefix.

Definition Aggregate (addrs : list Addr) (threshold : spec_float) (maxPrefix : Z)
    : list Prefix :=
  let v4addrs := List.filter (fun a => IsValid a && Is4 a) addrs in
  let v6addrs := List.filter (fun a => IsValid a && negb (Is4 a) && Is6 a) addrs in
  let result :=
    (if Nat.ltb 0 (length v4addrs) then aggregateFamily v4addrs false threshold maxPrefix else [])
    ++ (if Nat.ltb 0 (length v6addrs) then aggregateFamily v6addrs true threshold maxPrefix
        else []) in
  go_sort (fun p q => compareAddrs (PAddr p) (PAddr q)) result.
End Aggregate.

