(* ===== verification/CidrFacts.v ===== *)
(** * Correctness of [pkg/cidr]

  The byte-level tree operations are related to numbers: a subtree of height
  [h] at [base] holds addresses of [[base, base + 2^h)].  [members] lists them,
  [coll] is the aggregation on numbers, and the theorems about the emitted
  intervals are lifted to [aggregateFamily] and [Aggregate]. *)

From S2P Require Import Prelude Netip Float64 Cidr.
From Stdlib Require Import SpecFloat.

Local Open Scope Z_scope.

(** ** Arithmetic of aligned intervals *)

Abbreviation pow2 h := (2 ^ Z.of_nat h).

Lemma pow2_S (h : nat) : pow2 (S h) = 2 * pow2 h.
Proof. rewrite Nat2Z.inj_succ, Z.pow_succ_r by lia. done. Qed.

Lemma pow2_pos (h : nat) : 0 < pow2 h.
Proof. apply Z.pow_pos_nonneg; lia. Qed.

Definition aligned (h : nat) (base : Z) : Prop := 0 <= base /\ base mod pow2 h = 0.

Lemma aligned_left h base : aligned (S h) base -> aligned h base.
Proof.
  intros [Hb Hm]. split; [done|]. rewrite pow2_S in Hm.
  pose proof (pow2_pos h).
  rewrite (Z.div_mod base (2 * pow2 h)), Hm by lia.
  replace (2 * pow2 h * (base / (2 * pow2 h)) + 0)
    with (2 * (base / (2 * pow2 h)) * pow2 h) by lia.
  by rewrite Z.mod_mul by lia.
Qed.

Lemma aligned_right h base : aligned (S h) base -> aligned h (base + pow2 h).
Proof.
  intros Ha. destruct (aligned_left _ _ Ha) as [Hb Hm].
  pose proof (pow2_pos h). split; [lia|].
  replace (base + pow2 h) with (base + 1 * pow2 h) by lia.
  by rewrite Z.mod_add by lia.
Qed.

(** Bit [h] of a number of the interval tells which half it is in. *)
Lemma testbit_half (h : nat) (base x : Z) :
  aligned (S h) base -> base <= x < base + pow2 (S h) ->
  Z.testbit x (Z.of_nat h) = (base + pow2 h <=? x).
Proof.
  intros [Hb Hm] Hx. rewrite pow2_S in *. pose proof (pow2_pos h) as Hp.
  pose proof (Z.div_mod base (2 * pow2 h) ltac:(lia)) as Eb.
  rewrite Hm in Eb. set (q := base / (2 * pow2 h)) in *.
  assert (Z.testbit x (Z.of_nat h) = Z.odd (x / pow2 h)) as ->.
  { rewrite <- Z.bit0_odd, Z.div_pow2_bits by lia. done. }
  destruct (Z.leb_spec (base + pow2 h) x) as [Hle|Hlt].
  - replace (x / pow2 h) with (2 * q + 1); [by rewrite Z.odd_add, Z.odd_mul|].
    apply (Z.div_unique x (pow2 h) (2 * q + 1) (x - base - pow2 h)); lia.
  - replace (x / pow2 h) with (2 * q); [by rewrite Z.odd_mul|].
    apply (Z.div_unique x (pow2 h) (2 * q) (x - base)); lia.
Qed.

(** A block of [2^k] addresses contains every aligned interval it meets. *)
Lemma div_same (h : nat) (k base x y : Z) :
  aligned h base -> Z.of_nat h <= k -> base <= x < base + pow2 h -> base <= y < base + pow2 h ->
  x / 2 ^ k = y / 2 ^ k.
Proof.
  intros [Hb Hm] Hk Hx Hy. pose proof (pow2_pos h) as Hp.
  replace k with (Z.of_nat h + (k - Z.of_nat h)) by lia.
  rewrite Z.pow_add_r by lia. assert (0 < 2 ^ (k - Z.of_nat h)) by (apply Z.pow_pos_nonneg; lia).
  pose proof (Z.div_mod base (pow2 h) ltac:(lia)) as Eb. rewrite Hm in Eb.
  assert (forall z, base <= z < base + pow2 h -> z / pow2 h = base / pow2 h) as Hz.
  { intros z Hz. symmetry. apply (Z.div_unique_pos _ _ _ (z - base)); lia. }
  rewrite <- !Z.div_div by lia. by rewrite (Hz x), (Hz y).
Qed.

(** A block of [2^k] addresses never straddles a boundary of a coarser grid. *)
Lemma div_split (h : nat) (k m x y : Z) :
  aligned h m -> 0 <= k <= Z.of_nat h -> x < m <= y -> x / 2 ^ k <> y / 2 ^ k.
Proof.
  intros [Hb Hm] Hk Hxy Heq.
  assert (0 < 2 ^ k) as Hp by (apply Z.pow_pos_nonneg; lia).
  pose proof (Z.div_mod m (pow2 h) ltac:(pose proof (pow2_pos h); lia)) as Em.
  replace (Z.of_nat h) with (k + (Z.of_nat h - k)) in * by lia.
  rewrite Z.pow_add_r in * by lia. rewrite Hm in Em.
  set (q := 2 ^ (Z.of_nat h - k) * (m / (2 ^ k * 2 ^ (Z.of_nat h - k)))).
  assert (m = 2 ^ k * q) as E by (unfold q; lia).
  assert (x / 2 ^ k < q) by (apply Z.div_lt_upper_bound; lia).
  assert (q <= y / 2 ^ k) by (apply Z.div_le_lower_bound; lia). lia.
Qed.

#[export] Hint Resolve aligned_left aligned_right pow2_pos : d2ip.

(** ** Insertion on numbers *)

Fixpoint ins (p : Prefix) (h : nat) (x : Z) (node : radixNode) : radixNode :=
  let '(l, r, lf, q) :=
    match node with
    | Nil => (Nil, Nil, false, zeroPrefix)
    | Node l r lf q => (l, r, lf, q)
    end in
  match h with
  | O => Node l r true p
  | S h' =>
      if Z.testbit x (Z.of_nat h') then Node l (ins p h' x r) lf q
      else Node (ins p h' x l) r lf q
  end.

Lemma insert_loop_ins (bytes : list Z) (off : Z) (p : Prefix) (x w : Z) (h : nat) :
  (forall d, 0 <= d < w -> bit_at bytes off d = Z.b2z (Z.testbit x (w - 1 - d))) ->
  forall depth node, 0 <= depth -> depth + Z.of_nat h = w ->
  insert_loop bytes off p h depth node = ins p h x node.
Proof.
  intros Hbit. induction h as [|h IH]; intros depth node Hd Hw.
  { by destruct node. }
  assert (w - 1 - depth = Z.of_nat h) as Hb by lia.
  destruct node as [|l r lf q]; cbn [insert_loop ins];
    rewrite Hbit, Hb by lia; destruct (Z.testbit x (Z.of_nat h)); cbn [Z.b2z];
    change (0 =? 0) with true; change (1 =? 0) with false; cbn iota;
    by rewrite IH by lia.
Qed.

(** The bits [insert] reads are those of the address. *)
Lemma As16_bits (a : Addr) (d : Z) :
  IsValid a = true -> addr_wf a -> 0 <= d < BitLen a ->
  bit_at (As16 a) (if Is4 a then 12 else 0) d
  = Z.b2z (Z.testbit (addr_num a) (BitLen a - 1 - d)).
Proof.
  intros Hv Hw Hd. unfold As16, addr_wf in *.
  assert (d / 8 < BitLen a / 8) as Hd8.
  { destruct a; [done|..]; cbn [BitLen] in *;
      apply Z.div_lt_upper_bound; change (32 / 8) with 4; change (128 / 8) with 16; lia. }
  destruct a as [|u|u z]; [done|..]; cbn [Is4 addr128 addr_num BitLen] in *.
  - rewrite bit_at_be_bytes by (change (32 / 8) with 4 in Hd8; lia).
    f_equal. replace (8 * Z.of_nat 16 - 1 - (8 * 12 + d)) with (32 - 1 - d) by lia.
    replace (65535 * 2 ^ 32 + u) with (u + 65535 * 2 ^ 32) by lia.
    rewrite <- (Z.mod_pow2_bits_low (u + _) 32) by lia.
    by rewrite Z.mod_add, Z.mod_small by lia.
  - rewrite bit_at_be_bytes by (change (128 / 8) with 16 in Hd8; lia).
    do 2 f_equal; lia.
Qed.

Lemma insert_ins (t : radixTree) (a : Addr) :
  IsValid a = true -> addr_wf a ->
  insert t a = MkTree (ins (PrefixFrom a (BitLen a)) (Z.to_nat (BitLen a)) (addr_num a) (t_root t))
                 (t_bits t) (t_isV6 t).
Proof.
  intros Hv Hw. unfold insert. rewrite Hv. cbn [negb].
  assert ((if Is6 a then 128 else 32) = BitLen a) as -> by by destruct a.
  f_equal. apply insert_loop_ins with (w := BitLen a).
  - intros d Hd. by apply As16_bits.
  - lia.
  - pose proof (BitLen_nonneg a). lia.
Qed.

(** Insertions at different numbers, or of the same prefix, commute. *)
Lemma ins_comm (p q : Prefix) (x y : Z) (h : nat) :
  (x mod pow2 h = y mod pow2 h -> p = q) ->
  forall node, ins p h x (ins q h y node) = ins q h y (ins p h x node).
Proof.
  induction h as [|h IH]; intros Heq node.
  { rewrite (Heq ltac:(by rewrite !Z.mod_1_r)). by destruct node. }
  assert (Z.testbit x (Z.of_nat h) = Z.testbit y (Z.of_nat h) ->
          x mod pow2 h = y mod pow2 h -> p = q) as Heq'.
  { intros Hb Hm. apply Heq. apply Z.bits_inj'. intros n Hn.
    destruct (Z.lt_ge_cases n (Z.of_nat (S h))) as [Hlt|];
      [|by rewrite !Z.mod_pow2_bits_high by lia].
    rewrite !Z.mod_pow2_bits_low by lia.
    destruct (decide (n = Z.of_nat h)) as [->|Hne]; [done|].
    rewrite <- (Z.mod_pow2_bits_low x (Z.of_nat h)), <- (Z.mod_pow2_bits_low y (Z.of_nat h))
      by lia. by rewrite Hm. }
  destruct node as [|l r lf pr]; cbn [ins];
    destruct (Z.testbit x (Z.of_nat h)), (Z.testbit y (Z.of_nat h)); cbn [ins];
    try done; f_equal; apply IH; auto.
Qed.

(** ** Well-formed trees and their members *)

Section Tree.
Context (mk : Z -> Prefix).

(** Height [h], addresses in [[base, base + 2^h)]: inner nodes are not leaves,
    a node of height 0 is the leaf of [base]. *)
Fixpoint wf (h : nat) (base : Z) (t : radixNode) {struct t} : Prop :=
  match t with
  | Nil => True
  | Node l r lf p =>
      match h with
      | O => l = Nil /\ r = Nil /\ lf = true /\ p = mk base
      | S h' => lf = false /\ wf h' base l /\ wf h' (base + pow2 h') r
      end
  end.

Fixpoint members (h : nat) (base : Z) (t : radixNode) {struct t} : list Z :=
  match t with
  | Nil => []
  | Node l r _ _ =>
      match h with
      | O => [base]
      | S h' => members h' base l ++ members h' (base + pow2 h') r
      end
  end.

Lemma members_range h base t x : x ∈ members h base t -> base <= x < base + pow2 h.
Proof.
  revert h base. induction t as [|l IHl r IHr lf p]; intros h base; cbn.
  { by intros ?%elem_of_nil. }
  destruct h as [|h].
  - intros ->%list_elem_of_singleton. change (pow2 0) with 1. lia.
  - rewrite pow2_S. pose proof (pow2_pos h).
    intros [H1|H1]%elem_of_app; [apply IHl in H1|apply IHr in H1]; lia.
Qed.

Lemma members_sorted h base t : StronglySorted Z.lt (members h base t).
Proof.
  revert h base. induction t as [|l IHl r IHr lf p]; intros h base; cbn; [constructor|].
  destruct h as [|h]; [by repeat constructor|].
  apply StronglySorted_app; [done..|].
  intros x y Hx%members_range Hy%members_range. lia.
Qed.

Lemma wf_emptyNode h base : (0 < h)%nat -> wf h base emptyNode.
Proof. destruct h; [lia|done]. Qed.

Lemma members_emptyNode h base : (0 < h)%nat -> members h base emptyNode = [].
Proof. destruct h; [lia|done]. Qed.

(** Insertion keeps the shape and adds exactly its address. *)
Lemma ins_wf h base x t :
  aligned h base -> base <= x < base + pow2 h ->
  wf h base t -> wf h base (ins (mk x) h x t).
Proof.
  revert base t. induction h as [|h IH]; intros base t Ha Hx Hw.
  { change (pow2 0) with 1 in Hx. assert (x = base) as -> by lia.
    destruct t; cbn in *; naive_solver. }
  rewrite pow2_S in Hx.
  pose proof (testbit_half h base x Ha ltac:(rewrite pow2_S; lia)) as Hb.
  destruct t as [|l r lf p]; cbn [ins] in *; rewrite Hb;
    destruct (Z.leb_spec (base + pow2 h) x); cbn [wf] in *; split_and?; try done;
    try apply IH; (by eauto with d2ip) || naive_solver lia.
Qed.

Lemma ins_members h base x t y :
  aligned h base -> base <= x < base + pow2 h ->
  y ∈ members h base (ins (mk x) h x t) <-> y = x \/ y ∈ members h base t.
Proof.
  revert base t. induction h as [|h IH]; intros base t Ha Hx.
  { change (pow2 0) with 1 in Hx. assert (x = base) as -> by lia.
    destruct t; cbn; set_solver. }
  rewrite pow2_S in Hx.
  pose proof (testbit_half h base x Ha ltac:(rewrite pow2_S; lia)) as Hb.
  destruct t as [|l r lf p]; cbn [ins]; rewrite Hb;
    destruct (Z.leb_spec (base + pow2 h) x); cbn [members];
    rewrite ?elem_of_app, IH by (eauto with d2ip || lia); cbn [members]; set_solver.
Qed.

(** The count of leaves is the number of members. *)
Lemma countLeaves_members h base t :
  wf h base t -> countLeavesRecursive t = Z.of_nat (length (members h base t)).
Proof.
  revert h base. induction t as [|l IHl r IHr lf p]; intros h base; [done|].
  destruct h as [|h]; cbn.
  - by intros (_ & _ & -> & _).
  - intros (-> & Hl & Hr).
    rewrite (IHl _ _ Hl), (IHr _ _ Hr), length_app. lia.
Qed.
End Tree.

(** ** Aggregation on numbers *)

Section Coll.
Context (w : Z) (threshold : spec_float) (maxPrefix : Z).

(** The intervals [(base, length)] emitted for a subtree. *)
Fixpoint coll (h : nat) (base : Z) (t : radixNode) {struct t} : list (Z * Z) :=
  match t with
  | Nil => []
  | Node l r _ _ =>
      match h with
      | O => [(base, w)]
      | S h' =>
          let L := coll h' base l in
          let R := coll h' (base + pow2 h') r in
          let cl := Z.of_nat (length (members h' base l)) in
          let cr := Z.of_nat (length (members h' (base + pow2 h') r)) in
          if (cl =? 0) || (cr =? 0) then L ++ R
          else if canMerge w (w - Z.of_nat h) (cl + cr) threshold maxPrefix
          then [(base, w - Z.of_nat h)] else L ++ R
      end
  end.

(** A subtree without members emits nothing. *)
Lemma coll_no_members h base t : members h base t = [] -> coll h base t = [].
Proof.
  revert h base. induction t as [|l IHl r IHr lf p]; intros h base; cbn; [done|].
  destruct h as [|h]; [done|]. intros [Hl Hr]%app_nil.
  by rewrite Hl, Hr, IHl, IHr.
Qed.
End Coll.

(** ** The byte path of a subtree *)

Definition width (isV6 : bool) : Z := if isV6 then 128 else 32.
Definition offset (isV6 : bool) : Z := if isV6 then 0 else 12.
Definition mkAddr (isV6 : bool) (n : Z) : Addr := if isV6 then Addr6 n "" else Addr4 n.

Record path_ok (isV6 : bool) (bytes : list Z) (base depth : Z) : Prop := {
  path_len : length bytes = 16%nat;
  path_val : be_val (drop (Z.to_nat (offset isV6)) bytes) = base;
  path_low : forall d, depth <= d < width isV6 ->
    Z.testbit (byte_at bytes (offset isV6 + d / 8)) (7 - d mod 8) = false
}.

(** The byte index computed for a bit of the family stays in the array. *)
Lemma byte_index_range isV6 d :
  0 <= d < width isV6 ->
  0 <= d / 8 < width isV6 / 8 /\ offset isV6 + width isV6 / 8 = 16
  /\ 0 <= offset isV6 /\ width isV6 = 8 * (width isV6 / 8).
Proof.
  intros Hd. split_and!; [apply Z.div_pos; lia| |by destruct isV6..].
  destruct isV6; cbn in *; apply Z.div_lt_upper_bound;
    change (32 / 8) with 4; change (128 / 8) with 16; lia.
Qed.

Lemma path_ok_root isV6 : path_ok isV6 (replicate 16 0) 0 0.
Proof.
  split; [by destruct isV6..|]. intros d Hd.
  assert (byte_at (replicate 16 0) (offset isV6 + d / 8) = 0) as ->; [|by rewrite Z.bits_0].
  unfold byte_at. apply lookup_total_replicate_2.
  pose proof (byte_index_range isV6 d Hd). lia.
Qed.

Lemma path_ok_left isV6 bytes base depth :
  path_ok isV6 bytes base depth -> path_ok isV6 bytes base (depth + 1).
Proof. intros []. split; [done..|]. intros d Hd. apply path_low0. lia. Qed.

Lemma path_ok_right isV6 bytes base depth :
  0 <= depth < width isV6 ->
  path_ok isV6 bytes base depth ->
  path_ok isV6 (set_bit bytes (offset isV6) depth) (base + 2 ^ (width isV6 - 1 - depth)) (depth + 1).
Proof.
  intros Hd [Hlen Hval Hlow].
  destruct (byte_index_range isV6 depth Hd) as (Hi & Hoff & Hoff0 & Hw8).
  pose proof (Z.div_mod depth 8 ltac:(lia)). pose proof (Z.mod_pos_bound depth 8 ltac:(lia)).
  pose proof (Hlow depth ltac:(lia)) as Hbit.
  unfold set_bit. set (i := offset isV6 + depth / 8) in *.
  set (y := byte_at bytes i) in *. rewrite lor_disjoint_add by (done || lia).
  split.
  - by rewrite length_insert.
  - rewrite drop_insert_ge by (unfold i; lia).
    rewrite be_val_insert by (rewrite length_drop; unfold i; lia).
    rewrite Hval. f_equal. rewrite lookup_total_drop, length_drop, Hlen.
    replace (Z.to_nat (offset isV6) + (Z.to_nat i - Z.to_nat (offset isV6)))%nat
      with (Z.to_nat i) by (unfold i; lia).
    change (bytes !!! Z.to_nat i) with y.
    replace (y + 2 ^ (7 - depth mod 8) - y) with (2 ^ (7 - depth mod 8)) by lia.
    change 256 with (2 ^ 8). rewrite <- Z.pow_mul_r, <- Z.pow_add_r by (unfold i; lia).
    f_equal. unfold i. lia.
  - intros d Hd'. pose proof (Hlow d ltac:(lia)) as Hbd.
    unfold byte_at. pose proof (Z.div_pos d 8 ltac:(lia) ltac:(lia)).
    destruct (decide (d / 8 = depth / 8)) as [He|He].
    + rewrite He. fold i. rewrite list_lookup_total_insert_eq by (unfold i; lia).
      rewrite <- lor_disjoint_add by (done || lia).
      rewrite Z.lor_spec, Z.shiftl_1_l. rewrite He in Hbd. fold i in Hbd.
      fold y in Hbd. rewrite Hbd. pose proof (Z.div_mod d 8 ltac:(lia)).
      pose proof (Z.mod_pos_bound d 8 ltac:(lia)).
      rewrite Z.pow2_bits_false by lia. done.
    + rewrite list_lookup_total_insert_ne by (unfold i; lia). apply Hbd.
Qed.

Lemma path_ok_addr isV6 bytes base depth :
  path_ok isV6 bytes base depth ->
  (if isV6 then AddrFrom16 bytes else AddrFrom4 (drop 12 bytes)) = mkAddr isV6 base.
Proof. intros [_ Hv _]. by destruct isV6; cbn in *; rewrite <- Hv. Qed.

(** ** The byte-level aggregation computes [coll] *)

Definition to_prefix (isV6 : bool) (i : Z * Z) : Prefix := PrefixFrom (mkAddr isV6 i.1) i.2.

Lemma mkAddr_props isV6 n :
  IsValid (mkAddr isV6 n) = true /\ BitLen (mkAddr isV6 n) = width isV6
  /\ addr_num (mkAddr isV6 n) = n.
Proof. by destruct isV6. Qed.

Lemma merged_prefix_eq isV6 bytes base depth :
  path_ok isV6 bytes base depth -> 0 <= depth <= width isV6 ->
  base mod 2 ^ (width isV6 - depth) = 0 ->
  merged_prefix isV6 bytes depth = to_prefix isV6 (base, depth).
Proof.
  intros Hp Hd Hm. unfold merged_prefix. rewrite (path_ok_addr _ _ _ _ Hp).
  destruct (mkAddr_props isV6 base) as (Hv & Hl & Hn).
  apply Masked_PrefixFrom; [done|by rewrite Hl|by rewrite Hl, Hn].
Qed.

Lemma collect_coll isV6 threshold maxPrefix :
  let w := width isV6 in
  let mk n := to_prefix isV6 (n, w) in
  forall t h base bytes,
  wf mk h base t -> aligned h base -> Z.of_nat h <= w ->
  path_ok isV6 bytes base (w - Z.of_nat h) ->
  collectPrefixes w isV6 threshold maxPrefix t (w - Z.of_nat h) bytes
  = to_prefix isV6 <$> coll w threshold maxPrefix h base t.
Proof.
  intros w mk t. induction t as [|l IHl r IHr lf p]; intros h base bytes Hwf Ha Hh Hp; [done|].
  destruct h as [|h]; cbn in Hwf; cbn [collectPrefixes coll].
  { by destruct Hwf as (-> & -> & -> & ->). }
  destruct Hwf as (-> & Hwl & Hwr).
  rewrite (proj2 (Z.ltb_lt _ _)) by lia.
  replace (w - Z.of_nat (S h) + 1) with (w - Z.of_nat h) by lia.
  pose proof (path_ok_left _ _ _ _ Hp) as Hpl.
  assert (0 <= w - Z.of_nat (S h) < w) as Hd by lia.
  pose proof (path_ok_right _ _ _ _ Hd Hp) as Hpr.
  fold w in Hpl, Hpr.
  replace (w - 1 - (w - Z.of_nat (S h))) with (Z.of_nat h) in Hpr by lia.
  replace (w - Z.of_nat (S h) + 1) with (w - Z.of_nat h) in Hpl, Hpr by lia.
  change (if isV6 then 0 else 12) with (offset isV6).
  rewrite (IHl h base bytes) by (eauto with d2ip || lia).
  rewrite (IHr h (base + pow2 h) _) by (eauto with d2ip || lia).
  rewrite (countLeaves_members mk h base l), (countLeaves_members mk h (base + pow2 h) r) by done.
  set (cl := length (members h base l)) in *.
  set (cr := length (members h (base + pow2 h) r)) in *.
  destruct (Z.eqb_spec (Z.of_nat cl + Z.of_nat cr) 0) as [E|E].
  - rewrite !coll_no_members by (apply nil_length_inv; unfold cl, cr in *; lia).
    by rewrite (proj2 (Z.eqb_eq (Z.of_nat cl) 0)) by lia.
  - destruct (_ || _) eqn:E1; [by rewrite fmap_app|].
    destruct (canMerge _ _ _ _ _); [|by rewrite fmap_app].
    cbn. f_equal. apply merged_prefix_eq; [done|unfold w in *; lia|].
    fold w. replace (w - (w - Z.of_nat (S h))) with (Z.of_nat (S h)) by lia. apply Ha.
Qed.

(** ** The emitted intervals *)

Section CollFacts.
Context (w : Z) (threshold : spec_float) (maxPrefix : Z).
Implicit Types (i j : Z * Z).

Definition lo (i : Z * Z) : Z := i.1.
Definition hi (i : Z * Z) : Z := i.1 + 2 ^ (w - i.2).
Definition within (i : Z * Z) (x : Z) : Prop := lo i <= x < hi i.

#[global] Instance within_dec i x : Decision (within i x).
Proof. unfold within. apply _. Defined.

(** The number of members an interval holds. *)
Definition population (i : Z * Z) (l : list Z) : Z := Z.of_nat (length (filter (within i) l)).

Lemma population_app i l1 l2 : population i (l1 ++ l2) = population i l1 + population i l2.
Proof. unfold population. rewrite filter_app, length_app. lia. Qed.

Lemma population_out i l :
  (forall x, x ∈ l -> ~ within i x) -> population i l = 0.
Proof.
  intros Hl. unfold population. by rewrite filter_none.
Qed.

Lemma population_all i l :
  (forall x, x ∈ l -> within i x) -> population i l = Z.of_nat (length l).
Proof. intros Hl. unfold population. by rewrite filter_every. Qed.

Notation coll := (coll w threshold maxPrefix).

(** What holds of every emitted interval of a subtree. *)
Record good (h : nat) (base : Z) (t : radixNode) (i : Z * Z) : Prop := {
  good_lo : base <= lo i;
  good_hi : hi i <= base + pow2 h;
  good_len : 0 <= i.2 <= w;
  good_aligned : 0 <= lo i /\ lo i mod 2 ^ (w - i.2) = 0;
  good_kind : (i.2 = w /\ lo i ∈ members h base t)
    \/ (0 < population i (members h base t)
        /\ canMerge w i.2 (population i (members h base t)) threshold maxPrefix = true)
}.

Lemma good_weaken_left h base l r lf p i :
  good h base l i -> good (S h) base (Node l r lf p) i.
Proof.
  intros [Hlo Hhi Hlen Hal Hk]. split; [done|rewrite pow2_S; pose proof (pow2_pos h); lia|done..|].
  cbn. destruct Hk as [[Hw Hm]|Hk]; [left; set_solver|right].
  rewrite population_app, (population_out i (members _ (base + _) r)); [by rewrite Z.add_0_r|].
  intros x Hx%members_range [_ ?]. lia.
Qed.

Lemma good_weaken_right h base l r lf p i :
  good h (base + pow2 h) r i -> good (S h) base (Node l r lf p) i.
Proof.
  intros [Hlo Hhi Hlen Hal Hk]. pose proof (pow2_pos h).
  split; [lia|rewrite pow2_S; lia|done..|].
  cbn. destruct Hk as [[Hw Hm]|Hk]; [left; set_solver|right].
  rewrite population_app, (population_out i (members _ base l)); [done|].
  intros x Hx%members_range [? _]. lia.
Qed.

Lemma coll_good h base t i :
  aligned h base -> Z.of_nat h <= w -> i ∈ coll h base t -> good h base t i.
Proof.
  revert h base. induction t as [|l IHl r IHr lf p]; intros h base Ha Hh; cbn.
  { by intros ?%elem_of_nil. }
  destruct h as [|h].
  - intros ->%list_elem_of_singleton. destruct Ha as [Ha _].
    split; unfold lo, hi; cbn [fst snd]; rewrite ?Z.sub_diag;
      [lia|cbn; lia|lia|split; [lia|apply Z.mod_1_r]|left; split; [done|left]].
  - assert (i ∈ coll h base l ++ coll h (base + pow2 h) r -> good (S h) base (Node l r lf p) i)
      as Happ.
    { intros [Hi|Hi]%elem_of_app.
      - apply good_weaken_left, IHl; eauto with d2ip; lia.
      - apply good_weaken_right, IHr; eauto with d2ip; lia. }
    destruct (_ || _) eqn:Hz; [done|]. destruct (canMerge _ _ _ _ _) eqn:Hm; [|done].
    intros ->%list_elem_of_singleton. clear Happ. bool_hyps.
    assert (w - (w - Z.of_nat (S h)) = Z.of_nat (S h)) as Hws by lia.
    split; unfold hi, lo; cbn [fst snd]; rewrite ?Hws; [lia|lia|lia|apply Ha|].
    right. cbn [members]. rewrite population_all;
      [rewrite length_app, Nat2Z.inj_add; split; [lia|done]|].
    intros x Hx. unfold within, lo, hi. cbn [fst snd]. rewrite Hws.
    apply (members_range (S h) base (Node l r lf p)). done.
Qed.

(** The intervals are disjoint and in increasing order. *)
Lemma coll_sorted h base t :
  aligned h base -> Z.of_nat h <= w ->
  StronglySorted (fun i j => hi i <= lo j) (coll h base t).
Proof.
  revert h base. induction t as [|l IHl r IHr lf p]; intros h base Ha Hh; cbn; [constructor|].
  destruct h as [|h]; [by repeat constructor|].
  assert (StronglySorted (fun i j => hi i <= lo j) (coll h base l ++ coll h (base + pow2 h) r)).
  { apply StronglySorted_app.
    - apply IHl; eauto with d2ip; lia.
    - apply IHr; eauto with d2ip; lia.
    - intros i j Hi Hj.
      pose proof (good_hi _ _ _ _ (coll_good h base l i ltac:(eauto with d2ip) ltac:(lia) Hi)).
      pose proof (good_lo _ _ _ _
        (coll_good h (base + pow2 h) r j ltac:(eauto with d2ip) ltac:(lia) Hj)). lia. }
  destruct (_ || _); [done|]. by destruct (canMerge _ _ _ _ _); [repeat constructor|].
Qed.

(** Every member is in an emitted interval. *)
Lemma coll_covers h base t x :
  Z.of_nat h <= w -> x ∈ members h base t -> exists i, i ∈ coll h base t /\ within i x.
Proof.
  revert h base. induction t as [|l IHl r IHr lf p]; intros h base Hh; cbn.
  { by intros ?%elem_of_nil. }
  destruct h as [|h].
  - intros ->%list_elem_of_singleton. exists (base, w). split; [left|].
    unfold within, lo, hi; cbn. rewrite Z.sub_diag. lia.
  - intros Hx.
    assert (exists i, i ∈ coll h base l ++ coll h (base + pow2 h) r /\ within i x) as Happ.
    { apply elem_of_app in Hx as [Hx|Hx];
        [apply IHl in Hx as (i & Hi & Hw)|apply IHr in Hx as (i & Hi & Hw)];
        [exists i; set_solver|lia|exists i; set_solver|lia]. }
    destruct (_ || _); [done|]. destruct (canMerge _ _ _ _ _); [|done].
    exists (base, w - Z.of_nat (S h)). split; [left|]. unfold within, lo, hi; cbn [fst snd].
    replace (w - (w - Z.of_nat (S h))) with (Z.of_nat (S h)) by lia.
    by apply (members_range (S h) base (Node l r lf p)).
Qed.
(** If every populated branching between the depths [b] and [D] merges, two
    members that agree on [b] bits and differ within [D + 1] are emitted in
    one interval. *)
Lemma coll_merges b D h base t x y :
  0 < b <= w -> D < w -> aligned h base -> Z.of_nat h <= w ->
  (forall d c, b <= d <= D -> 0 < c <= Z.of_nat (length (members h base t)) ->
     canMerge w d c threshold maxPrefix = true) ->
  x ∈ members h base t -> y ∈ members h base t ->
  x / 2 ^ (w - b) = y / 2 ^ (w - b) -> x / 2 ^ (w - D - 1) <> y / 2 ^ (w - D - 1) ->
  exists i, i ∈ coll h base t /\ within i x /\ within i y.
Proof.
  intros Hb HD. revert h base. induction t as [|l IHl r IHr lf p];
    intros h base Ha Hh HM Hx Hy Hag Hdf.
  { by apply elem_of_nil in Hx. }
  destruct h as [|h].
  { apply list_elem_of_singleton in Hx, Hy. congruence. }
  pose proof (members_range _ _ _ _ Hx) as Hrx. pose proof (members_range _ _ _ _ Hy) as Hry.
  assert (within (base, w - Z.of_nat (S h)) x /\ within (base, w - Z.of_nat (S h)) y) as Hmg.
  { unfold within, lo, hi; cbn [fst snd].
    by replace (w - (w - Z.of_nat (S h))) with (Z.of_nat (S h)) by lia. }
  cbn [members CidrFacts.coll] in HM, Hx, Hy |- *. rewrite length_app, Nat2Z.inj_add in HM.
  pose proof (members_range h base l) as HMr.
  pose proof (members_range h (base + pow2 h) r) as HNr.
  set (M := members h base l) in *. set (N := members h (base + pow2 h) r) in *.
  set (c := Z.of_nat (length M) + Z.of_nat (length N)) in *.
  assert ((exists i, i ∈ coll h base l ++ coll h (base + pow2 h) r /\ within i x /\ within i y)
    \/ (0 < Z.of_nat (length M) /\ 0 < Z.of_nat (length N)
        /\ b <= w - Z.of_nat (S h) <= D)) as Hor.
  { assert (forall d c', b <= d <= D -> 0 < c' <= Z.of_nat (length M) ->
              canMerge w d c' threshold maxPrefix = true) as HM1 by (intros; apply HM; lia).
    assert (forall d c', b <= d <= D -> 0 < c' <= Z.of_nat (length N) ->
              canMerge w d c' threshold maxPrefix = true) as HM2 by (intros; apply HM; lia).
    assert (forall u v, u < base + pow2 h <= v ->
              u / 2 ^ (w - b) = v / 2 ^ (w - b) -> b <= w - Z.of_nat (S h)) as Hlow.
    { intros u v Huv Heq. destruct (Z.le_gt_cases b (w - Z.of_nat (S h))); [done|].
      destruct (div_split h (w - b) (base + pow2 h) u v); eauto with d2ip; lia. }
    assert (w - Z.of_nat (S h) <= D) as Hhigh.
    { destruct (Z.le_gt_cases (w - Z.of_nat (S h)) D); [done|]. destruct Hdf.
      apply (div_same (S h) _ base); [done|lia|done..]. }
    assert (forall (u v : Z), u ∈ M -> v ∈ N ->
              0 < Z.of_nat (length M) /\ 0 < Z.of_nat (length N)) as Hpos.
    { intros u v Hu Hv. pose proof (length_pos_elem M (ex_intro _ u Hu)).
      pose proof (length_pos_elem N (ex_intro _ v Hv)). lia. }
    apply elem_of_app in Hx as [Hx|Hx], Hy as [Hy|Hy].
    - left. destruct (IHl h base) as (i & ? & ?); eauto with d2ip; [lia|set_solver].
    - right. destruct (Hpos x y Hx Hy). apply HMr in Hx. apply HNr in Hy.
      assert (b <= w - Z.of_nat (S h)) by (apply (Hlow x y); [lia|done]). lia.
    - right. destruct (Hpos y x Hy Hx). apply HMr in Hy. apply HNr in Hx.
      assert (b <= w - Z.of_nat (S h)) by (apply (Hlow y x); [lia|done]). lia.
    - left. destruct (IHr h (base + pow2 h)) as (i & ? & ?); eauto with d2ip; [lia|set_solver]. }
  destruct Hor as [Happ|(Hm & Hn & Hd)].
  - destruct (_ || _); [done|]. destruct (canMerge _ _ _ _ _); [|done].
    exists (base, w - Z.of_nat (S h)). split; [left|done].
  - rewrite HM by lia. rewrite !(proj2 (Z.eqb_neq _ _)) by lia. cbn [orb].
    exists (base, w - Z.of_nat (S h)). split; [left|done].
Qed.
End CollFacts.

(** ** Building the tree *)

(** A valid address of the family, with the number in range. *)
Definition of_family (isV6 : bool) (a : Addr) : Prop :=
  IsValid a = true /\ addr_wf a /\ Is4 a = negb isV6.

Lemma of_family_width isV6 a : of_family isV6 a -> BitLen a = width isV6.
Proof. intros (Hv & _ & H4). by destruct a, isV6. Qed.

Lemma of_family_range isV6 a : of_family isV6 a -> 0 <= addr_num a < 0 + 2 ^ width isV6.
Proof. intros Hf. rewrite <- (of_family_width isV6 a Hf), Z.add_0_l. apply Hf. Qed.

Lemma of_family_withoutZone isV6 a :
  of_family isV6 a -> withoutZone a = mkAddr isV6 (addr_num a).
Proof. intros (Hv & _ & H4). by destruct a, isV6. Qed.

Lemma of_family_host_prefix isV6 a :
  of_family isV6 a -> PrefixFrom a (BitLen a) = to_prefix isV6 (addr_num a, width isV6).
Proof.
  intros Hf. rewrite (of_family_width _ _ Hf). unfold to_prefix; cbn [fst snd].
  destruct (mkAddr_props isV6 (addr_num a)) as (Hv & Hl & _).
  assert (0 <= width isV6) by by destruct isV6.
  rewrite (PrefixFrom_valid a), (PrefixFrom_valid (mkAddr _ _));
    [|done|lia|apply Hf|rewrite (of_family_width _ _ Hf); lia].
  rewrite (of_family_withoutZone _ _ Hf). by destruct isV6.
Qed.

Definition height (isV6 : bool) : nat := Z.to_nat (width isV6).
Definition host_mk (isV6 : bool) (n : Z) : Prefix := to_prefix isV6 (n, width isV6).

Lemma height_width isV6 : Z.of_nat (height isV6) = width isV6.
Proof. by destruct isV6. Qed.

Lemma aligned_root isV6 : aligned (height isV6) 0.
Proof. split; [done|apply Z.mod_0_l; pose proof (pow2_pos (height isV6)); lia]. Qed.

Lemma insert_family isV6 root a bits v6 :
  of_family isV6 a ->
  insert (MkTree root bits v6) a
  = MkTree (ins (host_mk isV6 (addr_num a)) (height isV6) (addr_num a) root) bits v6.
Proof.
  intros Hf. rewrite insert_ins by apply Hf. cbn [t_root t_bits t_isV6].
  rewrite (of_family_host_prefix _ _ Hf). by rewrite (of_family_width _ _ Hf).
Qed.

(** Inserting a list of addresses: the tree stays well-formed and holds
    exactly their numbers. *)
Lemma build_tree isV6 (l : list Addr) :
  Forall (of_family isV6) l ->
  forall root, wf (host_mk isV6) (height isV6) 0 root ->
  exists root', fold_left insert l (MkTree root (width isV6) isV6) = MkTree root' (width isV6) isV6
    /\ wf (host_mk isV6) (height isV6) 0 root'
    /\ forall x, x ∈ members (height isV6) 0 root'
         <-> x ∈ addr_num <$> l \/ x ∈ members (height isV6) 0 root.
Proof.
  induction 1 as [|a l Hf Hl IH]; intros root Hw; [exists root; set_solver|].
  cbn [fold_left]. rewrite (insert_family _ _ _ _ _ Hf).
  pose proof (of_family_range _ _ Hf) as Hr. rewrite <- height_width in Hr.
  destruct (IH (ins (host_mk isV6 (addr_num a)) (height isV6) (addr_num a) root))
    as (root' & He & Hw' & Hm).
  { apply ins_wf; [apply aligned_root|done|done]. }
  exists root'. split; [done|]. split; [done|]. intros x. rewrite Hm.
  rewrite ins_members by (apply aligned_root || done). set_solver.
Qed.

(** The tree does not depend on the order of insertion. *)
Lemma build_perm isV6 (l1 l2 : list Addr) t :
  Forall (of_family isV6) l1 -> l1 ≡ₚ l2 -> fold_left insert l1 t = fold_left insert l2 t.
Proof.
  intros Hf Hp. apply fold_left_perm; [|done]. rewrite Forall_forall in Hf.
  intros [root b v] x y Hx%Hf Hy%Hf.
  rewrite !(insert_family isV6) by done. f_equal. symmetry. apply ins_comm.
  intros Hm. rewrite !Z.mod_small in Hm; [by rewrite Hm|..];
    rewrite height_width; [pose proof (of_family_range _ _ Hy)|pose proof (of_family_range _ _ Hx)];
    lia.
Qed.

(** ** [aggregateFamily] *)

(** The numbers of the input, and how many of them an interval holds. *)
Definition nums (addrs : list Addr) : gset Z := list_to_set (addr_num <$> addrs).

Definition inputs_in (isV6 : bool) (addrs : list Addr) (i : Z * Z) : Z :=
  Z.of_nat (size (filter (within (width isV6) i) (nums addrs))).

Lemma members_NoDup h base t : NoDup (members h base t).
Proof.
  induction (members_sorted h base t) as [|x l Hs IH Hx]; constructor; [|done].
  intros Hin. rewrite Forall_forall in Hx. apply Hx in Hin. lia.
Qed.

Lemma population_inputs isV6 h base t addrs i :
  (forall x, x ∈ members h base t <-> x ∈ addr_num <$> addrs) ->
  population (width isV6) i (members h base t) = inputs_in isV6 addrs i.
Proof.
  intros Hm. unfold population, inputs_in. f_equal.
  rewrite <- (size_list_to_set (C := gset Z)) by apply NoDup_filter, members_NoDup.
  f_equal. apply set_eq. intros x.
  rewrite elem_of_list_to_set, list_elem_of_filter, elem_of_filter, Hm.
  unfold nums. by rewrite elem_of_list_to_set.
Qed.

Section Family.
Context (order : gset Addr -> list Addr) `{!MapOrder order}.

(** The program's tree, and the intervals it emits. *)
Lemma aggregateFamily_coll isV6 addrs threshold maxPrefix :
  Forall (of_family isV6) addrs ->
  exists t, wf (host_mk isV6) (height isV6) 0 t
    /\ (forall x, x ∈ members (height isV6) 0 t <-> x ∈ addr_num <$> addrs)
    /\ aggregateFamily order addrs isV6 threshold maxPrefix
       = to_prefix isV6 <$> coll (width isV6) threshold (clampMaxPrefix isV6 maxPrefix)
                              (height isV6) 0 t.
Proof.
  intros Hf. unfold aggregateFamily, newRadixTree.
  set (l := go_sort compareAddrs (order (list_to_set addrs))).
  assert (forall a, a ∈ l <-> a ∈ addrs) as Hl.
  { intros a. unfold l. rewrite elem_of_go_sort, (map_order_perm (list_to_set addrs)).
    by rewrite elem_of_elements, elem_of_list_to_set. }
  assert (Forall (of_family isV6) l) as Hfl.
  { rewrite Forall_forall in *. intros a Ha. by apply Hf, Hl. }
  change (if isV6 then 128 else 32) with (width isV6).
  assert (0 < height isV6)%nat as Hh.
  { pose proof (height_width isV6). assert (0 < width isV6) by by destruct isV6. lia. }
  destruct (build_tree isV6 l Hfl emptyNode) as (t & He & Hw & Hm); [by apply wf_emptyNode|].
  exists t. split; [done|]. split.
  - intros x. rewrite Hm, members_emptyNode by done.
    rewrite !list_elem_of_fmap. set_solver.
  - rewrite He. unfold aggregate. cbn [t_bits t_isV6 t_root].
    rewrite <- (collect_coll isV6 threshold (clampMaxPrefix isV6 maxPrefix) t (height isV6) 0
                 (replicate 16 0)); rewrite ?height_width, ?Z.sub_diag; [done|done| |lia|].
    + apply aligned_root.
    + apply path_ok_root.
Qed.
End Family.

(** ** The prefixes of one family *)

Lemma Contains_to_prefix isV6 (i : Z * Z) x :
  0 <= i.2 <= width isV6 -> 0 <= i.1 < 2 ^ width isV6 ->
  i.1 mod 2 ^ (width isV6 - i.2) = 0 -> addr_wf x ->
  Contains (to_prefix isV6 i) x = true <->
  of_family isV6 x /\ Zone x = ""%string /\ within (width isV6) i (addr_num x).
Proof.
  intros Hl Hr Hm Hx. destruct (mkAddr_props isV6 i.1) as (Hv & Hw & Hn).
  unfold to_prefix. rewrite Contains_PrefixFrom;
    rewrite ?Hw, ?Hn; [|done|unfold addr_wf; by rewrite Hw, Hn|done..].
  unfold within, lo, hi. split.
  - intros (Hb & Hz & Hrng). split; [|by split; [|lia]]. split_and!; [|done|]; by destruct x, isV6.
  - intros (Hf & Hz & Hrng). split; [by apply of_family_width|by split; [|lia]].
Qed.

Section FamilyFacts.
Context (order : gset Addr -> list Addr) `{!MapOrder order}.
Context (isV6 : bool) (addrs : list Addr) (threshold : spec_float) (maxPrefix : Z).
Context (Hf : Forall (of_family isV6) addrs).

Notation result := (aggregateFamily order addrs isV6 threshold maxPrefix).

(** An emitted interval: inside the family, host bits zero, and either one
    input address or a merge that passed the test on the inputs it holds. *)
Record emitted (i : Z * Z) : Prop := {
  em_len : 0 <= i.2 <= width isV6;
  em_lo : 0 <= i.1;
  em_hi : hi (width isV6) i <= 2 ^ width isV6;
  em_aligned : i.1 mod 2 ^ (width isV6 - i.2) = 0;
  em_kind : (i.2 = width isV6 /\ i.1 ∈ addr_num <$> addrs)
    \/ (0 < inputs_in isV6 addrs i
        /\ canMerge (width isV6) i.2 (inputs_in isV6 addrs i) threshold
             (clampMaxPrefix isV6 maxPrefix) = true)
}.

Lemma emitted_lo i : emitted i -> 0 <= i.1 < 2 ^ width isV6.
Proof.
  intros []. split; [done|]. unfold hi in *.
  assert (0 < 2 ^ (width isV6 - i.2)) by (apply Z.pow_pos_nonneg; lia). lia.
Qed.

Lemma coll_emitted t i :
  (forall x, x ∈ members (height isV6) 0 t <-> x ∈ addr_num <$> addrs) ->
  i ∈ coll (width isV6) threshold (clampMaxPrefix isV6 maxPrefix) (height isV6) 0 t ->
  emitted i.
Proof.
  intros Hm Hi. pose proof (aligned_root isV6) as Ha.
  assert (Z.of_nat (height isV6) <= width isV6) as Hh by by rewrite height_width.
  destruct (coll_good _ _ _ _ _ _ i Ha Hh Hi) as [Hlo Hhi Hlen [_ Hal] Hk].
  rewrite height_width in Hhi. split; [done|done|lia|done|].
  destruct Hk as [[Hl Hin]|Hk]; [left; split; [done|by apply Hm]|right].
  by rewrite (population_inputs isV6 _ _ _ addrs) in Hk.
Qed.

Lemma family_result :
  exists L, result = to_prefix isV6 <$> L /\ Forall emitted L
    /\ StronglySorted (fun i j => hi (width isV6) i <= lo j) L
    /\ forall a, a ∈ addrs -> exists i, i ∈ L /\ within (width isV6) i (addr_num a).
Proof.
  destruct (aggregateFamily_coll order isV6 addrs threshold maxPrefix Hf) as (t & Hw & Hm & He).
  pose proof (aligned_root isV6) as Ha.
  assert (Z.of_nat (height isV6) <= width isV6) as Hh by by rewrite height_width.
  eexists. split; [exact He|]. split_and!.
  - apply Forall_forall. intros i. by apply coll_emitted.
  - by apply coll_sorted.
  - intros a Ha'. apply coll_covers; [done|]. apply Hm, list_elem_of_fmap. eauto.
Qed.

Lemma family_elem p : p ∈ result -> exists i, p = to_prefix isV6 i /\ emitted i.
Proof.
  destruct family_result as (L & -> & HL & _). rewrite Forall_forall in HL.
  intros (i & -> & Hi)%list_elem_of_fmap. eauto.
Qed.

Lemma emitted_contains i a :
  emitted i -> a ∈ addrs -> within (width isV6) i (addr_num a) ->
  Contains (to_prefix isV6 i) (withoutZone a) = true.
Proof.
  intros He Ha Hw. pose proof (proj1 (Forall_forall _ _) Hf a Ha) as Hfa.
  apply Contains_to_prefix; [apply He|by apply emitted_lo|apply He|..].
  - unfold addr_wf. rewrite addr_num_withoutZone, BitLen_withoutZone. apply Hfa.
  - destruct Hfa as (Hv & Hwf & H4). unfold of_family, addr_wf in *.
    rewrite addr_num_withoutZone, BitLen_withoutZone. by destruct a.
Qed.

Lemma family_covers a :
  a ∈ addrs -> exists p, p ∈ result /\ Contains p (withoutZone a) = true.
Proof.
  intros Ha. destruct family_result as (L & -> & HL & _ & Hc).
  destruct (Hc a Ha) as (i & Hi & Hw). rewrite Forall_forall in HL.
  exists (to_prefix isV6 i). split; [by apply list_elem_of_fmap_2|].
  apply emitted_contains; auto.
Qed.

(** Two inputs that agree on [b] bits and differ within [D + 1] share a
    prefix when every branching in between merges. *)
Lemma family_merges b D a a' :
  0 < b <= width isV6 -> D < width isV6 ->
  (forall d c, b <= d <= D -> 0 < c <= Z.of_nat (length addrs) ->
     canMerge (width isV6) d c threshold (clampMaxPrefix isV6 maxPrefix) = true) ->
  a ∈ addrs -> a' ∈ addrs ->
  addr_num a / 2 ^ (width isV6 - b) = addr_num a' / 2 ^ (width isV6 - b) ->
  addr_num a / 2 ^ (width isV6 - D - 1) <> addr_num a' / 2 ^ (width isV6 - D - 1) ->
  exists p, p ∈ result /\ Contains p (withoutZone a) = true
    /\ Contains p (withoutZone a') = true.
Proof.
  intros Hb HD HM Ha Ha' Hag Hdf.
  destruct (aggregateFamily_coll order isV6 addrs threshold maxPrefix Hf) as (t & Hw & Hm & He).
  rewrite He.
  destruct (coll_merges (width isV6) threshold (clampMaxPrefix isV6 maxPrefix) b D
              (height isV6) 0 t (addr_num a) (addr_num a')) as (i & Hi & Hwi & Hwi');
    [done..|apply aligned_root|by rewrite height_width| | | |done|done|].
  - intros d c Hd Hc. apply HM; [done|].
    assert (length (members (height isV6) 0 t) <= length (addr_num <$> addrs))%nat as Hle.
    { apply submseteq_length, NoDup_submseteq; [apply members_NoDup|]. intros x. apply Hm. }
    rewrite length_fmap in Hle. lia.
  - apply Hm, list_elem_of_fmap. eauto.
  - apply Hm, list_elem_of_fmap. eauto.
  - exists (to_prefix isV6 i). split; [by apply list_elem_of_fmap_2|].
    apply coll_emitted in Hi; [|done]. split; by apply emitted_contains.
Qed.

(** An address is contained in at most one emitted prefix. *)
Lemma family_disjoint x :
  addr_wf x -> (length (filter (fun p => Contains p x = true) result) <= 1)%nat.
Proof.
  intros Hx. destruct family_result as (L & -> & HL & Hs & _).
  rewrite Forall_forall in HL.
  assert (forall i, i ∈ L -> Contains (to_prefix isV6 i) x = true ->
            within (width isV6) i (addr_num x)) as Hw.
  { intros i Hi%HL Hc. apply Contains_to_prefix in Hc;
      [apply Hc|apply Hi|by apply emitted_lo|apply Hi|done]. }
  clear HL. induction Hs as [|i L Hs IH Hi]; [cbn; lia|]. rewrite fmap_cons.
  assert (length (filter (fun p => Contains p x = true) (to_prefix isV6 <$> L)) <= 1)%nat as IH'.
  { apply IH. intros j Hj. apply Hw. by right. }
  destruct (decide (Contains (to_prefix isV6 i) x = true)) as [Hc|Hc];
    [|by rewrite filter_cons_False].
  rewrite filter_cons_True by done. rewrite filter_none; [done|].
  intros p (j & -> & Hj)%list_elem_of_fmap Hcj. rewrite Forall_forall in Hi.
  apply Hi in Hj as Hij. apply Hw in Hcj; [|by right]. apply Hw in Hc; [|left].
  destruct Hc, Hcj. lia.
Qed.
End FamilyFacts.
