(* ===== verification/CidrSpec.v ===== *)
(** * What [cidr.Aggregate] guarantees

  The guarantees its comment lists (deterministic, sorted, boundary safe,
  lossless at threshold 1.0), as theorems over every list of addresses; for
  IPv6 the lossless guarantee fails, which is proved too. *)

From S2P Require Import Prelude Netip Float64 Cidr CidrFacts.
From Stdlib Require Import SpecFloat.

Local Open Scope Z_scope.

(** ** [Aggregate] *)

(** Valid addresses of the input are in range: what [net/netip] guarantees. *)
Definition inputs_ok (addrs : list Addr) : Prop :=
  Forall (fun a => IsValid a = true -> addr_wf a) addrs.

#[export] Instance inputs_ok_dec addrs : Decision (inputs_ok addrs).
Proof. unfold inputs_ok. apply _. Defined.

Lemma inputs_ok_elem addrs a : inputs_ok addrs -> a ∈ addrs -> IsValid a = true -> addr_wf a.
Proof. intros Hok Ha. by apply (proj1 (Forall_forall _ _) Hok). Qed.

Definition v4_of (addrs : list Addr) : list Addr :=
  List.filter (fun a => IsValid a && Is4 a) addrs.
Definition v6_of (addrs : list Addr) : list Addr :=
  List.filter (fun a => IsValid a && negb (Is4 a) && Is6 a) addrs.
Definition split_of (isV6 : bool) := if isV6 then v6_of else v4_of.

Lemma elem_of_split_of isV6 addrs a :
  inputs_ok addrs ->
  a ∈ split_of isV6 addrs <-> a ∈ addrs /\ of_family isV6 a.
Proof.
  intros Hok. unfold split_of, v4_of, v6_of, of_family.
  destruct isV6; rewrite !list_elem_of_In, filter_In, <- list_elem_of_In;
    split; intros (Hin & H); split; auto; pose proof (inputs_ok_elem addrs a Hok Hin);
    destruct a; cbn in *; naive_solver.
Qed.

Lemma split_of_family isV6 addrs : inputs_ok addrs -> Forall (of_family isV6) (split_of isV6 addrs).
Proof. intros Hok. apply Forall_forall. intros a Ha. by apply (elem_of_split_of _ _ _ Hok). Qed.

Lemma in_some_family a : IsValid a = true -> addr_wf a -> of_family (negb (Is4 a)) a.
Proof. intros Hv Hw. split; [done|]. split; [done|]. by destruct (Is4 a). Qed.

(** The byte order used by the sorts is a strict weak order. *)
Lemma bytes_less_asym a b : bytes_less a b = true -> bytes_less b a = false.
Proof.
  revert b. induction a as [|x a IH]; intros [|y b]; cbn; try done.
  destruct (Z.ltb_spec x y), (Z.ltb_spec y x); try lia; auto.
Qed.

Lemma bytes_less_negtrans a b c :
  length a = length b -> length b = length c ->
  bytes_less a b = false -> bytes_less b c = false -> bytes_less a c = false.
Proof.
  revert b c. induction a as [|x a IH]; intros [|y b] [|z c]; cbn; try done.
  intros [= Hab] [= Hbc].
  destruct (Z.ltb_spec x y), (Z.ltb_spec y x), (Z.ltb_spec y z), (Z.ltb_spec z y),
    (Z.ltb_spec x z), (Z.ltb_spec z x); try lia; eauto; done.
Qed.

Lemma length_As16 a : length (As16 a) = 16%nat.
Proof. apply length_be_bytes. Qed.

Section AggregateFacts.
Context (order : gset Addr -> list Addr) `{!MapOrder order}.
Implicit Types (addrs : list Addr) (p : Prefix).

(** The prefixes one family contributes. *)
Definition part (addrs : list Addr) threshold maxPrefix (isV6 : bool) : list Prefix :=
  if Nat.ltb 0 (length (split_of isV6 addrs))
  then aggregateFamily order (split_of isV6 addrs) isV6 threshold maxPrefix else [].

Lemma Aggregate_parts addrs threshold maxPrefix :
  Aggregate order addrs threshold maxPrefix
  = go_sort (fun p q => compareAddrs (PAddr p) (PAddr q))
      (part addrs threshold maxPrefix false ++ part addrs threshold maxPrefix true).
Proof. done. Qed.

Lemma elem_of_Aggregate addrs threshold maxPrefix p :
  p ∈ Aggregate order addrs threshold maxPrefix
  <-> exists isV6, p ∈ part addrs threshold maxPrefix isV6.
Proof.
  rewrite Aggregate_parts, elem_of_go_sort, elem_of_app. split; [naive_solver|].
  intros [[] ?]; auto.
Qed.

Lemma part_emitted addrs threshold maxPrefix isV6 p :
  inputs_ok addrs -> p ∈ part addrs threshold maxPrefix isV6 ->
  exists i, p = to_prefix isV6 i
    /\ emitted isV6 (split_of isV6 addrs) threshold maxPrefix i.
Proof.
  intros Hok. unfold part. case_if; [|by intros ?%elem_of_nil].
  apply family_elem; [done|by apply split_of_family].
Qed.

Lemma part_covers addrs threshold maxPrefix isV6 a :
  inputs_ok addrs -> a ∈ split_of isV6 addrs ->
  exists p, p ∈ part addrs threshold maxPrefix isV6 /\ Contains p (withoutZone a) = true.
Proof.
  intros Hok Ha. unfold part. destruct (split_of isV6 addrs) as [|b l] eqn:E;
    [by apply elem_of_nil in Ha|]. cbn [length Nat.ltb Nat.leb]. rewrite <- E in *.
  apply family_covers; [done|by apply split_of_family|done].
Qed.

(** The family of an address contained in a prefix of a part. *)
Lemma part_family addrs threshold maxPrefix isV6 p x :
  inputs_ok addrs -> addr_wf x -> p ∈ part addrs threshold maxPrefix isV6 ->
  Contains p x = true -> of_family isV6 x.
Proof.
  intros Hok Hx (i & -> & He)%part_emitted Hc; [|done].
  apply Contains_to_prefix in Hc; [apply Hc|apply He|eapply emitted_lo; done|apply He|done].
Qed.

Lemma part_disjoint addrs threshold maxPrefix isV6 x :
  inputs_ok addrs -> addr_wf x ->
  (length (filter (fun p => Contains p x = true) (part addrs threshold maxPrefix isV6)) <= 1)%nat.
Proof.
  intros Hok Hx. unfold part. case_if; [|cbn; lia].
  apply family_disjoint; [done|by apply split_of_family|done].
Qed.

Lemma part_other addrs threshold maxPrefix isV6 x :
  inputs_ok addrs -> addr_wf x -> ~ of_family isV6 x ->
  filter (fun p => Contains p x = true) (part addrs threshold maxPrefix isV6) = [].
Proof. intros Hok Hx Hn. apply filter_none. intros p Hp Hc. by eapply Hn, part_family. Qed.

(** C1. No address is lost: every valid input address is contained in
    exactly one of the prefixes [Aggregate] returns, at every threshold and
    every maximum prefix, for IPv4 and IPv6. *)
Theorem aggregate_partition addrs threshold maxPrefix a :
  inputs_ok addrs -> a ∈ addrs -> IsValid a = true ->
  length (filter (fun p => Contains p (withoutZone a) = true)
            (Aggregate order addrs threshold maxPrefix)) = 1%nat.
Proof.
  intros Hok Ha Hv. pose proof (inputs_ok_elem addrs a Hok Ha Hv) as Hw.
  pose proof (in_some_family a Hv Hw) as Hf. set (v6 := negb (Is4 a)) in *.
  assert (addr_wf (withoutZone a)) as Hwz
    by (unfold addr_wf; by rewrite addr_num_withoutZone, BitLen_withoutZone).
  assert (~ of_family (negb v6) (withoutZone a)) as Ho.
  { intros (_ & _ & H4). destruct Hf as (_ & _ & H4'). destruct a, v6; done. }
  rewrite Aggregate_parts, (filter_perm _ _ _ (go_sort_perm _ _)), filter_app, length_app.
  assert (a ∈ split_of v6 addrs) as Hs by by apply elem_of_split_of.
  destruct (part_covers addrs threshold maxPrefix v6 a Hok Hs) as (p & Hp & Hc).
  pose proof (part_disjoint addrs threshold maxPrefix v6 _ Hok Hwz) as Hle.
  pose proof (part_other addrs threshold maxPrefix (negb v6) _ Hok Hwz Ho) as Hnil.
  assert (0 < length (filter (fun p => Contains p (withoutZone a) = true)
                        (part addrs threshold maxPrefix v6)))%nat as Hpos.
  { apply length_pos_elem. exists p. by apply list_elem_of_filter. }
  destruct v6; cbn [negb] in *; rewrite Hnil; cbn [length]; lia.
Qed.

Lemma canMerge_bounds w len count threshold maxPrefix :
  canMerge w len count threshold maxPrefix = true ->
  0 < len /\ maxPrefix <= len /\ ratio_ge w len count threshold = true.
Proof. unfold canMerge. intros H. by bool_hyps. Qed.

(** The boundary guarantee: an emitted prefix is a host prefix of an input
    address, or lies between [max 1 maxPrefix] (clamped to the family) and the
    family's width; it is valid, never [/0], and its host bits are zero. *)
Theorem aggregate_boundary addrs threshold maxPrefix p :
  inputs_ok addrs -> p ∈ Aggregate order addrs threshold maxPrefix ->
  PIsValid p = true /\ 0 < Bits p <= BitLen (PAddr p) /\ Masked p = p
  /\ ((Bits p = BitLen (PAddr p)
        /\ exists a, a ∈ addrs /\ IsValid a = true /\ PAddr p = withoutZone a)
      \/ clampMaxPrefix (Is6 (PAddr p)) maxPrefix <= Bits p).
Proof.
  intros Hok [v6 Hp]%elem_of_Aggregate.
  apply part_emitted in Hp as (i & -> & He); [|done].
  pose proof (emitted_lo _ _ _ _ _ He) as Hlo. destruct He as [Hl _ _ Ha Hk].
  destruct (mkAddr_props v6 i.1) as (Hv & Hw & Hn).
  assert (Masked (to_prefix v6 i) = to_prefix v6 i) as ->
    by (unfold to_prefix; apply Masked_PrefixFrom; by rewrite ?Hw, ?Hn).
  unfold to_prefix. rewrite PrefixFrom_valid by (done || by rewrite Hw).
  unfold PIsValid, Bits, PAddr. cbn [p_bits1 p_ip]. rewrite BitLen_withoutZone, Hw.
  replace (i.2 + 1 - 1) with i.2 by lia.
  assert (0 < width v6) by by destruct v6.
  assert (Is6 (withoutZone (mkAddr v6 i.1)) = v6) as -> by by destruct v6.
  split; [apply Z.ltb_lt; lia|]. destruct Hk as [[Hi Hin]|Hk].
  - split; [lia|]. split; [done|]. left. split; [done|].
    apply list_elem_of_fmap in Hin as (a & Hi1 & Hin).
    apply (elem_of_split_of _ _ _ Hok) in Hin as [Hin Hf].
    exists a. split; [done|]. split; [apply Hf|].
    rewrite (of_family_withoutZone _ _ Hf), Hi1. by destruct v6.
  - destruct Hk as [_ (? & ? & _)%canMerge_bounds]. split; [lia|]. split; [done|]. by right.
Qed.

(** The result is sorted by the bytes of the prefix addresses. *)
Theorem aggregate_sorted addrs threshold maxPrefix :
  StronglySorted (fun p q => compareAddrs (PAddr q) (PAddr p) = false)
    (Aggregate order addrs threshold maxPrefix).
Proof.
  rewrite Aggregate_parts.
  apply (go_sort_sorted (fun p q => compareAddrs (PAddr p) (PAddr q))); unfold compareAddrs.
  - intros p q. apply bytes_less_asym.
  - intros p q r. apply bytes_less_negtrans; by rewrite !length_As16.
Qed.
End AggregateFacts.

Lemma aggregate_partition_witness :
  length (filter (fun p => Contains p (Addr4 2) = true)
            (Aggregate elements [Addr4 2; Addr4 3; AddrZero; Addr6 1 "eth0"] F64.one 16)) = 1%nat.
Proof.
  apply (aggregate_partition elements
           [Addr4 2; Addr4 3; AddrZero; Addr6 1 "eth0"] F64.one 16 (Addr4 2));
    [by apply (bool_decide_unpack _); vm_compute|left|done].
Defined.

Lemma aggregate_boundary_witness :
  0 < Bits (MkPrefix (Addr4 2) 32) <= 32.
Proof.
  apply (aggregate_boundary elements [Addr4 2; Addr4 3] F64.one 16 (MkPrefix (Addr4 2) 32));
    [by apply (bool_decide_unpack _); vm_compute|].
  apply list_elem_of_In. vm_compute. by left.
Defined.

(** ** Determinism *)

(** Deterministic: the result depends only on the set of input addresses,
    neither on their order and multiplicity nor on the order in which the map
    of unique addresses is enumerated. *)
Theorem aggregate_deterministic (order1 order2 : gset Addr -> list Addr)
    `{!MapOrder order1, !MapOrder order2} (addrs1 addrs2 : list Addr) threshold maxPrefix :
  inputs_ok addrs1 -> (forall a, a ∈ addrs1 <-> a ∈ addrs2) ->
  Aggregate order1 addrs1 threshold maxPrefix = Aggregate order2 addrs2 threshold maxPrefix.
Proof.
  intros Hok1 Heq.
  assert (inputs_ok addrs2) as Hok2.
  { apply Forall_forall. intros a Ha%Heq. by apply (inputs_ok_elem addrs1). }
  assert (forall v6, part order1 addrs1 threshold maxPrefix v6
                     = part order2 addrs2 threshold maxPrefix v6) as Hp;
    [|by rewrite !Aggregate_parts, !Hp].
  intros v6. unfold part.
  assert (forall a, a ∈ split_of v6 addrs1 <-> a ∈ split_of v6 addrs2) as Hs.
  { intros a. rewrite !elem_of_split_of by done. by rewrite Heq. }
  assert (Nat.ltb 0 (length (split_of v6 addrs1)) = Nat.ltb 0 (length (split_of v6 addrs2))) as ->.
  { destruct (split_of v6 addrs1) as [|a l1], (split_of v6 addrs2) as [|b l2]; try done.
    - specialize (Hs b). set_solver.
    - specialize (Hs a). set_solver. }
  case_if; [|done]. unfold aggregateFamily.
  set (s1 := list_to_set (split_of v6 addrs1)). set (s2 := list_to_set (split_of v6 addrs2)).
  assert (s1 = s2 :> gset Addr) as <-.
  { apply set_eq. intros a. unfold s1, s2. by rewrite !elem_of_list_to_set. }
  f_equal. apply (build_perm v6).
  - apply Forall_forall. intros a. rewrite elem_of_go_sort, (map_order_perm s1).
    rewrite elem_of_elements. unfold s1. rewrite elem_of_list_to_set.
    by intros [_ Hf]%(elem_of_split_of _ _ _ Hok1).
  - by rewrite !go_sort_perm, !map_order_perm.
Qed.

Lemma aggregate_deterministic_witness :
  Aggregate elements [Addr4 1; Addr4 0; Addr4 1] F64.half 8
  = Aggregate elements [Addr4 0; Addr4 1] F64.half 8.
Proof.
  apply (aggregate_deterministic elements elements);
    [by apply (bool_decide_unpack _); vm_compute|set_solver].
Defined.

(** ** The threshold test, and the overflow of its divisor *)

(** The merge test over the whole range of subtree sizes, for a positive
    number of leaves and the threshold 1.0.  With at most 62 free bits it
    compares the count with the size of the subtree; with 63 free bits
    [1 << 63] is negative and the test fails; with 64 or more, [1 << 64]
    overflows to 0, the quotient is +Inf and the test holds for any count. *)
Lemma ratio_ge_overflow (bits depth : Z) (count : positive) :
  Zpos count < 2 ^ 53 -> 0 <= bits - depth ->
  ratio_ge bits depth (Zpos count) F64.one
  = if bits - depth <=? 62 then 2 ^ (bits - depth) <=? Zpos count
    else negb (bits - depth =? 63).
Proof.
  intros Hc Hd. unfold ratio_ge. set (k := bits - depth) in *.
  destruct (Z.leb_spec k 62) as [Hk|Hk].
  - rewrite shl1_int_small by lia. apply F64.geb_one; lia.
  - destruct (Z.eqb_spec k 63) as [->|Hne].
    + rewrite shl1_int_63, F64.one_eq. by apply F64.geb_overflow_neg.
    + rewrite shl1_int_big by lia. by apply F64.geb_overflow_zero.
Qed.
