(* ===== verification/Aggregator.v ===== *)
(** * [internal/aggregator]: aggregation levels

  [aggregator.go]: [Aggressiveness], [AggregateV4], [AggregateV6],
  [levelToThreshold]; then what each level guarantees: for IPv4 the density
  its comment promises, for IPv6 and for [AggOff] what happens instead. *)

From S2P Require Import Prelude Netip Float64 Cidr CidrFacts CidrSpec.
From Stdlib Require Import SpecFloat.

Local Open Scope Z_scope.

(** [Aggressiveness] is a [uint8]: values above [AggAggressive] exist. *)
Definition Aggressiveness : Type := Z.

Definition AggOff : Aggressiveness := 0.
Definition AggConservative : Aggressiveness := 1.
Definition AggBalanced : Aggressiveness := 2.
Definition AggAggressive : Aggressiveness := 3.

Definition levelToThreshold (level : Aggressiveness) : spec_float :=
  if level =? AggOff then F64.minus_one
  else if level =? AggConservative then F64.one
  else if level =? AggBalanced then F64.three_quarters
  else if level =? AggAggressive then F64.half
  else F64.one.

Section Aggregator.
Context (map_order : gset Addr -> list Addr).

Definition AggregateV4 (in_ : list Addr) (level : Aggressiveness) (maxPrefix : Z) : list Prefix :=
  let threshold := levelToThreshold level in
  Aggregate map_order in_ threshold maxPrefix.

Definition AggregateV6 (in_ : list Addr) (level : Aggressiveness) (maxPrefix : Z) : list Prefix :=
  let threshold := levelToThreshold level in
  Aggregate map_order in_ threshold maxPrefix.
End Aggregator.

(** ** Densities *)

(** The fraction a level asks for, as numerator and denominator. *)
Definition level_fraction (level : Aggressiveness) : Z * Z :=
  if level =? AggBalanced then (3, 4) else if level =? AggAggressive then (1, 2) else (1, 1).

Lemma ratio_ge_level level len (count : Z) :
  level <> AggOff -> 0 < count < 2 ^ 53 -> 0 <= 32 - len <= 62 ->
  ratio_ge 32 len count (levelToThreshold level)
  = ((level_fraction level).1 * 2 ^ (32 - len) <=? (level_fraction level).2 * count).
Proof.
  intros Hl Hc Hd. unfold ratio_ge. rewrite shl1_int_small by lia.
  destruct count as [|c|]; [lia| |lia].
  unfold levelToThreshold, level_fraction. rewrite (proj2 (Z.eqb_neq _ _) Hl).
  destruct (Z.eqb_spec level AggConservative) as [->|_].
  { change (AggConservative =? AggBalanced) with false.
    change (AggConservative =? AggAggressive) with false.
    cbn [fst snd]. rewrite !Z.mul_1_l. by rewrite F64.geb_one by lia. }
  destruct (level =? AggBalanced); [by rewrite F64.geb_three_quarters by lia|].
  destruct (level =? AggAggressive); cbn [fst snd]; rewrite !Z.mul_1_l;
    [by rewrite F64.geb_half by lia|by rewrite F64.geb_one by lia].
Qed.

(** The number of distinct input addresses a prefix holds. *)
Definition hits (addrs : list Addr) (p : Prefix) : Z :=
  Z.of_nat (size (filter (fun a => Contains p a = true) (list_to_set addrs : gset Addr))).

Section Interval.
Context (addrs : list Addr) (Hok : inputs_ok addrs).

Lemma elem_of_nums x :
  x ∈ nums (v4_of addrs) <-> Addr4 x ∈ addrs /\ 0 <= x < 2 ^ 32.
Proof.
  unfold nums. rewrite elem_of_list_to_set, list_elem_of_fmap. split.
  - intros (a & -> & Ha). apply (elem_of_split_of false _ _ Hok) in Ha as (Hin & Hv & Hw & H4).
    by destruct a.
  - intros [Hin Hx]. exists (Addr4 x). split; [done|].
    by apply (elem_of_split_of false _ _ Hok).
Qed.

Lemma inputs_in_interval i :
  inputs_in false (v4_of addrs) i
  = Z.of_nat (size (filter (within 32 i) (nums (v4_of addrs)))).
Proof. done. Qed.

(** An interval holds at most as many inputs as it has addresses, and when it
    holds that many, it holds all of them. *)
Lemma inputs_in_full i :
  0 <= i.2 <= 32 -> inputs_in false (v4_of addrs) i <= 2 ^ (32 - i.2)
  /\ (2 ^ (32 - i.2) <= inputs_in false (v4_of addrs) i ->
      forall x, within 32 i x -> Addr4 x ∈ addrs).
Proof.
  intros Hi. rewrite inputs_in_interval.
  set (S := filter (within 32 i) (nums (v4_of addrs))).
  set (R := list_to_set (seqZ i.1 (2 ^ (32 - i.2))) : gset Z).
  assert (forall x, x ∈ R <-> within 32 i x) as HR.
  { intros x. unfold R. rewrite elem_of_list_to_set, elem_of_seqZ. done. }
  assert (S ⊆ R) as HSR by (intros x Hx; apply HR; unfold S in Hx; set_solver).
  assert (0 < 2 ^ (32 - i.2)) by (apply Z.pow_pos_nonneg; lia).
  assert (Z.of_nat (size R) = 2 ^ (32 - i.2)) as HsR.
  { unfold R. rewrite size_list_to_set, length_seqZ by apply NoDup_seqZ. lia. }
  split; [apply subseteq_size in HSR; lia|].
  intros Hle x Hx%HR. assert (S = R) as HS by (apply set_subseteq_size_eq; [done|lia]).
  rewrite <- HS in Hx. unfold S in Hx. apply elem_of_filter in Hx as [_ Hx].
  by apply elem_of_nums in Hx as [? _].
Qed.

Lemma inputs_in_hits i :
  0 <= i.2 <= 32 -> 0 <= i.1 < 2 ^ 32 -> i.1 mod 2 ^ (32 - i.2) = 0 ->
  inputs_in false (v4_of addrs) i <= hits addrs (to_prefix false i).
Proof.
  intros Hl Hr Hm. rewrite inputs_in_interval. unfold hits.
  set (S := filter (within 32 i) (nums (v4_of addrs))).
  assert (size S = size (list_to_set (Addr4 <$> elements S) : gset Addr)) as ->.
  { rewrite size_list_to_set, length_fmap; [done|]. apply NoDup_fmap_2, NoDup_elements.
    intros x y. by intros [= ->]. }
  apply inj_le, subseteq_size. intros a.
  rewrite elem_of_list_to_set, list_elem_of_fmap. intros (x & -> & Hx).
  apply elem_of_elements, elem_of_filter in Hx as [Hw [Hin Hx]%elem_of_nums].
  apply elem_of_filter. rewrite elem_of_list_to_set. split; [|done].
  by apply Contains_to_prefix.
Qed.
End Interval.

Section Levels.
Context (order : gset Addr -> list Addr) `{!MapOrder order}.
Implicit Types (addrs : list Addr) (level : Aggressiveness).

(** An IPv4 prefix of the result: a host prefix of an input, or a merge that
    passed the test of its level. *)
Lemma part_v4_kind addrs level maxPrefix p :
  inputs_ok addrs -> level <> AggOff ->
  p ∈ part order addrs (levelToThreshold level) maxPrefix false ->
  exists i, p = to_prefix false i /\ 0 <= i.2 <= 32 /\ 0 <= i.1 < 2 ^ 32
    /\ i.1 mod 2 ^ (32 - i.2) = 0
    /\ ((i.2 = 32 /\ Addr4 i.1 ∈ addrs)
        \/ (level_fraction level).1 * 2 ^ (32 - i.2)
           <= (level_fraction level).2 * inputs_in false (v4_of addrs) i).
Proof.
  intros Hok Hl (i & -> & He)%part_emitted; [|done..].
  pose proof (emitted_lo _ _ _ _ _ He) as Hlo. destruct He as [Hlen _ Hhi Ha Hk].
  exists i. split_and!; [done|apply Hlen|apply Hlen|apply Hlo|apply Hlo|done|].
  cbn [width] in *. clear Hhi. destruct Hk as [[H32 Hin]|Hk].
  - left. split; [done|].
    apply list_elem_of_fmap in Hin as (a & -> & Ha').
    apply (elem_of_split_of false _ _ Hok) in Ha' as (Hin & Hv & Hw & H4). by destruct a.
  - right. destruct Hk as [Hpos (Hd & _ & Hk)%canMerge_bounds].
    pose proof (inputs_in_full addrs Hok i Hlen) as [Hle _].
    change (split_of false addrs) with (v4_of addrs) in *.
    assert (2 ^ (32 - i.2) <= 2 ^ 32) by (apply Z.pow_le_mono_r; lia).
    rewrite ratio_ge_level in Hk by (done || lia). by bool_hyps.
Qed.

(** An IPv4 address is only ever contained in a prefix of the IPv4 part. *)
Lemma Aggregate_v4_part addrs threshold maxPrefix p x :
  inputs_ok addrs -> addr_wf (Addr4 x) -> p ∈ Aggregate order addrs threshold maxPrefix ->
  Contains p (Addr4 x) = true -> p ∈ part order addrs threshold maxPrefix false.
Proof.
  intros Hok Hx [[] Hp]%elem_of_Aggregate Hc; [|done].
  by apply (part_family order addrs threshold maxPrefix true) in Hc as (_ & _ & ?).
Qed.

Lemma lossless_v4 addrs level maxPrefix x :
  inputs_ok addrs -> level <> AggOff -> level <> AggBalanced -> level <> AggAggressive ->
  0 <= x < 2 ^ 32 ->
  (exists p, p ∈ AggregateV4 order addrs level maxPrefix /\ Contains p (Addr4 x) = true)
  <-> Addr4 x ∈ addrs.
Proof.
  intros Hok H0 H2 H3 Hx. unfold AggregateV4. split.
  - intros (p & Hp & Hc). apply (Aggregate_v4_part _ _ _ _ x) in Hp; [|done..].
    apply part_v4_kind in Hp as (i & -> & Hl & Hlo & Hm & Hk); [|done..].
    apply Contains_to_prefix in Hc as (_ & _ & Hw); [|done..].
    destruct Hk as [[H32 Hin]|Hk].
    + unfold within, lo, hi in Hw. cbn [width addr_num] in Hw. rewrite H32 in Hw.
      change (2 ^ (32 - 32)) with 1 in Hw. by replace x with i.1 by lia.
    + unfold level_fraction in Hk. rewrite !(proj2 (Z.eqb_neq _ _)) in Hk by done.
      cbn [fst snd] in Hk. apply (inputs_in_full addrs Hok i Hl); [lia|done].
  - intros Hin. destruct (part_covers order addrs (levelToThreshold level) maxPrefix false (Addr4 x))
      as (p & Hp & Hc); [done|by apply (elem_of_split_of false)|].
    exists p. split; [|done]. apply elem_of_Aggregate. by exists false.
Qed.

(** C22. Lossless at the conservative level (and at any value that is not one
    of the constants): the IPv4 addresses contained in the prefixes are
    exactly the input's. *)
Theorem conservative_lossless_v4 addrs level maxPrefix x :
  inputs_ok addrs -> level <> AggOff -> level <> AggBalanced -> level <> AggAggressive ->
  0 <= x < 2 ^ 32 ->
  (exists p, p ∈ AggregateV4 order addrs level maxPrefix /\ Contains p (Addr4 x) = true)
  <-> Addr4 x ∈ addrs.
Proof. apply lossless_v4. Qed.

(** C23. The density each level promises: a merged IPv4 prefix holds at least
    the level's fraction (all, 3/4 or 1/2) of its addresses as distinct inputs,
    as the integers count them, with no rounding error of the quotient. *)
Theorem aggregate_v4_density addrs level maxPrefix p :
  inputs_ok addrs -> level <> AggOff ->
  p ∈ AggregateV4 order addrs level maxPrefix -> Is4 (PAddr p) = true -> Bits p < 32 ->
  (level_fraction level).1 * 2 ^ (32 - Bits p) <= (level_fraction level).2 * hits addrs p.
Proof.
  intros Hok Hl [v6 Hp]%elem_of_Aggregate H4 Hb.
  assert (v6 = false) as ->.
  { apply part_emitted in Hp as (i & -> & He); [|done..].
    unfold to_prefix, PrefixFrom in H4. by destruct v6. }
  apply part_v4_kind in Hp as (i & -> & Hlen & Hlo & Hm & Hk); [|done..].
  assert (Bits (to_prefix false i) = i.2) as Hbits.
  { unfold to_prefix. rewrite PrefixFrom_valid by done. unfold Bits; cbn [p_bits1]. lia. }
  rewrite Hbits in *. destruct Hk as [[? _]|Hk]; [lia|].
  pose proof (inputs_in_hits addrs Hok i Hlen Hlo Hm).
  assert (0 <= (level_fraction level).2) by (unfold level_fraction; by repeat case_match).
  nia.
Qed.

(** When every branching between [b] and [D] merges, two inputs of a family
    that agree on [b] bits and differ within [D + 1] share a prefix. *)
Lemma Aggregate_merges addrs threshold maxPrefix v6 b D a a' :
  inputs_ok addrs -> of_family v6 a -> of_family v6 a' -> a ∈ addrs -> a' ∈ addrs ->
  0 < b <= width v6 -> D < width v6 -> clampMaxPrefix v6 maxPrefix <= b ->
  (forall d c, b <= d <= D -> 0 < c <= Z.of_nat (length addrs) ->
     ratio_ge (width v6) d c threshold = true) ->
  addr_num a / 2 ^ (width v6 - b) = addr_num a' / 2 ^ (width v6 - b) ->
  addr_num a / 2 ^ (width v6 - D - 1) <> addr_num a' / 2 ^ (width v6 - D - 1) ->
  exists p, p ∈ Aggregate order addrs threshold maxPrefix
    /\ Contains p (withoutZone a) = true /\ Contains p (withoutZone a') = true.
Proof.
  intros Hok Hf Hf' Ha Ha' Hb HD Hc HM Hag Hdf.
  assert (a ∈ split_of v6 addrs) as Hs by by apply elem_of_split_of.
  assert (length (split_of v6 addrs) <= length addrs)%nat as Hle.
  { unfold split_of, v6_of, v4_of. destruct v6; apply filter_length_le. }
  destruct (family_merges order v6 (split_of v6 addrs) threshold maxPrefix
              (split_of_family _ _ Hok) b D a a') as (p & Hp & Hcs); try done.
  - intros d c Hd Hcnt. unfold canMerge. rewrite HM by lia.
    rewrite (proj2 (Z.ltb_lt _ _)), (proj2 (Z.leb_le _ _)) by lia. done.
  - by apply elem_of_split_of.
  - exists p. split; [|done]. apply elem_of_Aggregate. exists v6. unfold part.
    destruct (split_of v6 addrs); [by apply elem_of_nil in Hs|done].
Qed.

(** [AggOff] is not "no aggregation": its threshold [-1.0] is reached by
    every quotient, so any two IPv4 inputs that agree on
    [b >= max 1 maxPrefix] bits end up in one prefix. *)
Theorem aggoff_merges_all_v4 addrs maxPrefix b x y :
  inputs_ok addrs -> Z.of_nat (length addrs) < 2 ^ 53 ->
  Addr4 x ∈ addrs -> Addr4 y ∈ addrs -> x <> y ->
  0 < b <= 32 -> maxPrefix <= b -> x / 2 ^ (32 - b) = y / 2 ^ (32 - b) ->
  exists p, p ∈ AggregateV4 order addrs AggOff maxPrefix
    /\ Contains p (Addr4 x) = true /\ Contains p (Addr4 y) = true.
Proof.
  intros Hok Hlen Hx Hy Hne Hb Hm Hag.
  apply (Aggregate_merges addrs _ _ false b 31 (Addr4 x) (Addr4 y)); try done.
  - split; [done|]. split; [by apply (inputs_ok_elem addrs)|done].
  - split; [done|]. split; [by apply (inputs_ok_elem addrs)|done].
  - unfold clampMaxPrefix. lia.
  - cbn [width]. intros d c Hd Hc. unfold ratio_ge. rewrite shl1_int_small by lia.
    destruct c as [|c|]; [lia| |lia]. apply F64.geb_minus_one; lia.
  - cbn [width addr_num]. change (2 ^ (32 - 31 - 1)) with 1. by rewrite !Z.div_1_r.
Qed.

(** A prefix that contains two IPv6 addresses which differ within the first
    65 bits has length 64 at most. *)
Lemma wide_v6 addrs threshold maxPrefix p x y :
  inputs_ok addrs -> p ∈ Aggregate order addrs threshold maxPrefix ->
  addr_wf (Addr6 x "") -> addr_wf (Addr6 y "") ->
  Contains p (Addr6 x "") = true -> Contains p (Addr6 y "") = true ->
  x / 2 ^ 63 <> y / 2 ^ 63 -> Bits p <= 64.
Proof.
  intros Hok [v6 Hp]%elem_of_Aggregate Hx Hy Hcx Hcy Hdf.
  apply part_emitted in Hp as (i & -> & He); [|done..].
  pose proof (emitted_lo _ _ _ _ _ He) as Hlo. destruct He as [Hl _ _ Ha _].
  apply Contains_to_prefix in Hcx as ((_ & _ & H6) & _ & Hwx); [|done..].
  apply Contains_to_prefix in Hcy as (_ & _ & Hwy); [|done..].
  destruct v6; [|done]. cbn [width] in *.
  assert (Bits (to_prefix true i) = i.2) as ->.
  { unfold to_prefix. rewrite PrefixFrom_valid by done. unfold Bits; cbn [p_bits1]. lia. }
  destruct (Z.le_gt_cases i.2 64) as [|Hgt]; [done|]. destruct Hdf.
  unfold within, lo, hi in Hwx, Hwy. cbn [width addr_num] in *.
  replace (128 - i.2) with (Z.of_nat (Z.to_nat (128 - i.2))) in Hwx, Hwy, Ha by lia.
  apply (div_same (Z.to_nat (128 - i.2)) 63 i.1); [split; [apply Hlo|done]|lia|done..].
Qed.

(** The lossless guarantee does not extend to IPv6: at the conservative
    level any two IPv6 inputs that agree on [b] bits ([max 1 maxPrefix <= b <=
    64]) and differ within the first 65 end up in one prefix, of length 64 at
    most, however few of its addresses are inputs. *)
Theorem conservative_overmerges_v6 addrs maxPrefix b x y zx zy :
  inputs_ok addrs -> Z.of_nat (length addrs) < 2 ^ 53 ->
  Addr6 x zx ∈ addrs -> Addr6 y zy ∈ addrs ->
  0 < b <= 64 -> maxPrefix <= b ->
  x / 2 ^ (128 - b) = y / 2 ^ (128 - b) -> x / 2 ^ 63 <> y / 2 ^ 63 ->
  exists p, p ∈ AggregateV6 order addrs AggConservative maxPrefix /\ Bits p <= 64
    /\ Contains p (Addr6 x "") = true /\ Contains p (Addr6 y "") = true.
Proof.
  intros Hok Hlen Hx Hy Hb Hm Hag Hdf.
  assert (addr_wf (Addr6 x zx)) as Hwx by by apply (inputs_ok_elem addrs).
  assert (addr_wf (Addr6 y zy)) as Hwy by by apply (inputs_ok_elem addrs).
  unfold AggregateV6. cut (exists p, p ∈ Aggregate order addrs (levelToThreshold AggConservative) maxPrefix
    /\ Contains p (Addr6 x "") = true /\ Contains p (Addr6 y "") = true).
  { intros (p & Hp & Hcx & Hcy). exists p. split; [done|]. split; [|done].
    by apply (wide_v6 addrs (levelToThreshold AggConservative) maxPrefix p x y). }
  apply (Aggregate_merges addrs _ _ true b 64 (Addr6 x zx) (Addr6 y zy)); try done.
  - cbn [width]. lia.
  - unfold clampMaxPrefix. lia.
  - cbn [width]. intros d c Hd Hc. destruct c as [|c|]; [lia| |lia].
    change (levelToThreshold AggConservative) with F64.one.
    rewrite ratio_ge_overflow by lia.
    rewrite (proj2 (Z.leb_gt _ _)), (proj2 (Z.eqb_neq _ _)) by lia. done.
Qed.
End Levels.

Lemma conservative_lossless_v4_witness :
  (exists p, p ∈ AggregateV4 elements [Addr4 6; Addr4 7; Addr4 9] AggConservative 8
     /\ Contains p (Addr4 8) = true) <-> Addr4 8 ∈ [Addr4 6; Addr4 7; Addr4 9].
Proof.
  apply (conservative_lossless_v4 elements);
    [by apply (bool_decide_unpack _); vm_compute|done..].
Defined.

Lemma aggregate_v4_density_witness :
  3 * 2 ^ (32 - 30) <= 4 * hits [Addr4 4; Addr4 5; Addr4 6] (MkPrefix (Addr4 4) 31).
Proof.
  apply (aggregate_v4_density elements [Addr4 4; Addr4 5; Addr4 6] AggBalanced 8
           (MkPrefix (Addr4 4) 31));
    [by apply (bool_decide_unpack _); vm_compute|done|..|done|done].
  apply list_elem_of_In. vm_compute. by left.
Defined.

Lemma aggoff_merges_all_v4_witness :
  exists p, p ∈ AggregateV4 elements [Addr4 (10 * 2 ^ 24); Addr4 (10 * 2 ^ 24 + 2 ^ 23)] AggOff 8
    /\ Contains p (Addr4 (10 * 2 ^ 24)) = true
    /\ Contains p (Addr4 (10 * 2 ^ 24 + 2 ^ 23)) = true.
Proof.
  apply (aggoff_merges_all_v4 elements _ 8 8 (10 * 2 ^ 24) (10 * 2 ^ 24 + 2 ^ 23));
    [by apply (bool_decide_unpack _); vm_compute|done|set_solver|set_solver|done..].
Defined.

Lemma conservative_overmerges_v6_witness :
  exists p, p ∈ AggregateV6 elements [Addr6 (2 ^ 100) ""; Addr6 (2 ^ 100 + 2 ^ 90) ""]
                  AggConservative 16 /\ Bits p <= 64
    /\ Contains p (Addr6 (2 ^ 100) "") = true /\ Contains p (Addr6 (2 ^ 100 + 2 ^ 90) "") = true.
Proof.
  apply (conservative_overmerges_v6 elements _ 16 30 (2 ^ 100) (2 ^ 100 + 2 ^ 90) "" "");
    [by apply (bool_decide_unpack _); vm_compute|done|set_solver|set_solver|done..].
Defined.
