(* ===== verification/Plan.v ===== *)
(** * [internal/routing]: states, plans and diffs

  [types.go]: [Family], [Plan], [RouterState].  [router.go]: [computePlan],
  [dedup], [sortPrefixes], [filterByFamily], [renderDiff], [noopRouter].
  [policy_router.go]: [buildPlan], [diffString]. *)

From S2P Require Import Prelude Order GoLib Netip NetipText.

Local Open Scope Z_scope.

(** ** Data *)

Inductive Family := FamilyV4 | FamilyV6.

#[export] Instance Family_eq_dec : EqDecision Family.
Proof. solve_decision. Defined.

Definition FString (f : Family) : string := match f with FamilyV6 => "v6" | FamilyV4 => "v4" end.

Record Plan := MkPlan { pl_Family : Family; pl_Add : list Prefix; pl_Remove : list Prefix }.

Definition Empty (p : Plan) : bool :=
  Nat.eqb (length (pl_Add p)) 0 && Nat.eqb (length (pl_Remove p)) 0.

Record RouterState := MkState {
  rs_Backend : string; rs_AppliedAt : Z; rs_V4 : list Prefix; rs_V6 : list Prefix }.

Definition zeroState : RouterState := MkState "" 0 [] [].

(** ** Plans *)

(** The comparison of [sortPrefixes]. *)
Definition prefix_less (p q : Prefix) : bool :=
  match Compare (PAddr p) (PAddr q) with
  | Eq => Bits p <? Bits q
  | Lt => true
  | Gt => false
  end.

Definition sortPrefixes (s : list Prefix) : list Prefix := go_sort prefix_less s.

(** The loop of [dedup]. *)
Fixpoint dedup_loop (seen : gset Prefix) (l : list Prefix) : list Prefix :=
  match l with
  | [] => []
  | p :: l' => if bool_decide (p ∈ seen) then dedup_loop seen l' else p :: dedup_loop ({[p]} ∪ seen) l'
  end.

Definition dedup (l : list Prefix) : list Prefix :=
  if Nat.eqb (length l) 0 then [] else sortPrefixes (dedup_loop ∅ l).

Definition computePlan (current desired : list Prefix) (f : Family) : Plan :=
  let cur := dedup current in
  let des := dedup desired in
  let curSet : gset Prefix := list_to_set cur in
  let desSet : gset Prefix := list_to_set des in
  let add := List.filter (fun p => negb (bool_decide (p ∈ curSet))) des in
  let remove := List.filter (fun p => negb (bool_decide (p ∈ desSet))) cur in
  MkPlan f (sortPrefixes add) (sortPrefixes remove).

Definition filterByFamily (l : list Prefix) (f : Family) : list Prefix :=
  List.filter (fun p => match f with
                        | FamilyV4 => Is4 (PAddr p)
                        | FamilyV6 => negb (Is4 (PAddr p))
                        end) l.

(** [buildPlan] keys its sets by the text of a prefix. *)
Definition buildPlan (current desired : list Prefix) (family : Family) : Plan :=
  let currentSet : gset string := list_to_set (PString <$> current) in
  let desiredSet : gset string := list_to_set (PString <$> desired) in
  MkPlan family
    (List.filter (fun p => negb (bool_decide (PString p ∈ currentSet))) desired)
    (List.filter (fun p => negb (bool_decide (PString p ∈ desiredSet))) current).

(** ** Diffs *)

Definition newline : string := String (ascii_of_nat 10) "".

Definition concat_lines (f : Prefix -> string) (l : list Prefix) : string :=
  foldr (fun p acc => f p +:+ acc) "" l.

Definition diffString (p : Plan) : string :=
  let out := concat_lines (fun r => "- " +:+ PString r +:+ newline) (pl_Remove p)
             +:+ concat_lines (fun a => "+ " +:+ PString a +:+ newline) (pl_Add p) in
  if String.eqb out "" then "(no changes)" +:+ newline else out.

Definition renderDiff (p : Plan) : string :=
  if Empty p then "(no changes)" +:+ newline
  else
    "# family=" +:+ FString (pl_Family p) +:+ " add=" +:+ Itoa (Z.of_nat (length (pl_Add p)))
    +:+ " remove=" +:+ Itoa (Z.of_nat (length (pl_Remove p))) +:+ newline
    +:+ concat_lines (fun x => "- " +:+ PString x +:+ newline) (pl_Remove p)
    +:+ concat_lines (fun x => "+ " +:+ PString x +:+ newline) (pl_Add p).

(** ** The router of [New]: nothing *)

Module noopRouter.
Definition Caps : res error unit := Ok tt.
Definition MakePlan (desired : list Prefix) (f : Family) : res error Plan := Ok (MkPlan f [] []).
Definition Apply (p : Plan) : res error unit := Ok tt.
Definition Snapshot : RouterState := MkState "none" 0 [] [].
Definition Rollback : res error unit := Ok tt.
Definition DryRun (desired : list Prefix) (f : Family) : res error (Plan * string) :=
  Ok (MkPlan f [] [], "(routing disabled)" +:+ newline)%string.
End noopRouter.

(** ** Sets and order of a plan *)

Definition prefix_cmp : Prefix -> Prefix -> comparison :=
  cmp_lex (cmp_on (fun p => BitLen (PAddr p)) Z.compare)
    (cmp_lex (cmp_on (fun p => addr128 (PAddr p)) Z.compare)
       (cmp_lex (cmp_on (fun p => Zone (PAddr p)) String.compare) (cmp_on Bits Z.compare))).

Lemma prefix_less_cmp p q : prefix_less p q = cmp_less prefix_cmp p q.
Proof.
  unfold prefix_less, cmp_less, prefix_cmp, cmp_lex, cmp_on, Compare, Z.ltb.
  destruct (Z.compare_spec (BitLen (PAddr p)) (BitLen (PAddr q))) as [E|_|_]; [|done..].
  destruct (addr128 (PAddr p) ?= addr128 (PAddr q)); [|done..].
  destruct (PAddr p), (PAddr q); try done; cbn; unfold string_cmp; by destruct (String.compare _ _).
Qed.

Lemma prefix_cmp_eq p q : prefix_cmp p q = Eq -> p = q.
Proof.
  unfold prefix_cmp, cmp_lex, cmp_on.
  destruct (Z.compare_spec (BitLen (PAddr p)) (BitLen (PAddr q))) as [Eb|_|_]; [|done..].
  destruct (Z.compare_spec (addr128 (PAddr p)) (addr128 (PAddr q))) as [Ea|_|_]; [|done..].
  destruct (String.compare _ _) eqn:Ez; [|done..]. apply String.compare_eq_iff in Ez.
  intros Eq%Z.compare_eq. unfold Bits in Eq. destruct p as [a b], q as [a' b']; cbn in *.
  f_equal; [|lia]. destruct a, a'; cbn in *; (done || f_equal; done || lia).
Qed.

Lemma sortPrefixes_perm l : sortPrefixes l ≡ₚ l.
Proof. apply go_sort_perm. Qed.

Lemma elem_of_sortPrefixes p l : p ∈ sortPrefixes l <-> p ∈ l.
Proof. apply elem_of_go_sort. Qed.

Lemma sortPrefixes_unique l1 l2 : l1 ≡ₚ l2 -> sortPrefixes l1 = sortPrefixes l2.
Proof.
  apply (go_sort_unique prefix_cmp); [apply prefix_less_cmp|]. intros p q _ _. apply prefix_cmp_eq.
Qed.

Lemma sortPrefixes_sorted l : StronglySorted (not_less prefix_less) (sortPrefixes l).
Proof. apply (go_sort_ordered prefix_cmp), prefix_less_cmp. Qed.

Lemma dedup_loop_spec seen l :
  NoDup (dedup_loop seen l) /\ forall p, p ∈ dedup_loop seen l <-> p ∈ l /\ p ∉ seen.
Proof.
  revert seen. induction l as [|q l IH]; intros seen; cbn [dedup_loop].
  { split; [constructor|]. set_solver. }
  case_bool_decide as Hq.
  - destruct (IH seen) as [Hn Hin]. split; [done|]. intros p. rewrite Hin. set_solver.
  - destruct (IH ({[q]} ∪ seen)) as [Hn Hin]. split.
    + constructor; [|done]. rewrite Hin. set_solver.
    + intros p. rewrite !elem_of_cons, Hin. destruct (decide (p = q)); set_solver.
Qed.

Lemma dedup_spec l : NoDup (dedup l) /\ forall p, p ∈ dedup l <-> p ∈ l.
Proof.
  unfold dedup. destruct (dedup_loop_spec ∅ l) as [Hn Hin]. destruct l as [|q l]; cbn [length Nat.eqb].
  { split; [constructor|done]. }
  split; [by rewrite sortPrefixes_perm|]. intros p. rewrite elem_of_sortPrefixes, Hin. set_solver.
Qed.

Lemma dedup_unique l1 l2 : (forall p, p ∈ l1 <-> p ∈ l2) -> dedup l1 = dedup l2.
Proof.
  intros Hl. assert (dedup l1 ≡ₚ dedup l2) as Hp.
  { apply NoDup_Permutation; [apply dedup_spec..|]. intros p. by rewrite !(proj2 (dedup_spec _)). }
  assert (forall l, dedup l = sortPrefixes (dedup_loop ∅ l)) as Hd by by intros [].
  rewrite !Hd in *. rewrite !sortPrefixes_perm in Hp. by apply sortPrefixes_unique.
Qed.

Lemma elem_of_List_filter {A} (f : A -> bool) x l : x ∈ List.filter f l <-> x ∈ l /\ f x = true.
Proof. by rewrite !list_elem_of_In, filter_In. Qed.

Lemma NoDup_List_filter {A} (f : A -> bool) (l : list A) : NoDup l -> NoDup (List.filter f l).
Proof. rewrite !NoDup_ListNoDup. apply List.NoDup_filter. Qed.

Lemma computePlan_elem current desired f :
  (forall p, p ∈ pl_Add (computePlan current desired f) <-> p ∈ desired /\ p ∉ current)
  /\ (forall p, p ∈ pl_Remove (computePlan current desired f) <-> p ∈ current /\ p ∉ desired).
Proof.
  split; intros p; cbn [computePlan pl_Add pl_Remove]; rewrite elem_of_sortPrefixes, elem_of_List_filter,
    negb_true_iff, bool_decide_eq_false, elem_of_list_to_set, !(proj2 (dedup_spec _)); done.
Qed.

(** [computePlan] is the minimal difference: it adds the desired prefixes
    that are missing and removes the installed ones that are not desired, each
    once and in address order; executing it turns the current set into the
    desired one. *)
Theorem computePlan_minimal current desired f :
  let pl := computePlan current desired f in
  (forall p, p ∈ pl_Add pl <-> p ∈ desired /\ p ∉ current)
  /\ (forall p, p ∈ pl_Remove pl <-> p ∈ current /\ p ∉ desired)
  /\ NoDup (pl_Add pl) /\ NoDup (pl_Remove pl)
  /\ StronglySorted (not_less prefix_less) (pl_Add pl)
  /\ StronglySorted (not_less prefix_less) (pl_Remove pl)
  /\ (list_to_set current ∖ list_to_set (pl_Remove pl)) ∪ list_to_set (pl_Add pl)
     = (list_to_set desired : gset Prefix).
Proof.
  cbv zeta. destruct (computePlan_elem current desired f) as [Ha Hr]. split_and!; [done|done|..].
  - cbn. rewrite sortPrefixes_perm. apply NoDup_List_filter, dedup_spec.
  - cbn. rewrite sortPrefixes_perm. apply NoDup_List_filter, dedup_spec.
  - apply sortPrefixes_sorted.
  - apply sortPrefixes_sorted.
  - apply set_eq. intros p. rewrite elem_of_union, elem_of_difference, !elem_of_list_to_set, Ha, Hr.
    destruct (decide (p ∈ current)), (decide (p ∈ desired)); naive_solver.
Qed.

(** [computePlan] is deterministic: it depends only on the two sets, not on
    the order or multiplicity of its arguments. *)
Theorem computePlan_deterministic current current' desired desired' f :
  (forall p, p ∈ current <-> p ∈ current') -> (forall p, p ∈ desired <-> p ∈ desired') ->
  computePlan current desired f = computePlan current' desired' f.
Proof. intros Hc Hd. unfold computePlan. by rewrite (dedup_unique _ _ Hc), (dedup_unique _ _ Hd). Qed.

Lemma computePlan_deterministic_witness :
  computePlan [PrefixFrom (Addr4 1) 32] [PrefixFrom (Addr4 3) 32; PrefixFrom (Addr4 2) 32] FamilyV4
  = computePlan [PrefixFrom (Addr4 1) 32; PrefixFrom (Addr4 1) 32]
      [PrefixFrom (Addr4 2) 32; PrefixFrom (Addr4 3) 32] FamilyV4.
Proof. apply computePlan_deterministic; intros p; set_solver. Defined.

(** ** The plans of the policy routers *)

Lemma elem_of_texts (l : list Prefix) p :
  Forall prefix_wf l -> prefix_wf p ->
  PString p ∈ (list_to_set (PString <$> l) : gset string) <-> p ∈ l.
Proof.
  intros Hl Hp. rewrite elem_of_list_to_set, list_elem_of_fmap. rewrite Forall_forall in Hl.
  split; [|eauto]. intros (q & E & Hq). by rewrite (PString_inj p q Hp (Hl q Hq) E).
Qed.

Lemma List_filter_ext {A} (f g : A -> bool) (l : list A) :
  (forall x, x ∈ l -> f x = g x) -> List.filter f l = List.filter g l.
Proof.
  induction l as [|x l IH]; intros H; [done|]. cbn. rewrite (H x) by left.
  rewrite IH by (intros; apply H; by right). done.
Qed.

(** On valid prefixes the sets of texts are the sets of prefixes. *)
Lemma buildPlan_wf current desired f :
  Forall prefix_wf current -> Forall prefix_wf desired ->
  buildPlan current desired f
  = MkPlan f (List.filter (fun p => negb (bool_decide (p ∈ current))) desired)
      (List.filter (fun p => negb (bool_decide (p ∈ desired))) current).
Proof.
  intros Hc Hd. unfold buildPlan. f_equal; apply List_filter_ext; intros p Hp; f_equal;
    apply bool_decide_ext, elem_of_texts; try done.
  - by apply (proj1 (Forall_forall _ _) Hd).
  - by apply (proj1 (Forall_forall _ _) Hc).
Qed.

(** The two planners agree: on valid prefixes [buildPlan], which compares
    texts, and [computePlan], which compares prefixes and sorts, add and remove
    the same prefixes; on duplicate-free lists the one is a permutation of the
    other. *)
Theorem buildPlan_computePlan current desired f :
  Forall prefix_wf current -> Forall prefix_wf desired -> NoDup current -> NoDup desired ->
  pl_Add (buildPlan current desired f) ≡ₚ pl_Add (computePlan current desired f)
  /\ pl_Remove (buildPlan current desired f) ≡ₚ pl_Remove (computePlan current desired f).
Proof.
  intros Hc Hd Hnc Hnd. rewrite buildPlan_wf by done.
  destruct (computePlan_elem current desired f) as [Ha Hr].
  split; cbn [pl_Add pl_Remove]; (apply NoDup_Permutation; [by apply NoDup_List_filter|..]).
  - cbn. rewrite sortPrefixes_perm. apply NoDup_List_filter, dedup_spec.
  - intros p. rewrite Ha, elem_of_List_filter, negb_true_iff, bool_decide_eq_false. done.
  - cbn. rewrite sortPrefixes_perm. apply NoDup_List_filter, dedup_spec.
  - intros p. rewrite Hr, elem_of_List_filter, negb_true_iff, bool_decide_eq_false. done.
Qed.

Lemma buildPlan_computePlan_witness :
  pl_Add (buildPlan [PrefixFrom (Addr4 1) 32] [PrefixFrom (Addr4 3) 32; PrefixFrom (Addr4 2) 32] FamilyV4)
  ≡ₚ pl_Add (computePlan [PrefixFrom (Addr4 1) 32]
               [PrefixFrom (Addr4 3) 32; PrefixFrom (Addr4 2) 32] FamilyV4).
Proof.
  apply buildPlan_computePlan; by apply (bool_decide_unpack _); vm_compute.
Defined.
