(* ===== verification/Config.v ===== *)
(** * [internal/config]: schema, defaults and validation

  [config.go]: the configuration records and [Defaults].
  [validate.go]: [Validate] and its per-section helpers; the messages keep the
  field and the rule, not the offending value. *)

From S2P Require Import Prelude GoLib.

Local Open Scope Z_scope.

(** ** Dynamic values ([any]) *)

Inductive any : Type :=
| ANil
| AStr (s : string)
| AInt (n : Z)
| ABool (b : bool)
| AFloat (text : string)
| AList (l : list any)
| AMap (m : list (string * any)).

(** ** Durations, in nanoseconds *)

Definition Millisecond : Z := 1000000.
Definition Second : Z := 1000 * Millisecond.
Definition Minute : Z := 60 * Second.
Definition Hour : Z := 60 * Minute.

(** ** The schema *)

Record SourceConfig := {
  so_URL : string; so_CachePath : string; so_RefreshInterval : Z; so_HTTPTimeout : Z }.

Record SourceItemConfig := {
  si_ID : string; si_Provider : string; si_Prefix : string; si_Enabled : bool;
  si_Config : list (string * any) }.

Record ResolverConfig := {
  rc_Upstream : string; rc_Network : string; rc_Concurrency : Z; rc_QPS : Z; rc_Timeout : Z;
  rc_Retries : Z; rc_BackoffBase : Z; rc_BackoffMax : Z; rc_FollowCNAME : bool;
  rc_EnableV4 : bool; rc_EnableV6 : bool }.

Record CacheConfig := { cc_DBPath : string; cc_TTL : Z; cc_FailedTTL : Z; cc_VacuumAfter : Z }.

Definition AggregationLevel : Type := string.
Definition LevelOff : AggregationLevel := "off"%string.
Definition LevelConservative : AggregationLevel := "conservative"%string.
Definition LevelBalanced : AggregationLevel := "balanced"%string.
Definition LevelAggressive : AggregationLevel := "aggressive"%string.

Record AggregationConfig := {
  ac_Enabled : bool; ac_Level : AggregationLevel; ac_V4MaxPrefix : Z; ac_V6MaxPrefix : Z }.

Record ExportConfig := { ec_Dir : string; ec_IPv4File : string; ec_IPv6File : string }.

Definition RoutingBackend : Type := string.
Definition BackendNone : RoutingBackend := "none"%string.
Definition BackendNFTables : RoutingBackend := "nftables"%string.
Definition BackendIProute2 : RoutingBackend := "iproute2"%string.

Record PolicyConfig := {
  pc_Name : string; pc_Enabled : bool; pc_Categories : list string; pc_Backend : RoutingBackend;
  pc_TableID : Z; pc_Iface : string; pc_NFTTable : string; pc_NFTSetV4 : string;
  pc_NFTSetV6 : string; pc_DryRun : bool; pc_ExportFormat : string;
  pc_Aggregation : option AggregationConfig }.

Record RoutingConfig := {
  ro_Enabled : bool; ro_StateDir : string; ro_Policies : list PolicyConfig }.

Record SchedulerConfig := { sc_DLCRefresh : Z; sc_ResolveCycle : Z }.
Record LoggingConfig := { lc_Level : string; lc_Format : string }.
Record MetricsConfig := { mc_Enabled : bool; mc_Path : string }.

Record Config := {
  cfg_Listen : string; cfg_Source : SourceConfig; cfg_Sources : list SourceItemConfig;
  cfg_Resolver : ResolverConfig; cfg_Cache : CacheConfig; cfg_Aggregation : AggregationConfig;
  cfg_Export : ExportConfig; cfg_Routing : RoutingConfig; cfg_Scheduler : SchedulerConfig;
  cfg_Logging : LoggingConfig; cfg_Metrics : MetricsConfig }.

Definition dlc_url : string :=
  "https://github.com/v2fly/domain-list-community/releases/latest/download/dlc.dat"%string.

Definition Defaults : Config := {|
  cfg_Listen := ":9099";
  cfg_Source := {| so_URL := dlc_url; so_CachePath := "/var/lib/d2ip/dlc.dat";
               so_RefreshInterval := 24 * Hour; so_HTTPTimeout := 30 * Second |};
  cfg_Sources := [ {| si_ID := "default-geosite"; si_Provider := "v2flygeosite"; si_Prefix := "geosite";
                  si_Enabled := true;
                  si_Config := [("url", AStr dlc_url); ("cache_path", AStr "/var/lib/d2ip/dlc.dat");
                                ("refresh_interval", AStr "24h"); ("http_timeout", AStr "30s")] |} ];
  cfg_Resolver := {| rc_Upstream := "1.1.1.1:53"; rc_Network := "udp"; rc_Concurrency := 64;
                 rc_QPS := 200; rc_Timeout := 3 * Second; rc_Retries := 3;
                 rc_BackoffBase := 200 * Millisecond; rc_BackoffMax := 5 * Second;
                 rc_FollowCNAME := true; rc_EnableV4 := true; rc_EnableV6 := true |};
  cfg_Cache := {| cc_DBPath := "/var/lib/d2ip/cache.db"; cc_TTL := 6 * Hour;
              cc_FailedTTL := 30 * Minute; cc_VacuumAfter := 720 * Hour |};
  cfg_Aggregation := {| ac_Enabled := true; ac_Level := LevelBalanced; ac_V4MaxPrefix := 16;
                    ac_V6MaxPrefix := 32 |};
  cfg_Export := {| ec_Dir := "/var/lib/d2ip/out"; ec_IPv4File := "ipv4.txt"; ec_IPv6File := "ipv6.txt" |};
  cfg_Routing := {| ro_Enabled := false; ro_StateDir := "/var/lib/d2ip"; ro_Policies := [] |};
  cfg_Scheduler := {| sc_DLCRefresh := 24 * Hour; sc_ResolveCycle := 1 * Hour |};
  cfg_Logging := {| lc_Level := "info"; lc_Format := "json" |};
  cfg_Metrics := {| mc_Enabled := true; mc_Path := "/metrics" |}
|}%string.

(** ** [net.SplitHostPort] *)

Definition has_byte (c : ascii) (s : string) : bool := str_existsb (Ascii.eqb c) s.

Definition SplitHostPort (hostport : string) : option (string * string) :=
  match cut_last (Ascii.eqb ":") hostport with
  | None => None
  | Some (before, port) =>
      match hostport with
      | String "[" rest =>
          match cut_at (Ascii.eqb "]") rest with
          | None => None
          | Some (host, tail) =>
              (* the byte after the first bracket must be the last colon *)
              if Nat.eqb (String.length tail) (S (String.length port)) then
                if has_byte "[" rest || has_byte "]" tail then None else Some (host, port)
              else None
          end
      | _ =>
          if has_byte ":" before then None
          else if has_byte "[" hostport || has_byte "]" hostport then None
          else Some (before, port)
      end
  end.

(** ** Validation *)

(** An error of the list when a check fails. *)
Definition check (ok : bool) (msg : string) : list error := if ok then [] else [ErrNew msg].

Definition nonblank (s : string) : bool := negb (String.eqb (TrimSpace s) "").
Definition nonempty (s : string) : bool := negb (String.eqb s "").

Definition prefix_char (c : ascii) : bool :=
  (97 <=? code c) && (code c <=? 122) || (48 <=? code c) && (code c <=? 57) || Ascii.eqb c "-".

Definition validProviders : list string :=
  ["v2flygeosite"; "plaintext"; "ipverse"; "v2flygeoip"; "mmdb"]%string.

(** The loop of [validateSources]; the first violation ends it. *)
Fixpoint validateSources_loop (srcs : list SourceItemConfig) (ids prefixes : gset string)
    : option error :=
  match srcs with
  | [] => None
  | src :: srcs' =>
      if String.eqb (si_ID src) "" then Some (ErrNew "sources.id is required")
      else if bool_decide (si_ID src ∈ ids) then Some (ErrNew "sources.id is duplicate")
      else if String.eqb (si_Prefix src) "" then Some (ErrNew "sources.prefix is required")
      else if negb (str_forallb prefix_char (si_Prefix src))
      then Some (ErrNew "sources.prefix must be lowercase alphanumeric or hyphen")
      else if bool_decide (si_Prefix src ∈ prefixes) then Some (ErrNew "sources.prefix is duplicate")
      else if String.eqb (si_Provider src) "" then Some (ErrNew "sources.provider is required")
      else if negb (one_of (si_Provider src) validProviders)
      then Some (ErrNew "sources.provider is not valid")
      else validateSources_loop srcs' ({[ si_ID src ]} ∪ ids) ({[ si_Prefix src ]} ∪ prefixes)
  end.

Definition validateSources (cfg : Config) : option error :=
  if Nat.eqb (length (cfg_Sources cfg)) 0 then Some (ErrNew "sources: at least one source is required")
  else validateSources_loop (cfg_Sources cfg) ∅ ∅.

Definition valid_port (port : string) : bool :=
  match Atoi port with Some p => (1 <=? p) && (p <=? 65535) | None => false end.

Definition validateResolver (r : ResolverConfig) : list error :=
  (if negb (nonblank (rc_Upstream r)) then [ErrNew "resolver.upstream: must not be empty"]
   else match SplitHostPort (rc_Upstream r) with
        | None => [ErrNew "resolver.upstream: invalid host:port"]
        | Some (host, port) =>
            check (nonempty host) "resolver.upstream: missing host"
            ++ check (valid_port port) "resolver.upstream: invalid port"
        end)
  ++ check (one_of (rc_Network r) ["udp"; "tcp"; "tcp-tls"]%string)
       "resolver.network: must be udp|tcp|tcp-tls"
  ++ check (negb ((rc_Concurrency r <? 1) || (4096 <? rc_Concurrency r)))
       "resolver.concurrency: must be in [1,4096]"
  ++ check (negb ((rc_QPS r <? 1) || (100000 <? rc_QPS r))) "resolver.qps: must be in [1,100000]"
  ++ check (negb (rc_Timeout r <? 100 * Millisecond)) "resolver.timeout: must be >= 100ms"
  ++ check (negb ((rc_Retries r <? 0) || (10 <? rc_Retries r))) "resolver.retries: must be in [0,10]"
  ++ check (negb (rc_BackoffBase r <=? 0)) "resolver.backoff_base: must be > 0"
  ++ check (negb (rc_BackoffMax r <? rc_BackoffBase r))
       "resolver.backoff_max must be >= resolver.backoff_base"
  ++ check (rc_EnableV4 r || rc_EnableV6 r)
       "resolver: at least one of enable_v4 or enable_v6 must be true".

Definition validateCache (c : CacheConfig) : list error :=
  check (nonblank (cc_DBPath c)) "cache.db_path: must not be empty"
  ++ check (negb (cc_TTL c <? Minute)) "cache.ttl: must be >= 1m"
  ++ check (negb (cc_FailedTTL c <? Second)) "cache.failed_ttl: must be >= 1s"
  ++ check (negb (cc_VacuumAfter c <? Hour)) "cache.vacuum_after: must be >= 1h".

Definition validateAggregation (a : AggregationConfig) : list error :=
  check (one_of (ac_Level a) [LevelOff; LevelConservative; LevelBalanced; LevelAggressive])
    "aggregation.level: must be off|conservative|balanced|aggressive"
  ++ check (negb ((ac_V4MaxPrefix a <? 8) || (32 <? ac_V4MaxPrefix a)))
       "aggregation.v4_max_prefix: must be in [8,32]"
  ++ check (negb ((ac_V6MaxPrefix a <? 16) || (128 <? ac_V6MaxPrefix a)))
       "aggregation.v6_max_prefix: must be in [16,128]".

Definition validateExport (e : ExportConfig) : list error :=
  check (nonblank (ec_Dir e)) "export.dir: must not be empty"
  ++ check (nonblank (ec_IPv4File e)) "export.ipv4_file: must not be empty"
  ++ check (nonblank (ec_IPv6File e)) "export.ipv6_file: must not be empty"
  ++ check (negb (String.eqb (ec_IPv4File e) (ec_IPv6File e)))
       "export.ipv4_file and export.ipv6_file must differ".

Definition validateRouting (r : RoutingConfig) : list error :=
  check (negb (ro_Enabled r && negb (nonblank (ro_StateDir r))))
    "routing.state_dir: must not be empty when routing is enabled".

(** [^[a-z0-9_-]+$]. *)
Definition name_char (c : ascii) : bool := prefix_char c || Ascii.eqb c "_".
Definition validName (s : string) : bool := nonempty s && str_forallb name_char s.

(** [strings.SplitN(cat, ":", 2)] with two non-empty parts. *)
Definition valid_category (cat : string) : bool :=
  match cut_at (Ascii.eqb ":") cat with
  | Some (a, b) => nonempty a && nonempty b
  | None => false
  end.

Definition validFormats : list string :=
  ["plain"; "ipset"; "json"; "nft"; "iptables"; "bgp"; "yaml"]%string.

Definition v4Key (p : PolicyConfig) : string := pc_NFTTable p +:+ "." +:+ pc_NFTSetV4 p.
Definition v6Key (p : PolicyConfig) : string := pc_NFTTable p +:+ "." +:+ pc_NFTSetV6 p.

(** The checks of one policy from the [Enabled] test on: the errors, and the
    table ids and set keys it claims. *)
Definition validateEnabled (p : PolicyConfig) (tableIDs : gset Z) (nftSets : gset string)
    : list error * gset Z * gset string :=
  let errs :=
    check (negb (Nat.eqb (length (pc_Categories p)) 0)) "categories must have at least one entry"
    ++ mjoin ((fun cat => check (valid_category cat) "category must be prefix:name")
                <$> pc_Categories p)
    ++ check (negb (String.eqb (pc_Backend p) BackendNone))
         "backend cannot be 'none' for enabled policy"
    ++ check (one_of (pc_Backend p) [BackendIProute2; BackendNFTables; BackendNone])
         "backend invalid" in
  let '(errs, tableIDs) :=
    if String.eqb (pc_Backend p) BackendIProute2 then
      (errs ++ check (nonempty (pc_Iface p)) "iface is required for iproute2"
            ++ check (negb ((pc_TableID p <? 1) || (252 <? pc_TableID p))) "table_id must be in [1,252]"
            ++ check (negb (bool_decide (pc_TableID p ∈ tableIDs))) "table_id is duplicate",
       {[ pc_TableID p ]} ∪ tableIDs)
    else (errs, tableIDs) in
  let '(errs, nftSets) :=
    if String.eqb (pc_Backend p) BackendNFTables then
      (errs ++ check (nonempty (pc_NFTTable p) && nonempty (pc_NFTSetV4 p) && nonempty (pc_NFTSetV6 p))
                 "nft_table, nft_set_v4, nft_set_v6 are required for nftables"
            ++ check (negb (bool_decide (v4Key p ∈ nftSets))) "nft_set_v4 is duplicate"
            ++ check (negb (bool_decide (v6Key p ∈ nftSets))) "nft_set_v6 is duplicate",
       {[ v4Key p; v6Key p ]} ∪ nftSets)
    else (errs, nftSets) in
  (errs ++ check (String.eqb (pc_ExportFormat p) "" || one_of (pc_ExportFormat p) validFormats)
             "export_format is invalid", tableIDs, nftSets).

Fixpoint validatePolicies_loop (policies : list PolicyConfig) (names : gset string)
    (tableIDs : gset Z) (nftSets : gset string) : list error :=
  match policies with
  | [] => []
  | p :: policies' =>
      if String.eqb (pc_Name p) ""
      then ErrNew "name is required" :: validatePolicies_loop policies' names tableIDs nftSets
      else
        let errs := check (validName (pc_Name p)) "name must match [a-z0-9_-]+"
          ++ check (negb (bool_decide (pc_Name p ∈ names))) "name is duplicate" in
        let names := {[ pc_Name p ]} ∪ names in
        if negb (pc_Enabled p) then errs ++ validatePolicies_loop policies' names tableIDs nftSets
        else
          let '(errs', tableIDs, nftSets) := validateEnabled p tableIDs nftSets in
          errs ++ errs' ++ validatePolicies_loop policies' names tableIDs nftSets
  end.

Definition validatePolicies (policies : list PolicyConfig) : list error :=
  validatePolicies_loop policies ∅ ∅ ∅.

Definition validateScheduler (s : SchedulerConfig) : list error :=
  check (negb (sc_DLCRefresh s <? Minute)) "scheduler.dlc_refresh: must be >= 1m"
  ++ check (negb (negb (sc_ResolveCycle s =? 0) && (sc_ResolveCycle s <? Minute)))
       "scheduler.resolve_cycle: must be >= 1m or 0 (disabled)".

Definition validateLogging (l : LoggingConfig) : list error :=
  check (one_of (ToLower (lc_Level l)) ["debug"; "info"; "warn"; "error"; "fatal"; "panic"]%string)
    "logging.level: must be debug|info|warn|error|fatal|panic"
  ++ check (one_of (ToLower (lc_Format l)) ["json"; "console"; "text"]%string)
       "logging.format: must be json|console|text".

Definition validateMetrics (m : MetricsConfig) : list error :=
  if mc_Enabled m then check (HasPrefix (mc_Path m) "/") "metrics.path: must start with '/'" else [].

Definition Validate (c : Config) : list error :=
  (if negb (nonblank (cfg_Listen c)) then [ErrNew "listen: must not be empty"]
   else match SplitHostPort (cfg_Listen c) with
        | None => [ErrNew "listen: invalid address"]
        | Some _ => []
        end)
  ++ (match validateSources c with Some err => [err] | None => [] end)
  ++ validateResolver (cfg_Resolver c)
  ++ validateCache (cfg_Cache c)
  ++ validateAggregation (cfg_Aggregation c)
  ++ validateExport (cfg_Export c)
  ++ validateRouting (cfg_Routing c)
  ++ validatePolicies (ro_Policies (cfg_Routing c))
  ++ validateScheduler (cfg_Scheduler c)
  ++ validateLogging (cfg_Logging c)
  ++ validateMetrics (cfg_Metrics c).
