(* ===== verification/ConfigSpec.v ===== *)
(** * What a valid configuration is

  A declarative reading of the rules, and the proof that [Validate] reports no
  error for exactly the configurations that meet it. *)

From S2P Require Import Prelude GoLib Config.

Local Open Scope Z_scope.

(** ** The rules *)

Definition host_port_ok (s : string) : Prop := exists hp, SplitHostPort s = Some hp.

Record source_ok (s : SourceItemConfig) : Prop := {
  sok_id : si_ID s <> ""%string;
  sok_prefix : si_Prefix s <> ""%string;
  sok_chars : str_forallb prefix_char (si_Prefix s) = true;
  sok_provider : si_Provider s ∈ validProviders }.

Record resolver_ok (r : ResolverConfig) : Prop := {
  rok_upstream : nonblank (rc_Upstream r) = true;
  rok_hostport : exists host port, SplitHostPort (rc_Upstream r) = Some (host, port)
    /\ host <> ""%string /\ valid_port port = true;
  rok_network : rc_Network r ∈ ["udp"; "tcp"; "tcp-tls"]%string;
  rok_concurrency : 1 <= rc_Concurrency r <= 4096;
  rok_qps : 1 <= rc_QPS r <= 100000;
  rok_timeout : 100 * Millisecond <= rc_Timeout r;
  rok_retries : 0 <= rc_Retries r <= 10;
  rok_backoff : 0 < rc_BackoffBase r <= rc_BackoffMax r;
  rok_family : rc_EnableV4 r = true \/ rc_EnableV6 r = true }.

Definition on_backend (b : RoutingBackend) (p : PolicyConfig) : Prop :=
  pc_Enabled p = true /\ pc_Backend p = b.

#[export] Instance on_backend_dec b p : Decision (on_backend b p).
Proof. unfold on_backend. apply _. Defined.

Record policy_ok (p : PolicyConfig) : Prop := {
  pok_name : validName (pc_Name p) = true;
  pok_categories : pc_Enabled p = true ->
    pc_Categories p <> [] /\ Forall (fun c => valid_category c = true) (pc_Categories p);
  pok_backend : pc_Enabled p = true -> pc_Backend p ∈ [BackendIProute2; BackendNFTables];
  pok_iproute2 : on_backend BackendIProute2 p -> pc_Iface p <> ""%string /\ 1 <= pc_TableID p <= 252;
  pok_nft : on_backend BackendNFTables p ->
    pc_NFTTable p <> ""%string /\ pc_NFTSetV4 p <> ""%string /\ pc_NFTSetV6 p <> ""%string;
  pok_format : pc_Enabled p = true ->
    pc_ExportFormat p = ""%string \/ pc_ExportFormat p ∈ validFormats }.

(** Policies do not share a kernel object: names, routing tables and nftables
    sets are claimed at most once. *)
Definition table_ids (ps : list PolicyConfig) : list Z :=
  pc_TableID <$> filter (on_backend BackendIProute2) ps.
Definition nft_keys (p : PolicyConfig) : gset string := {[ v4Key p; v6Key p ]}.
Definition nft_policies (ps : list PolicyConfig) : list PolicyConfig :=
  filter (on_backend BackendNFTables) ps.

Record policies_ok (ps : list PolicyConfig) : Prop := {
  pso_each : Forall policy_ok ps;
  pso_names : NoDup (pc_Name <$> ps);
  pso_tables : NoDup (table_ids ps);
  pso_sets : ForallOrdPairs (fun p q => nft_keys p ## nft_keys q) (nft_policies ps) }.

Record config_ok (c : Config) : Prop := {
  cok_listen : nonblank (cfg_Listen c) = true /\ host_port_ok (cfg_Listen c);
  cok_sources : cfg_Sources c <> [] /\ Forall source_ok (cfg_Sources c)
    /\ NoDup (si_ID <$> cfg_Sources c) /\ NoDup (si_Prefix <$> cfg_Sources c);
  cok_resolver : resolver_ok (cfg_Resolver c);
  cok_cache : nonblank (cc_DBPath (cfg_Cache c)) = true /\ Minute <= cc_TTL (cfg_Cache c)
    /\ Second <= cc_FailedTTL (cfg_Cache c) /\ Hour <= cc_VacuumAfter (cfg_Cache c);
  cok_aggregation :
    ac_Level (cfg_Aggregation c) ∈ [LevelOff; LevelConservative; LevelBalanced; LevelAggressive]
    /\ 8 <= ac_V4MaxPrefix (cfg_Aggregation c) <= 32
    /\ 16 <= ac_V6MaxPrefix (cfg_Aggregation c) <= 128;
  cok_export : nonblank (ec_Dir (cfg_Export c)) = true
    /\ nonblank (ec_IPv4File (cfg_Export c)) = true /\ nonblank (ec_IPv6File (cfg_Export c)) = true
    /\ ec_IPv4File (cfg_Export c) <> ec_IPv6File (cfg_Export c);
  cok_routing : ro_Enabled (cfg_Routing c) = true -> nonblank (ro_StateDir (cfg_Routing c)) = true;
  cok_policies : policies_ok (ro_Policies (cfg_Routing c));
  cok_scheduler : Minute <= sc_DLCRefresh (cfg_Scheduler c)
    /\ (sc_ResolveCycle (cfg_Scheduler c) = 0 \/ Minute <= sc_ResolveCycle (cfg_Scheduler c));
  cok_logging :
    ToLower (lc_Level (cfg_Logging c)) ∈ ["debug"; "info"; "warn"; "error"; "fatal"; "panic"]%string
    /\ ToLower (lc_Format (cfg_Logging c)) ∈ ["json"; "console"; "text"]%string;
  cok_metrics : mc_Enabled (cfg_Metrics c) = true -> HasPrefix (mc_Path (cfg_Metrics c)) "/" = true }.

(** ** The checks *)

Lemma check_nil b msg : check b msg = [] <-> b = true.
Proof. by destruct b. Qed.

Lemma one_of_spec s l : one_of s l = true <-> s ∈ l.
Proof.
  unfold one_of. rewrite existsb_exists. split.
  - intros (x & Hx & ->%String.eqb_eq). by apply list_elem_of_In.
  - intros Hs. exists s. split; [by apply list_elem_of_In|apply String.eqb_refl].
Qed.

Lemma nonempty_spec s : nonempty s = true <-> s <> ""%string.
Proof. unfold nonempty. by rewrite negb_true_iff, String.eqb_neq. Qed.

Lemma app_nil_iff {A} (l1 l2 : list A) : l1 ++ l2 = [] <-> l1 = [] /\ l2 = [].
Proof. split; [apply app_eq_nil|by intros [-> ->]]. Qed.

Lemma range_spec a b x : negb ((x <? a) || (b <? x)) = true <-> a <= x <= b.
Proof. rewrite negb_true_iff, orb_false_iff, !Z.ltb_ge. lia. Qed.

Lemma least_spec a x : negb (x <? a) = true <-> a <= x.
Proof. rewrite negb_true_iff, Z.ltb_ge. done. Qed.

Lemma not_in_spec `{Countable A} (x : A) (X : gset A) : negb (bool_decide (x ∈ X)) = true <-> x ∉ X.
Proof. rewrite negb_true_iff. apply bool_decide_eq_false. Qed.

#[export] Hint Rewrite @app_nil_iff check_nil one_of_spec nonempty_spec range_spec least_spec
  @not_in_spec : d2ip_rw.

(** ** Sources *)

Lemma if_none_iff {A} (b : bool) (e : A) x :
  (if b then Some e else x) = None <-> b = false /\ x = None.
Proof. by destruct b; naive_solver. Qed.

Lemma source_ok_spec s :
  source_ok s <-> String.eqb (si_ID s) "" = false /\ String.eqb (si_Prefix s) "" = false
    /\ negb (str_forallb prefix_char (si_Prefix s)) = false
    /\ String.eqb (si_Provider s) "" = false /\ negb (one_of (si_Provider s) validProviders) = false.
Proof.
  rewrite !String.eqb_neq, !negb_false_iff, one_of_spec. split.
  - intros [? ? ? Hp]. split_and!; try done. intros He. rewrite He in Hp. by vm_compute in Hp; set_solver.
  - intros (? & ? & ? & ? & ?). by split.
Qed.

Lemma validateSources_loop_spec srcs ids prefixes :
  validateSources_loop srcs ids prefixes = None <->
  Forall source_ok srcs /\ NoDup (si_ID <$> srcs) /\ NoDup (si_Prefix <$> srcs)
  /\ forall s, s ∈ srcs -> si_ID s ∉ ids /\ si_Prefix s ∉ prefixes.
Proof.
  revert ids prefixes. induction srcs as [|s srcs IH]; intros ids prefixes; cbn [validateSources_loop].
  { split; [|done]. intros _. split_and!; try constructor; by apply not_elem_of_nil in H. }
  rewrite !if_none_iff, IH, !bool_decide_eq_false, Forall_cons, !fmap_cons, !NoDup_cons, source_ok_spec.
  rewrite !list_elem_of_fmap.
  split.
  - intros (H1 & H2 & H3 & H4 & H5 & H6 & H7 & Hf & Hn & Hn' & Ha). split_and!; try done.
    + intros (s' & He & Hs'). apply Ha in Hs' as [Hs' _]. set_solver.
    + intros (s' & He & Hs'). apply Ha in Hs' as [_ Hs']. set_solver.
    + intros s' [->|Hs']%elem_of_cons; [done|]. apply Ha in Hs'. set_solver.
  - intros (((H1 & H2 & H3 & H4 & H5) & Hf) & [Hn1 Hn] & [Hn1' Hn'] & Ha).
    split_and!; try done; try (apply (Ha s); left).
    intros s' Hs'. pose proof (Ha s' ltac:(by right)) as [Ha1 Ha2].
    rewrite !not_elem_of_union, !not_elem_of_singleton. naive_solver.
Qed.

(** ** Policies *)

Lemma mjoin_check_nil {A} (f : A -> bool) msg (l : list A) :
  mjoin ((fun x => check (f x) msg) <$> l) = [] <-> Forall (fun x => f x = true) l.
Proof.
  induction l as [|x l IH]; [done|]. rewrite fmap_cons, Forall_cons, <- IH, <- (check_nil _ msg).
  cbn [mjoin list_join]. by rewrite app_nil_iff.
Qed.

(** What the checks of one enabled policy amount to. *)
Lemma validateEnabled_spec p tids sets errs tids' sets' :
  pc_Enabled p = true -> validateEnabled p tids sets = (errs, tids', sets') ->
  tids' = (if bool_decide (on_backend BackendIProute2 p) then {[ pc_TableID p ]} ∪ tids else tids)
  /\ sets' = (if bool_decide (on_backend BackendNFTables p) then nft_keys p ∪ sets else sets)
  /\ (errs = [] <->
      (pc_Categories p <> [] /\ Forall (fun c => valid_category c = true) (pc_Categories p))
      /\ pc_Backend p ∈ [BackendIProute2; BackendNFTables]
      /\ (on_backend BackendIProute2 p ->
          pc_Iface p <> ""%string /\ 1 <= pc_TableID p <= 252 /\ pc_TableID p ∉ tids)
      /\ (on_backend BackendNFTables p ->
          (pc_NFTTable p <> ""%string /\ pc_NFTSetV4 p <> ""%string /\ pc_NFTSetV6 p <> ""%string)
          /\ v4Key p ∉ sets /\ v6Key p ∉ sets)
      /\ (pc_ExportFormat p = ""%string \/ pc_ExportFormat p ∈ validFormats)).
Proof.
  intros He. unfold validateEnabled.
  assert (forall b, bool_decide (on_backend b p) = String.eqb (pc_Backend p) b) as Hb.
  { intros b. unfold on_backend. apply eq_bool_prop_intro. rewrite bool_decide_spec, Is_true_true, String.eqb_eq.
    naive_solver. }
  assert (forall b, on_backend b p <-> pc_Backend p = b) as Hb' by (unfold on_backend; naive_solver).
  rewrite !Hb, !Hb'. clear Hb Hb'.
  set (base := check _ _ ++ _ ++ _ ++ _).
  assert (base = [] <->
    (pc_Categories p <> [] /\ Forall (fun c => valid_category c = true) (pc_Categories p))
    /\ pc_Backend p ∈ [BackendIProute2; BackendNFTables]) as Hbase.
  { unfold base. rewrite !app_nil_iff, mjoin_check_nil, !check_nil, one_of_spec.
    rewrite !negb_true_iff, Nat.eqb_neq, String.eqb_neq.
    rewrite !elem_of_cons, !elem_of_nil. assert (length (pc_Categories p) <> 0%nat <-> pc_Categories p <> [])
      by (by destruct (pc_Categories p)).
    assert (pc_Backend p = BackendNone -> pc_Backend p <> BackendIProute2 /\ pc_Backend p <> BackendNFTables)
      by (by intros ->). naive_solver. }
  set (fmt := check (String.eqb _ _ || _) _).
  assert (fmt = [] <-> pc_ExportFormat p = ""%string \/ pc_ExportFormat p ∈ validFormats) as Hfmt
    by (unfold fmt; rewrite check_nil, orb_true_iff, String.eqb_eq, one_of_spec; done).
  clearbody base fmt. set (isfmt := _ \/ _) in *. clearbody isfmt.
  destruct (String.eqb_spec (pc_Backend p) BackendIProute2) as [Hi|Hi];
    destruct (String.eqb_spec (pc_Backend p) BackendNFTables) as [Hn|Hn];
    try (rewrite Hi in Hn; done); intros [= <- <- <-]; (split; [done|]); (split; [done|]);
    rewrite ?app_nil_iff, ?check_nil, ?andb_true_iff, ?range_spec, ?nonempty_spec, ?not_in_spec;
    tauto.
Qed.

Lemma policy_head_spec (p : PolicyConfig) (names : gset string) :
  check (validName (pc_Name p)) "name must match [a-z0-9_-]+"
    ++ check (negb (bool_decide (pc_Name p ∈ names))) "name is duplicate" = []
  <-> validName (pc_Name p) = true /\ pc_Name p ∉ names.
Proof. by rewrite app_nil_iff, !check_nil, not_in_spec. Qed.

(** The part of [policy_ok] that concerns an enabled policy. *)
Lemma policy_ok_enabled p :
  pc_Enabled p = true ->
  policy_ok p <-> validName (pc_Name p) = true
    /\ (pc_Categories p <> [] /\ Forall (fun c => valid_category c = true) (pc_Categories p))
    /\ pc_Backend p ∈ [BackendIProute2; BackendNFTables]
    /\ (on_backend BackendIProute2 p -> pc_Iface p <> ""%string /\ 1 <= pc_TableID p <= 252)
    /\ (on_backend BackendNFTables p ->
        pc_NFTTable p <> ""%string /\ pc_NFTSetV4 p <> ""%string /\ pc_NFTSetV6 p <> ""%string)
    /\ (pc_ExportFormat p = ""%string \/ pc_ExportFormat p ∈ validFormats).
Proof. intros He. split; [intros []; split_and!; auto; naive_solver|]. intros (? & ? & ? & ? & ? & ?). by split. Qed.

Lemma policy_ok_disabled p : pc_Enabled p = false -> policy_ok p <-> validName (pc_Name p) = true.
Proof.
  intros He. split; [by intros []|]. intros Hv.
  split; unfold on_backend; rewrite ?He; naive_solver.
Qed.

Lemma validName_nonempty s : validName s = true -> String.eqb s "" = false.
Proof. unfold validName, nonempty. intros. bool_hyps. done. Qed.

Lemma on_backend_disabled b p : pc_Enabled p = false -> ~ on_backend b p.
Proof. unfold on_backend. intros -> [? _]. done. Qed.

Lemma ForallOrdPairs_cons_iff {A} (R : A -> A -> Prop) x l :
  ForallOrdPairs R (x :: l) <-> Forall (R x) l /\ ForallOrdPairs R l.
Proof. split; [by inversion 1|]. intros []. by constructor. Qed.

Lemma table_ids_cons p ps :
  table_ids (p :: ps)
  = (if bool_decide (on_backend BackendIProute2 p) then [pc_TableID p] else []) ++ table_ids ps.
Proof. unfold table_ids. rewrite filter_cons. by case_decide; [rewrite bool_decide_true|rewrite bool_decide_false]. Qed.

Lemma nft_policies_cons p ps :
  nft_policies (p :: ps)
  = (if bool_decide (on_backend BackendNFTables p) then [p] else []) ++ nft_policies ps.
Proof. unfold nft_policies. rewrite filter_cons. by case_decide; [rewrite bool_decide_true|rewrite bool_decide_false]. Qed.

(** What an already processed prefix of the policies has claimed. *)
Definition fresh (ps : list PolicyConfig) (names : gset string) (tids : gset Z) (sets : gset string)
    : Prop :=
  (forall n, n ∈ pc_Name <$> ps -> n ∉ names) /\ (forall t, t ∈ table_ids ps -> t ∉ tids)
  /\ (forall q, q ∈ nft_policies ps -> nft_keys q ## sets).

Lemma policies_ok_cons p ps :
  policies_ok (p :: ps) <->
  policy_ok p /\ policies_ok ps /\ pc_Name p ∉ pc_Name <$> ps
  /\ (on_backend BackendIProute2 p -> pc_TableID p ∉ table_ids ps)
  /\ (on_backend BackendNFTables p -> Forall (fun q => nft_keys p ## nft_keys q) (nft_policies ps)).
Proof.
  split.
  - intros [He Hn Ht Hs]. rewrite fmap_cons in Hn. rewrite table_ids_cons in Ht. rewrite nft_policies_cons in Hs.
    apply Forall_cons in He as [Hp He]. apply NoDup_cons in Hn as [Hn1 Hn]. split; [done|].
    case_bool_decide; case_bool_decide; cbn [app] in *; rewrite ?NoDup_cons, ?ForallOrdPairs_cons_iff in *;
      (split; [split; naive_solver|]); naive_solver.
  - intros (Hp & [He Hn Ht Hs] & Hn1 & Ht1 & Hs1). split.
    + by constructor.
    + rewrite fmap_cons. by constructor.
    + rewrite table_ids_cons. case_bool_decide; [|done]. constructor; auto.
    + rewrite nft_policies_cons. case_bool_decide; [|done]. constructor; auto.
Qed.

Lemma fresh_cons p ps names tids sets :
  fresh (p :: ps) names tids sets <->
  fresh ps names tids sets /\ pc_Name p ∉ names
  /\ (on_backend BackendIProute2 p -> pc_TableID p ∉ tids)
  /\ (on_backend BackendNFTables p -> nft_keys p ## sets).
Proof.
  unfold fresh. rewrite fmap_cons, table_ids_cons, nft_policies_cons.
  setoid_rewrite elem_of_cons. setoid_rewrite elem_of_app.
  case_bool_decide; case_bool_decide; setoid_rewrite list_elem_of_singleton || setoid_rewrite elem_of_nil;
  set_solver.
Qed.

Lemma fresh_name ps x names tids sets :
  fresh ps ({[ x ]} ∪ names) tids sets <-> fresh ps names tids sets /\ x ∉ pc_Name <$> ps.
Proof.
  unfold fresh. split.
  - intros (Hn & Ht & Hs). split_and!; try done; [intros n Hi; specialize (Hn n Hi); set_solver|].
    intros Hx. specialize (Hn x Hx). set_solver.
  - intros ((Hn & Ht & Hs) & Hx). split_and!; try done. intros n Hi.
    specialize (Hn n Hi). rewrite not_elem_of_union, not_elem_of_singleton. naive_solver.
Qed.

Lemma fresh_table ps x names tids sets :
  fresh ps names ({[ x ]} ∪ tids) sets <-> fresh ps names tids sets /\ x ∉ table_ids ps.
Proof.
  unfold fresh. split.
  - intros (Hn & Ht & Hs). split_and!; try done; [intros n Hi; specialize (Ht n Hi); set_solver|].
    intros Hx. specialize (Ht x Hx). set_solver.
  - intros ((Hn & Ht & Hs) & Hx). split_and!; try done. intros n Hi.
    specialize (Ht n Hi). rewrite not_elem_of_union, not_elem_of_singleton. naive_solver.
Qed.

Lemma fresh_sets ps K names tids sets :
  fresh ps names tids (K ∪ sets) <->
  fresh ps names tids sets /\ Forall (fun q => K ## nft_keys q) (nft_policies ps).
Proof.
  unfold fresh. rewrite Forall_forall. split.
  - intros (Hn & Ht & Hs). split; [split_and!; [done|done|]|]; intros q Hq;
      specialize (Hs q Hq); set_solver.
  - intros ((Hn & Ht & Hs) & Hd). split_and!; [done|done|]. intros q Hq.
    specialize (Hs q Hq). specialize (Hd q Hq). set_solver.
Qed.

Lemma validatePolicies_loop_spec ps names tids sets :
  validatePolicies_loop ps names tids sets = [] <->
  policies_ok ps /\ fresh ps names tids sets.
Proof.
  revert names tids sets. induction ps as [|p ps IH]; intros names tids sets;
    cbn [validatePolicies_loop].
  { split; [|done]. intros _. split; [split; constructor|].
    split_and!; by intros ? ?%elem_of_nil. }
  rewrite policies_ok_cons, fresh_cons.
  destruct (String.eqb (pc_Name p) "") eqn:En.
  { split; [done|]. intros ([[Hv] _] & _). apply validName_nonempty in Hv. congruence. }
  destruct (pc_Enabled p) eqn:Ee; cbn [negb].
  - destruct (validateEnabled p tids sets) as [[errs tids'] sets'] eqn:Ev.
    destruct (validateEnabled_spec _ _ _ _ _ _ Ee Ev) as (-> & -> & Herrs).
    rewrite (app_nil_iff (_ ++ _)), (app_nil_iff errs), policy_head_spec, Herrs, IH, fresh_name, policy_ok_enabled by done.
    case_bool_decide as Hi; case_bool_decide as Hn; rewrite ?fresh_table, ?fresh_sets;
      assert (nft_keys p ## sets <-> v4Key p ∉ sets /\ v6Key p ∉ sets)
        by (unfold nft_keys; set_solver); tauto.
  - rewrite (app_nil_iff (_ ++ _)), policy_head_spec, IH, fresh_name, policy_ok_disabled by done.
    pose proof (on_backend_disabled BackendIProute2 p Ee).
    pose proof (on_backend_disabled BackendNFTables p Ee). tauto.
Qed.

(** ** The whole configuration *)

Lemma resolver_spec r : validateResolver r = [] <-> resolver_ok r.
Proof.
  unfold validateResolver. rewrite !app_nil_iff, !check_nil.
  assert ((if negb (nonblank (rc_Upstream r)) then [ErrNew "resolver.upstream: must not be empty"]
           else match SplitHostPort (rc_Upstream r) with
                | None => [ErrNew "resolver.upstream: invalid host:port"]
                | Some (host, port) =>
                    check (nonempty host) "resolver.upstream: missing host"
                    ++ check (valid_port port) "resolver.upstream: invalid port"
                end) = []
          <-> nonblank (rc_Upstream r) = true
              /\ exists host port, SplitHostPort (rc_Upstream r) = Some (host, port)
                 /\ host <> ""%string /\ valid_port port = true) as ->.
  { destruct (nonblank (rc_Upstream r)); cbn [negb]; [|naive_solver].
    destruct (SplitHostPort (rc_Upstream r)) as [[host port]|]; [|naive_solver].
    rewrite app_nil_iff, !check_nil, nonempty_spec. naive_solver. }
  rewrite !range_spec, !least_spec, one_of_spec, orb_true_iff, !negb_true_iff, Z.leb_gt.
  split; [intros ([? ?] & ? & ? & ? & ? & ? & ? & ? & ?); split; auto; lia|].
  intros []. split_and!; auto; lia.
Qed.

Lemma sources_spec c :
  (match validateSources c with Some err => [err] | None => [] end) = [] <->
  cfg_Sources c <> [] /\ Forall source_ok (cfg_Sources c)
  /\ NoDup (si_ID <$> cfg_Sources c) /\ NoDup (si_Prefix <$> cfg_Sources c).
Proof.
  transitivity (validateSources c = None); [by destruct (validateSources c)|].
  unfold validateSources. rewrite if_none_iff, validateSources_loop_spec, Nat.eqb_neq.
  assert (length (cfg_Sources c) <> 0%nat <-> cfg_Sources c <> []) as -> by by destruct (cfg_Sources c).
  split; [naive_solver|]. intros (? & ? & ? & ?). split_and!; auto. set_solver.
Qed.

Lemma listen_spec l :
  (if negb (nonblank l) then [ErrNew "listen: must not be empty"]
   else match SplitHostPort l with
        | None => [ErrNew "listen: invalid address"]
        | Some _ => []
        end) = []
  <-> nonblank l = true /\ host_port_ok l.
Proof.
  unfold host_port_ok. destruct (nonblank l); cbn [negb]; [|naive_solver].
  destruct (SplitHostPort l); naive_solver.
Qed.

Lemma policies_spec ps : validatePolicies ps = [] <-> policies_ok ps.
Proof.
  unfold validatePolicies. rewrite validatePolicies_loop_spec. unfold fresh. set_solver.
Qed.

Lemma routing_spec r :
  validateRouting r = [] <-> (ro_Enabled r = true -> nonblank (ro_StateDir r) = true).
Proof.
  unfold validateRouting. rewrite check_nil, negb_true_iff, andb_false_iff, negb_false_iff.
  destruct (ro_Enabled r); naive_solver.
Qed.

Lemma scheduler_spec s :
  validateScheduler s = [] <->
  Minute <= sc_DLCRefresh s /\ (sc_ResolveCycle s = 0 \/ Minute <= sc_ResolveCycle s).
Proof.
  unfold validateScheduler. rewrite app_nil_iff, !check_nil, least_spec.
  rewrite negb_true_iff, andb_false_iff, negb_false_iff, Z.eqb_eq, Z.ltb_ge. done.
Qed.

Lemma metrics_spec m :
  validateMetrics m = [] <-> (mc_Enabled m = true -> HasPrefix (mc_Path m) "/" = true).
Proof. unfold validateMetrics. destruct (mc_Enabled m); [rewrite check_nil|]; naive_solver. Qed.

