(* ===== verification/Duration.v ===== *)
(** * Durations as text

  [time.ParseDuration] of the Go standard library and [parseDuration] of
  [internal/config/load.go], which falls back to a number of seconds or
  nanoseconds. *)

From S2P Require Import Prelude GoLib Float64 Config.
From Stdlib Require Import SpecFloat.

Local Open Scope Z_scope.

(** ** [time.ParseDuration] *)

Definition unitMap (u : string) : option Z :=
  if String.eqb u "ns" then Some 1
  else if one_of u ["us"; "µs"; "μs"]%string then Some 1000
  else if String.eqb u "ms" then Some Millisecond
  else if String.eqb u "s" then Some Second
  else if String.eqb u "m" then Some Minute
  else if String.eqb u "h" then Some Hour
  else None.

(** The digits at the front, up to [2^63], and the rest. *)
Fixpoint leadingInt (s : string) (x : Z) : option (Z * string) :=
  match s with
  | String c s' =>
      if is_digit c then
        if 2 ^ 63 / 10 <? x then None
        else let x := x * 10 + digit_val c in if 2 ^ 63 <? x then None else leadingInt s' x
      else Some (x, s)
  | EmptyString => Some (x, s)
  end.

(** The digits of a fraction and the power of ten they are over; digits that do not
    fit are dropped. *)
Fixpoint leadingFraction (s : string) (x scale : Z) (overflow : bool) : Z * Z * string :=
  match s with
  | String c s' =>
      if is_digit c then
        if overflow then leadingFraction s' x scale true
        else if (2 ^ 63 - 1) / 10 <? x then leadingFraction s' x scale true
        else
          let y := x * 10 + digit_val c in
          if 2 ^ 63 <? y then leadingFraction s' x scale true else leadingFraction s' y (scale * 10) false
      else (x, scale, s)
  | EmptyString => (x, scale, s)
  end.

(** The unit: up to the next digit or period. *)
Fixpoint leadingUnit (s : string) : string * string :=
  match s with
  | String c s' =>
      if is_digit c || Ascii.eqb c "." then (EmptyString, s)
      else let '(u, rest) := leadingUnit s' in (String c u, rest)
  | EmptyString => (EmptyString, s)
  end.

(** [uint64(float64(f) * (float64(unit) / scale))]; [scale] is at most [10^19], which
    binary64 holds exactly. *)
Definition fraction_ns (f scale unit : Z) : Z :=
  truncate (SFmul 53 1024 (F64.of_int f) (F64.div (F64.of_int unit) (F64.of_int scale))).

(** One number with its unit: its nanoseconds and the rest. *)
Definition duration_part (s : string) : option (Z * string) :=
  match s with
  | EmptyString => None
  | String c _ =>
      if negb (is_digit c || Ascii.eqb c ".") then None
      else
        '(v, s1) ← leadingInt s 0;
        let pre := negb (Nat.eqb (String.length s1) (String.length s)) in
        let '(f, scale, s2, post) :=
          match s1 with
          | String "." s1' =>
              let '(f, scale, s2) := leadingFraction s1' 0 1 false in
              (f, scale, s2, negb (Nat.eqb (String.length s2) (String.length s1')))
          | _ => (0, 1, s1, false)
          end in
        if negb pre && negb post then None
        else
          let '(u, s3) := leadingUnit s2 in
          unit ← unitMap u;
          if 2 ^ 63 / unit <? v then None
          else
            let v := v * unit in
            let v := if 0 <? f then v + fraction_ns f scale unit else v in
            if 2 ^ 63 <? v then None else Some (v, s3)
  end.

(** Every part consumes a character: the length is enough fuel. *)
Fixpoint duration_parts (fuel : nat) (s : string) (d : Z) : option Z :=
  match s with
  | EmptyString => Some d
  | _ =>
      match fuel with
      | O => None
      | S fuel' =>
          '(v, s') ← duration_part s;
          let d := d + v in
          if 2 ^ 63 <? d then None else duration_parts fuel' s' d
      end
  end.

Definition ParseDuration (s : string) : option Z :=
  let '(neg, s) :=
    match s with
    | String c s' => if Ascii.eqb c "-" then (true, s') else if Ascii.eqb c "+" then (false, s') else (false, s)
    | EmptyString => (false, s)
    end in
  if String.eqb s "0" then Some 0
  else if String.eqb s "" then None
  else
    d ← duration_parts (String.length s) s 0;
    if neg : bool then Some (- d) else if 2 ^ 63 - 1 <? d then None else Some d.

(** ** [fmt.Sscanf(s, "%d", &n)] *)

Fixpoint digits_prefix (s : string) : string :=
  match s with
  | String c s' => if is_digit c then String c (digits_prefix s') else EmptyString
  | EmptyString => EmptyString
  end.

(** White space before the number, up to a newline. *)
Fixpoint skip_space (s : string) : string :=
  match s with
  | String c s' => if is_space c && negb (code c =? 10) then skip_space s' else s
  | EmptyString => EmptyString
  end.

(** An optional sign and digits at the front; what follows is not looked at. *)
Definition Sscanf_d (s : string) : option Z :=
  match skip_space s with
  | String c s' =>
      if Ascii.eqb c "-" || Ascii.eqb c "+" then Atoi (String c (digits_prefix s')) else Atoi (digits_prefix (String c s'))
  | EmptyString => None
  end.

(** ** [parseDuration] *)

Definition parseDuration (s : string) : res error Z :=
  let s := TrimSpace s in
  if String.eqb s "" then Err (ErrNew "empty duration")
  else
    match ParseDuration s with
    | Some d => Ok d
    | None =>
        match Sscanf_d s with
        | None => Err (ErrNew "invalid duration")
        | Some n => if 10 ^ 9 <=? n then Ok n else Ok (int64_wrap (n * Second))
        end
    end.

Example parse_mixed : ParseDuration "1h30m0.5s" = Some (Hour + 30 * Minute + 500 * Millisecond).
Proof. vm_compute. reflexivity. Qed.
