(* ===== verification/DurationSpec.v ===== *)
(** * Durations of the settings

  What [parseDuration] makes of a number, with and without text after it. *)

From S2P Require Import Prelude GoLib Float64 Config Duration.
From stdpp Require Import pretty.

Local Open Scope Z_scope.

(** ** Decimal digits *)

Lemma digit_char (d : N) : (d < 10)%N ->
  is_digit (pretty_N_char d) = true /\ digit_val (pretty_N_char d) = Z.of_N d.
Proof.
  intros Hd.
  assert (d = 0 \/ d = 1 \/ d = 2 \/ d = 3 \/ d = 4 \/ d = 5 \/ d = 6 \/ d = 7 \/ d = 8 \/ d = 9)%N as Hc by lia.
  repeat (destruct Hc as [->|Hc]; [done|]). by subst.
Qed.

Section Digits.
(** A fold over leading digits that forgets which ones they were. *)
Context {A : Type} (f : string -> Z -> A) (ok : Z -> Prop).
Context (step : forall c s x, is_digit c = true -> ok (x * 10 + digit_val c) -> f (String c s) x = f s (x * 10 + digit_val c)).
Context (smaller : forall x y, 0 <= x <= y -> ok y -> ok x).

Lemma fold_digits (n : N) s : ok (Z.of_N n) -> f (pretty_N_go n s) 0 = f s (Z.of_N n).
Proof.
  revert s. induction (N.lt_wf_0 n) as [n _ IH]; intros s Hok.
  destruct (decide (n = 0%N)) as [->|Hn]; [by rewrite pretty_N_go_0|].
  rewrite pretty_N_go_step by lia.
  destruct (digit_char (n mod 10) (N.mod_lt n 10 ltac:(done))) as [Hd Hv].
  pose proof (N.div_mod' n 10) as Hdm. pose proof (N.div_lt n 10 ltac:(lia) ltac:(done)) as Hlt.
  specialize (IH _ Hlt). revert Hdm Hlt IH Hd Hv.
  generalize (n `div` 10)%N, (n `mod` 10)%N. intros q m Hdm Hlt IH Hd Hv.
  assert (Z.of_N q * 10 + digit_val (pretty_N_char m) = Z.of_N n) as E by lia.
  rewrite IH by (eapply smaller; [|exact Hok]; lia). by rewrite step, E by (rewrite ?E; done).
Qed.
End Digits.

Lemma digits_prefix_go (n : N) s : digits_prefix (pretty_N_go n s) = pretty_N_go n (digits_prefix s).
Proof.
  revert s. induction (N.lt_wf_0 n) as [n _ IH]; intros s.
  destruct (decide (n = 0%N)) as [->|Hn]; [by rewrite !pretty_N_go_0|].
  rewrite !(pretty_N_go_step n) by lia. rewrite IH by (apply N.div_lt; lia). cbn [digits_prefix].
  by rewrite (proj1 (digit_char (n mod 10) (N.mod_lt n 10 ltac:(done)))).
Qed.

Lemma go_app (n : N) s t : pretty_N_go n (s +:+ t) = pretty_N_go n s +:+ t.
Proof.
  revert s. induction (N.lt_wf_0 n) as [n _ IH]; intros s.
  destruct (decide (n = 0%N)) as [->|Hn]; [by rewrite !pretty_N_go_0|].
  rewrite !(pretty_N_go_step n) by lia. rewrite <- str_app_cons. apply IH, N.div_lt; lia.
Qed.

Lemma go_digits (n : N) s : str_forallb is_digit (pretty_N_go n s) = str_forallb is_digit s.
Proof.
  revert s. induction (N.lt_wf_0 n) as [n _ IH]; intros s.
  destruct (decide (n = 0%N)) as [->|Hn]; [by rewrite pretty_N_go_0|].
  rewrite pretty_N_go_step by lia. rewrite IH by (apply N.div_lt; lia). cbn.
  by rewrite (proj1 (digit_char (n mod 10) (N.mod_lt n 10 ltac:(done)))).
Qed.

Lemma go_length (n : N) s : (0 < n)%N -> (String.length s < String.length (pretty_N_go n s))%nat.
Proof.
  revert s. induction (N.lt_wf_0 n) as [n _ IH]; intros s Hn. rewrite pretty_N_go_step by lia.
  destruct (decide (n `div` 10 = 0)%N) as [->|Hd]; [rewrite pretty_N_go_0; cbn; lia|].
  specialize (IH (n `div` 10)%N (N.div_lt n 10 Hn ltac:(done)) (String (pretty_N_char (n `mod` 10)) s) (proj1 (N.neq_0_lt_0 _) Hd)).
  cbn [String.length] in IH. apply Nat.lt_succ_l in IH. exact IH.
Qed.

(** ** The text of an integer *)

Lemma Itoa_go n : 0 < n -> Itoa n = pretty_N_go (Z.to_N n) "".
Proof. destruct n as [|p|p]; [lia| |lia]. done. Qed.

Lemma Itoa_neg n : 0 < n -> Itoa (- n) = String "-" (Itoa n).
Proof. destruct n as [|p|p]; [lia| |lia]. done. Qed.

(** What the parsers see of the text of a number: a digit, then digits. *)
Lemma Itoa_head n : 0 <= n -> exists c s, Itoa n = String c s /\ is_digit c = true /\ str_forallb is_digit s = true.
Proof.
  intros Hn. destruct (decide (n = 0)) as [->|Hne]; [by exists "0"%char, EmptyString|].
  rewrite Itoa_go by lia. pose proof (go_length (Z.to_N n) "" ltac:(lia)) as Hl.
  pose proof (go_digits (Z.to_N n) "") as Hd. destruct (pretty_N_go _ _) as [|c s]; [cbn in Hl; lia|].
  cbn in Hd. apply andb_true_iff in Hd as [? ?]. by exists c, s.
Qed.

Definition nodigit (s : string) : Prop := match s with String c _ => is_digit c = false | EmptyString => True end.

Lemma leadingInt_nodigit s x : nodigit s -> leadingInt s x = Some (x, s).
Proof. destruct s as [|c s]; cbn; [done|]. by intros ->. Qed.

Lemma leadingInt_Itoa n rest : 0 <= n <= 2 ^ 63 -> nodigit rest -> leadingInt (Itoa n +:+ rest) 0 = Some (n, rest).
Proof.
  intros Hn Hr. destruct (decide (n = 0)) as [->|Hne].
  { change (Itoa 0 +:+ rest) with (String "0" rest). transitivity (leadingInt rest 0); [done|by apply leadingInt_nodigit]. }
  rewrite Itoa_go by lia. rewrite <- go_app. cbn [String.append].
  rewrite (fold_digits leadingInt (fun x => x <= 2 ^ 63)).
  - rewrite Z2N.id by lia. by apply leadingInt_nodigit.
  - intros c s x Hc Hx. cbn [leadingInt]. rewrite Hc. unfold is_digit in Hc. apply andb_true_iff in Hc as [Hc _].
    apply Z.leb_le in Hc. unfold digit_val in *.
    replace (2 ^ 63 / 10 <? x) with false by (symmetry; apply Z.ltb_ge, Z.div_le_lower_bound; lia).
    by replace (2 ^ 63 <? x * 10 + (code c - 48)) with false by (symmetry; apply Z.ltb_ge; lia).
  - lia.
  - lia.
Qed.

Lemma digits_prefix_nodigit s : nodigit s -> digits_prefix s = EmptyString.
Proof. destruct s as [|c s]; cbn; [done|]. by intros ->. Qed.

Lemma digits_prefix_Itoa n rest : 0 <= n -> nodigit rest -> digits_prefix (Itoa n +:+ rest) = Itoa n.
Proof.
  intros Hn Hr. destruct (decide (n = 0)) as [->|Hne].
  { change (Itoa 0 +:+ rest) with (String "0" rest). cbn. by rewrite digits_prefix_nodigit. }
  rewrite Itoa_go by lia. rewrite <- go_app, digits_prefix_go. cbn [String.append]. by rewrite digits_prefix_nodigit.
Qed.

Lemma digits_val_Itoa n : 0 <= n -> digits_val (Itoa n) 0 = Some n.
Proof.
  intros Hn. destruct (decide (n = 0)) as [->|Hne]; [done|]. rewrite Itoa_go by lia.
  rewrite (fold_digits digits_val (fun _ => True)); [cbn; by rewrite Z2N.id by lia| |done|done].
  intros c s x Hc _. cbn. by rewrite Hc.
Qed.

Lemma digit_not_sign c : is_digit c = true -> Ascii.eqb c "-" = false /\ Ascii.eqb c "+" = false.
Proof. intros Hc. split; apply Ascii.eqb_neq; by intros ->. Qed.

Lemma Atoi_Itoa n : 0 <= n < 2 ^ 63 -> Atoi (Itoa n) = Some n.
Proof.
  intros Hn. unfold Atoi. destruct (Itoa_head n ltac:(lia)) as (c & s & E & Hc & _).
  destruct (digit_not_sign c Hc) as [H1 H2]. pose proof (digits_val_Itoa n ltac:(lia)) as Hv.
  rewrite E in Hv |- *. rewrite H1, H2. cbn [String.eqb]. rewrite Hv.
  unfold in_int64. by replace (_ && _) with true by (symmetry; apply andb_true_iff; split; [apply Z.leb_le|apply Z.ltb_lt]; lia).
Qed.

(** ** Numbers as durations *)

(** Text after a number that starts with no unit. *)
Definition no_unit (rest : string) : Prop :=
  nodigit rest /\ HasPrefix rest "." = false /\ unitMap (fst (leadingUnit rest)) = None /\ trimRight rest = rest.

Lemma no_point {X} (f : string -> X) (b : X) s :
  HasPrefix s "." = false -> match s with String "." s' => f s' | _ => b end = b.
Proof.
  destruct s as [|c s]; [done|]. intros Hp. destruct c as [[] [] [] [] [] [] [] []]; try reflexivity. by destruct s.
Qed.

Lemma ParseDuration_no_unit n rest :
  0 <= n < 2 ^ 63 -> no_unit rest -> Itoa n +:+ rest <> "0"%string -> ParseDuration (Itoa n +:+ rest) = None.
Proof.
  intros Hn (Hd & Hp & Hu & _) H0. unfold ParseDuration.
  destruct (Itoa_head n ltac:(lia)) as (c & s & E & Hc & _). destruct (digit_not_sign c Hc) as [H1 H2].
  pose proof (leadingInt_Itoa n rest ltac:(lia) Hd) as Hl.
  rewrite E, str_app_cons in *. rewrite H1, H2. cbn iota.
  destruct (String.eqb_spec (String c (s +:+ rest)) "0") as [Ht|_]; [by destruct H0|]. cbn [String.eqb String.length duration_parts].
  unfold duration_part. rewrite Hc. cbn [negb orb]. rewrite Hl. cbn [mbind option_bind].
  destruct (Nat.eqb_spec (String.length rest) (String.length (String c (s +:+ rest)))) as [Hle|_].
  { cbn in Hle. rewrite str_length_app in Hle. lia. }
  cbn [negb andb].
  rewrite no_point by exact Hp. destruct (leadingUnit rest) as [u s3]. cbn in Hu. by rewrite Hu.
Qed.

Lemma digit_not_space c : is_digit c = true -> is_space c = false.
Proof. unfold is_digit, is_space. intros Hc. bool_hyps. lia. Qed.

Lemma Sscanf_Itoa n rest : 0 <= n < 2 ^ 63 -> nodigit rest -> Sscanf_d (Itoa n +:+ rest) = Some n.
Proof.
  intros Hn Hr. destruct (Itoa_head n ltac:(lia)) as (c & s & E & Hc & _).
  destruct (digit_not_sign c Hc) as [H1 H2]. pose proof (digits_prefix_Itoa n rest ltac:(lia) Hr) as Hp.
  pose proof (Atoi_Itoa n Hn) as Ha. unfold Sscanf_d. rewrite E in *. rewrite str_app_cons in *.
  cbn [skip_space]. rewrite digit_not_space by done. cbn [andb].
  rewrite H1, H2. cbn [orb]. by rewrite Hp.
Qed.

Lemma TrimSpace_Itoa n rest : 0 <= n -> trimRight rest = rest -> TrimSpace (Itoa n +:+ rest) = Itoa n +:+ rest.
Proof.
  intros Hn Hr. assert (word (Itoa n) = true) as Hw.
  { destruct (Itoa_head n Hn) as (c & s & -> & Hc & Hs). unfold word. cbn. rewrite digit_not_space by done.
    rewrite andb_true_r. eapply str_forallb_impl; [|exact Hs]. intros c' Hc'. by rewrite digit_not_space. }
  unfold TrimSpace. rewrite trimLeft_word by done. destruct (decide (rest = EmptyString)) as [->|Hne].
  - rewrite str_app_nil_r. by apply trimRight_word.
  - rewrite trimRight_app_ne; rewrite Hr; done.
Qed.

(** A number without a unit counts nanoseconds from 10^9 on and seconds below,
    and so does a number followed by text that starts with no known unit: what
    follows is ignored, "7d" is seven seconds. *)
Theorem parseDuration_number n rest :
  0 <= n < 2 ^ 63 -> no_unit rest ->
  parseDuration (Itoa n +:+ rest) = Ok (if 10 ^ 9 <=? n then n else n * Second).
Proof.
  intros Hn Hrest. pose proof Hrest as (Hd & _ & _ & Ht). unfold parseDuration. rewrite TrimSpace_Itoa by (done || lia).
  destruct (Itoa_head n ltac:(lia)) as (c & s & E & Hc & _).
  replace (Itoa n +:+ rest =? "")%string with false by by rewrite E.
  destruct (decide (Itoa n +:+ rest = "0"%string)) as [H0|H0].
  { rewrite H0. assert (Itoa n = "0"%string) as HI.
    { rewrite E, str_app_cons in H0. injection H0 as -> H0. rewrite E. destruct s; [done|]. by rewrite str_app_cons in H0. }
    pose proof (digits_val_Itoa n ltac:(lia)) as Hv. rewrite HI in Hv. by injection Hv as <-. }
  rewrite ParseDuration_no_unit by done. rewrite Sscanf_Itoa by done.
  destruct (Z.leb_spec (10 ^ 9) n); [done|]. rewrite wrap_s_id by (unfold Second, Millisecond; lia). done.
Qed.

Lemma parseDuration_number_witness : parseDuration "7d" = Ok (7 * Second) /\ parseDuration "3600000000000" = Ok Hour.
Proof.
  split; [apply (parseDuration_number 7 "d")|apply (parseDuration_number 3600000000000 "")];
    solve [lia | repeat split; reflexivity].
Defined.
