(* ===== verification/Settings.v ===== *)
(** * [internal/config]: assembling the configuration

  [load.go] and [store.go]: the settings under their dotted keys, the overrides
  of [kv_settings], [ApplyOverrides] and [Load].  The store of layered settings
  ([spf13/viper]) and JSON are interfaces. *)

From S2P Require Import Prelude Order GoLib Config Duration.

Local Open Scope d2ip_scope.
Local Open Scope Z_scope.

(** ** Keys and values *)

Inductive Key :=
| KListen
| KSourceURL | KSourceCachePath | KSourceRefreshInterval | KSourceHTTPTimeout
| KSources
| KUpstream | KNetwork | KConcurrency | KQPS | KTimeout | KRetries | KBackoffBase | KBackoffMax
| KFollowCNAME | KEnableV4 | KEnableV6
| KDBPath | KTTL | KFailedTTL | KVacuumAfter
| KAggEnabled | KAggLevel | KAggV4 | KAggV6
| KExportDir | KExportV4 | KExportV6
| KRoutingEnabled | KStateDir | KPolicies
| KDLCRefresh | KResolveCycle
| KLogLevel | KLogFormat
| KMetricsEnabled | KMetricsPath.

#[export] Instance Key_eq_dec : EqDecision Key.
Proof. solve_decision. Defined.

Definition key_name (k : Key) : string :=
  match k with
  | KListen => "listen"
  | KSourceURL => "source.url" | KSourceCachePath => "source.cache_path"
  | KSourceRefreshInterval => "source.refresh_interval" | KSourceHTTPTimeout => "source.http_timeout"
  | KSources => "sources"
  | KUpstream => "resolver.upstream" | KNetwork => "resolver.network" | KConcurrency => "resolver.concurrency"
  | KQPS => "resolver.qps" | KTimeout => "resolver.timeout" | KRetries => "resolver.retries"
  | KBackoffBase => "resolver.backoff_base" | KBackoffMax => "resolver.backoff_max"
  | KFollowCNAME => "resolver.follow_cname" | KEnableV4 => "resolver.enable_v4" | KEnableV6 => "resolver.enable_v6"
  | KDBPath => "cache.db_path" | KTTL => "cache.ttl" | KFailedTTL => "cache.failed_ttl"
  | KVacuumAfter => "cache.vacuum_after"
  | KAggEnabled => "aggregation.enabled" | KAggLevel => "aggregation.level"
  | KAggV4 => "aggregation.v4_max_prefix" | KAggV6 => "aggregation.v6_max_prefix"
  | KExportDir => "export.dir" | KExportV4 => "export.ipv4_file" | KExportV6 => "export.ipv6_file"
  | KRoutingEnabled => "routing.enabled" | KStateDir => "routing.state_dir" | KPolicies => "routing.policies"
  | KDLCRefresh => "scheduler.dlc_refresh" | KResolveCycle => "scheduler.resolve_cycle"
  | KLogLevel => "logging.level" | KLogFormat => "logging.format"
  | KMetricsEnabled => "metrics.enabled" | KMetricsPath => "metrics.path"
  end.

(** In the order of [seedViperFromConfig]. *)
Definition all_keys : list Key :=
  [KListen; KSourceURL; KSourceCachePath; KSourceRefreshInterval; KSourceHTTPTimeout; KSources;
   KUpstream; KNetwork; KConcurrency; KQPS; KTimeout; KRetries; KBackoffBase; KBackoffMax;
   KFollowCNAME; KEnableV4; KEnableV6; KDBPath; KTTL; KFailedTTL; KVacuumAfter;
   KAggEnabled; KAggLevel; KAggV4; KAggV6; KExportDir; KExportV4; KExportV6;
   KRoutingEnabled; KStateDir; KPolicies; KDLCRefresh; KResolveCycle; KLogLevel; KLogFormat;
   KMetricsEnabled; KMetricsPath].

Inductive Value :=
| VStr (s : string) | VInt (n : Z) | VBool (b : bool) | VDur (d : Z)
| VSources (l : list SourceItemConfig) | VPolicies (l : list PolicyConfig)
| VRaw (a : any).

Definition get_field (k : Key) (c : Config) : Value :=
  let so := cfg_Source c in let r := cfg_Resolver c in let ca := cfg_Cache c in
  let ag := cfg_Aggregation c in let ex := cfg_Export c in let ro := cfg_Routing c in
  match k with
  | KListen => VStr (cfg_Listen c)
  | KSourceURL => VStr (so_URL so) | KSourceCachePath => VStr (so_CachePath so)
  | KSourceRefreshInterval => VDur (so_RefreshInterval so) | KSourceHTTPTimeout => VDur (so_HTTPTimeout so)
  | KSources => VSources (cfg_Sources c)
  | KUpstream => VStr (rc_Upstream r) | KNetwork => VStr (rc_Network r) | KConcurrency => VInt (rc_Concurrency r)
  | KQPS => VInt (rc_QPS r) | KTimeout => VDur (rc_Timeout r) | KRetries => VInt (rc_Retries r)
  | KBackoffBase => VDur (rc_BackoffBase r) | KBackoffMax => VDur (rc_BackoffMax r)
  | KFollowCNAME => VBool (rc_FollowCNAME r) | KEnableV4 => VBool (rc_EnableV4 r) | KEnableV6 => VBool (rc_EnableV6 r)
  | KDBPath => VStr (cc_DBPath ca) | KTTL => VDur (cc_TTL ca) | KFailedTTL => VDur (cc_FailedTTL ca)
  | KVacuumAfter => VDur (cc_VacuumAfter ca)
  | KAggEnabled => VBool (ac_Enabled ag) | KAggLevel => VStr (ac_Level ag)
  | KAggV4 => VInt (ac_V4MaxPrefix ag) | KAggV6 => VInt (ac_V6MaxPrefix ag)
  | KExportDir => VStr (ec_Dir ex) | KExportV4 => VStr (ec_IPv4File ex) | KExportV6 => VStr (ec_IPv6File ex)
  | KRoutingEnabled => VBool (ro_Enabled ro) | KStateDir => VStr (ro_StateDir ro) | KPolicies => VPolicies (ro_Policies ro)
  | KDLCRefresh => VDur (sc_DLCRefresh (cfg_Scheduler c)) | KResolveCycle => VDur (sc_ResolveCycle (cfg_Scheduler c))
  | KLogLevel => VStr (lc_Level (cfg_Logging c)) | KLogFormat => VStr (lc_Format (cfg_Logging c))
  | KMetricsEnabled => VBool (mc_Enabled (cfg_Metrics c)) | KMetricsPath => VStr (mc_Path (cfg_Metrics c))
  end.

(** The Go type of a field. *)
Inductive FieldType := TString | TInt | TBool | TDuration | TSources | TPolicies.

#[export] Instance FieldType_eq_dec : EqDecision FieldType.
Proof. solve_decision. Defined.

Definition value_type (v : Value) : option FieldType :=
  match v with
  | VStr _ => Some TString | VInt _ => Some TInt | VBool _ => Some TBool | VDur _ => Some TDuration
  | VSources _ => Some TSources | VPolicies _ => Some TPolicies | VRaw _ => None
  end.

(** ** The overrides of [kv_settings] *)

Class Json := {
  json_sources : string -> res error (list SourceItemConfig);
  json_policies : string -> res error (list PolicyConfig);
  show_policies : list PolicyConfig -> string
}.

(** [strconv.ParseBool] *)
Definition ParseBool (s : string) : option bool :=
  if one_of s ["1"; "t"; "T"; "true"; "TRUE"; "True"]%string then Some true
  else if one_of s ["0"; "f"; "F"; "false"; "FALSE"; "False"]%string then Some false
  else None.

Definition coerceKVValue `{Json} (key raw : string) : res error Value :=
  let raw := TrimSpace raw in
  if String.eqb key "sources" then let? items := json_sources raw in Ok (VSources items)
  else if String.eqb key "routing.policies" then let? items := json_policies raw in Ok (VPolicies items)
  else if one_of key ["source.refresh_interval"; "source.http_timeout"; "resolver.timeout"; "resolver.backoff_base";
                      "resolver.backoff_max"; "cache.ttl"; "cache.failed_ttl"; "cache.vacuum_after";
                      "scheduler.dlc_refresh"; "scheduler.resolve_cycle"]%string
  then let? d := parseDuration raw in Ok (VDur d)
  else if one_of key ["resolver.concurrency"; "resolver.qps"; "resolver.retries"; "aggregation.v4_max_prefix";
                      "aggregation.v6_max_prefix"; "routing.table_id"]%string
  then match Atoi raw with Some n => Ok (VInt n) | None => Err (ErrNew "invalid integer") end
  else if one_of key ["resolver.follow_cname"; "resolver.enable_v4"; "resolver.enable_v6"; "aggregation.enabled";
                      "routing.enabled"; "routing.dry_run"; "metrics.enabled"]%string
  then match ParseBool raw with Some b => Ok (VBool b) | None => Err (ErrNew "invalid boolean") end
  else Ok (VStr raw).

(** One key is a section of the other. *)
Definition related (a b : string) : bool := HasPrefix b (a +:+ ".") || HasPrefix a (b +:+ ".").

(** The layered settings: values set explicitly, the environment when it is looked
    at, the file, the defaults. *)
Class Viper := {
  viper : Type;
  v_new : viper;
  v_SetDefault : string -> Value -> viper -> viper;
  v_Set : string -> Value -> viper -> viper;
  v_AutomaticEnv : viper -> viper;
  v_BindEnv : string -> viper -> viper;
  (** the file is read, is not there, or cannot be read *)
  v_ReadInConfig : string -> list string -> viper -> res (bool * error) viper;
  v_Unmarshal : (string -> string) -> viper -> Config -> res error Config
}.

Definition EnvPrefix : string := "D2IP".
Definition DefaultSearchPaths : list string := ["."; "/etc/d2ip"; "/var/lib/d2ip"]%string.

(** The variable of a key. *)
Definition env_name (key : string) : string :=
  EnvPrefix +:+ "_" +:+ ToUpper (str_map (fun c => if Ascii.eqb c "." then "_"%char else c) key).

Section Settings.
Context `{Json} `{Viper}.
(** [os.Getenv]: empty when the variable is not set. *)
Context (getenv : string -> string).
(** The iteration order of a map of overrides. *)
Context (order : gset string -> list string).

Definition normalize_key (key : string) : string := ToLower (TrimSpace key).

Fixpoint applyKVToViper (rows : list (string * string)) (v : viper) : res error viper :=
  match rows with
  | [] => Ok v
  | (key, raw) :: rows' =>
      let key := normalize_key key in
      if String.eqb key "" then applyKVToViper rows' v
      else if negb (String.eqb (getenv (env_name key)) "") then applyKVToViper rows' v
      else
        match coerceKVValue key raw with
        | Err e => Err (ErrWrap ("kv[" +:+ key +:+ "]") e)
        | Ok val => applyKVToViper rows' (v_Set key val v)
        end
  end.

(** The rows of a map as a [range] delivers them. *)
Definition rows_of (kv : gmap string string) : list (string * string) :=
  omap (fun k => v ← kv !! k; Some (k, v)) (order (dom kv)).

(** A value for every key that has one. *)
Definition put_all (put : string -> Value -> viper -> viper) (f : Key -> option Value) (ks : list Key) (v : viper) : viper :=
  foldl (fun v k => match f k with Some x => put (key_name k) x v | None => v end) v ks.

(** The defaults: all fields but [sources], and no policies. *)
Definition default_value (d : Config) (k : Key) : option Value :=
  match k with KSources => None | KPolicies => Some (VPolicies []) | _ => Some (get_field k d) end.
Definition applyDefaultsToViper (v : viper) (d : Config) : viper :=
  put_all v_SetDefault (default_value d) all_keys v.

(** Empty lists are not written back. *)
Definition seed_value (c : Config) (k : Key) : option Value :=
  match get_field k c with VSources [] | VPolicies [] => None | x => Some x end.
Definition seedViperFromConfig (v : viper) (c : Config) : viper :=
  put_all v_Set (seed_value c) all_keys v.

Definition ApplyOverrides (cfg : Config) (kv : gmap string string) : res error Config :=
  if Nat.eqb (size kv) 0 then Ok cfg
  else
    let v := seedViperFromConfig (applyDefaultsToViper v_new cfg) cfg in
    let? v := applyKVToViper (rows_of kv) v in
    match v_Unmarshal getenv v cfg with
    | Ok next => Ok next
    | Err e => Err (ErrWrap "config: unmarshal after kv overrides" e)
    end.

(** ** [Load] *)

Record LoadOptions := MkLoadOptions {
  lo_ConfigFile : string; lo_SearchPaths : list string; lo_KVOverrides : gmap string string }.

(** The keys with a binding of their own. *)
Definition bound_keys : list string :=
  (key_name <$> List.filter (fun k => negb (bool_decide (k ∈ [KStateDir; KPolicies]))) all_keys)
  ++ ["routing.backend"; "routing.table_id"; "routing.iface"; "routing.nft_table"; "routing.nft_set_v4";
      "routing.nft_set_v6"; "routing.state_path"; "routing.dry_run"]%string.
Definition bindAllEnvKeys (v : viper) : viper := foldl (fun v k => v_BindEnv k v) v bound_keys.

Definition Load (opts : LoadOptions) : res error Config :=
  let v := applyDefaultsToViper v_new Defaults in
  let paths := if Nat.eqb (length (lo_SearchPaths opts)) 0 then DefaultSearchPaths else lo_SearchPaths opts in
  let? v := match v_ReadInConfig (lo_ConfigFile opts) paths v with
            | Ok v' => Ok v'
            | Err (true, _) => Ok v
            | Err (false, e) => Err (ErrWrap "config: read file" e)
            end in
  let v := bindAllEnvKeys (v_AutomaticEnv v) in
  let? v := if Nat.eqb (size (lo_KVOverrides opts)) 0 then Ok v
            else match applyKVToViper (rows_of (lo_KVOverrides opts)) v with
                 | Ok v => Ok v
                 | Err e => Err (ErrWrap "config: apply kv overrides" e)
                 end in
  let sourcesEnv := getenv (EnvPrefix +:+ "_SOURCES") in
  let v := if String.eqb sourcesEnv "" then v else v_Set "sources" (VSources []) v in
  let? cfg := match v_Unmarshal getenv v Defaults with
              | Ok cfg => Ok cfg
              | Err e => Err (ErrWrap "config: unmarshal" e)
              end in
  let? cfg :=
    if String.eqb sourcesEnv "" then Ok cfg
    else match json_sources sourcesEnv with
         | Ok sources =>
             Ok {| cfg_Listen := cfg_Listen cfg; cfg_Source := cfg_Source cfg; cfg_Sources := sources;
                   cfg_Resolver := cfg_Resolver cfg; cfg_Cache := cfg_Cache cfg; cfg_Aggregation := cfg_Aggregation cfg;
                   cfg_Export := cfg_Export cfg; cfg_Routing := cfg_Routing cfg; cfg_Scheduler := cfg_Scheduler cfg;
                   cfg_Logging := cfg_Logging cfg; cfg_Metrics := cfg_Metrics cfg |}
         | Err e => Err (ErrWrap "config: parse D2IP_SOURCES" e)
         end in
  match Validate cfg with
  | [] => Ok cfg
  | errs => Err (ErrNew ("config: validation failed: " +:+ Join (Error <$> errs) "; "))
  end.

(** What [main] starts with: without the rows of the database when one of them does
    not parse. *)
Definition startup_config (opts : LoadOptions) (kv : res error (gmap string string)) : res error Config :=
  let? cfg := Load opts in
  match kv with
  | Ok kv => match ApplyOverrides cfg kv with Ok cfg' => Ok cfg' | Err _ => Ok cfg end
  | Err _ => Ok cfg
  end.
End Settings.
