(* ===== verification/SettingsSpec.v ===== *)
(** * Where a setting comes from

  What [ApplyOverrides] and [Load] promise, over the documented behaviour of the
  layered settings. *)

From S2P Require Import Prelude Order GoLib Config ConfigSpec Duration Settings.

Local Open Scope d2ip_scope.
Local Open Scope Z_scope.

(** ** Types *)

Definition key_type (k : Key) : FieldType := default TString (value_type (get_field k Defaults)).

Lemma get_field_type k c : value_type (get_field k c) = Some (key_type k).
Proof. by destruct k. Qed.

Lemma all_keys_all k : k ∈ all_keys.
Proof. apply list_elem_of_In. destruct k; cbn; tauto. Qed.

Lemma key_name_inj k1 k2 : key_name k1 = key_name k2 -> k1 = k2.
Proof.
  assert (forallb (fun a => forallb (fun b => bool_decide (a = b) || negb (String.eqb (key_name a) (key_name b))) all_keys)
            all_keys = true) as Hall by by vm_compute.
  rewrite forallb_forall in Hall. intros E.
  specialize (Hall k1 (proj1 (list_elem_of_In _ _) (all_keys_all k1))). rewrite forallb_forall in Hall.
  specialize (Hall k2 (proj1 (list_elem_of_In _ _) (all_keys_all k2))).
  rewrite E, String.eqb_refl in Hall. cbn in Hall. rewrite orb_false_r in Hall. by apply bool_decide_eq_true in Hall.
Qed.

Lemma keys_unrelated k1 k2 : related (key_name k1) (key_name k2) = false.
Proof.
  assert (forallb (fun a => forallb (fun b => negb (related (key_name a) (key_name b))) all_keys) all_keys = true) as Hall
    by by vm_compute.
  rewrite forallb_forall in Hall.
  specialize (Hall k1 (proj1 (list_elem_of_In _ _) (all_keys_all k1))). rewrite forallb_forall in Hall.
  specialize (Hall k2 (proj1 (list_elem_of_In _ _) (all_keys_all k2))). by apply negb_true_iff in Hall.
Qed.

Lemma coerce_typed `{Json} k raw v :
  coerceKVValue (key_name k) raw = Ok v -> value_type v = Some (key_type k).
Proof.
  unfold coerceKVValue. destruct k; cbn -[TrimSpace parseDuration Atoi ParseBool].
  all: try by intros [= <-].
  all: first [destruct (parseDuration _)|destruct (Atoi _)|destruct (ParseBool _)|destruct (json_sources _)|destruct (json_policies _)].
  all: by intros [= <-].
Qed.

(** C38. An override that parses has the type of the field it is for, for every key of
    the configuration. *)
Theorem kv_type_safe `{Json} k raw v :
  coerceKVValue (key_name k) raw = Ok v -> value_type v = value_type (get_field k Defaults).
Proof. intros Hc. by rewrite (coerce_typed _ _ _ Hc), get_field_type. Qed.

(** ** The layers *)

(** A list is decoded over the one that is there: only one that covers it is known
    to replace it. *)
Definition fits (x base : Value) : Prop :=
  match x, base with
  | VSources l, VSources b => (length b <= length l)%nat
  | VPolicies l, VPolicies b => (length b <= length l)%nat
  | _, _ => True
  end.
Definition plain (k : Key) (x base : Value) : Prop := value_type x = Some (key_type k) /\ fits x base.

Class ViperLaws `{Viper} := {
  v_override : viper -> string -> option Value;
  v_env : viper -> bool;
  v_file : viper -> string -> option Value;
  v_default : viper -> string -> option Value;
  (** the reading of a string as a value of another type *)
  v_weak : Key -> string -> option Value;

  new_layers : v_env v_new = false /\
    forall k, v_override v_new k = None /\ v_file v_new k = None /\ v_default v_new k = None;
  set_default_layers key x v : v_env (v_SetDefault key x v) = v_env v /\
    forall k, v_override (v_SetDefault key x v) k = v_override v k /\ v_file (v_SetDefault key x v) k = v_file v k /\
      (related key k = false -> v_default (v_SetDefault key x v) k = if String.eqb key k then Some x else v_default v k);
  set_layers key x v : v_env (v_Set key x v) = v_env v /\
    forall k, v_default (v_Set key x v) k = v_default v k /\ v_file (v_Set key x v) k = v_file v k /\
      (related key k = false -> v_override (v_Set key x v) k = if String.eqb key k then Some x else v_override v k);
  automatic_layers v : v_env (v_AutomaticEnv v) = true /\
    forall k, v_override (v_AutomaticEnv v) k = v_override v k /\ v_file (v_AutomaticEnv v) k = v_file v k /\
      v_default (v_AutomaticEnv v) k = v_default v k;
  (** once the environment is looked at, binding a key to its variable adds nothing *)
  bind_layers key v : v_env v = true -> v_env (v_BindEnv key v) = true /\
    forall k, v_override (v_BindEnv key v) k = v_override v k /\ v_file (v_BindEnv key v) k = v_file v k /\
      v_default (v_BindEnv key v) k = v_default v k;
  read_layers file paths v v' : v_ReadInConfig file paths v = Ok v' -> v_env v' = v_env v /\
    forall k, v_override v' k = v_override v k /\ v_default v' k = v_default v k;
}.

(** The value of a key: the first layer that has one. *)
Definition v_Get `{ViperLaws} (getenv : string -> string) (v : viper) (key : string) : option Value :=
  match v_override v key with
  | Some x => Some x
  | None =>
      if v_env v && negb (String.eqb (getenv (env_name key)) "") then Some (VStr (getenv (env_name key)))
      else match v_file v key with Some x => Some x | None => v_default v key end
  end.

(** Decoding into a configuration: a field whose key has no value keeps its value, a
    value of the field's type is stored, text is read as the type of the field. *)
Class DecodeLaws `{ViperLaws} := {
  unmarshal_fields getenv v base c k : v_Unmarshal getenv v base = Ok c ->
    match v_Get getenv v (key_name k) with
    | None => get_field k c = get_field k base
    | Some x =>
        (plain k x (get_field k base) -> get_field k c = x) /\
        (forall s, x = VStr s -> key_type k ∈ [TInt; TBool; TDuration] -> v_weak k s = Some (get_field k c))
    end;
  unmarshal_total getenv v base :
    (forall k x, v_Get getenv v (key_name k) = Some x -> plain k x (get_field k base)) ->
    exists c, v_Unmarshal getenv v base = Ok c
}.

Section Spec.
Context `{Json} `{ViperLaws} `{!DecodeLaws}.
Context (getenv : string -> string) (order : gset string -> list string) `{!MapOrder order}.

(** ** Writing a configuration into the layers *)

Lemma put_all_keeps {X} (obs : viper -> X) put f ks v :
  (forall key x v, obs (put key x v) = obs v) -> obs (put_all put f ks v) = obs v.
Proof.
  intros Hk. unfold put_all. revert v. induction ks as [|k ks IH]; intros v; cbn; [done|]. rewrite IH. by destruct (f k).
Qed.

Lemma put_all_layer put (layer : viper -> string -> option Value) f ks v k :
  (forall key x v k, related key k = false -> layer (put key x v) k = if String.eqb key k then Some x else layer v k) ->
  NoDup ks ->
  layer (put_all put f ks v) (key_name k) =
    if bool_decide (k ∈ ks) then match f k with Some x => Some x | None => layer v (key_name k) end
    else layer v (key_name k).
Proof.
  intros Hput Hnd. unfold put_all. revert v. induction Hnd as [|a ks Ha Hnd IH]; intros v; cbn [foldl]; [done|].
  rewrite IH. destruct (decide (k = a)) as [->|Hne].
  - rewrite (bool_decide_eq_false_2 (a ∈ ks)), (bool_decide_eq_true_2 (a ∈ a :: ks)) by (done || left).
    destruct (f a) as [x|]; [|done]. by rewrite Hput, String.eqb_refl by apply keys_unrelated.
  - assert (bool_decide (k ∈ ks) = bool_decide (k ∈ a :: ks)) as ->.
    { apply bool_decide_ext. rewrite elem_of_cons. naive_solver. }
    destruct (f a) as [x|]; [|done]. rewrite Hput by apply keys_unrelated.
    by destruct (String.eqb_spec (key_name a) (key_name k)) as [E%key_name_inj|_]; [destruct Hne|].
Qed.

Lemma all_keys_NoDup : NoDup all_keys.
Proof. apply (bool_decide_unpack _). by vm_compute. Qed.

(** What the layers hold after the defaults and the current configuration. *)
Lemma seeded_layers cfg k :
  let v := seedViperFromConfig (applyDefaultsToViper v_new cfg) cfg in
  v_env v = false /\ v_file v (key_name k) = None /\
  v_override v (key_name k) = seed_value cfg k /\ v_default v (key_name k) = default_value cfg k.
Proof.
  unfold seedViperFromConfig, applyDefaultsToViper. destruct new_layers as [He Hn]. destruct (Hn (key_name k)) as (Ho & Hf & Hd).
  rewrite (put_all_keeps v_env), (put_all_keeps v_env) by (intros; apply set_layers || apply set_default_layers).
  rewrite (put_all_keeps (fun v => v_file v (key_name k))), (put_all_keeps (fun v => v_file v (key_name k)))
    by (intros; apply set_layers || apply set_default_layers).
  rewrite (put_all_layer v_Set v_override) by (apply all_keys_NoDup || (intros; by apply set_layers)).
  rewrite (put_all_keeps (fun v => v_override v (key_name k))) by (intros; apply set_default_layers).
  rewrite (put_all_keeps (fun v => v_default v (key_name k))) by (intros; apply set_layers).
  rewrite (put_all_layer v_SetDefault v_default) by (apply all_keys_NoDup || (intros; by apply set_default_layers)).
  rewrite bool_decide_eq_true_2 by apply all_keys_all. rewrite Ho, Hd.
  split_and!; [done|done|by destruct (seed_value cfg k)|by destruct (default_value cfg k)].
Qed.

(** ** The overrides *)

(** A row that the loop looks at: its key is not blank and no variable is set. *)
Definition applies (key : string) : Prop :=
  normalize_key key <> ""%string /\ getenv (env_name (normalize_key key)) = ""%string.

(** A row of [kv] sets key [k] to [x]. *)
Definition overrides (kv : gmap string string) (k : Key) (x : Value) : Prop :=
  exists key raw, kv !! key = Some raw /\ normalize_key key = key_name k /\ applies key /\
    coerceKVValue (key_name k) raw = Ok x.

(** No two rows are for the same key, and none is for a whole section. *)
Record clean (kv : gmap string string) : Prop := {
  cl_distinct : forall k1 k2, is_Some (kv !! k1) -> is_Some (kv !! k2) -> normalize_key k1 = normalize_key k2 -> k1 = k2;
  cl_leaves : forall key k, is_Some (kv !! key) -> related (normalize_key key) (key_name k) = false
}.

Lemma elem_rows kv key raw : (key, raw) ∈ rows_of order kv <-> kv !! key = Some raw.
Proof.
  unfold rows_of. rewrite list_elem_of_omap. split.
  - intros (k & _ & E). destruct (kv !! k) eqn:Ek; cbn in E; [|done]. by injection E as -> ->.
  - intros E. exists key. rewrite E. split; [|done]. apply elem_of_map_order; [done|]. by apply elem_of_dom_2 in E.
Qed.

Lemma rows_NoDup kv : NoDup (rows_of order kv).*1.
Proof.
  unfold rows_of. assert (NoDup (order (dom kv))) as Hnd.
  { rewrite (map_order_perm (dom kv)). apply NoDup_elements. }
  induction Hnd as [|k l Hk Hnd IH]; cbn; [constructor|]. destruct (kv !! k); cbn; [|done]. constructor; [|done].
  intros ([k' raw] & -> & (k'' & Hin & E)%list_elem_of_omap)%list_elem_of_fmap.
  destruct (kv !! k''); cbn in E; [|done]. injection E as -> ->. done.
Qed.

(** The rows of the loop, in any order. *)
Definition row_sets (rows : list (string * string)) (k : Key) (x : Value) : Prop :=
  exists key raw, (key, raw) ∈ rows /\ normalize_key key = key_name k /\ applies key /\
    coerceKVValue (key_name k) raw = Ok x.

Lemma row_sets_cons key raw rows k x :
  row_sets ((key, raw) :: rows) k x <->
  (normalize_key key = key_name k /\ applies key /\ coerceKVValue (key_name k) raw = Ok x) \/ row_sets rows k x.
Proof.
  unfold row_sets. split.
  - intros (key' & raw' & [[= -> ->]|Hin]%elem_of_cons & Hr); [by left|right; eauto].
  - intros [Hr|(key' & raw' & Hin & Hr)]; [exists key, raw|exists key', raw']; (split; [|done]); [left|by right].
Qed.

Lemma applyKV_layers rows v v' k :
  NoDup (normalize_key ∘ fst <$> rows) -> Forall (fun r => related (normalize_key r.1) (key_name k) = false) rows ->
  applyKVToViper getenv rows v = Ok v' ->
  v_env v' = v_env v /\ v_file v' (key_name k) = v_file v (key_name k) /\
  v_default v' (key_name k) = v_default v (key_name k) /\
  (forall x, row_sets rows k x -> v_override v' (key_name k) = Some x) /\
  ((forall x, ~ row_sets rows k x) -> v_override v' (key_name k) = v_override v (key_name k)).
Proof.
  intros Hnd Hun. revert v. induction rows as [|[key raw] rows IH]; intros v; cbn [applyKVToViper].
  { intros [= <-]. split_and!; try done. intros x (? & ? & ?%elem_of_nil & _). done. }
  apply NoDup_cons in Hnd as [Hk Hnd]. apply Forall_cons in Hun as [Hu Hun]. cbn in Hk, Hu.
  assert (forall x, row_sets rows k x -> normalize_key key <> key_name k) as Honly.
  { intros x (key' & raw' & Hin & Hn & _) E. apply Hk, list_elem_of_fmap. exists (key', raw'). split; [exact (eq_trans E (eq_sym Hn))|exact Hin]. }
  assert (~ applies key -> applyKVToViper getenv rows v = Ok v' -> v_env v' = v_env v /\
    v_file v' (key_name k) = v_file v (key_name k) /\ v_default v' (key_name k) = v_default v (key_name k) /\
    (forall x, row_sets ((key, raw) :: rows) k x -> v_override v' (key_name k) = Some x) /\
    ((forall x, ~ row_sets ((key, raw) :: rows) k x) -> v_override v' (key_name k) = v_override v (key_name k))) as Hskip.
  { intros Hna E. destruct (IH Hnd Hun v E) as (? & ? & ? & Hset & Hkeep). split_and!; try done.
    - intros x [(_ & ? & _)|?]%row_sets_cons; [done|by apply Hset].
    - intros Hno. apply Hkeep. intros x Hx. apply (Hno x), row_sets_cons. by right. }
  destruct (String.eqb_spec (normalize_key key) "") as [E0|E0].
  { apply Hskip. by intros [? _]. }
  destruct (String.eqb_spec (getenv (env_name (normalize_key key))) "") as [Ee|Ee]; cbn [negb].
  2: { apply Hskip. by intros [_ ?]. }
  destruct (coerceKVValue (normalize_key key) raw) as [val|e] eqn:Ec; [|done].
  intros E. destruct (IH Hnd Hun _ E) as (He & Hf & Hd & Hset & Hkeep). clear IH Hskip.
  destruct (set_layers (normalize_key key) val v) as [Se Sl]. destruct (Sl (key_name k)) as (Sd & Sf & So).
  specialize (So Hu). rewrite He, Hf, Hd. split_and!; [done|done|done| |].
  - intros x [(En & _ & Ex)|Hx]%row_sets_cons; [|by apply Hset]. rewrite Hkeep.
    + rewrite So, En, String.eqb_refl. rewrite En in Ec. congruence.
    + intros y Hy. by destruct (Honly y Hy).
  - intros Hno. rewrite Hkeep by (intros x Hx; apply (Hno x), row_sets_cons; by right). rewrite So.
    destruct (String.eqb_spec (normalize_key key) (key_name k)) as [En|_]; [|done].
    destruct (Hno val). apply row_sets_cons. left. split_and!; [done|done|by rewrite <- En].
Qed.

(** The loop ends with an error exactly on a row that applies and does not parse,
    in whatever order the rows come. *)
Lemma applyKV_result rows v :
  match applyKVToViper getenv rows v with
  | Ok _ => forall key raw, (key, raw) ∈ rows -> applies key -> exists x, coerceKVValue (normalize_key key) raw = Ok x
  | Err _ => exists key raw e, (key, raw) ∈ rows /\ applies key /\ coerceKVValue (normalize_key key) raw = Err e
  end.
Proof.
  revert v. induction rows as [|[key raw] rows IH]; intros v; cbn [applyKVToViper].
  { by intros key raw ?%elem_of_nil. }
  assert (forall v, (applies key -> exists x, coerceKVValue (normalize_key key) raw = Ok x) ->
    match applyKVToViper getenv rows v with
    | Ok _ => forall key' raw', (key', raw') ∈ (key, raw) :: rows -> applies key' ->
        exists x, coerceKVValue (normalize_key key') raw' = Ok x
    | Err _ => exists key' raw' e, (key', raw') ∈ (key, raw) :: rows /\ applies key' /\
        coerceKVValue (normalize_key key') raw' = Err e
    end) as Hnext.
  { intros v1 Hhd. specialize (IH v1). destruct (applyKVToViper getenv rows v1).
    - intros key' raw' [[= -> ->]|Hin]%elem_of_cons; [done|by apply IH].
    - destruct IH as (key' & raw' & e' & ? & ?). exists key', raw', e'. split; [by right|done]. }
  destruct (String.eqb_spec (normalize_key key) "") as [E0|E0]; [apply Hnext; by intros [? _]|].
  destruct (String.eqb_spec (getenv (env_name (normalize_key key))) "") as [Ee|Ee]; cbn [negb];
    [|apply Hnext; by intros [_ ?]].
  destruct (coerceKVValue (normalize_key key) raw) as [val|e] eqn:Ec; [apply Hnext; eauto|].
  exists key, raw, e. split; [left|done].
Qed.

Lemma rows_clean kv k :
  clean kv -> NoDup (normalize_key ∘ fst <$> rows_of order kv) /\
  Forall (fun r => related (normalize_key r.1) (key_name k) = false) (rows_of order kv).
Proof.
  intros [Hd Hl]. split.
  - rewrite list_fmap_compose. apply NoDup_fmap_2_strong; [|apply rows_NoDup].
    intros x y ([k1 r1] & -> & Hr1%elem_rows)%list_elem_of_fmap ([k2 r2] & -> & Hr2%elem_rows)%list_elem_of_fmap.
    apply Hd; eauto.
  - apply Forall_forall. intros [key raw] Hin%elem_rows. apply Hl. eauto.
Qed.

Lemma row_sets_kv kv k x : row_sets (rows_of order kv) k x <-> overrides kv k x.
Proof. unfold row_sets, overrides. by setoid_rewrite elem_rows. Qed.

(** A field is [x] in [c] when a row sets it, and as in [base] when none does. *)
Definition overridden (kv : gmap string string) (base c : Config) (k : Key) : Prop :=
  (forall x, overrides kv k x -> get_field k c = x) /\
  ((forall x, ~ overrides kv k x) -> get_field k c = get_field k base).

Lemma row_sets_dec rows k : (exists x, row_sets rows k x) \/ (forall x, ~ row_sets rows k x).
Proof.
  induction rows as [|[key raw] rows IH].
  { right. intros x (? & ? & ?%elem_of_nil & _). done. }
  destruct IH as [[x Hx]|Hno]; [left; exists x; apply row_sets_cons; by right|].
  assert ((exists x, normalize_key key = key_name k /\ applies key /\ coerceKVValue (key_name k) raw = Ok x) \/
          forall x, ~ (normalize_key key = key_name k /\ applies key /\ coerceKVValue (key_name k) raw = Ok x)) as [[x Hx]|Hn].
  { destruct (decide (normalize_key key = key_name k)); [|right; naive_solver].
    destruct (decide (normalize_key key = ""%string)); [right; intros x (_ & [? _] & _); done|].
    destruct (decide (getenv (env_name (normalize_key key)) = ""%string)); [|right; intros x (_ & [_ ?] & _); done].
    destruct (coerceKVValue (key_name k) raw) as [x|er]; [by left; exists x|right; naive_solver]. }
  - left. exists x. apply row_sets_cons. by left.
  - right. intros x [Hx|Hx]%row_sets_cons; [by apply (Hn x)|by apply (Hno x)].
Qed.

Lemma overrides_dec kv k : (exists x, overrides kv k x) \/ (forall x, ~ overrides kv k x).
Proof.
  destruct (row_sets_dec (rows_of order kv) k) as [[x Hx%row_sets_kv]|Hno]; [left; by exists x|right].
  intros x Hx%row_sets_kv. by apply (Hno x).
Qed.

(** The settings of the merged layers. *)
Lemma merged_settings cfg kv v k :
  clean kv -> applyKVToViper getenv (rows_of order kv) (seedViperFromConfig (applyDefaultsToViper v_new cfg) cfg) = Ok v ->
  (forall x, overrides kv k x -> v_Get getenv v (key_name k) = Some x) /\
  ((forall x, ~ overrides kv k x) ->
     match v_Get getenv v (key_name k) with Some x => x = get_field k cfg | None => True end).
Proof.
  intros Hc Ev. destruct (rows_clean kv k Hc) as [Hnd Hun].
  destruct (applyKV_layers _ _ _ k Hnd Hun Ev) as (He & Hf & Hd & Hset & Hkeep).
  destruct (seeded_layers cfg k) as (Se & Sf & So & Sd). unfold v_Get. rewrite He, Se, Hf, Sf, Hd, Sd. split.
  - intros x Hx%row_sets_kv. by rewrite (Hset x Hx).
  - intros Hno. rewrite Hkeep, So by (intros x Hx%row_sets_kv; by apply (Hno x)).
    unfold seed_value. destruct (get_field k cfg) eqn:Eg; try done.
    + destruct l; [|done]. by destruct k; try discriminate Eg.
    + destruct l; [|done]. by destruct k; try discriminate Eg.
Qed.

Lemma apply_overrides_fields cfg kv :
  clean kv -> (forall k x, overrides kv k x -> fits x (get_field k cfg)) ->
  match ApplyOverrides getenv order cfg kv with
  | Ok c => (forall key raw, kv !! key = Some raw -> applies key -> exists x, coerceKVValue (normalize_key key) raw = Ok x) /\
            forall k, overridden kv cfg c k
  | Err _ => exists key raw e, kv !! key = Some raw /\ applies key /\ coerceKVValue (normalize_key key) raw = Err e
  end.
Proof.
  intros Hc Hfit. unfold ApplyOverrides. destruct (Nat.eqb_spec (size kv) 0) as [->%map_size_empty_iff|_].
  { split; [intros key raw; by rewrite lookup_empty|]. intros k. split; [|done].
    intros x (key & raw & E & _). by rewrite lookup_empty in E. }
  pose proof (applyKV_result (rows_of order kv) (seedViperFromConfig (applyDefaultsToViper v_new cfg) cfg)) as Hres.
  destruct (applyKVToViper getenv (rows_of order kv) _) as [v|e] eqn:Ev; cbn [res_bind].
  2: { destruct Hres as (key & raw & e' & Hin%elem_rows & ?). eauto. }
  pose proof (fun k => merged_settings cfg kv v k Hc Ev) as Hget.
  assert (forall k x, v_Get getenv v (key_name k) = Some x -> plain k x (get_field k cfg)) as Hplain.
  { intros k x Ex. destruct (Hget k) as [Hset Hkeep]. destruct (overrides_dec kv k) as [[y Hy]|Hno].
    - rewrite (Hset y Hy) in Ex. injection Ex as ->. split; [|by apply Hfit].
      destruct Hy as (? & ? & _ & _ & _ & Hco). by eapply coerce_typed.
    - specialize (Hkeep Hno). rewrite Ex in Hkeep. subst x. split; [apply get_field_type|]. destruct (get_field k cfg); cbn; (done || lia). }
  destruct (unmarshal_total getenv v cfg Hplain) as [c Eu]. rewrite Eu. split.
  { intros key raw Hin%elem_rows. by apply Hres. }
  intros k. pose proof (unmarshal_fields getenv v cfg c k Eu) as Hf. destruct (Hget k) as [Hset Hkeep]. split.
  - intros x Hx. rewrite (Hset x Hx) in Hf. apply Hf, Hplain. by apply Hset.
  - intros Hno. specialize (Hkeep Hno). destruct (v_Get getenv v (key_name k)) as [x|] eqn:Ex; [|done].
    destruct Hf as [Hf _]. rewrite Hf by by apply Hplain. exact Hkeep.
Qed.

(** ** [Load] *)

Lemma bind_all_layers keys v :
  v_env v = true ->
  v_env (foldl (fun v k => v_BindEnv k v) v keys) = true /\ forall k,
    v_override (foldl (fun v k => v_BindEnv k v) v keys) k = v_override v k /\
    v_file (foldl (fun v k => v_BindEnv k v) v keys) k = v_file v k /\
    v_default (foldl (fun v k => v_BindEnv k v) v keys) k = v_default v k.
Proof.
  revert v. induction keys as [|key keys IH]; intros v He; cbn; [done|].
  destruct (bind_layers key v He) as [He' Hb]. destruct (IH _ He') as [? Hk]. split; [done|].
  intros k. destruct (Hk k) as (-> & -> & ->). apply Hb.
Qed.

(** What the file says, when there is one. *)
Definition file_layer (opts : LoadOptions) : string -> option Value :=
  match v_ReadInConfig (lo_ConfigFile opts)
          (if Nat.eqb (length (lo_SearchPaths opts)) 0 then DefaultSearchPaths else lo_SearchPaths opts)
          (applyDefaultsToViper v_new Defaults) with
  | Ok v => v_file v
  | Err _ => fun _ => None
  end.

(** The layers before the overrides. *)
Lemma load_layers opts v :
  match v_ReadInConfig (lo_ConfigFile opts)
          (if Nat.eqb (length (lo_SearchPaths opts)) 0 then DefaultSearchPaths else lo_SearchPaths opts)
          (applyDefaultsToViper v_new Defaults) with
  | Ok v' => Ok v'
  | Err (true, _) => Ok (applyDefaultsToViper v_new Defaults)
  | Err (false, e) => Err (ErrWrap "config: read file" e)
  end = Ok v ->
  let v' := bindAllEnvKeys (v_AutomaticEnv v) in
  v_env v' = true /\ forall k, v_override v' (key_name k) = None /\
    v_file v' (key_name k) = file_layer opts (key_name k) /\ v_default v' (key_name k) = default_value Defaults k.
Proof.
  intros Ev v'. destruct (automatic_layers v) as [Ha Hal].
  destruct (bind_all_layers bound_keys _ Ha) as [Hb Hbl]. split; [exact Hb|]. intros k.
  destruct (Hbl (key_name k)) as (Bo & Bf & Bd). subst v'. unfold bindAllEnvKeys. rewrite Bo, Bf, Bd.
  destruct (Hal (key_name k)) as (-> & -> & ->). unfold file_layer.
  assert (v_override (applyDefaultsToViper v_new Defaults) (key_name k) = None /\
          v_file (applyDefaultsToViper v_new Defaults) (key_name k) = None /\
          v_default (applyDefaultsToViper v_new Defaults) (key_name k) = default_value Defaults k) as (Do & Df & Dd).
  { unfold applyDefaultsToViper. destruct new_layers as [_ Hn]. destruct (Hn (key_name k)) as (No & Nf & Nd).
    rewrite (put_all_keeps (fun v => v_override v (key_name k))), (put_all_keeps (fun v => v_file v (key_name k)))
      by (intros; apply set_default_layers).
    rewrite (put_all_layer v_SetDefault v_default) by (apply all_keys_NoDup || (intros; by apply set_default_layers)).
    rewrite bool_decide_eq_true_2 by apply all_keys_all. rewrite Nd. by destruct (default_value Defaults k). }
  destruct (v_ReadInConfig _ _ _) as [v1|[[] e]] eqn:Er; [|by injection Ev as <-|done].
  injection Ev as <-. destruct (read_layers _ _ _ _ Er) as [_ Hr]. destruct (Hr (key_name k)) as [-> ->].
  by split_and!.
Qed.

(** What the optional step of the overrides does to the layers of a key. *)
Definition after_overrides (kv : gmap string string) (k : Key) (v v' : viper) : Prop :=
  v_env v' = v_env v /\ v_file v' (key_name k) = v_file v (key_name k) /\
  v_default v' (key_name k) = v_default v (key_name k) /\
  (forall x, overrides kv k x -> v_override v' (key_name k) = Some x) /\
  ((forall x, ~ overrides kv k x) -> v_override v' (key_name k) = v_override v (key_name k)).

Lemma kv_layers kv k v v' :
  clean kv ->
  (if Nat.eqb (size kv) 0 then Ok v
   else match applyKVToViper getenv (rows_of order kv) v with
        | Ok v => Ok v
        | Err e => Err (ErrWrap "config: apply kv overrides" e)
        end) = Ok v' ->
  after_overrides kv k v v'.
Proof.
  intros Hc. destruct (Nat.eqb_spec (size kv) 0) as [->%map_size_empty_iff|_].
  - intros [= <-]. split_and!; try done. intros x (? & ? & Hl & _). by rewrite lookup_empty in Hl.
  - destruct (applyKVToViper getenv (rows_of order kv) v) as [v3|] eqn:Ekv; [|done]. intros [= <-].
    destruct (rows_clean _ k Hc) as [Hnd Hun].
    destruct (applyKV_layers _ _ _ k Hnd Hun Ekv) as (? & ? & ? & Hset & Hkeep). split_and!; try done.
    + intros x Hx%row_sets_kv. by apply Hset.
    + intros Hno. apply Hkeep. intros x Hx%row_sets_kv. by apply (Hno x).
Qed.

(** The settings [Load] unmarshals, for every key but the sources. *)
Lemma load_settings opts c k :
  clean (lo_KVOverrides opts) -> Load getenv order opts = Ok c -> k <> KSources ->
  Validate c = [] /\ exists v1 v2 cfg,
    v_env v1 = true /\ v_override v1 (key_name k) = None /\ v_file v1 (key_name k) = file_layer opts (key_name k) /\
    v_default v1 (key_name k) = default_value Defaults k /\ after_overrides (lo_KVOverrides opts) k v1 v2 /\
    v_Unmarshal getenv v2 Defaults = Ok cfg /\ get_field k c = get_field k cfg.
Proof.
  intros Hc E Hk. unfold Load in E.
  destruct (match v_ReadInConfig _ _ _ with Ok _ => _ | Err _ => _ end) as [v|] eqn:Ev; cbn [res_bind] in E; [|done].
  destruct (load_layers _ _ Ev) as [Le Ll]. clear Ev. destruct (Ll k) as (Lo & Lf & Ld).
  set (v1 := bindAllEnvKeys (v_AutomaticEnv v)) in *. clearbody v1.
  destruct (if Nat.eqb (size (lo_KVOverrides opts)) 0 then _ else _) as [v2|] eqn:Ekv; cbn [res_bind] in E; [|done].
  apply (kv_layers _ k) in Ekv as (Ve & Vf & Vd & Vset & Vkeep); [|done].
  assert (related "sources" (key_name k) = false /\ String.eqb "sources" (key_name k) = false) as [Hr1 Hr2].
  { split; [apply (keys_unrelated KSources k)|]. apply String.eqb_neq. intros Es.
    apply Hk. symmetry. by apply key_name_inj. }
  destruct (set_layers "sources" (VSources []) v2) as [Se Sl]. destruct (Sl (key_name k)) as (Sd & Sf & So).
  specialize (So Hr1). rewrite Hr2 in So.
  destruct (String.eqb (getenv (EnvPrefix +:+ "_SOURCES")) "").
  - destruct (v_Unmarshal getenv v2 Defaults) as [cfg|] eqn:Eu; cbn [res_bind] in E; [|done].
    destruct (Validate cfg) eqn:Hv; [|done]. injection E as <-. split; [done|]. by exists v1, v2, cfg.
  - destruct (v_Unmarshal getenv _ Defaults) as [cfg|] eqn:Eu; cbn [res_bind] in E; [|done].
    destruct (json_sources _); cbn [res_bind] in E; [|done]. destruct (Validate _) eqn:Hv in E; [|done].
    injection E as <-. split; [done|]. exists v1, (v_Set "sources" (VSources []) v2), cfg.
    split_and!; try done; [|by destruct k]. unfold after_overrides. by rewrite Se, Sf, Sd, So.
Qed.

(** The text of a variable read as a field's type. *)
Definition env_value (k : Key) (s : string) (x : Value) : Prop :=
  if decide (key_type k = TString) then x = VStr s else v_weak k s = Some x.


End Spec.

Lemma config_ext c1 c2 : (forall k, get_field k c1 = get_field k c2) -> c1 = c2.
Proof.
  intros Hk. destruct c1 as [l1 so1 ss1 r1 ca1 ag1 ex1 ro1 sc1 lo1 me1], c2 as [l2 so2 ss2 r2 ca2 ag2 ex2 ro2 sc2 lo2 me2].
  destruct so1, r1, ca1, ag1, ex1, ro1, sc1, lo1, me1, so2, r2, ca2, ag2, ex2, ro2, sc2, lo2, me2.
  apply (Forall_true _ all_keys) in Hk. unfold all_keys in Hk.
  repeat (apply Forall_cons in Hk as [? Hk]). clear Hk. cbn in *. simplify_eq. done.
Qed.

Section Spec.
Context `{Json} `{ViperLaws} `{!DecodeLaws}.
Context (getenv : string -> string) (order : gset string -> list string) `{!MapOrder order}.

(** With the rows of [kv_settings] [ApplyOverrides] fails exactly when one of those
    that apply does not parse; otherwise every field a row is for has the parsed value,
    unless a variable of the environment is set for it, and every other field is as it
    was: the iteration order of the map does not matter. *)
Theorem apply_overrides_spec (order2 : gset string -> list string) cfg kv :
  MapOrder order2 -> clean kv -> (forall k x, overrides getenv kv k x -> fits x (get_field k cfg)) ->
  match ApplyOverrides getenv order cfg kv, ApplyOverrides getenv order2 cfg kv with
  | Ok c, Ok c2 => c = c2 /\ forall k, overridden getenv kv cfg c k
  | Err _, Err _ => exists key raw e, kv !! key = Some raw /\ applies getenv key /\
                      coerceKVValue (normalize_key key) raw = Err e
  | _, _ => False
  end.
Proof.
  intros Ho2 Hc Hfit. pose proof (apply_overrides_fields getenv order cfg kv Hc Hfit) as E1.
  pose proof (apply_overrides_fields getenv order2 cfg kv Hc Hfit) as E2.
  destruct (ApplyOverrides getenv order cfg kv) as [c|], (ApplyOverrides getenv order2 cfg kv) as [c2|].
  - destruct E1 as [_ H1'], E2 as [_ H2']. split; [|done]. apply config_ext. intros k.
    destruct (H1' k) as [S1 K1], (H2' k) as [S2 K2].
    destruct (overrides_dec getenv order kv k) as [[x Hx]|Hno]; [by rewrite (S1 x Hx), (S2 x Hx)|by rewrite (K1 Hno), (K2 Hno)].
  - destruct E1 as [Hall _], E2 as (key & raw & er & Hl & Ha & He). destruct (Hall key raw Hl Ha) as [x Hx]. congruence.
  - destruct E2 as [Hall _], E1 as (key & raw & er & Hl & Ha & He). destruct (Hall key raw Hl Ha) as [x Hx]. congruence.
  - done.
Qed.
End Spec.
