(* ===== verification/SettingsDemo.v ===== *)
(** * Layered settings as four maps

  An instance of the interface of the layered settings that satisfies its laws,
  and the theorems of [SettingsSpec] at concrete inputs. *)

From S2P Require Import Prelude Order GoLib Config ConfigSpec Duration Settings SettingsSpec.

Local Open Scope Z_scope.

Record Layers := MkLayers {
  ly_override : gmap string Value; ly_env : bool; ly_file : gmap string Value; ly_default : gmap string Value }.

(** ** Configurations from values *)

Definition str (v : Value) : string := match v with VStr s => s | _ => ""%string end.
Definition num (v : Value) : Z := match v with VInt n | VDur n => n | _ => 0 end.
Definition flag (v : Value) : bool := match v with VBool b => b | _ => false end.

Definition config_of (f : Key -> Value) : Config := {|
  cfg_Listen := str (f KListen);
  cfg_Source := {| so_URL := str (f KSourceURL); so_CachePath := str (f KSourceCachePath);
                   so_RefreshInterval := num (f KSourceRefreshInterval); so_HTTPTimeout := num (f KSourceHTTPTimeout) |};
  cfg_Sources := match f KSources with VSources l => l | _ => [] end;
  cfg_Resolver := {| rc_Upstream := str (f KUpstream); rc_Network := str (f KNetwork);
                     rc_Concurrency := num (f KConcurrency); rc_QPS := num (f KQPS); rc_Timeout := num (f KTimeout);
                     rc_Retries := num (f KRetries); rc_BackoffBase := num (f KBackoffBase);
                     rc_BackoffMax := num (f KBackoffMax); rc_FollowCNAME := flag (f KFollowCNAME);
                     rc_EnableV4 := flag (f KEnableV4); rc_EnableV6 := flag (f KEnableV6) |};
  cfg_Cache := {| cc_DBPath := str (f KDBPath); cc_TTL := num (f KTTL); cc_FailedTTL := num (f KFailedTTL);
                  cc_VacuumAfter := num (f KVacuumAfter) |};
  cfg_Aggregation := {| ac_Enabled := flag (f KAggEnabled); ac_Level := str (f KAggLevel);
                        ac_V4MaxPrefix := num (f KAggV4); ac_V6MaxPrefix := num (f KAggV6) |};
  cfg_Export := {| ec_Dir := str (f KExportDir); ec_IPv4File := str (f KExportV4); ec_IPv6File := str (f KExportV6) |};
  cfg_Routing := {| ro_Enabled := flag (f KRoutingEnabled); ro_StateDir := str (f KStateDir);
                    ro_Policies := match f KPolicies with VPolicies l => l | _ => [] end |};
  cfg_Scheduler := {| sc_DLCRefresh := num (f KDLCRefresh); sc_ResolveCycle := num (f KResolveCycle) |};
  cfg_Logging := {| lc_Level := str (f KLogLevel); lc_Format := str (f KLogFormat) |};
  cfg_Metrics := {| mc_Enabled := flag (f KMetricsEnabled); mc_Path := str (f KMetricsPath) |}
|}.

Lemma get_config_of f k : (forall k, value_type (f k) = Some (key_type k)) -> get_field k (config_of f) = f k.
Proof.
  intros Hf. specialize (Hf k). destruct k; cbn [get_field config_of]; cbn in Hf |- *;
    match type of Hf with value_type ?v = _ => destruct v; try discriminate Hf; reflexivity end.
Qed.

(** ** Decoding *)

Definition weak (k : Key) (s : string) : option Value :=
  match key_type k with
  | TInt => VInt <$> Atoi s
  | TBool => VBool <$> ParseBool s
  | TDuration => VDur <$> ParseDuration s
  | _ => None
  end.

Definition fitsb (x base : Value) : bool :=
  match x, base with
  | VSources l, VSources b => Nat.leb (length b) (length l)
  | VPolicies l, VPolicies b => Nat.leb (length b) (length l)
  | _, _ => true
  end.

Lemma fitsb_spec x base : fitsb x base = true <-> fits x base.
Proof. destruct x, base; cbn; try done; apply Nat.leb_le. Qed.

Definition decode_key (k : Key) (x : option Value) (base : Value) : option Value :=
  match x with
  | None => Some base
  | Some x =>
      if bool_decide (value_type x = Some (key_type k)) then if fitsb x base then Some x else None
      else match x with VStr s => weak k s | _ => None end
  end.

Definition get_layers (getenv : string -> string) (v : Layers) (key : string) : option Value :=
  match ly_override v !! key with
  | Some x => Some x
  | None =>
      if ly_env v && negb (String.eqb (getenv (env_name key)) "") then Some (VStr (getenv (env_name key)))
      else match ly_file v !! key with Some x => Some x | None => ly_default v !! key end
  end.

Definition decoded (getenv : string -> string) (v : Layers) (base : Config) (k : Key) : option Value :=
  decode_key k (get_layers getenv v (key_name k)) (get_field k base).

Definition unmarshal (getenv : string -> string) (v : Layers) (base : Config) : res error Config :=
  if forallb (fun k => bool_decide (is_Some (decoded getenv v base k))) all_keys
  then Ok (config_of (fun k => default (get_field k base) (decoded getenv v base k)))
  else Err (ErrNew "decoding failed").

Lemma decoded_typed getenv v base k x : decoded getenv v base k = Some x -> value_type x = Some (key_type k).
Proof.
  unfold decoded, decode_key. destruct (get_layers _ _ _) as [y|]; [|intros [= <-]; apply get_field_type].
  case_bool_decide as Ht; [destruct (fitsb _ _); [by intros [= <-]|done]|]. destruct y; try done.
  unfold weak. destruct (key_type k); try done; intros (z & _ & ->)%fmap_Some; done.
Qed.

Lemma unmarshal_ok getenv v base c k :
  unmarshal getenv v base = Ok c -> decoded getenv v base k = Some (get_field k c).
Proof.
  unfold unmarshal. destruct (forallb _ _) eqn:Hall; [|done]. intros [= <-]. rewrite forallb_forall in Hall.
  assert (forall k, is_Some (decoded getenv v base k)) as Hd.
  { intros k'. apply (bool_decide_unpack _). rewrite (Hall k'); [done|]. apply list_elem_of_In, all_keys_all. }
  rewrite get_config_of.
  - destruct (Hd k) as [x ->]. done.
  - intros k'. destruct (Hd k') as [x E]. rewrite E. by eapply decoded_typed.
Qed.

(** The file, when it is there. *)
Section Instance.
Context (file : option (gmap string Value)).

Definition layered : Viper := {|
  viper := Layers;
  v_new := MkLayers ∅ false ∅ ∅;
  v_SetDefault key x v := MkLayers (ly_override v) (ly_env v) (ly_file v) (<[key := x]> (ly_default v));
  v_Set key x v := MkLayers (<[key := x]> (ly_override v)) (ly_env v) (ly_file v) (ly_default v);
  v_AutomaticEnv v := MkLayers (ly_override v) true (ly_file v) (ly_default v);
  v_BindEnv key v := v;
  v_ReadInConfig _ _ v :=
    match file with
    | Some m => Ok (MkLayers (ly_override v) (ly_env v) m (ly_default v))
    | None => Err (true, ErrNew "Config File Not Found")
    end;
  v_Unmarshal := unmarshal
|}.

Lemma lookup_insert_key (m : gmap string Value) key k x : <[key := x]> m !! k = if String.eqb key k then Some x else m !! k.
Proof. destruct (String.eqb_spec key k) as [->|]; [apply lookup_insert_eq|by apply lookup_insert_ne]. Qed.

#[local] Existing Instance layered.

#[program] Definition layered_laws : ViperLaws := {|
  v_override v k := ly_override v !! k;
  v_env := ly_env;
  v_file v k := ly_file v !! k;
  v_default v k := ly_default v !! k;
  v_weak := weak
|}.
Next Obligation. done. Qed.
Next Obligation. intros key x v. split; [done|]. intros k. split_and!; [done|done|]. intros _. apply lookup_insert_key. Qed.
Next Obligation. intros key x v. split; [done|]. intros k. split_and!; [done|done|]. intros _. apply lookup_insert_key. Qed.
Next Obligation. done. Qed.
Next Obligation. intros key v He. by split. Qed.
Next Obligation. intros f paths v v'. cbn. destruct file; [|done]. intros [= <-]. done. Qed.

#[local] Existing Instance layered_laws.

Lemma layered_decodes : DecodeLaws.
Proof.
  split.
  - intros getenv v base c k Eu%(unmarshal_ok getenv v base c k). unfold decoded in Eu.
    change (v_Get getenv v (key_name k)) with (get_layers getenv v (key_name k)).
    destruct (get_layers getenv v (key_name k)) as [x|]; cbn in Eu; [|by injection Eu as <-]. split.
    + intros [Ht Hf%fitsb_spec]. rewrite bool_decide_eq_true_2 in Eu by done. rewrite Hf in Eu. by injection Eu as <-.
    + intros s -> Hk. rewrite bool_decide_eq_false_2 in Eu; [exact Eu|]. cbn. intros [= Ek].
      rewrite <- Ek in Hk. set_solver.
  - intros getenv v base Hp. cbn [v_Unmarshal layered]. unfold unmarshal. destruct (forallb _ _) eqn:Hall; [eauto|].
    exfalso. rewrite <- not_true_iff_false, forallb_forall in Hall. apply Hall. intros k _.
    apply bool_decide_eq_true_2. unfold decoded. specialize (Hp k).
    change (v_Get getenv v (key_name k)) with (get_layers getenv v (key_name k)) in Hp.
    destruct (get_layers getenv v (key_name k)) as [x|]; [|by eexists]. destruct (Hp x eq_refl) as [Ht Hf%fitsb_spec].
    cbn. rewrite bool_decide_eq_true_2, Hf by done. eauto.
Qed.
End Instance.

(** ** Examples *)

Definition no_json : Json := {|
  json_sources _ := Err (ErrNew "invalid character");
  json_policies _ := Err (ErrNew "invalid character");
  show_policies _ := ""%string
|}.
#[local] Existing Instance no_json.
#[local] Instance demo_viper : Viper := layered (Some {["resolver.retries"%string := VInt 1]}).
#[local] Instance demo_laws : ViperLaws := layered_laws _.
#[local] Instance demo_decodes : DecodeLaws := layered_decodes _.

Definition demo_kv : gmap string string := {["resolver.qps"%string := "500"%string; "Cache.TTL"%string := "2h"%string]}.
(** [D2IP_CACHE_TTL=45m]. *)
Definition demo_environ (name : string) : string := if String.eqb name "D2IP_CACHE_TTL" then "45m" else "".

Lemma demo_kv_clean : clean demo_kv.
Proof.
  assert (forall k, is_Some (demo_kv !! k) -> k = "resolver.qps"%string \/ k = "Cache.TTL"%string) as Hk.
  { intros k [x Hx]. unfold demo_kv in Hx. apply lookup_insert_Some in Hx as [[<- _]|[_ Hx]]; [by left|]. apply lookup_singleton_Some in Hx as [<- _]. by right. }
  split.
  - intros k1 k2 [->| ->]%Hk [->| ->]%Hk; vm_compute; intros E; (reflexivity || discriminate E).
  - intros key k [->| ->]%Hk; [apply (keys_unrelated KQPS)|apply (keys_unrelated KTTL)].
Qed.

Lemma kv_type_safe_witness : value_type (VInt 500) = value_type (get_field KQPS Defaults).
Proof. apply (kv_type_safe KQPS "500"). reflexivity. Defined.

Lemma demo_overrides_qps : overrides demo_environ demo_kv KQPS (VInt 500).
Proof. exists "resolver.qps"%string, "500"%string. repeat split; (reflexivity || vm_compute; discriminate). Qed.

Lemma apply_overrides_spec_witness :
  exists c, ApplyOverrides demo_environ elements Defaults demo_kv = Ok c /\
    ApplyOverrides demo_environ (fun s => reverse (elements s)) Defaults demo_kv = Ok c /\
    get_field KQPS c = VInt 500 /\ get_field KTTL c = VDur (6 * Hour).
Proof.
  pose proof (apply_overrides_spec demo_environ elements (fun s => reverse (elements s)) Defaults demo_kv
                (fun s => reverse_Permutation (elements s)) demo_kv_clean) as Hs.
  destruct (ApplyOverrides demo_environ elements Defaults demo_kv) as [c|e] eqn:E; [|vm_compute in E; discriminate E].
  destruct (ApplyOverrides demo_environ (fun s => reverse (elements s)) Defaults demo_kv) as [c2|e] eqn:E2;
    [|vm_compute in E2; discriminate E2].
  destruct Hs as [<- Hk].
  { intros k x (key & raw & _ & _ & _ & Hc). destruct x; try exact I; destruct k; cbn; (exact I || vm_compute in Hc; discriminate Hc). }
  exists c. split; [reflexivity|]. split; [reflexivity|].
  split; [apply (Hk KQPS), demo_overrides_qps|]. apply (Hk KTTL).
  intros x (key & raw & _ & En & [_ Ha] & _). rewrite En in Ha. vm_compute in Ha. discriminate Ha.
Defined.

