(* ===== verification/SettingsForm.v ===== *)
(** * The settings as a client sees them

  [structToMap] and [flattenMap] of [internal/api/settings_handlers.go]: the answer of
  [GET /api/settings] under dotted keys, and what [PUT] makes of a value that is sent
  back as it was shown.  The round trip through JSON turns numbers into floats: what it
  does to strings, numbers and free-form values is an interface. *)

From S2P Require Import Prelude GoLib Config Duration DurationSpec Settings SettingsSpec.

Local Open Scope Z_scope.

(** ** JSON *)

(** A value after [json.Marshal] and [json.Unmarshal] into [interface{}]: strings (bytes
    that are not UTF-8 change), numbers, as the text of their [float64], and other
    values. *)
Class JsonRound := {
  js_string : string -> string;
  js_number : Z -> string;
  js_any : any -> any;
  js_number_exact n : Z.abs n <= 2 ^ 53 -> js_number n = Itoa n
}.

Section Form.
Context `{JsonRound}.

Definition js_str (s : string) : any := AStr (js_string s).

Definition js_num (n : Z) : any := AFloat (js_number n).

Definition aggregation_json (a : AggregationConfig) : any :=
  AMap [("enabled", ABool (ac_Enabled a)); ("level", js_str (ac_Level a));
        ("v4_max_prefix", js_num (ac_V4MaxPrefix a)); ("v6_max_prefix", js_num (ac_V6MaxPrefix a))]%string.

Definition source_json (s : SourceItemConfig) : any :=
  AMap [("id", js_str (si_ID s)); ("provider", js_str (si_Provider s)); ("prefix", js_str (si_Prefix s));
        ("enabled", ABool (si_Enabled s)); ("config", js_any (AMap (si_Config s)))]%string.

Definition policy_json (p : PolicyConfig) : any :=
  AMap (([("name", js_str (pc_Name p)); ("enabled", ABool (pc_Enabled p)); ("categories", AList (js_str <$> pc_Categories p));
         ("backend", js_str (pc_Backend p)); ("table_id", js_num (pc_TableID p)); ("iface", js_str (pc_Iface p));
         ("nft_table", js_str (pc_NFTTable p)); ("nft_set_v4", js_str (pc_NFTSetV4 p)); ("nft_set_v6", js_str (pc_NFTSetV6 p));
         ("dry_run", ABool (pc_DryRun p)); ("export_format", js_str (pc_ExportFormat p))]%string : list (string * any))
        ++ match pc_Aggregation p with Some a => [("aggregation"%string, aggregation_json a)] | None => [] end).

(** The tags of the structs.  A list that is nil ([null] in JSON) is an empty one here. *)
Definition config_json (c : Config) : list (string * any) :=
  [("listen", js_str (cfg_Listen c));
   ("source", let so := cfg_Source c in
      AMap [("url", js_str (so_URL so)); ("cache_path", js_str (so_CachePath so));
            ("refresh_interval", js_num (so_RefreshInterval so)); ("http_timeout", js_num (so_HTTPTimeout so))]);
   ("sources", AList (source_json <$> cfg_Sources c));
   ("resolver", let r := cfg_Resolver c in
      AMap [("upstream", js_str (rc_Upstream r)); ("network", js_str (rc_Network r));
            ("concurrency", js_num (rc_Concurrency r)); ("qps", js_num (rc_QPS r));
            ("timeout", js_num (rc_Timeout r)); ("retries", js_num (rc_Retries r));
            ("backoff_base", js_num (rc_BackoffBase r)); ("backoff_max", js_num (rc_BackoffMax r));
            ("follow_cname", ABool (rc_FollowCNAME r)); ("enable_v4", ABool (rc_EnableV4 r)); ("enable_v6", ABool (rc_EnableV6 r))]);
   ("cache", let ca := cfg_Cache c in
      AMap [("db_path", js_str (cc_DBPath ca)); ("ttl", js_num (cc_TTL ca));
            ("failed_ttl", js_num (cc_FailedTTL ca)); ("vacuum_after", js_num (cc_VacuumAfter ca))]);
   ("aggregation", aggregation_json (cfg_Aggregation c));
   ("export", let ex := cfg_Export c in
      AMap [("dir", js_str (ec_Dir ex)); ("ipv4_file", js_str (ec_IPv4File ex)); ("ipv6_file", js_str (ec_IPv6File ex))]);
   ("routing", let ro := cfg_Routing c in
      AMap [("enabled", ABool (ro_Enabled ro)); ("state_dir", js_str (ro_StateDir ro));
            ("policies", AList (policy_json <$> ro_Policies ro))]);
   ("scheduler", let s := cfg_Scheduler c in
      AMap [("dlc_refresh", js_num (sc_DLCRefresh s)); ("resolve_cycle", js_num (sc_ResolveCycle s))]);
   ("logging", AMap [("level", js_str (lc_Level (cfg_Logging c))); ("format", js_str (lc_Format (cfg_Logging c)))]);
   ("metrics", AMap [("enabled", ABool (mc_Enabled (cfg_Metrics c))); ("path", js_str (mc_Path (cfg_Metrics c)))])]%string.
End Form.

(** ** Flattening *)

Definition dotted (prefix k : string) : string := if String.eqb prefix "" then k else prefix +:+ "." +:+ k.

(** The pairs in the order in which they are written. *)
Fixpoint flatten_value (key : string) (v : any) : list (string * any) :=
  match v with
  | AMap m =>
      (fix go m := match m with [] => [] | (k, x) :: m' => flatten_value (dotted key k) x ++ go m' end) m
  | _ => [(key, v)]
  end.

Definition flattenMap (m : list (string * any)) (prefix : string) : gmap string any :=
  foldl (fun out kv => <[fst kv := snd kv]> out) ∅ (flatten_value prefix (AMap m)).

Definition structToMap `{JsonRound} (c : Config) : gmap string any := flattenMap (config_json c) "".

(** ** What is shown and read back *)

Definition json_value `{JsonRound} (v : Value) : any :=
  match v with
  | VStr s => js_str s | VInt n => js_num n | VBool b => ABool b | VDur d => js_num d
  | VSources l => AList (source_json <$> l) | VPolicies l => AList (policy_json <$> l) | VRaw a => js_any a
  end.

(** Every field is shown under its key. *)
Lemma shown_field `{JsonRound} k c : structToMap c !! key_name k = Some (json_value (get_field k c)).
Proof. destruct k; reflexivity. Qed.

(** The text of a scalar in the form. *)
Definition field_text (a : any) : option string :=
  match a with
  | AStr s => Some s
  | AFloat text => Some text
  | ABool b => Some (if b then "true" else "false")%string
  | _ => None
  end.

(** What a field would become when it is sent back as it is shown. *)
Definition read_back `{JsonRound} `{Json} (k : Key) (c : Config) : option (res error Value) :=
  a ← structToMap c !! key_name k; raw ← field_text a; Some (coerceKVValue (key_name k) raw).

Section ReadBack.
Context `{JsonRound} `{Json}.

Lemma Itoa_word n : 0 <= n -> TrimSpace (Itoa n) = Itoa n.
Proof. intros Hn. rewrite <- (str_app_nil_r (Itoa n)). by apply TrimSpace_Itoa. Qed.

Lemma coerce_duration k d :
  key_type k = TDuration -> 0 <= d < 2 ^ 63 ->
  coerceKVValue (key_name k) (Itoa d) = Ok (VDur (if 10 ^ 9 <=? d then d else d * Second)).
Proof.
  intros Hk Hd. pose proof (parseDuration_number d "" Hd ltac:(repeat split; reflexivity)) as Hp.
  rewrite str_app_nil_r in Hp. unfold coerceKVValue. rewrite Itoa_word by lia.
  destruct k; try discriminate Hk; cbn -[parseDuration Itoa]; by rewrite Hp.
Qed.

Lemma coerce_int k n :
  key_type k = TInt -> 0 <= n < 2 ^ 63 -> coerceKVValue (key_name k) (Itoa n) = Ok (VInt n).
Proof.
  intros Hk Hn. unfold coerceKVValue. rewrite Itoa_word by lia.
  destruct k; try discriminate Hk; cbn -[Atoi Itoa]; by rewrite Atoi_Itoa.
Qed.

Lemma coerce_bool k (b : bool) :
  key_type k = TBool -> coerceKVValue (key_name k) (if b then "true" else "false")%string = Ok (VBool b).
Proof. intros Hk. destruct k; try discriminate Hk; by destruct b. Qed.

Lemma coerce_string k s : key_type k = TString -> coerceKVValue (key_name k) s = Ok (VStr (TrimSpace s)).
Proof. intros Hk. destruct k; try discriminate Hk; reflexivity. Qed.

End ReadBack.

(** ** The defaults, sent back *)

#[refine] Definition plain_round : JsonRound := {| js_string s := s; js_number := Itoa; js_any a := a |}.
Proof. done. Defined.

Definition form_json : Json := {|
  json_sources _ := Ok []; json_policies _ := Ok []; show_policies _ := "[]"%string |}.

