(* ===== verification/Routing.v ===== *)
(** * [internal/routing]: the policy routers

  [state.go], [policy_state.go]: the state file.  [policy_iproute2.go],
  [policy_nftables.go]: the two backends.  [composite_router.go]: dispatch.
  [validator.go]: the health checks.

  The JSON encoding of a state and the effect of the [ip] and [nft] commands are
  interfaces: classes with the laws the code relies on. *)

From S2P Require Import Prelude GoLib Os Netip NetipText Config Plan.

Local Open Scope Z_scope.

(** ** Interfaces *)

Definition state_wf (s : RouterState) : Prop := Forall prefix_wf (rs_V4 s) /\ Forall prefix_wf (rs_V6 s).

(** [encoding/json] on [RouterState]. *)
Class StateCodec := {
  marshal_state : RouterState -> string;
  unmarshal_state : string -> option RouterState;
  unmarshal_marshal s : state_wf s -> unmarshal_state (marshal_state s) = Some s
}.

Definition ip_add (p : Prefix) (iface : string) (table : Z) : list string :=
  ["ip"; "route"; "add"; PString p; "dev"; iface; "table"; Itoa table]%string.
Definition ip_del (p : Prefix) (table : Z) : list string :=
  ["ip"; "route"; "del"; PString p; "table"; Itoa table]%string.

(** ip-route(8): adding fails when the route exists, deleting when it does not;
    a command that fails changes nothing. *)
Class IPRouteKernel (K : Type) `{Env K} := {
  routes : K -> Z -> gset Prefix;
  ip_add_law p iface t k e out err k' :
    prefix_wf p -> exec (ip_add p iface t) "" k = (e, out, err, k') ->
    match e with
    | None => p ∉ routes k t /\ forall t', routes k' t' = if decide (t' = t) then {[p]} ∪ routes k t else routes k t'
    | Some _ => forall t', routes k' t' = routes k t'
    end;
  ip_del_law p t k e out err k' :
    prefix_wf p -> exec (ip_del p t) "" k = (e, out, err, k') ->
    match e with
    | None => p ∈ routes k t /\ forall t', routes k' t' = if decide (t' = t) then routes k t ∖ {[p]} else routes k t'
    | Some _ => forall t', routes k' t' = routes k t'
    end
}.

Definition nft_flush (table set : string) : list string :=
  ["nft"; "flush"; "set"; "inet"; table; set]%string.
Definition nft_add (table set : string) (ps : list Prefix) : list string :=
  ["nft"; "add"; "element"; "inet"; table; set]%string ++ (PString <$> ps).

(** nft(8): [flush set] empties a set, [add element] adds to it; a command that
    fails changes nothing. *)
Class NFTKernel (K : Type) `{Env K} := {
  nft_set : K -> string -> string -> gset Prefix;
  nft_flush_law table set k e out err k' :
    exec (nft_flush table set) "" k = (e, out, err, k') ->
    forall t s, nft_set k' t s =
      if decide (e = None /\ (t, s) = (table, set)) then ∅ else nft_set k t s;
  nft_add_law table set ps k e out err k' :
    Forall prefix_wf ps -> exec (nft_add table set ps) "" k = (e, out, err, k') ->
    forall t s, nft_set k' t s =
      if decide (e = None /\ (t, s) = (table, set)) then list_to_set ps ∪ nft_set k t s
      else nft_set k t s
}.

Section Routing.
Context {K : Type} `{Env K} `{StateCodec}.
Local Notation IO := (IO K).

(** ** The state file *)

Definition loadState (path : string) : IO RouterState :=
  r ← io_try (ReadFile path);
  match r with
  | Err e => if errors_Is e ErrNotExist then mret zeroState
             else io_err (ErrWrap "routing: read state" e)
  | Ok b => match unmarshal_state b with
            | None => io_err (ErrNew "routing: parse state")
            | Some s => mret s
            end
  end.

Definition saveState (path : string) (s : RouterState) : IO unit :=
  if String.eqb path "" then io_err (ErrNew "routing: empty state path") else
  io_wrap "routing: mkdir state dir" (MkdirAll path);;
  let b := marshal_state s in
  let tmp := path +:+ ".tmp" in
  io_wrap "routing: write state tmp" (WriteFile tmp b);;
  r ← io_try (Rename tmp path);
  match r with
  | Err e => _ ← io_try (Remove tmp); io_err (ErrWrap "routing: rename state" e)
  | Ok _ => mret tt
  end.

Definition policyStatePath (stateDir policyName : string) : string :=
  path_join stateDir (policyName +:+ ".json").

Definition loadPolicyState (stateDir policyName : string) : IO RouterState :=
  loadState (policyStatePath stateDir policyName).

Definition savePolicyState (stateDir policyName : string) (s : RouterState) : IO unit :=
  io_wrap "mkdir state dir" (MkdirAll stateDir);;
  saveState (policyStatePath stateDir policyName) s.

(** [state, _ := loadPolicyState(...)]: a failed load is the zero state. *)
Definition load_or_zero (stateDir policyName : string) : IO RouterState :=
  r ← io_try (loadPolicyState stateDir policyName);
  mret (match r with Ok s => s | Err _ => zeroState end).

Definition DryRunResult : Type := Plan * Plan * string * string.

(** The body shared by both [DryRunPolicy] methods. *)
Definition dryRun (stateDir : string) (policy : PolicyConfig) (v4 v6 : list Prefix) : IO DryRunResult :=
  state ← load_or_zero stateDir (pc_Name policy);
  let v4Plan := buildPlan (rs_V4 state) v4 FamilyV4 in
  let v6Plan := buildPlan (rs_V6 state) v6 FamilyV6 in
  mret (v4Plan, v6Plan, diffString v4Plan, diffString v6Plan).

(** ** [iproute2PolicyRouter] *)

Definition ip_Caps (policy : PolicyConfig) : IO unit :=
  io_wrap "iproute2 cap check failed"
    (Run ["ip"; "route"; "show"; "table"; Itoa (pc_TableID policy)]%string).

Fixpoint ip_del_all (table : Z) (l : list Prefix) : IO unit :=
  match l with
  | [] => mret tt
  | p :: l' => io_wrap ("del route " +:+ PString p) (Run (ip_del p table));; ip_del_all table l'
  end.

Fixpoint ip_add_all (iface : string) (table : Z) (l : list Prefix) : IO unit :=
  match l with
  | [] => mret tt
  | p :: l' => io_wrap ("add route " +:+ PString p) (Run (ip_add p iface table));;
               ip_add_all iface table l'
  end.

Definition ip_applyFamily (policy : PolicyConfig) (plan : Plan) : IO unit :=
  ip_del_all (pc_TableID policy) (pl_Remove plan);;
  ip_add_all (pc_Iface policy) (pc_TableID policy) (pl_Add plan).

Definition ip_ApplyPolicy (stateDir : string) (policy : PolicyConfig) (v4 v6 : list Prefix) : IO unit :=
  state ← load_or_zero stateDir (pc_Name policy);
  let planV4 := buildPlan (rs_V4 state) v4 FamilyV4 in
  let planV6 := buildPlan (rs_V6 state) v6 FamilyV6 in
  io_wrap "apply v4" (ip_applyFamily policy planV4);;
  io_wrap "apply v6" (ip_applyFamily policy planV6);;
  now ← Now;
  savePolicyState stateDir (pc_Name policy) (MkState BackendIProute2 now v4 v6).

Definition ip_DryRunPolicy := dryRun.

(** The loops over the recorded prefixes have empty bodies. *)
Definition ip_RollbackPolicy (stateDir policyName : string) : IO unit :=
  _ ← loadPolicyState stateDir policyName; mret tt.

Definition ip_SnapshotPolicy := load_or_zero.

(** ** [nftPolicyRouter] *)

Definition nft_Caps (policy : PolicyConfig) : IO unit :=
  io_wrap ("nftables cap check failed for table " +:+ pc_NFTTable policy)
    (Run ["nft"; "list"; "table"; pc_NFTTable policy]%string).

Definition nft_applySet (table set : string) (plan : Plan) : IO unit :=
  io_wrap ("flush set " +:+ set) (Run (nft_flush table set));;
  if Nat.ltb 0 (length (pl_Add plan))
  then io_wrap ("add elements to " +:+ set) (Run (nft_add table set (pl_Add plan)))
  else mret tt.

Definition nft_ApplyPolicy (stateDir : string) (policy : PolicyConfig) (v4 v6 : list Prefix) : IO unit :=
  state ← load_or_zero stateDir (pc_Name policy);
  let planV4 := buildPlan (rs_V4 state) v4 FamilyV4 in
  let planV6 := buildPlan (rs_V6 state) v6 FamilyV6 in
  io_wrap "apply v4 set" (nft_applySet (pc_NFTTable policy) (pc_NFTSetV4 policy) planV4);;
  io_wrap "apply v6 set" (nft_applySet (pc_NFTTable policy) (pc_NFTSetV6 policy) planV6);;
  now ← Now;
  savePolicyState stateDir (pc_Name policy) (MkState BackendNFTables now v4 v6).

Definition nft_DryRunPolicy := dryRun.

Definition nft_RollbackPolicy (stateDir policyName : string) : IO unit :=
  _ ← loadPolicyState stateDir policyName; mret tt.

Definition nft_SnapshotPolicy := load_or_zero.

(** ** [Validator] *)

(** The health map of the layer 2 checks. *)
Definition Validator : Type := gmap RoutingBackend bool.
Definition NewValidator : Validator := ∅.

Definition IsHealthy (v : Validator) (backend : RoutingBackend) : bool :=
  match v !! backend with Some healthy => healthy | None => true end.

Definition validate_with (bin : string) (backend : RoutingBackend) (probe : list string)
    (v : Validator) : IO (Validator * option error) :=
  r ← io_try (LookPath bin);
  match r with
  | Err e => mret (<[backend := false]> v, Some (ErrWrap "binary not found in PATH" e))
  | Ok _ =>
      r ← io_try (Run probe);
      match r with
      | Err e => mret (<[backend := false]> v, Some (ErrWrap "kernel subsystem unresponsive" e))
      | Ok _ => mret (<[backend := true]> v, None)
      end
  end.

Definition validateNftables := validate_with "nft" BackendNFTables ["nft"; "list"; "tables"]%string.
Definition validateIProute2 := validate_with "ip" BackendIProute2 ["ip"; "route"; "show"]%string.

Definition validateBackend (v : Validator) (backend : RoutingBackend) : IO (Validator * option error) :=
  if String.eqb backend BackendNFTables then validateNftables v
  else if String.eqb backend BackendIProute2 then validateIProute2 v
  else mret (v, Some (ErrNew ("unsupported backend: " +:+ backend))).

(** The loop over [needed], in the order the map is iterated. *)
Fixpoint validate_loop (backends : list RoutingBackend) (v : Validator) (firstErr : option error)
    : IO (Validator * option error) :=
  match backends with
  | [] => mret (v, firstErr)
  | b :: bs =>
      '(v, err) ← validateBackend v b;
      validate_loop bs v (match firstErr with None => err | Some _ => firstErr end)
  end.

Definition needed_backends (policies : list PolicyConfig) : gset RoutingBackend :=
  list_to_set (pc_Backend <$> List.filter pc_Enabled policies).

Definition ValidateBackends (order : gset RoutingBackend -> list RoutingBackend) (v : Validator)
    (policies : list PolicyConfig) : IO (Validator * option error) :=
  let needed := needed_backends policies in
  if Nat.eqb (size needed) 0 then mret (v, None)
  else validate_loop (order needed) v None.

(** ** [CompositeRouter] *)

Record CompositeRouter := MkComposite {
  cr_iproute2 : string;   (* the state directory of each backend router *)
  cr_nftables : string;
  cr_stateDir : string;
  cr_validator : option Validator }.

Definition NewCompositeRouter (cfg : RoutingConfig) : CompositeRouter :=
  MkComposite (ro_StateDir cfg) (ro_StateDir cfg) (ro_StateDir cfg) None.

Definition SetValidator (c : CompositeRouter) (v : Validator) : CompositeRouter :=
  MkComposite (cr_iproute2 c) (cr_nftables c) (cr_stateDir c) (Some v).

Definition unsupported (b : RoutingBackend) : error := ErrNew ("unsupported backend: " +:+ b).

Definition Caps (c : CompositeRouter) (policy : PolicyConfig) : IO unit :=
  if String.eqb (pc_Backend policy) BackendIProute2 then ip_Caps policy
  else if String.eqb (pc_Backend policy) BackendNFTables then
    r ← io_try (nft_Caps policy);
    match r with
    | Ok _ => mret tt
    | Err e =>
        match cr_validator c with
        | Some v => if IsHealthy v BackendNFTables then mret tt else io_err e
        | None => io_err e
        end
    end
  else io_err (unsupported (pc_Backend policy)).

Definition ApplyPolicy (c : CompositeRouter) (policy : PolicyConfig) (v4 v6 : list Prefix) : IO unit :=
  if String.eqb (pc_Backend policy) BackendIProute2 then ip_ApplyPolicy (cr_iproute2 c) policy v4 v6
  else if String.eqb (pc_Backend policy) BackendNFTables then nft_ApplyPolicy (cr_nftables c) policy v4 v6
  else io_err (unsupported (pc_Backend policy)).

Definition DryRunPolicy (c : CompositeRouter) (policy : PolicyConfig) (v4 v6 : list Prefix)
    : IO DryRunResult :=
  if String.eqb (pc_Backend policy) BackendIProute2 then ip_DryRunPolicy (cr_iproute2 c) policy v4 v6
  else if String.eqb (pc_Backend policy) BackendNFTables then nft_DryRunPolicy (cr_nftables c) policy v4 v6
  else io_err (unsupported (pc_Backend policy)).

Definition RollbackPolicy (c : CompositeRouter) (policyName : string) : IO unit :=
  state ← loadPolicyState (cr_stateDir c) policyName;
  if String.eqb (rs_Backend state) BackendIProute2 then ip_RollbackPolicy (cr_iproute2 c) policyName
  else if String.eqb (rs_Backend state) BackendNFTables then nft_RollbackPolicy (cr_nftables c) policyName
  else io_err (ErrNew ("unknown backend in state: " +:+ rs_Backend state)).

Definition SnapshotPolicy (c : CompositeRouter) (policyName : string) : IO RouterState :=
  load_or_zero (cr_stateDir c) policyName.
End Routing.
