(* ===== verification/RoutingSpec.v ===== *)
(** * What the policy routers guarantee

  The state file is replaced atomically and only after every kernel command
  succeeded; the iproute2 backend installs exactly the desired prefixes next to
  what it does not own; dry runs change nothing; and what the nftables backend
  and the rollbacks do instead of what their documents say. *)

From S2P Require Import Prelude GoLib Os Netip NetipText Config Plan Routing.

Local Open Scope Z_scope.

Section State.
Context {K : Type} `{Env K} `{StateCodec}.

(** ** The state file *)

Lemma tmp_neq (p : string) : p +:+ ".tmp" <> p.
Proof.
  intros E. apply (f_equal String.length) in E. rewrite str_length_app in E. cbn in E. lia.
Qed.

Lemma saveState_touches path s : touches {[path; path +:+ ".tmp"]} (saveState path s : IO K unit).
Proof.
  unfold saveState. destruct (String.eqb path ""); [apply touches_err|].
  apply touches_bind; [apply touches_wrap, touches_syscall|]. intros _.
  apply touches_bind.
  { eapply touches_wrap, touches_mono; [apply touches_WriteFile|set_solver]. }
  intros _. apply touches_bind.
  { eapply touches_try, touches_mono; [apply touches_Rename|set_solver]. }
  intros [_|e]; [apply touches_ret|].
  apply touches_bind; [|intros _; apply touches_err].
  eapply touches_try, touches_mono; [apply touches_Remove|set_solver].
Qed.

Lemma WriteFile_other path data q (w : World K) r w' :
  WriteFile path data w = (r, w') -> q <> path -> w_files w' !! q = w_files w !! q.
Proof. intros E Hq. eapply touches_WriteFile; [done|set_solver]. Qed.

Lemma saveState_cases path s (w : World K) r w' :
  saveState path s w = (r, w') ->
  match r with
  | Ok _ => w_files w' !! path = Some (marshal_state s)
  | Err _ => w_files w' !! path = w_files w !! path
  end.
Proof.
  unfold saveState. destruct (String.eqb path ""); [by intros [= <- <-]|].
  intros [(? & w1 & E1 & E)|(e & E1 & ->)]%io_bind_any.
  2:{ assert (touches ∅ (io_wrap "routing: mkdir state dir" (MkdirAll path) : IO K unit)) as Ht
        by apply touches_wrap, touches_syscall.
      apply (Ht _ _ _ E1). set_solver. }
  apply io_wrap_ok in E1. assert (w_files w1 = w_files w) as Hw1
    by (unfold MkdirAll, syscall in E1; by injection E1 as _ <-).
  apply io_bind_any in E as [(? & w2 & E2 & E)|(e & E2 & ->)].
  2:{ rewrite <- Hw1. unfold io_wrap in E2.
      destruct (WriteFile _ _ w1) as [[?|?] ?] eqn:E3; [done|injection E2 as _ <-].
      eapply WriteFile_other; [done|]. intros Heq. by apply (tmp_neq path). }
  apply io_wrap_ok in E2.
  assert (w_files w2 !! (path +:+ ".tmp") = Some (marshal_state s)
          /\ w_files w2 !! path = w_files w !! path) as [Ht Hp].
  { unfold WriteFile in E2. destruct (fault (w_calls w1)); [done|]. injection E2 as _ <-.
    rewrite !lookup_set_file, <- Hw1. rewrite decide_True by done.
    rewrite decide_False by (apply tmp_neq). done. }
  apply io_bind_any in E as [(rr & w3 & E3 & E)|(e & E3 & ->)].
  2:{ unfold io_try in E3. by destruct (Rename _ _ w2). }
  apply io_try_ok in E3. pose proof (Rename_cases _ _ _ _ _ E3 (tmp_neq path)) as Hr.
  destruct rr as [u|e].
  - injection E as <- <-. by rewrite Hr.
  - apply io_bind_any in E as [(? & w4 & E4 & [= <- <-])|(e' & E4 & ->)].
    + apply io_try_ok in E4. rewrite <- Hp, <- Hr.
      eapply touches_Remove; [done|]. intros Heq%elem_of_singleton. by apply (tmp_neq path).
    + unfold io_try in E4. by destruct (Remove _ w3).
Qed.

Lemma saveState_files_only path s : files_only (saveState path s : IO K unit).
Proof.
  unfold saveState. destruct (String.eqb path ""); [auto with d2ip|].
  apply files_only_bind; [apply files_only_wrap, files_only_syscall|]. intros ?.
  apply files_only_bind; [auto with d2ip|]. intros ?.
  apply files_only_bind; [auto with d2ip|]. intros [?|?]; auto with d2ip.
Qed.

(** Saving a state is atomic whatever system call fails and whatever a torn
    write leaves: on success the file is exactly the encoding of the new state,
    on failure the previous content is intact, and no file other than it and
    its temporary sibling is touched. *)
Theorem saveState_atomic path s (w : World K) r w' :
  saveState path s w = (r, w') ->
  match r with
  | Ok _ => w_files w' !! path = Some (marshal_state s)
  | Err _ => w_files w' !! path = w_files w !! path
  end
  /\ w_kern w' = w_kern w
  /\ forall p, p <> path -> p <> (path +:+ ".tmp") -> w_files w' !! p = w_files w !! p.
Proof.
  intros E. split; [by eapply saveState_cases|]. split.
  - by eapply saveState_files_only.
  - intros p Hp1 Hp2. eapply saveState_touches; [done|set_solver].
Qed.

(** ** Loading *)

Lemma loadState_files path : touches ∅ (loadState path : IO K RouterState).
Proof.
  unfold loadState. apply touches_bind; [auto with d2ip|]. intros [b|e].
  - destruct (unmarshal_state b); auto with d2ip.
  - destruct (errors_Is _ _); auto with d2ip.
Qed.

Lemma loadState_files_only path : files_only (loadState path : IO K RouterState).
Proof.
  unfold loadState. apply files_only_bind; [auto with d2ip|]. intros [b|e].
  - destruct (unmarshal_state b); auto with d2ip.
  - destruct (errors_Is _ _); auto with d2ip.
Qed.

(** What the state file of a policy records. *)
Definition recorded (stateDir name : string) (w : World K) : RouterState :=
  match w_files w !! policyStatePath stateDir name with
  | Some b => default zeroState (unmarshal_state b)
  | None => zeroState
  end.

Lemma load_or_zero_spec dir name (w : World K) :
  exists s w', load_or_zero dir name w = (Ok s, w') /\ w_files w' = w_files w /\ w_kern w' = w_kern w
    /\ (fault (w_calls w) = None -> s = recorded dir name w).
Proof.
  unfold load_or_zero, loadPolicyState, mbind, io_bind, io_try, mret, io_ret.
  destruct (loadState _ w) as [r w'] eqn:E.
  exists (match r with Ok s => s | Err _ => zeroState end), w'. split; [done|]. split_and!.
  - apply map_eq. intros p. by apply (loadState_files _ _ _ _ E).
  - by apply (loadState_files_only _ _ _ _ E).
  - intros Hf. revert E. unfold loadState, mbind, io_bind, io_try. rewrite ReadFile_nofault by done.
    unfold recorded. destruct (w_files w !! _) as [b|]; cbn.
    + destruct (unmarshal_state b); by intros [= <- <-].
    + by intros [= <- <-].
Qed.

Lemma savePolicyState_ok dir name s (w : World K) u w' :
  savePolicyState dir name s w = (Ok u, w') ->
  w_files w' !! policyStatePath dir name = Some (marshal_state s) /\ w_kern w' = w_kern w.
Proof.
  unfold savePolicyState. intros (? & w1 & E1 & E)%io_bind_ok. apply io_wrap_ok in E1.
  assert (w_kern w1 = w_kern w) as <- by (unfold MkdirAll, syscall in E1; by injection E1 as _ <-).
  split; [by apply saveState_cases in E|by apply saveState_files_only in E].
Qed.

Lemma savePolicyState_err dir name s (w : World K) e w' :
  savePolicyState dir name s w = (Err e, w') ->
  w_files w' !! policyStatePath dir name = w_files w !! policyStatePath dir name.
Proof.
  unfold savePolicyState. intros [(? & w1 & E1 & E)|(? & E & _)]%io_bind_any.
  - apply io_wrap_ok in E1. apply saveState_cases in E. rewrite E.
    unfold MkdirAll, syscall in E1. by injection E1 as _ <-.
  - assert (touches ∅ (io_wrap "mkdir state dir" (MkdirAll dir) : IO K unit)) as Ht
      by apply touches_wrap, touches_syscall.
    apply (Ht _ _ _ E). set_solver.
Qed.

(** A saved state is what the next fault-free load reads. *)
Lemma recorded_saved dir name s (w : World K) u w' :
  state_wf s -> savePolicyState dir name s w = (Ok u, w') -> recorded dir name w' = s.
Proof.
  intros Hs [E _]%savePolicyState_ok. unfold recorded. by rewrite E, unmarshal_marshal.
Qed.

(** ** Dry runs and rollbacks *)

(** A dry run changes neither the kernel nor any file, and shows the plan
    that [ApplyPolicy] would execute from the recorded state. *)
Theorem DryRunPolicy_pure c policy v4 v6 (w : World K) r w' :
  DryRunPolicy c policy v4 v6 w = (r, w') ->
  w_files w' = w_files w /\ w_kern w' = w_kern w
  /\ (pc_Backend policy ∈ [BackendIProute2; BackendNFTables] -> fault (w_calls w) = None ->
      let dir := if String.eqb (pc_Backend policy) BackendIProute2 then cr_iproute2 c else cr_nftables c in
      let s := recorded dir (pc_Name policy) w in
      let p4 := buildPlan (rs_V4 s) v4 FamilyV4 in
      let p6 := buildPlan (rs_V6 s) v6 FamilyV6 in
      r = Ok (p4, p6, diffString p4, diffString p6)).
Proof.
  assert (forall dir, exists s w1, dryRun dir policy v4 v6 w
            = (Ok (buildPlan (rs_V4 s) v4 FamilyV4, buildPlan (rs_V6 s) v6 FamilyV6,
                   diffString (buildPlan (rs_V4 s) v4 FamilyV4),
                   diffString (buildPlan (rs_V6 s) v6 FamilyV6)), w1)
            /\ w_files w1 = w_files w /\ w_kern w1 = w_kern w
            /\ (fault (w_calls w) = None -> s = recorded dir (pc_Name policy) w)) as Hd.
  { intros dir. destruct (load_or_zero_spec dir (pc_Name policy) w) as (s & w1 & E & Hf & Hk & Hs).
    exists s, w1. split; [|done]. unfold dryRun, mbind, io_bind. rewrite E. done. }
  unfold DryRunPolicy.
  destruct (String.eqb_spec (pc_Backend policy) BackendIProute2) as [Hb|Hb].
  { unfold ip_DryRunPolicy. destruct (Hd (cr_iproute2 c)) as (s & w1 & -> & Hf & Hk & Hs).
    intros [= <- <-]. split_and!; [done|done|]. intros _ Hnf. cbv zeta. by rewrite <- Hs. }
  destruct (String.eqb_spec (pc_Backend policy) BackendNFTables) as [Hn|Hn].
  - unfold nft_DryRunPolicy. destruct (Hd (cr_nftables c)) as (s & w1 & -> & Hf & Hk & Hs).
    intros [= <- <-]. split_and!; [done|done|]. intros _ Hnf. cbv zeta. by rewrite <- Hs.
  - intros [= <- <-]. split_and!; [done|done|]. set_solver.
Qed.

(** [RollbackPolicy] rolls nothing back: whatever the state records, no route
    or set entry is removed and the state file stays, also when it reports
    success. *)
Theorem RollbackPolicy_noop c name (w : World K) r w' :
  RollbackPolicy c name w = (r, w') -> w_files w' = w_files w /\ w_kern w' = w_kern w.
Proof.
  assert (touches ∅ (RollbackPolicy c name : IO K unit)) as Ht.
  { unfold RollbackPolicy, ip_RollbackPolicy, nft_RollbackPolicy, loadPolicyState.
    apply touches_bind; [apply loadState_files|]. intros s.
    destruct (String.eqb _ _); [|destruct (String.eqb _ _)]; auto using loadState_files with d2ip. }
  assert (files_only (RollbackPolicy c name : IO K unit)) as Hk.
  { unfold RollbackPolicy, ip_RollbackPolicy, nft_RollbackPolicy, loadPolicyState.
    apply files_only_bind; [apply loadState_files_only|]. intros s.
    destruct (String.eqb _ _); [|destruct (String.eqb _ _)]; auto using loadState_files_only with d2ip. }
  intros E. split; [|by eapply Hk]. apply map_eq. intros p. by apply (Ht _ _ _ E).
Qed.
End State.

(** ** The iproute2 backend *)

Section IProute2.
Context {K : Type} `{Env K} `{StateCodec} `{!IPRouteKernel K}.
Implicit Types (w : World K).

Lemma ip_del_all_spec t l w r w' :
  Forall prefix_wf l -> ip_del_all t l w = (r, w') ->
  w_files w' = w_files w
  /\ (forall t', t' <> t -> routes (w_kern w') t' = routes (w_kern w) t')
  /\ (r = Ok tt -> routes (w_kern w') t = routes (w_kern w) t ∖ list_to_set l).
Proof.
  intros Hl. revert w. induction Hl as [|p l Hp Hl IH]; intros w; cbn [ip_del_all].
  { intros [= <- <-]. split_and!; try done. intros _. cbn. set_solver. }
  intros [(? & w1 & E1 & E)|(e & E1 & ->)]%io_bind_any.
  - apply io_wrap_ok, Run_spec in E1 as (e & out & err & k' & Ex & -> & Er).
    pose proof (ip_del_law p t _ _ _ _ _ Hp Ex) as Hlaw. destruct e; [done|].
    destruct Hlaw as [Hin Hlaw]. apply IH in E as (Hf & Ho & Hok). cbn in *. split_and!; [done|..].
    + intros t' Ht. rewrite Ho, Hlaw by done. by rewrite decide_False.
    + intros Hr. rewrite Hok, Hlaw, decide_True by done. set_solver.
  - unfold io_wrap in E1. destruct (Run _ w) as [rr w1] eqn:E2.
    apply Run_spec in E2 as (e2 & out & err & k' & Ex & -> & Er). subst rr.
    pose proof (ip_del_law p t _ _ _ _ _ Hp Ex) as Hlaw. destruct e2; [|done].
    injection E1 as <- <-. cbn. split_and!; done.
Qed.

Lemma ip_add_all_spec iface t l w r w' :
  Forall prefix_wf l -> ip_add_all iface t l w = (r, w') ->
  w_files w' = w_files w
  /\ (forall t', t' <> t -> routes (w_kern w') t' = routes (w_kern w) t')
  /\ (r = Ok tt -> routes (w_kern w') t = list_to_set l ∪ routes (w_kern w) t).
Proof.
  intros Hl. revert w. induction Hl as [|p l Hp Hl IH]; intros w; cbn [ip_add_all].
  { intros [= <- <-]. split_and!; try done. intros _. cbn. set_solver. }
  intros [(? & w1 & E1 & E)|(e & E1 & ->)]%io_bind_any.
  - apply io_wrap_ok, Run_spec in E1 as (e & out & err & k' & Ex & -> & Er).
    pose proof (ip_add_law p iface t _ _ _ _ _ Hp Ex) as Hlaw. destruct e; [done|].
    destruct Hlaw as [Hin Hlaw]. apply IH in E as (Hf & Ho & Hok). cbn in *. split_and!; [done|..].
    + intros t' Ht. rewrite Ho, Hlaw by done. by rewrite decide_False.
    + intros Hr. rewrite Hok, Hlaw, decide_True by done. set_solver.
  - unfold io_wrap in E1. destruct (Run _ w) as [rr w1] eqn:E2.
    apply Run_spec in E2 as (e2 & out & err & k' & Ex & -> & Er). subst rr.
    pose proof (ip_add_law p iface t _ _ _ _ _ Hp Ex) as Hlaw. destruct e2; [|done].
    injection E1 as <- <-. cbn. split_and!; done.
Qed.

Lemma plan_wf current desired f :
  Forall prefix_wf current -> Forall prefix_wf desired ->
  Forall prefix_wf (pl_Add (buildPlan current desired f))
  /\ Forall prefix_wf (pl_Remove (buildPlan current desired f)).
Proof.
  rewrite !Forall_forall. intros Hc Hd. unfold buildPlan; cbn [pl_Add pl_Remove].
  split; intros p; rewrite elem_of_List_filter; naive_solver.
Qed.

Lemma ip_applyFamily_spec policy current desired f w r w' :
  Forall prefix_wf current -> Forall prefix_wf desired ->
  ip_applyFamily policy (buildPlan current desired f) w = (r, w') ->
  w_files w' = w_files w
  /\ (forall t', t' <> pc_TableID policy -> routes (w_kern w') t' = routes (w_kern w) t')
  /\ (r = Ok tt -> forall p, p ∈ routes (w_kern w') (pc_TableID policy) <->
        (p ∈ desired /\ p ∉ current)
        \/ (p ∈ routes (w_kern w) (pc_TableID policy) /\ ~ (p ∈ current /\ p ∉ desired))).
Proof.
  intros Hc Hd. destruct (plan_wf current desired f Hc Hd) as [Ha Hr]. rewrite buildPlan_wf in * by done.
  unfold ip_applyFamily. cbn [pl_Add pl_Remove] in *.
  intros [([] & w1 & E1 & E)|(e & E & ->)]%io_bind_any.
  - apply ip_del_all_spec in E1 as (Hf1 & Ho1 & Hok1); [|done].
    apply ip_add_all_spec in E as (Hf & Ho & Hok); [|done]. split_and!; [congruence|..].
    + intros t' Ht. by rewrite Ho, Ho1.
    + intros Hr' p. rewrite Hok, Hok1 by done.
      rewrite elem_of_union, elem_of_difference, !elem_of_list_to_set, !elem_of_List_filter,
        !negb_true_iff, !bool_decide_eq_false. done.
  - apply ip_del_all_spec in E as (Hf & Ho & _); [|done]. split_and!; done.
Qed.

Definition fam4 (l : list Prefix) : Prop := Forall (fun p => prefix_wf p /\ Is4 (PAddr p) = true) l.
Definition fam6 (l : list Prefix) : Prop := Forall (fun p => prefix_wf p /\ Is4 (PAddr p) = false) l.

Lemma fam_disjoint l4 l6 p : fam4 l4 -> fam6 l6 -> p ∈ l4 -> p ∈ l6 -> False.
Proof. unfold fam4, fam6. rewrite !Forall_forall. intros H4 H6 [_ Ha]%H4 [_ Hb]%H6. congruence. Qed.

Lemma fam4_wf l : fam4 l -> Forall prefix_wf l.
Proof. intros Hl. eapply Forall_impl; [exact Hl|]. by intros ? []. Qed.
Lemma fam6_wf l : fam6 l -> Forall prefix_wf l.
Proof. intros Hl. eapply Forall_impl; [exact Hl|]. by intros ? []. Qed.


(** Whatever an iproute2 apply returns, it leaves every other table alone,
    and when it fails the state file still records what it recorded. *)
Theorem iproute2_apply_failure dir policy v4 v6 w r w' :
  let old := recorded dir (pc_Name policy) w in
  fam4 v4 -> fam6 v6 -> fam4 (rs_V4 old) -> fam6 (rs_V6 old) ->
  fault (w_calls w) = None ->
  ip_ApplyPolicy dir policy v4 v6 w = (r, w') ->
  (forall t', t' <> pc_TableID policy -> routes (w_kern w') t' = routes (w_kern w) t')
  /\ (r <> Ok tt -> recorded dir (pc_Name policy) w' = old).
Proof.
  cbv zeta. set (old := recorded _ _ w). intros H4 H6 Ho4 Ho6 Hnf.
  destruct (load_or_zero_spec dir (pc_Name policy) w) as (s & w1 & E1 & Hf1 & Hk1 & Hs).
  specialize (Hs Hnf). subst s. fold old in E1.
  assert (forall w2, w_files w2 = w_files w -> recorded dir (pc_Name policy) w2 = old) as Hrec
    by (intros w2 Hw2; unfold recorded; by rewrite Hw2).
  unfold ip_ApplyPolicy. intros [(s & w1' & E1' & E)|(e & E1' & ->)]%io_bind_any;
    rewrite E1 in E1'; [injection E1' as <- <-|done].
  destruct (ip_applyFamily policy (buildPlan (rs_V4 old) v4 FamilyV4) w1) as [r2 w2] eqn:E2.
  pose proof (ip_applyFamily_spec _ _ _ _ _ _ _ (fam4_wf _ Ho4) (fam4_wf _ H4) E2) as (Hf2 & Ht2 & _).
  apply io_bind_any in E as [(u & w2' & E2' & E)|(e & E2' & ->)];
    unfold io_wrap in E2'; rewrite E2 in E2'; destruct r2; try done; injection E2' as <- <-;
    [|split; [by intros; rewrite Ht2, Hk1|by rewrite Hrec by congruence]].
  destruct (ip_applyFamily policy (buildPlan (rs_V6 old) v6 FamilyV6) w2) as [r3 w3] eqn:E3.
  pose proof (ip_applyFamily_spec _ _ _ _ _ _ _ (fam6_wf _ Ho6) (fam6_wf _ H6) E3) as (Hf3 & Ht3 & _).
  apply io_bind_any in E as [(u' & w3' & E3' & E)|(e & E3' & ->)];
    unfold io_wrap in E3'; rewrite E3 in E3'; destruct r3; try done; injection E3' as <- <-;
    [|split; [by intros; rewrite Ht3, Ht2, Hk1|by rewrite Hrec by congruence]].
  apply io_bind_any in E as [(now & w4 & E4 & E)|(e & E4 & ->)]; unfold Now in E4; [|done].
  injection E4 as _ <-. split.
  - intros t' Ht. unfold savePolicyState in E. assert (w_kern w' = w_kern w3) as ->; [|by rewrite Ht3, Ht2, Hk1].
    assert (files_only (savePolicyState dir (pc_Name policy) (MkState BackendIProute2 now v4 v6) : IO K unit))
      as Hfo; [|by apply (Hfo _ _ _ E)].
    apply files_only_bind; [apply files_only_wrap, files_only_syscall|]. intros _. apply saveState_files_only.
  - intros Hr. destruct r as [[]|e]; [done|]. apply savePolicyState_err in E.
    unfold old, recorded. rewrite E. cbn. by rewrite Hf3, Hf2, Hf1.
Qed.
End IProute2.

(** ** The nftables backend *)

Section NFTables.
Context {K : Type} `{Env K} `{StateCodec} `{!NFTKernel K}.
Implicit Types (w : World K).

Lemma nft_applySet_spec table set plan w u w' :
  Forall prefix_wf (pl_Add plan) -> nft_applySet table set plan w = (Ok u, w') ->
  w_files w' = w_files w
  /\ forall t s, nft_set (w_kern w') t s =
       if decide ((t, s) = (table, set)) then list_to_set (pl_Add plan) else nft_set (w_kern w) t s.
Proof.
  intros Hwf. unfold nft_applySet. intros (? & w1 & E1 & E)%io_bind_ok.
  apply io_wrap_ok, Run_spec in E1 as ([e|] & out & err & k' & Ex & -> & Er); [done|].
  pose proof (nft_flush_law table set _ _ _ _ _ Ex) as Hfl.
  destruct (Nat.ltb_spec 0 (length (pl_Add plan))) as [Hl|Hl].
  - apply io_wrap_ok, Run_spec in E as ([e|] & out2 & err2 & k2 & Ex2 & -> & Er2); [done|].
    pose proof (nft_add_law table set _ _ _ _ _ _ Hwf Ex2) as Had. cbn in *. split; [done|].
    intros t s. rewrite Had. destruct (decide ((t, s) = (table, set))) as [Heq|Hne].
    + rewrite decide_True by done. injection Heq as -> ->. rewrite Hfl, decide_True by done. set_solver.
    + rewrite decide_False by naive_solver. rewrite Hfl, decide_False by naive_solver. done.
  - injection E as <- <-. cbn in *. split; [done|]. intros t s. rewrite Hfl.
    destruct (pl_Add plan); [|cbn in Hl; lia].
    destruct (decide ((t, s) = (table, set))); [by rewrite decide_True|rewrite decide_False by naive_solver].
    done.
Qed.

Lemma nft_ApplyPolicy_sets dir policy v4 v6 w u w' :
  let old := recorded dir (pc_Name policy) w in
  Forall prefix_wf v4 -> Forall prefix_wf v6 -> state_wf old -> fault (w_calls w) = None ->
  pc_NFTSetV4 policy <> pc_NFTSetV6 policy ->
  nft_ApplyPolicy dir policy v4 v6 w = (Ok u, w') ->
  (forall p, p ∈ nft_set (w_kern w') (pc_NFTTable policy) (pc_NFTSetV4 policy)
     <-> p ∈ v4 /\ p ∉ rs_V4 old)
  /\ (forall p, p ∈ nft_set (w_kern w') (pc_NFTTable policy) (pc_NFTSetV6 policy)
     <-> p ∈ v6 /\ p ∉ rs_V6 old)
  /\ rs_V4 (recorded dir (pc_Name policy) w') = v4 /\ rs_V6 (recorded dir (pc_Name policy) w') = v6.
Proof.
  cbv zeta. set (old := recorded _ _ w). intros H4 H6 [Ho4 Ho6] Hnf Hne.
  unfold nft_ApplyPolicy. intros (s & w1 & E1 & E)%io_bind_ok.
  destruct (load_or_zero_spec dir (pc_Name policy) w) as (s' & w1' & E1' & Hf1 & Hk1 & Hs).
  rewrite E1' in E1. injection E1 as -> ->. specialize (Hs Hnf). subst s.
  apply io_bind_ok in E as ([] & w2 & E2 & E). apply io_wrap_ok in E2.
  apply io_bind_ok in E as ([] & w3 & E3 & E). apply io_wrap_ok in E3.
  apply io_bind_ok in E as (now & w4 & E4 & E). unfold Now in E4. injection E4 as _ <-.
  apply nft_applySet_spec in E2 as (Hf2 & Hs2); [|by apply plan_wf].
  apply nft_applySet_spec in E3 as (Hf3 & Hs3); [|by apply plan_wf].
  assert (state_wf (MkState BackendNFTables now v4 v6)) as Hwf by by split.
  rewrite (recorded_saved _ _ _ _ _ _ Hwf E).
  apply savePolicyState_ok in E as [_ Hk]. cbn in Hk. rewrite Hk. rewrite !buildPlan_wf in * by done.
  cbn [pl_Add] in *. fold old. split_and!; [| |done|done]; intros p; rewrite Hs3.
  - rewrite decide_False by naive_solver. rewrite Hs2, decide_True by done.
    rewrite elem_of_list_to_set, elem_of_List_filter, negb_true_iff, bool_decide_eq_false. done.
  - rewrite decide_True by done.
    rewrite elem_of_list_to_set, elem_of_List_filter, negb_true_iff, bool_decide_eq_false. done.
Qed.

End NFTables.
