(* ===== verification/Machine.v ===== *)
(** * A machine to run the program on

  Concrete instances of the interfaces: a codec of router states, and an
  environment without faults whose kernel interprets the [ip] and [nft] commands
  of the routers.  They show that the hypotheses of the routing theorems can be
  met, and run the handlers on small inputs. *)

From S2P Require Import Prelude GoLib Os Netip NetipText Config Plan Routing RoutingSpec.

Local Open Scope Z_scope.

(** ** A codec *)

Fixpoint string_of_pos (p : positive) : string :=
  match p with
  | xH => ""
  | xO p' => String "0" (string_of_pos p')
  | xI p' => String "1" (string_of_pos p')
  end.

Fixpoint pos_of_string (s : string) : positive :=
  match s with
  | EmptyString => xH
  | String c s' => if Ascii.eqb c "0" then xO (pos_of_string s') else xI (pos_of_string s')
  end.

Lemma pos_of_string_of_pos p : pos_of_string (string_of_pos p) = p.
Proof. induction p as [p IH|p IH|]; cbn; [by rewrite IH..|done]. Qed.

Definition pack (s : RouterState) : string * Z * list Prefix * list Prefix :=
  (rs_Backend s, rs_AppliedAt s, rs_V4 s, rs_V6 s).
Definition unpack (t : string * Z * list Prefix * list Prefix) : RouterState :=
  let '(b, a, v4, v6) := t in MkState b a v4 v6.

#[export, refine] Instance binary_codec : StateCodec := {|
  marshal_state s := string_of_pos (encode (pack s));
  unmarshal_state b := unpack <$> decode (pos_of_string b);
  unmarshal_marshal := _
|}.
Proof. intros s _. rewrite pos_of_string_of_pos, decode_encode. by destruct s. Defined.

(** ** A kernel *)

Record Kernel := MkKernel {
  k_routes : gmap string (gset Prefix);
  k_sets : gmap (string * string) (gset Prefix) }.

Definition table_of (k : Kernel) (t : string) : gset Prefix := default ∅ (k_routes k !! t).
Definition set_of (k : Kernel) (t s : string) : gset Prefix := default ∅ (k_sets k !! (t, s)).
Definition with_table (k : Kernel) (t : string) (X : gset Prefix) : Kernel :=
  MkKernel (<[t := X]> (k_routes k)) (k_sets k).
Definition with_set (k : Kernel) (t s : string) (X : gset Prefix) : Kernel :=
  MkKernel (k_routes k) (<[(t, s) := X]> (k_sets k)).

Definition outcome : Type := option string * string * string * Kernel.
Definition success (k : Kernel) : outcome := (None, "", "", k)%string.
Definition failure (msg : string) (k : Kernel) : outcome := (Some "exit status 1", "", msg, k)%string.

Definition interp (argv : list string) (stdin : string) (k : Kernel) : outcome :=
  match argv with
  | [a1; a2; a3; p; a5; _; a7; t] =>
      if bool_decide ([a1; a2; a3; a5; a7] = ["ip"; "route"; "add"; "dev"; "table"]%string) then
        match ParsePrefix p with
        | None => failure "invalid prefix" k
        | Some p => if bool_decide (p ∈ table_of k t) then failure "File exists" k
                    else success (with_table k t ({[p]} ∪ table_of k t))
        end
      else success k
  | [a1; a2; a3; p; a5; t] =>
      if bool_decide ([a1; a2; a3; a5] = ["ip"; "route"; "del"; "table"]%string) then
        match ParsePrefix p with
        | None => failure "invalid prefix" k
        | Some p => if bool_decide (p ∈ table_of k t)
                    then success (with_table k t (table_of k t ∖ {[p]}))
                    else failure "No such process" k
        end
      else if bool_decide ([a1; a2; a3; p] = ["nft"; "flush"; "set"; "inet"]%string)
      then success (with_set k a5 t ∅)
      else success k
  | a1 :: a2 :: a3 :: a4 :: table :: set :: ps => success k
  | _ => success k
  end.

(** [nft add element]; any number of elements. *)
Definition interp_nft (argv : list string) (stdin : string) (k : Kernel) : outcome :=
  if bool_decide (take 4 argv = ["nft"; "add"; "element"; "inet"]%string) then
    match drop 4 argv with
    | table :: set :: ps =>
        match mapM ParsePrefix ps with
        | Some l => success (with_set k table set (list_to_set l ∪ set_of k table set))
        | None => failure "syntax error" k
        end
    | _ => failure "syntax error" k
    end
  else interp argv stdin k.

#[export] Instance machine : Env Kernel := {|
  fault := fun _ => None;
  torn := fun _ old _ => old;
  exec := interp_nft;
  look_path := fun _ _ => true;
  clock := Z.of_nat
|}.

Lemma table_of_with k t t' X :
  table_of (with_table k t X) t' = if decide (t' = t) then X else table_of k t'.
Proof.
  unfold table_of, with_table; cbn. destruct (decide (t' = t)) as [->|Hne];
    [by rewrite lookup_insert_eq|by rewrite lookup_insert_ne].
Qed.

Lemma set_of_with k t s t' s' X :
  set_of (with_set k t s X) t' s' = if decide ((t', s') = (t, s)) then X else set_of k t' s'.
Proof.
  unfold set_of, with_set; cbn. destruct (decide ((t', s') = (t, s))) as [->|Hne];
    [by rewrite lookup_insert_eq|by rewrite lookup_insert_ne].
Qed.

#[export, refine] Instance machine_ip : IPRouteKernel Kernel := {|
  routes k t := table_of k (Itoa t);
  ip_add_law := _;
  ip_del_law := _
|}.
Proof.
  - intros p iface t k e out err k' Hp.
    change (exec (ip_add p iface t) "" k) with (interp (ip_add p iface t) "" k).
    cbn [ip_add interp]. rewrite bool_decide_true, ParsePrefix_PString by done.
    case_bool_decide as Hin; intros [= <- <- <- <-]; [done|]. split; [done|].
    intros t'. rewrite table_of_with. unfold Itoa.
    destruct (decide (t' = t)) as [->|Hne]; [by rewrite decide_True|rewrite decide_False; [done|]].
    intros Heq. apply Hne. by apply (inj pretty).
  - intros p t k e out err k' Hp.
    change (exec (ip_del p t) "" k) with (interp (ip_del p t) "" k).
    cbn [ip_del interp]. rewrite bool_decide_true, ParsePrefix_PString by done.
    case_bool_decide as Hin; intros [= <- <- <- <-]; [|done]. split; [done|].
    intros t'. rewrite table_of_with. unfold Itoa.
    destruct (decide (t' = t)) as [->|Hne]; [by rewrite decide_True|rewrite decide_False; [done|]].
    intros Heq. apply Hne. by apply (inj pretty).
Defined.

Lemma parse_texts ps : Forall prefix_wf ps -> mapM ParsePrefix (PString <$> ps) = Some ps.
Proof.
  induction 1 as [|p ps Hp Hps IH]; [done|]. cbn. rewrite ParsePrefix_PString by done. cbn.
  by rewrite IH.
Qed.

#[export, refine] Instance machine_nft : NFTKernel Kernel := {|
  nft_set := set_of;
  nft_flush_law := _;
  nft_add_law := _
|}.
Proof.
  - intros table set k e out err k'.
    change (exec (nft_flush table set) "" k) with (success (with_set k table set ∅)).
    intros [= <- <- <- <-] t s. rewrite set_of_with.
    destruct (decide ((t, s) = (table, set))); [by rewrite decide_True|].
    rewrite decide_False by naive_solver. done.
  - intros table set ps k e out err k' Hps. unfold nft_add.
    change (exec _ "" k) with
      (match mapM ParsePrefix (PString <$> ps) with
       | Some l => success (with_set k table set (list_to_set l ∪ set_of k table set))
       | None => failure "syntax error" k
       end).
    rewrite parse_texts by done. intros [= <- <- <- <-] t s. rewrite set_of_with.
    destruct (decide ((t, s) = (table, set))) as [Heq|].
    + rewrite decide_True by done. by injection Heq as -> ->.
    + rewrite decide_False by naive_solver. done.
Defined.

(** ** Runs *)

Lemma run_pair {A} (m : IO Kernel A) w r : (m w).1 = r -> m w = (r, (m w).2).
Proof. intros <-. by destruct (m w). Qed.

Definition start : World Kernel := MkWorld ∅ (MkKernel ∅ ∅) 0.

Definition demo_policy (backend : RoutingBackend) : PolicyConfig := {|
  pc_Name := "demo"; pc_Enabled := true; pc_Categories := ["geosite:x"]; pc_Backend := backend;
  pc_TableID := 100; pc_Iface := "wg0"; pc_NFTTable := "t"; pc_NFTSetV4 := "s4"; pc_NFTSetV6 := "s6";
  pc_DryRun := false; pc_ExportFormat := ""; pc_Aggregation := None |}%string.

Definition demo4 : list Prefix := [PrefixFrom (Addr4 (10 * 2 ^ 24)) 8].
Definition demo6 : list Prefix := [PrefixFrom (Addr6 (2 ^ 125) "") 3].

Ltac by_decision := by apply (bool_decide_unpack _); vm_compute.

Lemma saveState_atomic_witness :
  w_kern (saveState "/s/demo.json" zeroState start).2 = w_kern start.
Proof. by eapply (saveState_atomic "/s/demo.json" zeroState start), run_pair. Defined.

Lemma DryRunPolicy_pure_witness :
  w_kern (DryRunPolicy (MkComposite "/s" "/s" "/s" None) (demo_policy BackendIProute2) demo4 demo6 start).2
  = w_kern start.
Proof.
  by eapply (DryRunPolicy_pure (MkComposite "/s" "/s" "/s" None) (demo_policy BackendIProute2)
               demo4 demo6 start), run_pair.
Defined.

Definition applied : World Kernel := (ip_ApplyPolicy "/s" (demo_policy BackendIProute2) demo4 demo6 start).2.

Lemma RollbackPolicy_noop_witness :
  w_kern (RollbackPolicy (MkComposite "/s" "/s" "/s" None) "demo" applied).2 = w_kern applied.
Proof. by eapply (RollbackPolicy_noop (MkComposite "/s" "/s" "/s" None) "demo" applied), run_pair. Defined.


(** Deleting a recorded route that is gone fails, and the record stays. *)
Definition stale : World Kernel :=
  (savePolicyState "/s" "demo" (MkState BackendIProute2 0 demo4 []) start).2.

Lemma iproute2_apply_failure_witness :
  recorded "/s" "demo" (ip_ApplyPolicy "/s" (demo_policy BackendIProute2) [] [] stale).2
  = recorded "/s" "demo" stale.
Proof.
  eapply (iproute2_apply_failure "/s" (demo_policy BackendIProute2) [] [] stale);
    [by_decision|by_decision|by_decision|by_decision|done|by apply run_pair|].
  vm_compute. congruence.
Defined.

Definition nft1 : World Kernel := (nft_ApplyPolicy "/s" (demo_policy BackendNFTables) demo4 demo6 start).2.
Definition nft2 : World Kernel := (nft_ApplyPolicy "/s" (demo_policy BackendNFTables) demo4 demo6 nft1).2.

