(* ===== verification/Legacy.v ===== *)
(** * [internal/routing]: the single-policy routers

  [nftables.go]: [nftRouter].  [iproute2.go]: [iproute2Router].  Their state is
  a record passed through the methods; a method returns the router after the
  call and its error.  The mutex serialises whole methods. *)

From S2P Require Import Prelude GoLib Os Netip NetipText Config Plan Routing.

Local Open Scope Z_scope.

(** ** Texts of prefixes *)

(** [parsePrefixLoose] accepts a host address or a prefix. *)
Definition parsePrefixLoose (s : string) : option Prefix :=
  if StrContains s "/" then ParsePrefix s
  else a ← ParseAddr s;
       AddrPrefix a (if Is6 a then 128 else 32).

Definition joinPrefixes (ps : list Prefix) : string := Join (PString <$> ps) ", ".

Definition is_blank (c : ascii) : bool := Ascii.eqb c " " || (code c =? 9).

(** One element of the text: [None] to skip it. *)
Definition nft_token (raw : string) : option string :=
  let s := TrimSpace raw in
  if String.eqb s "" then None
  else Some (match cut_at is_blank s with Some (a, _) => a | None => s end).

Fixpoint parse_elements (raws : list string) : res error (list Prefix) :=
  match raws with
  | [] => Ok []
  | raw :: raws' =>
      match nft_token raw with
      | None => parse_elements raws'
      | Some s =>
          match parsePrefixLoose s with
          | None => Err (ErrNew ("routing/nft: parse element " +:+ s))
          | Some p => match parse_elements raws' with Ok l => Ok (p :: l) | Err e => Err e end
          end
      end
  end.

Definition parseNftSet (text : string) : res error (list Prefix) :=
  match Index text "elements" with
  | None => Ok []
  | Some i =>
      let t := str_drop i text in
      match Index t "{", Index t "}" with
      | Some open, Some close =>
          if Nat.ltb close open then Ok []
          else parse_elements (Split (String.substring (open + 1) (close - open - 1) t) ",")
      | _, _ => Ok []
      end
  end.

(** ** The JSON form *)

Record NftPrefix := { np_Addr : string; np_Len : Z }.
Record NftElem := { ne_Prefix : option NftPrefix; ne_Val : string }.
Record NftSet := { ns_Elem : option (list NftElem) }.
Record NftObject := { no_Set : option NftSet }.

(** [json.Unmarshal] into [NftJSONOutput]. *)
Class NftCodec := { unmarshal_nft : string -> option (list NftObject) }.

Definition elem_prefix (e : NftElem) : res error (option Prefix) :=
  match ne_Prefix e with
  | Some p =>
      match ParsePrefix (np_Addr p +:+ "/" +:+ Itoa (np_Len p)) with
      | Some q => Ok (Some q)
      | None => Err (ErrNew "parse prefix")
      end
  | None =>
      if String.eqb (ne_Val e) "" then Ok None
      else match parsePrefixLoose (ne_Val e) with
           | Some q => Ok (Some q)
           | None => Err (ErrNew "parse val")
           end
  end.

Fixpoint elem_prefixes (es : list NftElem) : res error (list Prefix) :=
  match es with
  | [] => Ok []
  | e :: es' =>
      match elem_prefix e, elem_prefixes es' with
      | Ok (Some p), Ok l => Ok (p :: l)
      | Ok None, Ok l => Ok l
      | Err x, _ => Err x
      | _, Err x => Err x
      end
  end.

Definition parseNftSetJSON `{NftCodec} (jsonData : string) : res error (list Prefix) :=
  match unmarshal_nft jsonData with
  | None => Err (ErrNew "unmarshal nft JSON")
  | Some objs =>
      elem_prefixes (mjoin ((fun o => match no_Set o with
                                      | Some s => default [] (ns_Elem s)
                                      | None => []
                                      end) <$> objs))
  end.

(** ** [refreshState] *)

(** The closure [apply]: the recorded list after a plan. *)
Definition refresh_list (l : list Prefix) (p : Plan) : list Prefix :=
  let set : gset Prefix := (list_to_set (dedup l) ∖ list_to_set (pl_Remove p)) ∪ list_to_set (pl_Add p) in
  sortPrefixes (elements set).

Definition refresh (s : RouterState) (backend : RoutingBackend) (now : Z) (p : Plan) : RouterState :=
  match pl_Family p with
  | FamilyV4 => MkState backend now (refresh_list (rs_V4 s) p) (rs_V6 s)
  | FamilyV6 => MkState backend now (rs_V4 s) (refresh_list (rs_V6 s) p)
  end.

Section Legacy.
Context {K : Type} `{Env K} `{StateCodec} `{NftCodec}.
Local Notation IO := (IO K).

Definition strip {A} (r : res error A) : option error := match r with Ok _ => None | Err e => Some e end.

(** ** [nftRouter] *)

Record nftRouter := MkNft { nr_cfg : PolicyConfig; nr_statePath : string; nr_state : RouterState }.

Definition with_state (r : nftRouter) (s : RouterState) : nftRouter :=
  MkNft (nr_cfg r) (nr_statePath r) s.

Definition newNFTRouter (cfg : PolicyConfig) (statePath : string) : IO nftRouter :=
  s ← io_try (loadState statePath);
  mret (MkNft cfg statePath (match s with Ok s => s | Err _ => zeroState end)).

Definition ErrNoCapability : error :=
  ErrNew "routing: missing CAP_NET_ADMIN or required binary".

Definition nr_Caps (r : nftRouter) : IO unit :=
  x ← io_try (LookPath "nft");
  match x with Ok _ => mret tt | Err _ => io_err (ErrWrap "nft not found" ErrNoCapability) end.

Definition tableArgs (r : nftRouter) : string * string :=
  match Fields (pc_NFTTable (nr_cfg r)) with
  | [a; b] => (a, b)
  | _ => ("inet", "d2ip")%string
  end.

Definition setName (r : nftRouter) (f : Family) : string :=
  match f with FamilyV6 => pc_NFTSetV6 (nr_cfg r) | FamilyV4 => pc_NFTSetV4 (nr_cfg r) end.

Definition runScript (r : nftRouter) (script : string) : IO unit :=
  if String.eqb (TrimSpace script) "" then mret tt else
  let args := if pc_DryRun (nr_cfg r) then ["-c"; "-f"; "-"]%string else ["-f"; "-"]%string in
  '(e, _, errb) ← Exec ("nft"%string :: args) script;
  match e with
  | Some m => io_err (ErrNew (TrimSpace (errb +:+ " | " +:+ m)))
  | None => mret tt
  end.

Definition ensureTable (r : nftRouter) : IO unit :=
  let '(fam, name) := tableArgs r in
  runScript r
    ("add table " +:+ fam +:+ " " +:+ name +:+ newline
     +:+ "add set " +:+ fam +:+ " " +:+ name +:+ " " +:+ pc_NFTSetV4 (nr_cfg r)
     +:+ " { type ipv4_addr; flags interval; }" +:+ newline
     +:+ "add set " +:+ fam +:+ " " +:+ name +:+ " " +:+ pc_NFTSetV6 (nr_cfg r)
     +:+ " { type ipv6_addr; flags interval; }" +:+ newline).

Definition write_elements (verb : string) (r : nftRouter) (f : Family) (prefixes : list Prefix) : string :=
  if Nat.eqb (length prefixes) 0 then "" else
  let '(fam, name) := tableArgs r in
  verb +:+ " element " +:+ fam +:+ " " +:+ name +:+ " " +:+ setName r f +:+ " { "
  +:+ joinPrefixes prefixes +:+ " }" +:+ newline.

Definition writeAdd := write_elements "add".
Definition writeRemove := write_elements "delete".

Definition buildScript (r : nftRouter) (p : Plan) : string :=
  writeRemove r (pl_Family p) (pl_Remove p) +:+ writeAdd r (pl_Family p) (pl_Add p).

Definition listSet (r : nftRouter) (f : Family) : IO (list Prefix) :=
  let '(fam, name) := tableArgs r in
  let set := setName r f in
  '(e, out, _) ← Exec ["nft"; "--json"; "list"; "set"; fam; name; set]%string "";
  let json := match e with
              | None => if String.eqb out "" then None
                        else match parseNftSetJSON out with Ok l => Some l | Err _ => None end
              | Some _ => None
              end in
  match json with
  | Some l => mret l
  | None =>
      '(e, out, errb) ← Exec ["nft"; "list"; "set"; fam; name; set]%string "";
      match e with
      | Some m =>
          if StrContains errb "No such file" || StrContains errb "does not exist" then mret []
          else io_err (ErrNew ("routing/nft: list set: " +:+ m +:+ ": " +:+ errb))
      | None => io_lift (parseNftSet out)
      end
  end.

Definition nr_Plan (r : nftRouter) (desired : list Prefix) (f : Family) : IO Plan :=
  let desired := filterByFamily desired f in
  current ← listSet r f;
  mret (computePlan current desired f).

Definition nr_refreshState (r : nftRouter) (p : Plan) : IO (nftRouter * option error) :=
  now ← Now;
  let s := refresh (nr_state r) BackendNFTables now p in
  x ← io_try (saveState (nr_statePath r) s);
  match x with
  | Err e => mret (r, Some e)
  | Ok _ => mret (with_state r s, None)
  end.

Definition nr_Apply (r : nftRouter) (p : Plan) : IO (nftRouter * option error) :=
  x ← io_try (ensureTable r);
  match x with
  | Err e => mret (r, Some e)
  | Ok _ =>
      if Empty p then nr_refreshState r p else
      x ← io_try (runScript r (buildScript r p));
      match x with
      | Err e => mret (r, Some (ErrWrap "routing/nft: apply" e))
      | Ok _ => nr_refreshState r p
      end
  end.

Definition nr_Snapshot (r : nftRouter) : RouterState := nr_state r.

Definition nr_Rollback (r : nftRouter) : IO (nftRouter * option error) :=
  let s := nr_state r in
  if Nat.eqb (length (rs_V4 s)) 0 && Nat.eqb (length (rs_V6 s)) 0 then mret (r, None) else
  x ← io_try (ensureTable r);
  match x with
  | Err e => mret (r, Some e)
  | Ok _ =>
      let script := writeRemove r FamilyV4 (rs_V4 s) +:+ writeRemove r FamilyV6 (rs_V6 s) in
      if String.eqb script "" then mret (r, None) else
      x ← io_try (runScript r script);
      match x with
      | Err e => mret (r, Some (ErrWrap "routing/nft: rollback" e))
      | Ok _ =>
          now ← Now;
          let s' := MkState BackendNFTables now [] [] in
          x ← io_try (saveState (nr_statePath r) s');
          mret (with_state r s', strip x)
      end
  end.

Definition nr_DryRun (r : nftRouter) (desired : list Prefix) (f : Family) : IO (Plan * string) :=
  p ← nr_Plan r desired f; mret (p, renderDiff p).

(** ** [iproute2Router] *)

Record iproute2Router := MkIp {
  ir_cfg : PolicyConfig; ir_statePath : string; ir_iface : string; ir_netns : string;
  ir_state : RouterState }.

Definition ir_with_state (r : iproute2Router) (s : RouterState) : iproute2Router :=
  MkIp (ir_cfg r) (ir_statePath r) (ir_iface r) (ir_netns r) s.

Definition newIProute2Router (cfg : PolicyConfig) (statePath : string) : IO iproute2Router :=
  s ← io_try (loadState statePath);
  mret (MkIp cfg statePath (pc_Iface cfg) "" (match s with Ok s => s | Err _ => zeroState end)).

Definition ipCommand (r : iproute2Router) (extraArgs : list string) : list string :=
  if String.eqb (ir_netns r) "" then "ip"%string :: extraArgs
  else ["ip"; "netns"; "exec"; ir_netns r; "ip"]%string ++ extraArgs.

Definition SetIface (r : iproute2Router) (name : string) : iproute2Router :=
  MkIp (ir_cfg r) (ir_statePath r) name (ir_netns r) (ir_state r).

Definition ir_Caps (r : iproute2Router) : IO unit :=
  x ← io_try (LookPath "ip");
  match x with
  | Err _ => io_err (ErrWrap "ip not found" ErrNoCapability)
  | Ok _ =>
      if String.eqb (ir_netns r) "" then mret tt else
      x ← io_try (Run ["ip"; "netns"; "pids"; ir_netns r]%string);
      match x with Ok _ => mret tt | Err _ => io_err (ErrWrap "netns not found" ErrNoCapability) end
  end.

Definition ipFam (f : Family) : string := match f with FamilyV6 => "-6" | FamilyV4 => "-4" end.

(** What one line of [ip route show] contributes. *)
Definition route_line (f : Family) (line : string) : option Prefix :=
  match Fields (TrimSpace line) with
  | [] => None
  | tok :: _ =>
      if String.eqb tok "default" then None
      else match parsePrefixLoose tok with
           | None => None
           | Some p =>
               match f with
               | FamilyV4 => if Is4 (PAddr p) then Some p else None
               | FamilyV6 => if Is4 (PAddr p) then None else Some p
               end
           end
  end.

Definition parseIPRouteShow (text : string) (f : Family) : list Prefix * option error :=
  let '(ls, bad) := scan_lines (Split text (ascii_of_nat 10)) in
  (omap (route_line f) ls, if bad then Some ErrTooLong else None).

Definition listRoutes (r : iproute2Router) (f : Family) : IO (list Prefix) :=
  '(e, out, errb) ←
    Exec (ipCommand r [ipFam f; "route"; "show"; "table"; Itoa (pc_TableID (ir_cfg r))]%string) "";
  match e with
  | Some m =>
      if StrContains errb "does not exist" || StrContains errb "invalid argument" then mret []
      else io_err (ErrNew ("routing/iproute2: list: " +:+ m +:+ ": " +:+ errb))
  | None =>
      let '(l, bad) := parseIPRouteShow out f in
      match bad with Some x => io_err x | None => mret l end
  end.

Definition ir_Plan (r : iproute2Router) (desired : list Prefix) (f : Family) : IO Plan :=
  let desired := filterByFamily desired f in
  current ← listRoutes r f;
  mret (computePlan current desired f).

Definition ir_refreshState (r : iproute2Router) (p : Plan) : IO (iproute2Router * option error) :=
  now ← Now;
  let s := refresh (ir_state r) BackendIProute2 now p in
  x ← io_try (saveState (ir_statePath r) s);
  match x with
  | Err e => mret (r, Some e)
  | Ok _ => mret (ir_with_state r s, None)
  end.

Definition runBatch (r : iproute2Router) (batch : string) (fam : Family) : IO unit :=
  if String.eqb (TrimSpace batch) "" then mret tt else
  '(e, _, errb) ← Exec (ipCommand r [ipFam fam; "-batch"; "-"]%string) batch;
  match e with
  | Some m => io_err (ErrNew (TrimSpace errb +:+ newline +:+ "Command failed" +:+ newline +:+ " | " +:+ m))
  | None => mret tt
  end.

Definition route_cmd (verb : string) (r : iproute2Router) (p : Prefix) : string :=
  "route " +:+ verb +:+ " " +:+ PString p +:+ " dev " +:+ ir_iface r +:+ " table "
  +:+ Itoa (pc_TableID (ir_cfg r)) +:+ " proto static" +:+ newline.

Definition ir_Apply (r : iproute2Router) (p : Plan) : IO (iproute2Router * option error) :=
  if String.eqb (ir_iface r) ""
  then mret (r, Some (ErrNew "routing/iproute2: no iface configured; refusing to apply"))
  else if Empty p then ir_refreshState r p
  else
    let batch := concat_lines (route_cmd "del" r) (pl_Remove p)
                 +:+ concat_lines (route_cmd "add" r) (pl_Add p) in
    if pc_DryRun (ir_cfg r) then ir_refreshState r p else
    x ← io_try (runBatch r batch (pl_Family p));
    match x with
    | Err e => mret (r, Some (ErrWrap "routing/iproute2: apply" e))
    | Ok _ => ir_refreshState r p
    end.

Definition ir_Snapshot (r : iproute2Router) : RouterState := ir_state r.

Definition ir_Rollback (r : iproute2Router) : IO (iproute2Router * option error) :=
  if String.eqb (ir_iface r) ""
  then mret (r, Some (ErrNew "routing/iproute2: no iface configured; cannot rollback")) else
  let v4 := concat_lines (route_cmd "del" r) (rs_V4 (ir_state r)) in
  let v6 := concat_lines (route_cmd "del" r) (rs_V6 (ir_state r)) in
  if String.eqb v4 "" && String.eqb v6 "" then mret (r, None) else
  x ← io_try (if String.eqb v4 "" then mret tt else runBatch r v4 FamilyV4);
  match x with
  | Err e => mret (r, Some (ErrWrap "routing/iproute2: rollback v4" e))
  | Ok _ =>
      x ← io_try (if String.eqb v6 "" then mret tt else runBatch r v6 FamilyV6);
      match x with
      | Err e => mret (r, Some (ErrWrap "routing/iproute2: rollback v6" e))
      | Ok _ =>
          now ← Now;
          let s' := MkState BackendIProute2 now [] [] in
          x ← io_try (saveState (ir_statePath r) s');
          mret (ir_with_state r s', strip x)
      end
  end.

Definition ir_DryRun (r : iproute2Router) (desired : list Prefix) (f : Family) : IO (Plan * string) :=
  p ← ir_Plan r desired f; mret (p, renderDiff p).
End Legacy.
