(* ===== verification/LegacySpec.v ===== *)
(** * What the single-policy routers guarantee

  Their parsers read back what the tools list, applying a plan converges, and a
  dry-run apply records what it did not do. *)

From S2P Require Import Prelude GoLib Os Netip NetipText Config Plan Routing RoutingSpec Legacy Machine.

Local Open Scope Z_scope.

(** ** Parsing *)

Lemma parsePrefixLoose_PString p : prefix_wf p -> parsePrefixLoose (PString p) = Some p.
Proof.
  intros Hp. unfold parsePrefixLoose, StrContains.
  destruct (PString_slash p Hp) as (a & b & E & Ha). rewrite E, index_char, <- E by done.
  by apply ParsePrefix_PString.
Qed.

Lemma cut_at_word p : prefix_wf p -> cut_at is_blank (PString p) = None.
Proof.
  intros Hp. apply cut_at_none. apply PString_chars; [done| |done..].
  by intros [[] [] [] [] [] [] [] []].
Qed.

Lemma nft_token_pad p post :
  prefix_wf p -> trimRight post = ""%string -> nft_token (String " " (PString p +:+ post)) = Some (PString p).
Proof.
  intros Hp Hpost. unfold nft_token. rewrite TrimSpace_pad by (done || by apply PString_word).
  assert (String.eqb (PString p) "" = false) as ->.
  { pose proof (PString_word p Hp) as Hw. unfold word in Hw. by bool_hyps. }
  by rewrite cut_at_word.
Qed.

Lemma parse_elements_join ps :
  Forall prefix_wf ps -> ps <> [] ->
  parse_elements (Split (" " +:+ joinPrefixes ps +:+ " ") ",") = Ok ps.
Proof.
  unfold joinPrefixes. induction 1 as [|p ps Hp Hps IH]; [done|]. intros _.
  assert (str_forallb (fun c => negb (Ascii.eqb "," c)) (PString p) = true) as Hc.
  { apply PString_chars; [done| |done..]. by intros [[] [] [] [] [] [] [] []]. }
  destruct ps as [|q ps].
  - change (" " +:+ Join (PString <$> [p]) ", " +:+ " ") with (String " " (PString p +:+ " ")).
    unfold Split. rewrite split_at_none.
    + cbn [parse_elements]. by rewrite nft_token_pad, parsePrefixLoose_PString.
    + cbn [str_forallb]. rewrite str_forallb_app, Hc. done.
  - change (" " +:+ Join (PString <$> p :: q :: ps) ", " +:+ " ")
      with (String " " ((PString p +:+ ", " +:+ Join (PString <$> q :: ps) ", ") +:+ " ")).
    rewrite !str_app_assoc.
    change (", " +:+ Join (PString <$> q :: ps) ", " +:+ " ")
      with (String "," (" " +:+ Join (PString <$> q :: ps) ", " +:+ " ")).
    rewrite <- str_app_cons. unfold Split in *.
    rewrite split_at_app by (done || cbn [str_forallb]; by rewrite Hc).
    cbn [parse_elements]. rewrite <- (str_app_nil_r (PString p)) at 1.
    rewrite nft_token_pad, parsePrefixLoose_PString by done. by rewrite IH.
Qed.

Lemma joinPrefixes_chars ps f :
  Forall prefix_wf ps -> (forall c, is_hex c = true -> f c = true) ->
  f "."%char = true -> f ":"%char = true -> f "/"%char = true -> f ","%char = true -> f " "%char = true ->
  str_forallb f (joinPrefixes ps) = true.
Proof.
  intros Hps Hh Hd Hc Hs Hcm Hsp. unfold joinPrefixes. induction Hps as [|p ps Hp Hps IH]; [done|].
  destruct ps as [|q ps]; [by apply PString_chars|].
  change (Join (PString <$> p :: q :: ps) ", ") with (PString p +:+ ", " +:+ Join (PString <$> q :: ps) ", ").
  rewrite !str_forallb_app, IH, PString_chars by done. cbn. by rewrite Hcm, Hsp.
Qed.

Lemma parseNftSet_listing ps tail :
  Forall prefix_wf ps -> ps <> [] ->
  parseNftSet ("elements = { " +:+ joinPrefixes ps +:+ " }" +:+ tail) = Ok ps.
Proof.
  intros Hps Hne. unfold parseNftSet.
  set (text := "elements = { " +:+ joinPrefixes ps +:+ " }" +:+ tail).
  assert (Index text "elements" = Some 0%nat) as -> by (unfold text; by destruct ps).
  cbn [str_drop].
  set (body := " " +:+ joinPrefixes ps +:+ " ").
  assert (text = "elements = " +:+ String "{" (body +:+ String "}" tail)) as E1.
  { unfold text, body. rewrite !str_app_assoc. done. }
  assert (text = ("elements = {" +:+ body) +:+ String "}" tail) as E2.
  { rewrite E1, str_app_assoc. done. }
  assert (str_forallb (fun d => negb (Ascii.eqb "}" d)) body = true) as Hb.
  { unfold body. rewrite !str_forallb_app, joinPrefixes_chars; [done|done| |done..].
    by intros [[] [] [] [] [] [] [] []]. }
  rewrite E1 at 1. rewrite index_char by done. rewrite E2 at 1.
  rewrite index_char by (rewrite str_forallb_app, Hb; done).
  rewrite str_length_app. cbn [String.length].
  assert (Nat.ltb (12 + String.length body) 11 = false) as -> by (apply Nat.ltb_ge; lia).
  replace (12 + String.length body - 11 - 1)%nat with (String.length body) by lia.
  assert (text = "elements = {" +:+ (body +:+ String "}" tail)) as -> by (by rewrite E1).
  change (11 + 1)%nat with (String.length "elements = {").
  rewrite substring_app. by apply parse_elements_join.
Qed.

(** A line of [ip route show] for a prefix. *)
Definition show_line (suffix : string) (p : Prefix) : string := PString p +:+ " " +:+ suffix +:+ newline.

Definition route_of (f : Family) (p : Prefix) : bool :=
  match f with FamilyV4 => Is4 (PAddr p) | FamilyV6 => negb (Is4 (PAddr p)) end.

Lemma route_line_prefix f p suffix :
  prefix_wf p -> route_line f (PString p +:+ " " +:+ suffix) = if route_of f p then Some p else None.
Proof.
  intros Hp. unfold route_line. change (" " +:+ suffix) with (String " " suffix).
  destruct (Fields_head (PString p) suffix (PString_word p Hp)) as [l ->].
  assert (String.eqb (PString p) "default" = false) as ->.
  { apply String.eqb_neq. intros E. destruct (PString_slash p Hp) as (a & b & Ea & _).
    assert (StrContains (PString p) "/" = true) as Hc.
    { unfold StrContains. destruct (PString_slash p Hp) as (a' & b' & Ea' & Ha'). by rewrite Ea', index_char. }
    by rewrite E in Hc. }
  rewrite parsePrefixLoose_PString by done. unfold route_of. destruct f; by destruct (Is4 (PAddr p)).
Qed.

Lemma parseIPRouteShow_listing ps suffix f :
  Forall prefix_wf ps -> Z.of_nat (String.length suffix) < 65000 ->
  str_forallb plain_char suffix = true ->
  parseIPRouteShow (concat_lines (show_line suffix) ps) f = (filterByFamily ps f, None).
Proof.
  intros Hps Hlen Hsuf. set (line := fun p => PString p +:+ " " +:+ suffix).
  assert (concat_lines (show_line suffix) ps = lines_text (line <$> ps)) as ->.
  { clear Hps. induction ps as [|p ps IH]; [done|]. unfold concat_lines in *. cbn. rewrite IH. unfold show_line, line.
    by rewrite !str_app_assoc. }
  unfold parseIPRouteShow. rewrite scan_lines_text.
  - f_equal. induction Hps as [|p ps Hp _ IH]; [done|]. cbn [fmap list_fmap omap list_omap] in *.
    rewrite IH. unfold line. rewrite route_line_prefix by done.
    unfold filterByFamily, route_of. cbn [List.filter]. destruct f; by destruct (Is4 (PAddr p)).
  - apply Forall_fmap. eapply Forall_impl; [exact Hps|]. cbn. intros p Hp. split; unfold line.
    + by rewrite !str_forallb_app, PString_plain, Hsuf.
    + pose proof (PString_length p Hp). rewrite !str_length_app. cbn. lia.
Qed.

(** The listing parsers read back what the tools print: [parseNftSet] the
    elements of a set written as [joinPrefixes] writes them, and
    [parseIPRouteShow] the leading prefix of every line, restricted to the
    family asked for. *)
Theorem listings_read_back ps suffix tail f :
  Forall prefix_wf ps -> Z.of_nat (String.length suffix) < 65000 ->
  ps <> [] -> str_forallb plain_char suffix = true ->
  parseNftSet ("elements = { " +:+ joinPrefixes ps +:+ " }" +:+ tail) = Ok ps
  /\ parseIPRouteShow (concat_lines (show_line suffix) ps) f = (filterByFamily ps f, None).
Proof.
  intros Hps Hlen Hne Hs. split; [|by apply parseIPRouteShow_listing]. by apply parseNftSet_listing.
Qed.

Lemma listings_read_back_witness :
  parseNftSet ("elements = { " +:+ joinPrefixes (demo4 ++ demo6) +:+ " }" +:+ newline) = Ok (demo4 ++ demo6).
Proof. apply (listings_read_back (demo4 ++ demo6) "dev wg0" newline FamilyV4); [by_decision|done|done|done]. Defined.

(** ** Plans and states *)

Lemma elem_of_refresh l p x :
  x ∈ refresh_list l p <-> (x ∈ l /\ x ∉ pl_Remove p) \/ x ∈ pl_Add p.
Proof.
  unfold refresh_list. rewrite elem_of_sortPrefixes, elem_of_elements, elem_of_union, elem_of_difference,
    !elem_of_list_to_set, (proj2 (dedup_spec l)). done.
Qed.

Lemma refresh_canonical l p : refresh_list l p = dedup (refresh_list l p).
Proof.
  unfold refresh_list. set (S := _ ∪ _).
  assert (forall l, dedup l = sortPrefixes (dedup_loop ∅ l)) as -> by by intros [].
  apply sortPrefixes_unique, NoDup_Permutation; [apply NoDup_elements|apply dedup_loop_spec|].
  intros x. rewrite (proj2 (dedup_loop_spec _ _)), elem_of_sortPrefixes. set_solver.
Qed.

(** Planning and applying converge: after a plan computed against the
    recorded prefixes the record is the sorted, duplicate-free desired list,
    and planning again gives the empty plan. *)
Theorem plan_converges current desired f :
  let after := refresh_list current (computePlan current desired f) in
  after = dedup desired /\ Empty (computePlan after desired f) = true.
Proof.
  cbv zeta. destruct (computePlan_elem current desired f) as [Ha Hr].
  assert (forall x, x ∈ refresh_list current (computePlan current desired f) <-> x ∈ desired) as Hx.
  { intros x. rewrite elem_of_refresh, Ha, Hr.
    destruct (decide (x ∈ current)), (decide (x ∈ desired)); naive_solver. }
  assert (refresh_list current (computePlan current desired f) = dedup desired) as Heq.
  { rewrite refresh_canonical. by apply dedup_unique. }
  split; [done|]. destruct (computePlan_elem (dedup desired) desired f) as [Ha' Hr'].
  rewrite Heq. unfold Empty.
  assert (forall l : list Prefix, (forall x, ~ x ∈ l) -> length l = 0%nat) as Hnil.
  { intros [|x l] Hl; [done|]. destruct (Hl x). left. }
  rewrite (Hnil (pl_Add _)), (Hnil (pl_Remove _)); [done|..]; intros x;
    rewrite ?Ha', ?Hr', (proj2 (dedup_spec _)); naive_solver.
Qed.

(** With [dry_run] the iproute2 router runs no command, yet records the plan
    as applied: its state and state file claim prefixes the kernel never got. *)
Theorem iproute2_dry_run_records {K} `{Env K} `{StateCodec} (r : iproute2Router) (p : Plan)
    (w : World K) r' w' :
  pc_DryRun (ir_cfg r) = true ->
  ir_Apply r p w = (Ok (r', None), w') ->
  w_kern w' = w_kern w
  /\ forall x, x ∈ pl_Add p ->
       x ∈ match pl_Family p with
           | FamilyV4 => rs_V4 (ir_Snapshot r')
           | FamilyV6 => rs_V6 (ir_Snapshot r')
           end.
Proof.
  intros Hd. unfold ir_Apply. rewrite Hd.
  destruct (String.eqb (ir_iface r) ""); [by intros [= _ ?]|].
  assert (forall b : bool, (if b then ir_refreshState r p else ir_refreshState r p) = ir_refreshState r p)
    as -> by by intros [].
  unfold ir_refreshState. intros (now & w1 & E1 & E)%io_bind_ok.
  unfold Now in E1. injection E1 as _ <-.
  apply io_bind_ok in E as (x & w2 & E2 & E). apply io_try_ok in E2.
  pose proof (saveState_files_only _ _ _ _ _ E2) as Hk.
  destruct x as [u|e]; [|done]. injection E as <- <-. split; [done|].
  intros x Hx. unfold ir_Snapshot, ir_with_state, refresh; cbn [ir_state].
  destruct (pl_Family p); cbn; apply elem_of_refresh; by right.
Qed.

Definition dry_policy : PolicyConfig := {|
  pc_Name := "demo"; pc_Enabled := true; pc_Categories := ["geosite:x"]; pc_Backend := BackendIProute2;
  pc_TableID := 100; pc_Iface := "wg0"; pc_NFTTable := ""; pc_NFTSetV4 := ""; pc_NFTSetV6 := "";
  pc_DryRun := true; pc_ExportFormat := ""; pc_Aggregation := None |}%string.

Definition dry_router : iproute2Router := MkIp dry_policy "/s/ip.json" "wg0" "" zeroState.
Definition dry_router' : iproute2Router :=
  MkIp dry_policy "/s/ip.json" "wg0" "" (MkState BackendIProute2 0 demo4 []).

Lemma iproute2_dry_run_records_witness : PrefixFrom (Addr4 (10 * 2 ^ 24)) 8 ∈ rs_V4 (ir_Snapshot dry_router').
Proof.
  apply (iproute2_dry_run_records dry_router (MkPlan FamilyV4 demo4 []) start dry_router'
           (ir_Apply dry_router (MkPlan FamilyV4 demo4 []) start).2);
    [done| |left].
  apply run_pair. vm_compute. reflexivity.
Defined.
