(* ===== verification/Exporter.v ===== *)
(** * [internal/exporter]: the exported prefix files

  [exporter.go]: [FileExporter], the write-to-temporary-then-rename flow with a
  digest in a sidecar file.  [policy_exporter.go]: [PolicyExporter] and its
  formats.  SHA-256 is a function of the content; the names [os.CreateTemp]
  draws are an interface. *)

From S2P Require Import Prelude GoLib Os Netip NetipText Config Plan.

Local Open Scope Z_scope.

(** ** Interfaces *)

(** The hexadecimal SHA-256 digest. *)
Class Digest := { sha256_hex : string -> string }.

(** [os.CreateTemp(dir, family + "-*.tmp")] draws a name that does not exist. *)
Class TempNames := {
  temp_name : gmap string string -> string -> string -> string;
  temp_fresh files dir family : files !! temp_name files dir family = None;
  temp_suffix files dir family : HasSuffix (temp_name files dir family) ".tmp" = true
}.

(** [ctx.Err()] at every moment of a run. *)
Definition Ctx : Type := nat -> option error.

(** ** [FileExporter] *)

Record ExportReport := MkExportReport {
  er_IPv4Path : string; er_IPv6Path : string; er_IPv4Count : Z; er_IPv6Count : Z;
  er_IPv4Digest : string; er_IPv6Digest : string; er_Unchanged : bool }.

(** The lines of a file. *)
Definition render (prefixes : list Prefix) : string :=
  concat_lines (fun p => PString p +:+ newline) prefixes.

Section FileExporter.
Context {K : Type} `{Env K} `{Digest} `{TempNames}.
Local Notation IO := (IO K).

Definition ctx_check (ctx : Ctx) : IO unit := fun w =>
  match ctx (w_calls w) with
  | Some e => (Err e, tick w)
  | None => (Ok tt, tick w)
  end.

Definition CreateTemp (dir family : string) : IO string :=
  syscall;; io_fun (fun w =>
    let name := temp_name (w_files w) dir family in (Ok name, set_file name (Some "") w)).

(** One [Write] on the open file. *)
Definition AppendFile (path data : string) : IO unit := fun w =>
  let n := w_calls w in
  let old := default "" (w_files w !! path) in
  match fault n with
  | Some e => (Err (ErrNew e), set_file path (torn n (Some old) (old +:+ data)) (tick w))
  | None => (Ok tt, set_file path (Some (old +:+ data)) (tick w))
  end.

Fixpoint write_lines (path : string) (prefixes : list Prefix) : IO unit :=
  match prefixes with
  | [] => mret tt
  | p :: ps => io_wrap "write prefix" (AppendFile path (PString p +:+ newline));; write_lines path ps
  end.

Definition fsyncDir (path : string) : IO unit := syscall;; syscall.

(** Steps 1 to 3: the temporary file, removed again when a step fails. *)
Definition write_temp (dir family : string) (prefixes : list Prefix) : IO string :=
  tmpPath ← io_wrap "create temp" (CreateTemp dir family);
  r ← io_try (write_lines tmpPath prefixes;;
              io_wrap "sync temp" (Sync tmpPath);;
              io_wrap "close temp" syscall);
  match r with
  | Ok _ => mret tmpPath
  | Err e => _ ← io_try (Remove tmpPath); io_err e
  end.

(** Steps 5, 6 and 8. *)
Definition publish (baseDir tmpPath finalPath : string) (changed : bool) : IO unit :=
  if changed then
    io_wrap "rename temp to final" (Rename tmpPath finalPath);;
    io_wrap "chmod final" (Chmod finalPath);;
    io_wrap "fsync parent" (fsyncDir baseDir)
  else
    _ ← io_try (Remove tmpPath); mret tt.

Definition writeFamily (baseDir : string) (ctx : Ctx) (family finalPath : string)
    (prefixes : list Prefix) : IO (string * bool) :=
  ctx_check ctx;;
  tmpPath ← write_temp baseDir family prefixes;
  let digest := sha256_hex (render prefixes) in
  let shaPath := finalPath +:+ ".sha256" in
  previousSHA ← io_try (ReadFile shaPath);
  let previousDigest := match previousSHA with Ok b => b | Err _ => ""%string end in
  let changed := negb (String.eqb digest previousDigest) in
  publish baseDir tmpPath finalPath changed;;
  io_wrap "write sha sidecar" (WriteFile shaPath digest);;
  mret (digest, changed).

Definition New (baseDir : string) : IO string :=
  io_wrap "create base dir" (MkdirAll baseDir);; mret baseDir.

Definition Write (baseDir : string) (ctx : Ctx) (v4 v6 : list Prefix) : IO ExportReport :=
  let v4Path := path_join baseDir "ipv4.txt" in
  '(v4Digest, v4Changed) ← io_wrap "write ipv4" (writeFamily baseDir ctx "ipv4" v4Path v4);
  let v6Path := path_join baseDir "ipv6.txt" in
  '(v6Digest, v6Changed) ← io_wrap "write ipv6" (writeFamily baseDir ctx "ipv6" v6Path v6);
  mret (MkExportReport v4Path v6Path (Z.of_nat (length v4)) (Z.of_nat (length v6))
          v4Digest v6Digest (negb v4Changed && negb v6Changed)).
End FileExporter.

(** ** Formats *)

Definition quote : string := String (ascii_of_nat 34) "".
Definition backslash : string := String (ascii_of_nat 92) "".

(** [encoding/json] on the text of a string. *)
Definition json_char (c : ascii) : string :=
  if Ascii.eqb c (ascii_of_nat 34) then backslash +:+ quote
  else if Ascii.eqb c (ascii_of_nat 92) then backslash +:+ backslash
  else if code c =? 8 then backslash +:+ "b" else if code c =? 12 then backslash +:+ "f"
  else if code c =? 10 then backslash +:+ "n" else if code c =? 13 then backslash +:+ "r"
  else if code c =? 9 then backslash +:+ "t"
  else if (code c <? 32) || one_of (String c "") ["<"; ">"; "&"]%string
  then backslash +:+ "u00" +:+ String (hexdigit (Z.shiftr (code c) 4)) (String (hexdigit (Z.land (code c) 15)) "")
  else String c "".

Fixpoint json_text (s : string) : string :=
  match s with EmptyString => "" | String c s' => json_char c +:+ json_text s' end.

Definition json_string (s : string) : string := quote +:+ json_text s +:+ quote.

Definition extForFormat (format : string) : string :=
  if one_of format ["ipset"; "json"; "nft"; "iptables"; "bgp"; "yaml"]%string then format else "txt".

Definition prefixStrings (prefixes : list Prefix) : list string := PString <$> prefixes.

Definition format_lines (f : Prefix -> string) (prefixes : list Prefix) : string :=
  Join (f <$> prefixes) newline +:+ newline.

Definition formatPlain (prefixes : list Prefix) : string := format_lines PString prefixes.

Definition formatIPSet (policyName family : string) (prefixes : list Prefix) : string :=
  let setName := policyName +:+ "_" +:+ family in
  format_lines (fun p => "add " +:+ setName +:+ " " +:+ PString p) prefixes.

(** [json.MarshalIndent] of the three-key map: sorted keys, an empty slice that
    was never allocated is [null]. *)
Definition formatJSON (policyName family : string) (prefixes : list Prefix) : string :=
  let list :=
    if Nat.eqb (length prefixes) 0 then "null"
    else "[" +:+ newline
         +:+ Join ((fun s => "    " +:+ json_string s) <$> prefixStrings prefixes) ("," +:+ newline)
         +:+ newline +:+ "  ]" in
  "{" +:+ newline
  +:+ "  " +:+ json_string "family" +:+ ": " +:+ json_string family +:+ "," +:+ newline
  +:+ "  " +:+ json_string "policy" +:+ ": " +:+ json_string policyName +:+ "," +:+ newline
  +:+ "  " +:+ json_string "prefixes" +:+ ": " +:+ list +:+ newline
  +:+ "}" +:+ newline.

Definition formatNFT (policyName family : string) (prefixes : list Prefix) : string :=
  format_lines (fun p => "add elements inet d2ip " +:+ policyName +:+ "_" +:+ family +:+ " { "
                         +:+ PString p +:+ " }") prefixes.

Definition formatIPTables (family : string) (prefixes : list Prefix) : string :=
  let cmd := if String.eqb family "v6" then "ip6tables" else "iptables" in
  format_lines (fun p => cmd +:+ " -A OUTPUT -d " +:+ PString p +:+ " -j DROP") prefixes.

Definition formatBGP (policyName : string) (prefixes : list Prefix) : string :=
  format_lines (fun p => "network " +:+ PString p) prefixes.

Definition formatYAML (policyName family : string) (prefixes : list Prefix) : string :=
  "policy: " +:+ policyName +:+ newline +:+ "family: " +:+ family +:+ newline
  +:+ "count: " +:+ Itoa (Z.of_nat (length prefixes)) +:+ newline +:+ "prefixes:" +:+ newline
  +:+ concat_lines (fun p => "  - " +:+ PString p +:+ newline) prefixes.

Definition formatPrefixesForPolicy (format policyName : string) (prefixes : list Prefix)
    (family : string) : string :=
  if String.eqb format "ipset" then formatIPSet policyName family prefixes
  else if String.eqb format "json" then formatJSON policyName family prefixes
  else if String.eqb format "nft" then formatNFT policyName family prefixes
  else if String.eqb format "iptables" then formatIPTables family prefixes
  else if String.eqb format "bgp" then formatBGP policyName prefixes
  else if String.eqb format "yaml" then formatYAML policyName family prefixes
  else formatPlain prefixes.

Definition formatPrefixes (prefixes : list string) (format : string) : option string :=
  parsed ← mapM ParsePrefix prefixes;
  Some (formatPrefixesForPolicy format "policy" parsed "v4").

(** ** [PolicyExporter] *)

Record PolicyExportReport := MkPolicyExportReport {
  pe_PolicyName : string; pe_Format : string; pe_IPv4Path : string; pe_IPv6Path : string;
  pe_IPv4Count : Z; pe_IPv6Count : Z; pe_Unchanged : bool }.

Definition WritePolicy {K} `{Env K} (baseDir : string) (policy : PolicyConfig) (v4 v6 : list Prefix)
    : IO K PolicyExportReport :=
  let dir := path_join baseDir (pc_Name policy) in
  MkdirAll dir;;
  let format := if String.eqb (pc_ExportFormat policy) "" then "plain"%string
                else pc_ExportFormat policy in
  let v4Path := path_join dir ("ipv4." +:+ extForFormat format) in
  let v6Path := path_join dir ("ipv6." +:+ extForFormat format) in
  io_wrap "write v4" (WriteFile v4Path (formatPrefixesForPolicy format (pc_Name policy) v4 "v4"));;
  io_wrap "write v6" (WriteFile v6Path (formatPrefixesForPolicy format (pc_Name policy) v6 "v6"));;
  mret (MkPolicyExportReport (pc_Name policy) format v4Path v6Path
          (Z.of_nat (length v4)) (Z.of_nat (length v6)) false).
