(* ===== verification/ExporterSpec.v ===== *)
(** * What the exporters guarantee

  Readers of an exported file see the old or the new content, never a part;
  the digest decides whether the file is replaced, and what follows from
  trusting it; the plain format reads back. *)

From S2P Require Import Prelude GoLib Os Netip NetipText Config Plan Routing Machine Exporter.

Local Open Scope Z_scope.

Section FileExporter.
Context {K : Type} `{Env K} `{Digest} `{TempNames}.
Implicit Types (w : World K) (ps : list Prefix).

(** ** The temporary file *)

Lemma touches_AppendFile path data : touches {[path]} (AppendFile path data : IO K unit).
Proof.
  intros w r w'. unfold AppendFile. intros E p Hp.
  destruct (fault (w_calls w)); injection E as <- <-; rewrite lookup_set_file;
    (destruct (decide (path = p)); [set_solver|done]).
Qed.

Lemma AppendFile_ok path data w u w' s :
  w_files w !! path = Some s -> AppendFile path data w = (Ok u, w') ->
  w_files w' !! path = Some (s +:+ data).
Proof.
  intros Hs. unfold AppendFile. destruct (fault (w_calls w)); [done|]. intros [= _ <-].
  rewrite lookup_set_file, decide_True by done. by rewrite Hs.
Qed.

Lemma touches_write_lines path ps : touches {[path]} (write_lines path ps : IO K unit).
Proof.
  induction ps as [|p ps IH]; cbn [write_lines]; [apply touches_ret|].
  apply touches_bind; [apply touches_wrap, touches_AppendFile|]. by intros _.
Qed.

Lemma write_lines_ok path ps w u w' s :
  w_files w !! path = Some s -> write_lines path ps w = (Ok u, w') ->
  w_files w' !! path = Some (s +:+ render ps).
Proof.
  revert w s. induction ps as [|p ps IH]; intros w s Hs; cbn [write_lines].
  { intros [= _ <-]. unfold render, concat_lines; cbn. by rewrite str_app_nil_r. }
  intros (? & w1 & E1 & E)%io_bind_ok. apply io_wrap_ok in E1.
  change (render (p :: ps)) with ((PString p +:+ newline) +:+ render ps). rewrite <- str_app_assoc.
  eapply IH; [|exact E]. by eapply AppendFile_ok.
Qed.

Lemma write_temp_spec dir family ps w r w' :
  write_temp dir family ps w = (r, w') ->
  exists tmp, HasSuffix tmp ".tmp" = true
    /\ (forall p, p <> tmp -> w_files w' !! p = w_files w !! p)
    /\ forall t, r = Ok t -> t = tmp /\ w_files w' !! tmp = Some (render ps).
Proof.
  unfold write_temp. intros E. exists (temp_name (w_files w) dir family). split; [apply temp_suffix|].
  set (tmp := temp_name (w_files w) dir family).
  assert (touches {[tmp]} (r ← io_try (write_lines tmp ps;; io_wrap "sync temp" (Sync tmp);;
              io_wrap "close temp" syscall);
            match r with
            | Ok _ => mret tmp
            | Err e => _ ← io_try (Remove tmp); io_err e
            end : IO K string)) as Ht.
  { apply touches_bind.
    - apply touches_try, touches_bind; [apply touches_write_lines|]. intros _.
      apply touches_bind; [apply touches_wrap, touches_syscall|]. intros _.
      apply touches_wrap, touches_syscall.
    - intros [_|e]; [apply touches_ret|]. apply touches_bind; [apply touches_try, touches_Remove|].
      intros _. apply touches_err. }
  apply io_bind_any in E as [(t & w1 & E1 & E)|(e & E1 & ->)].
  - apply io_wrap_ok in E1. unfold CreateTemp in E1. apply io_bind_ok in E1 as (? & w0 & E0 & E1).
    unfold syscall in E0. injection E0 as _ <-. unfold io_fun in E1. cbn in E1. injection E1 as <- <-.
    fold tmp in E. split.
    + intros p Hp. rewrite (Ht _ _ _ E) by set_solver. rewrite lookup_set_file, decide_False by done. done.
    + intros t ->. apply io_bind_ok in E as (y & w2 & E2 & E). apply io_try_ok in E2. destruct y as [u|e].
      * injection E as <- <-. split; [done|].
        apply io_bind_ok in E2 as (? & w3 & E3 & E2). apply io_bind_ok in E2 as (? & w4 & E4 & E2).
        apply io_wrap_ok in E4, E2. unfold Sync, syscall in E4, E2.
        injection E4 as _ <-. injection E2 as _ <-. cbn.
        change (render ps) with ("" +:+ render ps). eapply write_lines_ok; [|exact E3].
        by rewrite lookup_set_file, decide_True.
      * by apply io_bind_ok in E as (? & ? & _ & ?).
  - split; [|done]. intros p Hp. unfold io_wrap, CreateTemp, mbind, io_bind, syscall, io_fun in E1.
    destruct (fault (w_calls w)); [|done]. by injection E1 as _ <-.
Qed.

(** ** One family *)

Lemma tmp_not (tmp path : string) : HasSuffix tmp ".tmp" = true -> HasSuffix path ".tmp" = false -> path <> tmp.
Proof. congruence. Qed.

Lemma sha_not_tmp path : HasSuffix (path +:+ ".sha256") ".tmp" = false.
Proof. by rewrite HasSuffix_app by (cbn; lia). Qed.

Lemma sha_neq path : path +:+ ".sha256" <> path.
Proof. intros E. apply (f_equal String.length) in E. rewrite str_length_app in E. cbn in E. lia. Qed.

Definition previous_digest path w : string := default ""%string (w_files w !! (path +:+ ".sha256")).

Lemma publish_spec dir tmp path changed c w r w' :
  publish dir tmp path changed w = (r, w') -> w_files w !! tmp = Some c -> path <> tmp ->
  (w_files w' !! path = w_files w !! path \/ (changed = true /\ w_files w' !! path = Some c))
  /\ (forall u, r = Ok u -> w_files w' !! path = if changed then Some c else w_files w !! path)
  /\ forall q, q <> tmp -> q <> path -> w_files w' !! q = w_files w !! q.
Proof.
  unfold publish. intros E Htmp Hne. destruct changed.
  - apply io_bind_any in E as [(u & w1 & E1 & E)|(e & E1 & ->)].
    + apply io_wrap_ok in E1. pose proof (Rename_cases _ _ _ _ _ E1 ltac:(congruence)) as Hr. cbn in Hr.
      rewrite Htmp in Hr.
      assert (w_files w' = w_files w1) as Hw.
      { apply map_eq. intros q. eapply (touches_bind ∅); [| |exact E|set_solver].
        - apply touches_wrap, touches_syscall.
        - intros ?. apply touches_wrap, touches_bind; [apply touches_syscall|].
          intros _. apply touches_syscall. }
      rewrite Hw. split_and!; [by right|by intros|]. intros q Hq1 Hq2.
      eapply touches_Rename; [exact E1|set_solver].
    + unfold io_wrap in E1. destruct (Rename tmp path w) as [[?|?] w1] eqn:E2; [done|].
      injection E1 as _ <-. pose proof (Rename_cases _ _ _ _ _ E2 ltac:(congruence)) as Hr. cbn in Hr.
      rewrite Hr. split_and!; [by left|done|done].
  - assert (forall q, q <> tmp -> w_files w' !! q = w_files w !! q) as Hq.
    { assert (touches {[tmp]} (_ ← io_try (Remove tmp); mret tt : IO K unit)) as Ht
        by (apply touches_bind; [apply touches_try, touches_Remove|intros ?; apply touches_ret]).
      intros q Hq. apply (Ht _ _ _ E). set_solver. }
    split_and!; [left; auto|intros ? ?; auto|auto].
Qed.

Lemma writeFamily_spec dir ctx family path ps w r w' :
  HasSuffix path ".tmp" = false ->
  writeFamily dir ctx family path ps w = (r, w') ->
  (w_files w' !! path = w_files w !! path \/ w_files w' !! path = Some (render ps))
  /\ forall d changed, r = Ok (d, changed) ->
       d = sha256_hex (render ps) /\ w_files w' !! (path +:+ ".sha256") = Some d
       /\ w_files w' !! path = if changed then Some (render ps) else w_files w !! path.
Proof.
  intros Hp. unfold writeFamily.
  set (sha := path +:+ ".sha256"). set (digest := sha256_hex (render ps)).
  intros [(? & w1 & E1 & E)|(e & E1 & ->)]%io_bind_any.
  2:{ unfold ctx_check in E1. destruct (ctx (w_calls w)); [|done].
      injection E1 as _ <-. split; [by left|done]. }
  assert (w_files w1 = w_files w) as Hw1.
  { unfold ctx_check in E1. destruct (ctx (w_calls w)); [done|]. by injection E1 as _ <-. }
  apply io_bind_any in E as [(tmp & w2 & E2 & E)|(e & E2 & ->)];
    destruct (write_temp_spec _ _ _ _ _ _ E2) as (tmp' & Hsuf & Hother & Hok).
  2:{ split; [|done]. left. rewrite Hother, Hw1 by by apply tmp_not. done. }
  destruct (Hok tmp eq_refl) as [-> Htmp]. rewrite Hw1 in Hother. clear Hok.
  assert (path <> tmp') as Hpt by by apply tmp_not.
  assert (sha <> tmp') as Hst by (apply tmp_not; [done|apply sha_not_tmp]).
  apply io_bind_any in E as [(prev & w3 & E3 & E)|(e & E3 & ->)].
  2:{ unfold io_try in E3. by destruct (ReadFile sha w2). }
  assert (w_files w3 = w_files w2) as Hw3.
  { apply map_eq. intros q. by apply (touches_try ∅ _ (touches_ReadFile ∅ sha) _ _ _ E3). }
  set (changed := negb (String.eqb digest match prev with Ok b => b | Err _ => ""%string end)) in E.
  apply io_bind_any in E as [(? & w4 & E4 & E)|(e & E4 & ->)].
  - destruct (publish_spec _ _ _ _ _ _ _ _ E4 ltac:(rewrite Hw3; exact Htmp) Hpt) as (_ & Hfin & Hoth4).
    specialize (Hfin _ eq_refl). rewrite Hw3, Hother in Hfin by done.
    apply io_bind_any in E as [(? & w5 & E5 & [= <- <-])|(e & E5 & ->)].
    + apply io_wrap_ok in E5. pose proof (touches_WriteFile _ _ _ _ _ E5 path) as Hpath.
      rewrite Hpath, Hfin by (intros Heq%elem_of_singleton; by apply (sha_neq path)).
      split; [destruct changed; auto|]. intros d ch [= <- <-]. split_and!; [done| |done].
      unfold WriteFile in E5. destruct (fault (w_calls w4)); [done|]. injection E5 as _ <-.
      by rewrite lookup_set_file, decide_True.
    + split; [|done]. unfold io_wrap in E5.
      destruct (WriteFile sha digest w4) as [[?|?] w5] eqn:E6; [done|]. injection E5 as _ <-.
      rewrite (touches_WriteFile _ _ _ _ _ E6 path), Hfin
        by (intros Heq%elem_of_singleton; by apply (sha_neq path)).
      destruct changed; auto.
  - destruct (publish_spec _ _ _ _ _ _ _ _ E4 ltac:(rewrite Hw3; exact Htmp) Hpt) as (Hfin & _).
    rewrite Hw3, Hother in Hfin by done. split; [naive_solver|done].
Qed.

(** C3. Exporting one family is atomic for readers and honest in its report:
    whatever fails, the file holds its old content or all the new lines; on
    success the sidecar holds the digest of the new lines, and "changed" means
    the file was replaced by them. *)
Theorem writeFamily_atomic dir ctx family path ps w r w' :
  HasSuffix path ".tmp" = false ->
  writeFamily dir ctx family path ps w = (r, w') ->
  (w_files w' !! path = w_files w !! path \/ w_files w' !! path = Some (render ps))
  /\ forall d changed, r = Ok (d, changed) ->
       d = sha256_hex (render ps) /\ w_files w' !! (path +:+ ".sha256") = Some d
       /\ w_files w' !! path = if changed then Some (render ps) else w_files w !! path.
Proof. apply writeFamily_spec. Qed.

(** The digest is trusted, not verified: when the sidecar already holds the
    digest of the lines, a successful export reports "unchanged" and leaves the
    file as it is, whatever it contains and even when it is missing. *)
Theorem writeFamily_trusts_sidecar dir ctx family path ps w d changed w' :
  HasSuffix path ".tmp" = false -> (forall n, fault n = None) ->
  w_files w !! (path +:+ ".sha256") = Some (sha256_hex (render ps)) ->
  writeFamily dir ctx family path ps w = (Ok (d, changed), w') ->
  changed = false /\ w_files w' !! path = w_files w !! path.
Proof.
  intros Hp Hnf Hsha E. destruct (writeFamily_spec _ _ _ _ _ _ _ _ Hp E) as (_ & Hok).
  destruct (Hok _ _ eq_refl) as (_ & _ & Hfin).
  assert (changed = false) as ->; [|done]. clear Hok Hfin. unfold writeFamily in E.
  apply io_bind_ok in E as (? & w1 & E1 & E).
  assert (w_files w1 = w_files w) as Hw1.
  { unfold ctx_check in E1. destruct (ctx (w_calls w)); [done|]. by injection E1 as _ <-. }
  apply io_bind_ok in E as (tmp & w2 & E2 & E).
  destruct (write_temp_spec _ _ _ _ _ _ E2) as (tmp' & Hsuf & Hother & _).
  apply io_bind_ok in E as (prev & w3 & E3 & E). apply io_try_ok in E3.
  rewrite ReadFile_nofault, Hother, Hw1, Hsha in E3
    by (apply Hnf || (apply tmp_not; [done|apply sha_not_tmp])).
  injection E3 as <- <-. apply io_bind_ok in E as (? & ? & _ & E).
  apply io_bind_ok in E as (? & ? & _ & E). rewrite String.eqb_refl in E. by injection E.
Qed.
End FileExporter.

(** ** The plain format *)

Lemma format_lines_concat (f : Prefix -> string) ps :
  ps <> [] -> format_lines f ps = concat_lines (fun p => f p +:+ newline) ps.
Proof.
  unfold format_lines, concat_lines. induction ps as [|p ps IH]; [done|]. intros _. destruct ps as [|q ps].
  - cbn. by rewrite str_app_nil_r.
  - change (Join (f <$> p :: q :: ps) newline)
      with (f p +:+ newline +:+ Join (f <$> q :: ps) newline).
    change (foldr (fun p acc => (f p +:+ newline) +:+ acc) "" (p :: q :: ps))
      with ((f p +:+ newline) +:+ foldr (fun p acc => (f p +:+ newline) +:+ acc) "" (q :: ps)).
    rewrite <- IH by done. by rewrite !str_app_assoc.
Qed.

(** The plain format round trips: splitting it into lines and parsing them
    gives the prefixes back, and it is the text [FileExporter] writes; only for
    no prefixes at all do the two exporters differ (an empty line against an
    empty file). *)
Theorem formatPlain_roundtrip ps :
  Forall prefix_wf ps -> ps <> [] ->
  mapM ParsePrefix (Split (TrimSuffix (formatPlain ps) newline) (ascii_of_nat 10)) = Some ps
  /\ formatPlain ps = render ps /\ formatPlain [] = newline /\ render [] = ""%string.
Proof.
  intros Hps Hne. split; [|split; [by apply format_lines_concat|done]].
  unfold formatPlain, format_lines. rewrite TrimSuffix_app. unfold newline.
  rewrite Split_Join; [by apply parse_texts|by destruct ps|].
  apply Forall_fmap. eapply Forall_impl; [exact Hps|]. intros p Hp. cbn.
  apply PString_chars; [done| |done..]. by intros [[] [] [] [] [] [] [] []].
Qed.

Lemma formatPlain_roundtrip_witness : formatPlain (demo4 ++ demo6) = render (demo4 ++ demo6).
Proof. apply formatPlain_roundtrip; [by_decision|done]. Defined.

(** ** Names and digests *)

(** A digest that is the content itself, and names drawn from the fresh strings. *)
#[export] Instance identity_digest : Digest := {| sha256_hex s := s |}.

Definition taken (files : gmap string string) : gset string :=
  set_map (fun p => TrimSuffix p ".tmp") (dom files).

#[export, refine] Instance fresh_names : TempNames := {|
  temp_name files dir family := fresh (taken files) +:+ ".tmp";
  temp_fresh := _;
  temp_suffix := _
|}.
Proof.
  - intros files dir family. apply not_elem_of_dom. intros Hin.
    apply (is_fresh (taken files)). unfold taken at 2. apply elem_of_map.
    exists (fresh (taken files) +:+ ".tmp"). by rewrite TrimSuffix_app.
  - intros files dir family. by rewrite HasSuffix_app by (cbn; lia).
Defined.

Definition no_ctx : Ctx := fun _ => None.

Lemma writeFamily_atomic_witness :
  w_files (writeFamily "/o" no_ctx "ipv4" "/o/ipv4.txt" demo4 start).2 !! "/o/ipv4.txt.sha256"%string
  = Some (sha256_hex (render demo4)).
Proof.
  eapply (writeFamily_atomic "/o" no_ctx "ipv4" "/o/ipv4.txt" demo4 start); [done|apply run_pair|].
  - reflexivity.
  - vm_compute. reflexivity.
Defined.

(** The sidecar of [demo4] next to a file that was emptied. *)
Definition emptied : World Kernel :=
  MkWorld {[ "/o/ipv4.txt"%string := ""%string; "/o/ipv4.txt.sha256"%string := render demo4 ]}
    (MkKernel ∅ ∅) 0.

Lemma writeFamily_trusts_sidecar_witness :
  w_files (writeFamily "/o" no_ctx "ipv4" "/o/ipv4.txt" demo4 emptied).2 !! "/o/ipv4.txt"%string = Some ""%string.
Proof.
  transitivity (w_files emptied !! "/o/ipv4.txt"%string); [|done].
  apply (writeFamily_trusts_sidecar "/o" no_ctx "ipv4" "/o/ipv4.txt" demo4 emptied (render demo4) false);
    [done|done|done|].
  apply run_pair. vm_compute. reflexivity.
Defined.
