(* ===== verification/Events.v ===== *)
(** * [internal/events]: the publish/subscribe bus

  [bus.go].  Channels live in a store and are shared by the topics they are
  subscribed to; an operation that would panic (closing a closed channel,
  sending on one) has no result.  [Publish] copies the subscribers under the
  lock and sends without it: the system of [step] interleaves the sends with
  every other operation. *)

From S2P Require Import Prelude GoLib Config.

(** ** State *)

Record Event := MkEvent { ev_Topic : string; ev_Type : string; ev_Data : any }.

(** A buffered channel of capacity 16. *)
Record Chan := MkChan { ch_buf : list Event; ch_closed : bool }.
Definition chan_cap : nat := 16.

Record Bus := MkBus {
  b_subs : gmap string (list nat);
  b_chans : gmap nat Chan;
  b_next : nat }.

Definition NewBus : Bus := MkBus ∅ ∅ 0.

Definition topic_subs (b : Bus) (topic : string) : list nat := default [] (b_subs b !! topic).

(** ** Operations *)

Definition Subscribe (b : Bus) (topics : list string) : Bus * nat :=
  let ch := b_next b in
  (MkBus (foldl (fun m t => <[t := default [] (m !! t) ++ [ch]]> m) (b_subs b) topics)
     (<[ch := MkChan [] false]> (b_chans b)) (S ch), ch).

(** [close(ch)]; [None] is a panic. *)
Definition close_chan (ch : nat) (m : gmap nat Chan) : option (gmap nat Chan) :=
  match m !! ch with
  | Some c => if ch_closed c then None else Some (<[ch := MkChan (ch_buf c) true]> m)
  | None => None
  end.

(** The first occurrence goes ([append(subs[:i], subs[i+1:]...)], [break]). *)
Fixpoint remove_first (ch : nat) (l : list nat) : list nat :=
  match l with
  | [] => []
  | x :: l' => if Nat.eqb x ch then l' else x :: remove_first ch l'
  end.

Definition unsubscribe_topic (ch : nat) (l : list nat) : option (list nat) :=
  let l' := remove_first ch l in if Nat.eqb (length l') 0 then None else Some l'.

Definition Unsubscribe (b : Bus) (ch : nat) : option Bus :=
  let subs := omap (unsubscribe_topic ch) (b_subs b) in
  m ← close_chan ch (b_chans b); Some (MkBus subs m (b_next b)).

(** [select { case ch <- ev: default: }]. *)
Definition try_send (ch : nat) (ev : Event) (m : gmap nat Chan) : option (gmap nat Chan) :=
  match m !! ch with
  | Some c =>
      if ch_closed c then None
      else if Nat.ltb (length (ch_buf c)) chan_cap
      then Some (<[ch := MkChan (ch_buf c ++ [ev]) false]> m)
      else Some m
  | None => None
  end.

Fixpoint send_all (chs : list nat) (ev : Event) (m : gmap nat Chan) : option (gmap nat Chan) :=
  match chs with
  | [] => Some m
  | ch :: chs' => m' ← try_send ch ev m; send_all chs' ev m'
  end.

(** [Publish] when nothing runs between its two halves. *)
Definition Publish (b : Bus) (topic : string) (ev : Event) : option Bus :=
  let subs := topic_subs b topic in
  m ← send_all subs ev (b_chans b); Some (MkBus (b_subs b) m (b_next b)).

Fixpoint close_all (chs : list nat) (m : gmap nat Chan) : option (gmap nat Chan) :=
  match chs with
  | [] => Some m
  | ch :: chs' => m' ← close_chan ch m; close_all chs' m'
  end.

(** [Close]: the lists of the topics one after the other. *)
Definition Close (b : Bus) : option Bus :=
  m ← close_all (mjoin (map_to_list (b_subs b)).*2) (b_chans b); Some (MkBus ∅ m (b_next b)).

(** ** Interleavings *)

(** Copied subscribers still to be sent to. *)
Record Sys := MkSys { sys_bus : Bus; sys_pending : list (nat * Event) }.

Inductive label :=
| LSubscribe (topics : list string)
| LUnsubscribe (ch : nat)
| LPublish (topic : string) (ev : Event)
| LSend (i : nat)
| LReceive (ch : nat)
| LClose.

(** One atomic action; [None] is a panic. *)
Definition act (s : Sys) (l : label) : option Sys :=
  let b := sys_bus s in
  match l with
  | LSubscribe topics => Some (MkSys (fst (Subscribe b topics)) (sys_pending s))
  | LUnsubscribe ch => b' ← Unsubscribe b ch; Some (MkSys b' (sys_pending s))
  | LPublish topic ev =>
      Some (MkSys b (sys_pending s ++ ((fun ch => (ch, ev)) <$> topic_subs b topic)))
  | LSend i =>
      match sys_pending s !! i with
      | Some (ch, ev) =>
          m ← try_send ch ev (b_chans b);
          Some (MkSys (MkBus (b_subs b) m (b_next b)) (delete i (sys_pending s)))
      | None => Some s
      end
  | LReceive ch =>
      match b_chans b !! ch with
      | Some (MkChan (_ :: buf) closed) =>
          Some (MkSys (MkBus (b_subs b) (<[ch := MkChan buf closed]> (b_chans b)) (b_next b))
                  (sys_pending s))
      | _ => Some s
      end
  | LClose => b' ← Close b; Some (MkSys b' (sys_pending s))
  end.

(** What the callers must respect: topics named once, a channel unsubscribed
    while it is subscribed, and no unsubscription or shutdown while a publish is
    between its copy and its sends. *)
Definition polite (s : Sys) (l : label) : Prop :=
  match l with
  | LSubscribe topics => NoDup topics
  | LUnsubscribe ch => sys_pending s = [] /\ exists t, ch ∈ topic_subs (sys_bus s) t
  | LClose => sys_pending s = [] /\ NoDup (mjoin (map_to_list (b_subs (sys_bus s))).*2)
  | _ => True
  end.

(** Executions of polite actions. *)
Inductive reach : Sys -> Prop :=
| reach_init : reach (MkSys NewBus [])
| reach_step s l s' : reach s -> polite s l -> act s l = Some s' -> reach s'.
