(* ===== verification/EventsSpec.v ===== *)
(** * What the bus guarantees, and what it asks of its callers

  Polite executions never panic and keep every buffer within its capacity;
  [Close] panics exactly when a live channel is held by two topics; a publish
  overtaken by an unsubscription panics. *)

From S2P Require Import Prelude GoLib Config Events.

(** ** Open channels *)

Definition is_open (m : gmap nat Chan) (ch : nat) : Prop :=
  exists buf, m !! ch = Some (MkChan buf false) /\ length buf <= chan_cap.

Lemma is_open_insert_ne m ch ch' c :
  ch <> ch' -> is_open m ch -> is_open (<[ch' := c]> m) ch.
Proof. intros Hne (buf & Hb & Hl). exists buf. by rewrite lookup_insert_ne. Qed.

Lemma close_chan_open m ch :
  is_open m ch -> exists buf, close_chan ch m = Some (<[ch := MkChan buf true]> m).
Proof. intros (buf & Hb & _). exists buf. unfold close_chan. by rewrite Hb. Qed.

Lemma close_chan_closed m ch buf : m !! ch = Some (MkChan buf true) -> close_chan ch m = None.
Proof. unfold close_chan. by intros ->. Qed.

Lemma try_send_open m ch ev :
  is_open m ch ->
  exists m', try_send ch ev m = Some m' /\ (forall ch', is_open m ch' -> is_open m' ch') /\
    dom m' = dom m.
Proof.
  intros (buf & Hb & Hl). unfold try_send. rewrite Hb. simpl.
  case_if; [| by exists m].
  apply Nat.ltb_lt in Heqb. eexists. split; [reflexivity|]. split.
  - intros ch' Ho. destruct (decide (ch' = ch)) as [->|Hne]; [| by apply is_open_insert_ne].
    exists (buf ++ [ev]). rewrite lookup_insert_eq, length_app. simpl. split; [done|lia].
  - rewrite dom_insert_L. enough (ch ∈ dom m) by set_solver. by apply elem_of_dom_2 in Hb.
Qed.

(** ** Removal of the subscription *)

Lemma elem_of_remove_first ch l x :
  NoDup l -> x ∈ remove_first ch l <-> x ∈ l /\ x <> ch.
Proof.
  induction 1 as [| y l Hy _ IH]; simpl.
  { split; [intros Hx; by apply elem_of_nil in Hx | by intros [Hx _]]. }
  destruct (Nat.eqb_spec y ch) as [->|Hne]; [set_solver|].
  rewrite !elem_of_cons, IH. split; [|tauto]. intros [->|[? ?]]; auto.
Qed.

Lemma NoDup_remove_first ch l : NoDup l -> NoDup (remove_first ch l).
Proof.
  intros Hl. pose proof (fun x => proj1 (elem_of_remove_first ch l x Hl)) as Hin.
  induction Hl as [| y l Hy Hl IH]; simpl in *; [constructor|].
  destruct (Nat.eqb_spec y ch); [done|].
  pose proof (fun x => proj1 (elem_of_remove_first ch l x Hl)) as Hin'.
  constructor; [| by apply IH].
  intros Hc. apply Hin' in Hc. tauto.
Qed.

Lemma topic_subs_unsubscribe b ch m n t :
  topic_subs (MkBus (omap (unsubscribe_topic ch) (b_subs b)) m n) t =
  remove_first ch (topic_subs b t).
Proof.
  unfold topic_subs. simpl. rewrite lookup_omap.
  destruct (b_subs b !! t) as [l|]; simpl; [|done].
  unfold unsubscribe_topic. destruct (remove_first ch l) eqn:E; simpl; by rewrite ?E.
Qed.

(** ** Subscription *)

Definition add_topic (ch : nat) (m : gmap string (list nat)) (t : string) : gmap string (list nat) :=
  <[t := default [] (m !! t) ++ [ch]]> m.

Lemma add_topics_lookup ch topics m t :
  NoDup topics ->
  default [] (foldl (add_topic ch) m topics !! t) =
  default [] (m !! t) ++ (if bool_decide (t ∈ topics) then [ch] else []).
Proof.
  intros Hnd. revert m. induction Hnd as [| t' topics Ht' _ IH]; intros m; simpl.
  { by rewrite app_nil_r. }
  rewrite IH. unfold add_topic. destruct (decide (t = t')) as [->|Hne].
  - rewrite lookup_insert_eq. simpl.
    rewrite (bool_decide_eq_false_2 _ Ht'), (bool_decide_eq_true_2 (t' ∈ t' :: topics)) by set_solver.
    by rewrite app_nil_r.
  - rewrite lookup_insert_ne by done. f_equal.
    by rewrite (bool_decide_ext (t ∈ t' :: topics) (t ∈ topics)) by set_solver.
Qed.

Lemma topic_subs_subscribe b topics t :
  NoDup topics ->
  topic_subs (fst (Subscribe b topics)) t =
  topic_subs b t ++ (if bool_decide (t ∈ topics) then [b_next b] else []).
Proof. apply add_topics_lookup. Qed.

(** ** The invariant of the polite executions *)

Record bus_inv (s : Sys) : Prop := {
  inv_subs : forall t ch, ch ∈ topic_subs (sys_bus s) t -> is_open (b_chans (sys_bus s)) ch;
  inv_pending : forall p, p ∈ sys_pending s -> is_open (b_chans (sys_bus s)) (fst p);
  inv_nodup : forall t, NoDup (topic_subs (sys_bus s) t);
  inv_next : forall ch, ch ∈ dom (b_chans (sys_bus s)) -> ch < b_next (sys_bus s);
}.

Lemma is_open_dom m ch : is_open m ch -> ch ∈ dom m.
Proof. intros (buf & Hb & _). by apply elem_of_dom_2 in Hb. Qed.

Lemma bus_inv_subscribe s topics :
  bus_inv s -> NoDup topics -> bus_inv (MkSys (fst (Subscribe (sys_bus s) topics)) (sys_pending s)).
Proof.
  intros [Hs Hp Hn Hx] Hnd.
  assert (forall ch, is_open (b_chans (sys_bus s)) ch ->
    is_open (b_chans (fst (Subscribe (sys_bus s) topics))) ch) as Hkeep.
  { intros ch Ho. apply is_open_insert_ne; [|done]. apply is_open_dom, Hx in Ho. lia. }
  constructor.
  - intros t ch. cbn [sys_bus]. rewrite topic_subs_subscribe by done. rewrite elem_of_app.
    intros [Hin|Hin]; [eauto|]. case_bool_decide; [|set_solver].
    apply list_elem_of_singleton in Hin as ->.
    exists []. simpl. rewrite lookup_insert_eq. split; [done|lia].
  - intros p Hin. apply Hkeep, Hp, Hin.
  - intros t. cbn [sys_bus]. rewrite topic_subs_subscribe by done.
    apply NoDup_app. split; [done|]. split; [|case_bool_decide; repeat constructor; set_solver].
    intros ch Hin Hc. apply Hs, is_open_dom, Hx in Hin.
    case_bool_decide; [|set_solver]. apply list_elem_of_singleton in Hc. lia.
  - intros ch. simpl. rewrite dom_insert_L, elem_of_union, elem_of_singleton.
    intros [->|Hin]; [lia|]. apply Hx in Hin. lia.
Qed.

Lemma Unsubscribe_open b ch :
  is_open (b_chans b) ch ->
  exists buf, Unsubscribe b ch =
    Some (MkBus (omap (unsubscribe_topic ch) (b_subs b)) (<[ch := MkChan buf true]> (b_chans b)) (b_next b)).
Proof.
  intros Ho. destruct (close_chan_open _ _ Ho) as (buf & Hb).
  exists buf. unfold Unsubscribe. by rewrite Hb.
Qed.

Lemma bus_inv_unsubscribe s ch b' :
  bus_inv s -> sys_pending s = [] -> is_open (b_chans (sys_bus s)) ch ->
  Unsubscribe (sys_bus s) ch = Some b' -> bus_inv (MkSys b' []).
Proof.
  intros [Hs Hp Hn Hx] He Ho Hu.
  destruct (Unsubscribe_open _ _ Ho) as (buf & Hb). rewrite Hb in Hu. simplify_eq.
  constructor; cbn [sys_bus sys_pending].
  - intros t c. rewrite topic_subs_unsubscribe, elem_of_remove_first by done.
    intros [Hin Hne]. apply is_open_insert_ne; eauto.
  - intros p Hin. by apply elem_of_nil in Hin.
  - intros t. rewrite topic_subs_unsubscribe. by apply NoDup_remove_first.
  - intros c. simpl. rewrite dom_insert_L, elem_of_union, elem_of_singleton.
    intros [->|Hin]; auto. by apply Hx, is_open_dom.
Qed.

(** A step that only moves buffers. *)
Lemma bus_inv_chans s m p :
  bus_inv s ->
  (forall ch, is_open (b_chans (sys_bus s)) ch -> is_open m ch) ->
  dom m = dom (b_chans (sys_bus s)) -> (forall q, q ∈ p -> q ∈ sys_pending s) ->
  bus_inv (MkSys (MkBus (b_subs (sys_bus s)) m (b_next (sys_bus s))) p).
Proof.
  intros [Hs Hp Hn Hx] Ho Hd Hsub. constructor; simpl.
  - intros t ch Hin. apply Ho, (Hs t), Hin.
  - intros q Hin. by apply Ho, Hp, Hsub.
  - intros t. apply (Hn t).
  - rewrite Hd. apply Hx.
Qed.

(** ** [Close] *)

Lemma close_all_nodup chs : forall m,
  (forall ch, ch ∈ chs -> is_open m ch) -> NoDup chs ->
  exists m', close_all chs m = Some m' /\ dom m' = dom m.
Proof.
  induction chs as [| ch chs IH]; intros m Ho Hnd; simpl; [eauto|].
  apply NoDup_cons in Hnd as [Hni Hnd].
  destruct (close_chan_open m ch) as (buf & Hb); [set_solver|]. rewrite Hb. simpl.
  destruct (IH (<[ch := MkChan buf true]> m)) as (m' & Hm' & Hd); [|done|].
  - intros c Hc. apply is_open_insert_ne; set_solver.
  - exists m'. split; [done|]. rewrite Hd, dom_insert_L.
    enough (ch ∈ dom m) by set_solver. apply is_open_dom; set_solver.
Qed.

Lemma close_all_closed chs : forall m ch buf,
  ch ∈ chs -> m !! ch = Some (MkChan buf true) -> close_all chs m = None.
Proof.
  induction chs as [| c chs IH]; intros m ch buf Hin Hm; [by apply elem_of_nil in Hin|]. simpl.
  destruct (decide (c = ch)) as [->|Hne]; [by rewrite (close_chan_closed m ch buf)|].
  unfold close_chan. destruct (m !! c) as [[b' []]|] eqn:Hc; [done| |done]. simpl.
  apply (IH _ ch buf); [set_solver|]. by rewrite lookup_insert_ne.
Qed.

Lemma close_all_dup chs : forall m, ~ NoDup chs -> close_all chs m = None.
Proof.
  induction chs as [| c chs IH]; intros m Hd; [by destruct Hd; constructor|]. simpl.
  unfold close_chan. destruct (m !! c) as [[b' []]|] eqn:Hc; [done| |done]. simpl.
  destruct (decide (c ∈ chs)) as [Hin|Hni].
  - apply (close_all_closed _ _ c b'); [done|]. by rewrite lookup_insert_eq.
  - apply IH. intros Hnd. apply Hd. by constructor.
Qed.

Lemma elem_of_all_subs b ch :
  ch ∈ mjoin (map_to_list (b_subs b)).*2 <-> exists t, ch ∈ topic_subs b t.
Proof.
  rewrite list_elem_of_join. split.
  - intros (l & Hin & Hl). apply list_elem_of_fmap in Hl as ([t l'] & -> & Ht).
    apply elem_of_map_to_list in Ht. exists t. unfold topic_subs. by rewrite Ht.
  - intros (t & Hin). unfold topic_subs in Hin.
    destruct (b_subs b !! t) as [l|] eqn:Hl; [|by apply elem_of_nil in Hin].
    exists l. split; [done|]. apply list_elem_of_fmap. exists (t, l).
    split; [done|]. by apply elem_of_map_to_list.
Qed.

Lemma Close_ok_iff s :
  bus_inv s -> is_Some (Close (sys_bus s)) <-> NoDup (mjoin (map_to_list (b_subs (sys_bus s))).*2).
Proof.
  intros Hi. unfold Close. split.
  - intros [b' Hb]. destruct (decide (NoDup (mjoin (map_to_list (b_subs (sys_bus s))).*2))) as [|Hd]; [done|].
    by rewrite (close_all_dup _ _ Hd) in Hb.
  - intros Hnd. destruct (close_all_nodup (mjoin (map_to_list (b_subs (sys_bus s))).*2) (b_chans (sys_bus s))) as (m & Hm & _).
    + intros ch Hin. apply elem_of_all_subs in Hin as (t & Ht). by apply (inv_subs _ Hi t).
    + done.
    + rewrite Hm. eauto.
Qed.

Lemma bus_inv_close s b' :
  bus_inv s -> sys_pending s = [] -> Close (sys_bus s) = Some b' -> bus_inv (MkSys b' []).
Proof.
  intros Hi He Hc. pose proof (proj1 (Close_ok_iff _ Hi)) as Hnd.
  specialize (Hnd (ex_intro _ _ Hc)). unfold Close in Hc.
  destruct (close_all_nodup (mjoin (map_to_list (b_subs (sys_bus s))).*2) (b_chans (sys_bus s))) as (m & Hm & Hd).
  { intros ch Hin. apply elem_of_all_subs in Hin as (t & Ht). by apply (inv_subs _ Hi t). }
  { done. }
  rewrite Hm in Hc. simpl in Hc. simplify_eq.
  constructor; cbn [sys_bus sys_pending]; unfold topic_subs; cbn [b_subs b_chans b_next].
  - intros t ch. rewrite lookup_empty. simpl. intros Hin. by apply elem_of_nil in Hin.
  - intros p Hin. by apply elem_of_nil in Hin.
  - intros t. rewrite lookup_empty. constructor.
  - rewrite Hd. apply (inv_next _ Hi).
Qed.

(** ** Every polite step succeeds and keeps the invariant *)

Lemma bus_inv_init : bus_inv (MkSys NewBus []).
Proof.
  constructor; simpl; unfold topic_subs; simpl.
  - intros t ch. rewrite lookup_empty. simpl. intros Hin. by apply elem_of_nil in Hin.
  - intros p Hin. by apply elem_of_nil in Hin.
  - intros t. rewrite lookup_empty. constructor.
  - set_solver.
Qed.

Lemma act_send s i :
  bus_inv s -> exists s', act s (LSend i) = Some s' /\ bus_inv s'.
Proof.
  intros Hi. simpl. destruct (sys_pending s !! i) as [[ch ev]|] eqn:Hp; [|eauto].
  assert (is_open (b_chans (sys_bus s)) ch) as Ho.
  { apply (inv_pending _ Hi (ch, ev)). by apply list_elem_of_lookup_2 in Hp. }
  destruct (try_send_open _ ch ev Ho) as (m & Hm & Hk & Hd). rewrite Hm. simpl.
  eexists. split; [done|]. apply (bus_inv_chans s); auto.
  intros q Hq. by apply (sublist_subseteq _ _ (sublist_delete _ i)).
Qed.

Lemma act_receive s ch :
  bus_inv s -> exists s', act s (LReceive ch) = Some s' /\ bus_inv s'.
Proof.
  intros Hi. simpl. destruct (b_chans (sys_bus s) !! ch) as [[[|e buf] cl]|] eqn:Hc; [by eauto| |by eauto].
  eexists. split; [done|]. apply (bus_inv_chans s); auto.
  - intros c Ho. destruct (decide (c = ch)) as [->|Hne]; [|by apply is_open_insert_ne].
    destruct Ho as (b' & Hb & Hl). rewrite Hc in Hb. simplify_eq.
    exists buf. rewrite lookup_insert_eq. simpl in Hl. split; [done|lia].
  - rewrite dom_insert_L. enough (ch ∈ dom (b_chans (sys_bus s))) by set_solver.
    by apply elem_of_dom_2 in Hc.
Qed.

Lemma act_polite s l :
  bus_inv s -> polite s l -> exists s', act s l = Some s' /\ bus_inv s'.
Proof.
  intros Hi Hpol. destruct l as [topics | ch | topic ev | i | ch |]; simpl in Hpol.
  - eexists. split; [done|]. by apply bus_inv_subscribe.
  - destruct Hpol as [He (t & Ht)]. apply (inv_subs _ Hi) in Ht.
    destruct (Unsubscribe_open _ _ Ht) as (buf & Hu). simpl. rewrite Hu. simpl.
    eexists. split; [done|]. rewrite He. by eapply bus_inv_unsubscribe.
  - eexists. split; [done|]. destruct Hi as [Hs Hp Hn Hx]. constructor; cbn [sys_bus sys_pending]; auto.
    intros p. rewrite elem_of_app. intros [Hin|Hin]; [eauto|].
    apply list_elem_of_fmap in Hin as (ch & -> & Hin). by apply (Hs topic).
  - by apply act_send.
  - by apply act_receive.
  - destruct Hpol as [He Hnd]. apply (Close_ok_iff _ Hi) in Hnd as [b' Hb]. simpl. rewrite Hb. simpl.
    eexists. split; [done|]. rewrite He. by eapply bus_inv_close.
Qed.

Lemma reach_inv s : reach s -> bus_inv s.
Proof.
  induction 1 as [| s l s' _ IH Hpol Hact]; [apply bus_inv_init|].
  destruct (act_polite s l IH Hpol) as (s'' & Hs & Hi). by simplify_eq.
Qed.

Lemma send_all_spec chs ev : forall m,
  NoDup chs -> (forall ch, ch ∈ chs -> is_open m ch) ->
  exists m', send_all chs ev m = Some m' /\
    forall ch, m' !! ch =
      (c ← m !! ch;
       Some (if bool_decide (ch ∈ chs /\ length (ch_buf c) < chan_cap)
             then MkChan (ch_buf c ++ [ev]) false else c)).
Proof.
  induction chs as [| ch chs IH]; intros m Hnd Ho; cbn [send_all].
  { exists m. split; [done|]. intros c. destruct (m !! c); cbn [mbind option_bind]; [|done].
    rewrite bool_decide_eq_false_2; [done|]. set_solver. }
  apply NoDup_cons in Hnd as [Hni Hnd].
  destruct (try_send_open m ch ev) as (m1 & Hm1 & Hk & _); [set_solver|].
  rewrite Hm1. cbn [mbind option_bind]. destruct (IH m1) as (m' & Hm' & Hl); [done| set_solver |].
  exists m'. split; [done|]. intros c. rewrite Hl. clear IH Hl Hm'.
  destruct (Ho ch) as (buf & Hb & _); [set_solver|].
  unfold try_send in Hm1. rewrite Hb in Hm1. simpl in Hm1.
  destruct (decide (c = ch)) as [->|Hne].
  - rewrite Hb. cbn [mbind option_bind ch_buf]. destruct (Nat.ltb_spec (length buf) chan_cap) as [Hlt|Hge]; simplify_eq.
    + rewrite lookup_insert_eq. cbn [mbind option_bind ch_buf].
      rewrite bool_decide_eq_false_2 by tauto. rewrite bool_decide_eq_true_2; [done|set_solver].
    + rewrite Hb. cbn [mbind option_bind ch_buf].
      rewrite !bool_decide_eq_false_2; [done| |]; intros [_ ?]; lia.
  - assert (m1 !! c = m !! c) as ->.
    { destruct (Nat.ltb _ _); simplify_eq; [by rewrite lookup_insert_ne|done]. }
    destruct (m !! c) as [cc|]; cbn [mbind option_bind]; [|done].
    rewrite (bool_decide_ext _ (c ∈ ch :: chs /\ length (ch_buf cc) < chan_cap)); [done|set_solver].
Qed.

Lemma two_topics_dup b t1 t2 ch :
  t1 <> t2 -> ch ∈ topic_subs b t1 -> ch ∈ topic_subs b t2 ->
  ~ NoDup (mjoin (map_to_list (b_subs b)).*2).
Proof.
  unfold topic_subs. intros Hne H1 H2 Hnd.
  destruct (b_subs b !! t1) as [l1|] eqn:E1; [|by apply elem_of_nil in H1].
  destruct (b_subs b !! t2) as [l2|] eqn:E2; [|by apply elem_of_nil in H2]. simpl in *.
  pose proof (map_to_list_delete _ _ _ E1) as Hp.
  rewrite <- Hp in Hnd. simpl in Hnd. apply NoDup_app in Hnd as (_ & Hd & _).
  apply (Hd ch H1). apply list_elem_of_join. exists l2. split; [done|].
  apply list_elem_of_fmap. exists (t2, l2). split; [done|].
  apply elem_of_map_to_list. by rewrite lookup_delete_ne.
Qed.

(** [Publish] when nothing runs in between keeps the invariant. *)
Lemma bus_inv_publish b topic ev :
  bus_inv (MkSys b []) -> exists b', Publish b topic ev = Some b' /\ bus_inv (MkSys b' []).
Proof.
  intros Hi. unfold Publish.
  destruct (send_all_spec (topic_subs b topic) ev (b_chans b)) as (m & Hm & Hl);
    [apply (inv_nodup _ Hi)|intros ch; apply (inv_subs _ Hi)|].
  rewrite Hm. cbn [mbind option_bind]. eexists. split; [reflexivity|].
  apply (bus_inv_chans (MkSys b [])); [done| | |set_solver].
  - intros ch (buf & Hb & Hlen). unfold is_open. rewrite Hl. cbn [sys_bus] in Hb. rewrite Hb. cbn [mbind option_bind ch_buf].
    case_bool_decide as Hc; [|eauto]. exists (buf ++ [ev]). rewrite length_app. cbn. split; [done|]. destruct Hc. lia.
  - apply set_eq. intros ch. rewrite !elem_of_dom, Hl. cbn [sys_bus].
    destruct (b_chans b !! ch); cbn [mbind option_bind]; split; intros [? ?]; eauto; done.
Qed.

(** ** Claims *)

(** C24. No polite execution panics: from every state reachable by subscriptions,
    publications, sends and receives in any interleaving, with channels
    unsubscribed and closed only while no publish is between its copy and its
    sends, the next such step has a result, every subscribed channel is open and
    no buffer exceeds its 16 events. *)
Theorem bus_polite_safe s l :
  reach s -> polite s l ->
  is_Some (act s l) /\
  forall t ch, ch ∈ topic_subs (sys_bus s) t ->
    exists buf, b_chans (sys_bus s) !! ch = Some (MkChan buf false) /\ length buf <= chan_cap.
Proof.
  intros Hr Hp. apply reach_inv in Hr. split; [|by apply inv_subs].
  destruct (act_polite s l Hr Hp) as (s' & Hs & _). eauto.
Qed.

Lemma bus_polite_safe_witness :
  let s := MkSys (fst (Subscribe NewBus ["pipeline"; "config"]%string)) [] in
  is_Some (act s (LUnsubscribe 0)) /\
  forall t ch, ch ∈ topic_subs (sys_bus s) t ->
    exists buf, b_chans (sys_bus s) !! ch = Some (MkChan buf false) /\ length buf <= chan_cap.
Proof.
  apply (bus_polite_safe (MkSys (fst (Subscribe NewBus ["pipeline"; "config"]%string)) []) (LUnsubscribe 0)).
  - apply (reach_step (MkSys NewBus []) (LSubscribe ["pipeline"; "config"]%string)); [constructor| |reflexivity].
    simpl. apply (bool_decide_unpack (NoDup _)). reflexivity.
  - split; [reflexivity|]. exists "config"%string.
    apply (bool_decide_unpack (_ ∈ _)). reflexivity.
Defined.

(** With no other operation in between, [Publish] on a reachable bus never
    panics and appends the event to exactly the subscribers of the topic that
    have room; every other channel, and the subscriptions, are unchanged. *)
Theorem bus_publish_delivers s topic ev :
  reach s ->
  exists b', Publish (sys_bus s) topic ev = Some b' /\ b_subs b' = b_subs (sys_bus s) /\
    forall ch, b_chans b' !! ch =
      (c ← b_chans (sys_bus s) !! ch;
       Some (if bool_decide (ch ∈ topic_subs (sys_bus s) topic /\ length (ch_buf c) < chan_cap)
             then MkChan (ch_buf c ++ [ev]) false else c)).
Proof.
  intros Hr. apply reach_inv in Hr. unfold Publish.
  destruct (send_all_spec (topic_subs (sys_bus s) topic) ev (b_chans (sys_bus s))) as (m & Hm & Hl).
  - apply (inv_nodup _ Hr).
  - intros ch. apply (inv_subs _ Hr).
  - rewrite Hm. simpl. by eexists.
Qed.

Lemma bus_publish_delivers_witness :
  let s := MkSys (fst (Subscribe NewBus ["pipeline"; "config"]%string)) [] in
  let ev := MkEvent "config" "config.reload" (AStr "x") in
  exists b', Publish (sys_bus s) "config" ev = Some b' /\ b_subs b' = b_subs (sys_bus s) /\
    forall ch, b_chans b' !! ch =
      (c ← b_chans (sys_bus s) !! ch;
       Some (if bool_decide (ch ∈ topic_subs (sys_bus s) "config" /\ length (ch_buf c) < chan_cap)
             then MkChan (ch_buf c ++ [ev]) false else c)).
Proof.
  apply bus_publish_delivers.
  apply (reach_step (MkSys NewBus []) (LSubscribe ["pipeline"; "config"]%string)); [constructor| |reflexivity].
  simpl. apply (bool_decide_unpack (NoDup _)). reflexivity.
Defined.

(** [Close] closes a channel once per topic it is subscribed to: whenever a
    live subscriber named two topics (the API's event stream names three),
    [Close] panics. *)
Theorem bus_close_two_topics s topics t1 t2 :
  reach s -> NoDup topics -> t1 ∈ topics -> t2 ∈ topics -> t1 <> t2 ->
  Close (fst (Subscribe (sys_bus s) topics)) = None.
Proof.
  intros Hr Hnd H1 H2 Hne. apply reach_inv in Hr.
  pose proof (Close_ok_iff _ (bus_inv_subscribe s topics Hr Hnd)) as Hiff. cbn [sys_bus] in Hiff.
  destruct (Close _) as [b'|] eqn:Hc; [|done]. exfalso.
  apply (two_topics_dup (fst (Subscribe (sys_bus s) topics)) t1 t2 (b_next (sys_bus s)) Hne).
  - rewrite topic_subs_subscribe by done. rewrite bool_decide_eq_true_2 by done. set_solver.
  - rewrite topic_subs_subscribe by done. rewrite bool_decide_eq_true_2 by done. set_solver.
  - apply Hiff. eauto.
Qed.

Lemma bus_close_two_topics_witness :
  Close (fst (Subscribe NewBus ["pipeline"; "config"; "routing"]%string)) = None.
Proof.
  apply (bus_close_two_topics (MkSys NewBus []) _ "pipeline" "config"); [constructor| | | |done].
  - apply (bool_decide_unpack (NoDup _)). reflexivity.
  - apply (bool_decide_unpack (_ ∈ _)). reflexivity.
  - apply (bool_decide_unpack (_ ∈ _)). reflexivity.
Defined.

(** A publish overtaken by the unsubscription of one of its receivers sends
    on a closed channel and panics. *)
Theorem bus_publish_race topic ev :
  (s1 ← act (MkSys NewBus []) (LSubscribe [topic]);
   s2 ← act s1 (LPublish topic ev);
   s3 ← act s2 (LUnsubscribe 0);
   Some (act s3 (LSend 0))) = Some None.
Proof.
  unfold act, Subscribe, topic_subs, Unsubscribe.
  cbn [mbind option_bind sys_bus sys_pending fst b_next b_subs b_chans foldl NewBus].
  rewrite lookup_insert_eq. unfold close_chan. cbn. rewrite lookup_insert_eq. cbn.
  rewrite (lookup_empty (M := gmap string)). cbn. unfold try_send. by rewrite lookup_insert_eq.
Qed.
