(* ===== verification/EventStream.v ===== *)
(** * [internal/api/events.go]: the stream of events

  [handleEvents] as the steps of one client's loop, interleaved with every other
  operation of the bus ([Events]).  [json.Marshal] is an interface; what is written is a
  list of frames with their text. *)

From S2P Require Import Prelude GoLib Config Events EventsSpec.

(** ** The handler *)

(** [json.Marshal] of the data of an event. *)
Class Marshal := { marshal : any -> option string }.

Inductive Frame := FConnected | FEvent (type data : string) | FPing | FBye.

Definition frame_text (f : Frame) : string :=
  let nl := String (ascii_of_nat 10) "" in
  match f with
  | FConnected => "event: connected" +:+ nl +:+ "data: {}" +:+ nl +:+ nl
  | FEvent type data => "event: " +:+ type +:+ nl +:+ "data: " +:+ data +:+ nl +:+ nl
  | FPing => ":ping" +:+ nl +:+ nl
  | FBye => ":bye" +:+ nl +:+ nl
  end.

(** The channel a handler listens on and what it has written. *)
Record Client := MkClient { cl_chan : nat; cl_out : list Frame }.

Definition stream_topics : list string := ["pipeline"; "config"; "routing"].

Definition connect (s : Sys) : Client * Sys :=
  let '(b, ch) := Subscribe (sys_bus s) stream_topics in
  (MkClient ch [FConnected], MkSys b (sys_pending s)).

Definition write_frames (c : Client) (fs : list Frame) : Client := MkClient (cl_chan c) (cl_out c ++ fs).

(** What a closed channel gives. *)
Definition zeroEvent : Event := MkEvent "" "" ANil.

Section Stream.
Context `{Marshal}.

(** Nothing for data that cannot be encoded. *)
Definition event_frames (ev : Event) : list Frame :=
  match marshal (ev_Data ev) with Some data => [FEvent (ev_Type ev) data] | None => [] end.

(** [case ev := <-ch]; [None] when it blocks. *)
Definition stream_receive (c : Client) (s : Sys) : option (Client * Sys) :=
  let b := sys_bus s in
  match b_chans b !! cl_chan c with
  | Some (MkChan (ev :: buf) closed) =>
      Some (write_frames c (event_frames ev),
            MkSys (MkBus (b_subs b) (<[cl_chan c := MkChan buf closed]> (b_chans b)) (b_next b)) (sys_pending s))
  | Some (MkChan [] true) => Some (write_frames c (event_frames zeroEvent), s)
  | _ => None
  end.

Definition stream_ping (c : Client) : Client := write_frames c [FPing].

(** The end of the request with the deferred [Unsubscribe]; [None] is a panic. *)
Definition stream_done (c : Client) (s : Sys) : option (Client * Sys) :=
  b ← Unsubscribe (sys_bus s) (cl_chan c); Some (write_frames c [FBye], MkSys b (sys_pending s)).

(** The events sent to a channel by an action, with the number of those waiting. *)
Definition sent_to (ch : nat) (s : Sys) (l : label) : list (Event * nat) :=
  match l with
  | LSend i =>
      match sys_pending s !! i, b_chans (sys_bus s) !! ch with
      | Some (ch', ev), Some c => if Nat.eqb ch' ch then [(ev, length (ch_buf c))] else []
      | _, _ => []
      end
  | _ => []
  end.

(** Actions of the others: not on the channel of the client. *)
Definition others (ch : nat) (l : label) : Prop := l <> LReceive ch /\ l <> LUnsubscribe ch.

(** The loop among polite actions of the others, with what is sent to it. *)
Inductive stream_run (s0 : Sys) : list (Event * nat) -> Client * Sys -> Prop :=
| sr_connect : stream_run s0 [] (connect s0)
| sr_act log c s l s' :
    stream_run s0 log (c, s) -> polite s l -> others (cl_chan c) l -> act s l = Some s' ->
    stream_run s0 (log ++ sent_to (cl_chan c) s l) (c, s')
| sr_receive log c s c' s' :
    stream_run s0 log (c, s) -> stream_receive c s = Some (c', s') -> stream_run s0 log (c', s')
| sr_ping log c s : stream_run s0 log (c, s) -> stream_run s0 log (stream_ping c, s).

(** ** What a client sees *)

Definition is_event (f : Frame) : bool := match f with FEvent _ _ => true | _ => false end.

(** The events that found room. *)
Definition accepted (log : list (Event * nat)) : list Event :=
  fst <$> List.filter (fun x => Nat.ltb (snd x) chan_cap) log.

Lemma filter_app_frames l ev : List.filter is_event (l ++ event_frames ev) = List.filter is_event l ++ event_frames ev.
Proof. rewrite List.filter_app. f_equal. unfold event_frames. by destruct (marshal _). Qed.

Record stream_inv (log : list (Event * nat)) (c : Client) (s : Sys) (buf : list Event) : Prop := {
  si_reach : reach s;
  si_chan : b_chans (sys_bus s) !! cl_chan c = Some (MkChan buf false);
  si_subs : forall t, t ∈ stream_topics -> cl_chan c ∈ topic_subs (sys_bus s) t;
  si_out : List.filter is_event (cl_out c) ++ (buf ≫= event_frames) = accepted log ≫= event_frames
}.

Lemma stream_topics_nodup : NoDup stream_topics.
Proof. apply (bool_decide_unpack (NoDup stream_topics)). reflexivity. Qed.

Lemma connect_inv s : reach s -> stream_inv [] (fst (connect s)) (snd (connect s)) [].
Proof.
  intros Hr. constructor; cbn [fst snd connect cl_chan cl_out sys_bus].
  - apply (reach_step s (LSubscribe stream_topics)); [done|apply stream_topics_nodup|done].
  - cbn. by rewrite lookup_insert_eq.
  - intros t Ht. change (b_next (sys_bus s) ∈ topic_subs (fst (Subscribe (sys_bus s) stream_topics)) t).
    rewrite topic_subs_subscribe by apply stream_topics_nodup.
    rewrite bool_decide_eq_true_2 by done. set_solver.
  - done.
Qed.

(** ** The actions of the others *)

Lemma accepted_app l1 l2 : accepted (l1 ++ l2) = accepted l1 ++ accepted l2.
Proof. unfold accepted. by rewrite List.filter_app, fmap_app. Qed.

(** A shutdown with a connected client closes its channel a second time. *)
Lemma close_panics log c s buf : stream_inv log c s buf -> Close (sys_bus s) = None.
Proof.
  intros [Hr _ Hs _]. pose proof (proj1 (Close_ok_iff s (reach_inv _ Hr))) as Hc.
  destruct (Close (sys_bus s)) as [b|]; [|done]. exfalso.
  refine (two_topics_dup (sys_bus s) "pipeline" "config" (cl_chan c) _ _ _ (Hc ltac:(eauto))); [done| |];
    apply Hs; unfold stream_topics; set_solver.
Qed.

Lemma send_chan ch s i s' buf :
  act s (LSend i) = Some s' -> b_chans (sys_bus s) !! ch = Some (MkChan buf false) ->
  b_chans (sys_bus s') !! ch = Some (MkChan (buf ++ accepted (sent_to ch s (LSend i))) false) /\
  b_subs (sys_bus s') = b_subs (sys_bus s).
Proof.
  cbn [act sent_to]. intros E Hb. destruct (sys_pending s !! i) as [[ch' ev]|].
  2: { injection E as <-. by rewrite app_nil_r. }
  rewrite Hb. unfold try_send in E. destruct (Nat.eqb_spec ch' ch) as [->|Hne].
  - rewrite Hb in E. cbn [ch_closed ch_buf] in *. unfold accepted. cbn [List.filter snd].
    destruct (Nat.ltb (length buf) chan_cap); injection E as <-; cbn; [by rewrite lookup_insert_eq|by rewrite app_nil_r].
  - cbn. rewrite app_nil_r.
    destruct (b_chans (sys_bus s) !! ch') as [[b' []]|]; cbn [ch_closed ch_buf] in E; [done| |done].
    destruct (Nat.ltb _ _); injection E as <-; cbn; [by rewrite lookup_insert_ne|done].
Qed.

Lemma act_chan ch s l s' buf :
  bus_inv s -> act s l = Some s' -> polite s l -> others ch l -> Close (sys_bus s) = None ->
  b_chans (sys_bus s) !! ch = Some (MkChan buf false) ->
  b_chans (sys_bus s') !! ch = Some (MkChan (buf ++ accepted (sent_to ch s l)) false) /\
  forall t, ch ∈ topic_subs (sys_bus s) t -> ch ∈ topic_subs (sys_bus s') t.
Proof.
  intros Hi E Hp [Ho1 Ho2] Hc Hb. destruct l as [topics|ch'|topic ev|i|ch'|]; cbn [sent_to] in *.
  4: { destruct (send_chan _ _ _ _ _ E Hb) as [? Hs]. split; [done|]. unfold topic_subs. by rewrite Hs. }
  all: unfold accepted; cbn [List.filter fmap list_fmap]; rewrite app_nil_r; cbn [act] in E.
  - apply (inj Some) in E. subst s'. cbn [sys_bus polite] in *. split.
    + cbn. rewrite lookup_insert_ne; [done|]. pose proof (inv_next _ Hi ch (elem_of_dom_2 _ _ _ Hb)). lia.
    + intros t Ht. rewrite topic_subs_subscribe by done. set_solver.
  - assert (ch' <> ch) as Hne by congruence. destruct (Unsubscribe (sys_bus s) ch') as [b|] eqn:Hu; [|done].
    injection E as <-. cbn [sys_bus]. unfold Unsubscribe, close_chan in Hu.
    destruct (b_chans (sys_bus s) !! ch') as [c'|]; [|done]. destruct (ch_closed c'); [done|].
    injection Hu as <-. split; [cbn; by rewrite lookup_insert_ne|]. intros t Ht.
    rewrite topic_subs_unsubscribe. apply elem_of_remove_first; [apply (inv_nodup _ Hi)|done].
  - by injection E as <-.
  - assert (ch' <> ch) as Hne by congruence.
    destruct (b_chans (sys_bus s) !! ch') as [[[|e b'] cl]|]; injection E as <-; [done| |done].
    cbn. by rewrite lookup_insert_ne.
  - by rewrite Hc in E.
Qed.

Lemma run_inv s0 log cs :
  reach s0 -> stream_run s0 log cs -> exists buf, stream_inv log (fst cs) (snd cs) buf.
Proof.
  intros Hr. induction 1 as [|log c s l s' _ [buf Hi] Hp Ho Ha|log c s c' s' _ [buf Hi] E|log c s _ [buf Hi]]; cbn [fst snd] in *.
  - exists []. by apply connect_inv.
  - pose proof (close_panics _ _ _ _ Hi) as Hc. destruct Hi as [Hr1 Hb Hs Ho1].
    destruct (act_chan _ _ _ _ _ (reach_inv _ Hr1) Ha Hp Ho Hc Hb) as [Hb' Hs'].
    exists (buf ++ accepted (sent_to (cl_chan c) s l)). constructor; [by eapply reach_step|done|auto|].
    by rewrite accepted_app, !bind_app, app_assoc, Ho1.
  - destruct Hi as [Hr1 Hb Hs Ho1]. unfold stream_receive in E. rewrite Hb in E.
    destruct buf as [|ev buf]; [done|]. injection E as <- <-. exists buf. constructor; cbn [cl_chan cl_out write_frames].
    + apply (reach_step s (LReceive (cl_chan c))); [done|done|]. cbn. by rewrite Hb.
    + cbn. by rewrite lookup_insert_eq.
    + done.
    + rewrite filter_app_frames, <- app_assoc. done.
  - exists buf. destruct Hi as [Hr1 Hb Hs Ho1]. constructor; [done|done|done|].
    unfold stream_ping, write_frames. cbn [cl_out]. rewrite List.filter_app. cbn. by rewrite app_nil_r.
Qed.

(** ** Claims *)

(** C25. A connected client is sent every event of its topics and is delivered, in order
    and once, exactly those that were sent while fewer than 16 waited.  Its channel stays
    open and subscribed; the client can leave at any time, and then nothing refers to its
    channel; but while it stays, the shutdown of the bus panics. *)
Theorem stream_delivers s0 log c s :
  reach s0 -> stream_run s0 log (c, s) ->
  exists buf, b_chans (sys_bus s) !! cl_chan c = Some (MkChan buf false) /\ length buf <= chan_cap /\
    List.filter is_event (cl_out c) ++ (buf ≫= event_frames) = accepted log ≫= event_frames /\
    (forall t ev s', t ∈ stream_topics -> act s (LPublish t ev) = Some s' -> (cl_chan c, ev) ∈ sys_pending s') /\
    act s LClose = None /\
    exists c' s', stream_done c s = Some (c', s') /\ forall t, cl_chan c ∉ topic_subs (sys_bus s') t.
Proof.
  intros Hr Hrun. destruct (run_inv _ _ _ Hr Hrun) as [buf Hi]. cbn [fst snd] in Hi.
  pose proof (close_panics _ _ _ _ Hi) as Hc. destruct Hi as [Hr1 Hb Hs Ho]. pose proof (reach_inv _ Hr1) as Hi.
  pose proof (inv_subs _ Hi _ _ (Hs "pipeline"%string ltac:(unfold stream_topics; set_solver))) as Hopen.
  exists buf. split_and!; [done| |done| |cbn; by rewrite Hc|].
  - destruct Hopen as (b' & Hb' & Hl). rewrite Hb in Hb'. by simplify_eq.
  - intros t ev s' Ht [= <-]. cbn [sys_pending]. apply elem_of_app. right. apply list_elem_of_fmap. eauto.
  - destruct (Unsubscribe_open _ _ Hopen) as (b' & Hu). unfold stream_done. rewrite Hu. eexists _, _. split; [reflexivity|].
    intros t. cbn [sys_bus]. rewrite topic_subs_unsubscribe.
    rewrite elem_of_remove_first by apply (inv_nodup _ Hi). tauto.
Qed.
End Stream.

(** ** A client that is sent one event *)

Definition demo_marshal : Marshal := {| marshal _ := Some "{}"%string |}.
Definition demo_event : Event := MkEvent "pipeline" "pipeline.start" ANil.

Definition demo_client : Client * Sys := connect (MkSys NewBus []).
Definition demo_sent : option Sys := s ← act (snd demo_client) (LPublish "pipeline" demo_event); act s (LSend 0).
Definition demo_received : option (Client * Sys) := s ← demo_sent; stream_receive (H := demo_marshal) (fst demo_client) s.

Lemma stream_delivers_witness :
  exists c s, demo_received = Some (c, s) /\
    List.filter is_event (cl_out c) = [FEvent "pipeline.start" "{}"] /\ act s LClose = None /\
    exists c' s', stream_done c s = Some (c', s') /\ forall t, cl_chan c ∉ topic_subs (sys_bus s') t.
Proof.
  destruct demo_received as [[c s]|] eqn:E; [|vm_compute in E; discriminate E].
  exists c, s. split; [reflexivity|].
  assert (stream_run (H := demo_marshal) (MkSys NewBus []) [(demo_event, 0)] (c, s)) as Hrun.
  { destruct demo_sent as [s2|] eqn:Es; [|unfold demo_received in E; rewrite Es in E; discriminate E].
    unfold demo_received in E. rewrite Es in E. eapply sr_receive; [|exact E].
    unfold demo_sent in Es. destruct (act (snd demo_client) (LPublish "pipeline" demo_event)) as [s1|] eqn:E1; [|discriminate Es].
    assert (stream_run (H := demo_marshal) (MkSys NewBus []) [] (fst demo_client, s1)) as H1.
    { refine (sr_act _ [] (fst demo_client) (snd demo_client) (LPublish "pipeline" demo_event) s1 (sr_connect _) I _ E1); split; discriminate. }
    change [(demo_event, 0)] with ([] ++ [(demo_event, 0)]).
    replace [(demo_event, 0)] with (sent_to (cl_chan (fst demo_client)) s1 (LSend 0)).
    - refine (sr_act _ [] (fst demo_client) s1 (LSend 0) s2 H1 I _ Es); split; discriminate.
    - vm_compute in E1. injection E1 as <-. reflexivity. }
  destruct (stream_delivers (H := demo_marshal) _ _ _ _ reach_init Hrun) as (buf & _ & _ & Hout & _ & Hc & Hd).
  split; [|exact (conj Hc Hd)]. vm_compute in E. injection E as <- _. reflexivity.
Defined.
