(* ===== verification/Watcher.v ===== *)
(** * [internal/config/watch.go]: the configuration watcher

  The watcher's state, its operations, the delivery loop with its
  drain-and-retry, and the step relation of a watcher driven by publishers,
  subscribers and receivers.  Rocq values are immutable, which is what
  [Config.Clone] buys the code: a snapshot holds the configuration itself. *)

From S2P Require Import Prelude GoLib Config Events.

(** ** State *)

Record Snapshot := MkSnap { sn_Version : Z; sn_Config : Config }.

(** A subscriber's channel, with the capacity it was made with. *)
Record SChan := MkSChan { sc_cap : nat; sc_buf : list Snapshot; sc_closed : bool }.

Record Watcher := MkWatcher {
  wt_current : Snapshot;
  wt_version : Z;
  wt_subs : gmap nat nat;          (** subscription id to channel *)
  wt_chans : gmap nat SChan;       (** every channel ever made *)
  wt_nextSub : nat;
  wt_buffered : Z;
  wt_closed : bool;
  wt_eventBus : option Bus }.

Definition NewWatcher (initial : Config) (buffered : Z) (bus : option Bus) : Watcher :=
  MkWatcher (MkSnap 1 initial) 1 ∅ ∅ 0 buffered false bus.

Definition Current (w : Watcher) : Snapshot := wt_current w.

(** [uint64] increment. *)
Definition next_version (v : Z) : Z := ((v + 1) mod 2 ^ 64)%Z.

(** ** Delivery *)

(** One turn of the loop of [deliver] on an open channel no goroutine is
    receiving from: [inl] returns, [inr] retries after draining one value. *)
Definition deliver_turn (c : SChan) (snap : Snapshot) : SChan + SChan :=
  if Nat.ltb (length (sc_buf c)) (sc_cap c)
  then inl (MkSChan (sc_cap c) (sc_buf c ++ [snap]) (sc_closed c))
  else match sc_buf c with
       | _ :: buf' => inr (MkSChan (sc_cap c) buf' (sc_closed c))
       | [] => inl c
       end.

Fixpoint deliver_loop (fuel : nat) (c : SChan) (snap : Snapshot) : option SChan :=
  match fuel with
  | O => None
  | S f => match deliver_turn c snap with
           | inl c' => Some c'
           | inr c' => deliver_loop f c' snap
           end
  end.

(** Two turns are enough for a buffer within its capacity. *)
Definition deliver_fuel : nat := 2.

(** Sending on a closed or nil channel is a panic: [None]. *)
Definition deliver (snap : Snapshot) (m : gmap nat SChan) (ch : nat) : option (gmap nat SChan) :=
  match m !! ch with
  | Some c =>
      if sc_closed c then None
      else c' ← deliver_loop deliver_fuel c snap; Some (<[ch := c']> m)
  | None => None
  end.

Fixpoint deliver_all (snap : Snapshot) (chs : list nat) (m : gmap nat SChan)
  : option (gmap nat SChan) :=
  match chs with
  | [] => Some m
  | ch :: chs' => m' ← deliver snap m ch; deliver_all snap chs' m'
  end.

(** ** Operations *)

Definition join_errors (errs : list error) : error := ErrNew (Join (Error <$> errs) "; ").
Definition err_watcher_closed : error := ErrNew "config: watcher closed".

Definition reload_event : Event := MkEvent "config" "config.reload" (AMap [("keys"%string, AList [])]).

Definition publish_bus (b : option Bus) : option (option Bus) :=
  match b with
  | Some b => b' ← Events.Publish b "config" reload_event; Some (Some b')
  | None => Some None
  end.

Definition set_snapshot (w : Watcher) (snap : Snapshot) : Watcher :=
  MkWatcher snap (sn_Version snap) (wt_subs w) (wt_chans w) (wt_nextSub w) (wt_buffered w)
    (wt_closed w) (wt_eventBus w).

Definition set_chans (w : Watcher) (m : gmap nat SChan) (b : option Bus) : Watcher :=
  MkWatcher (wt_current w) (wt_version w) (wt_subs w) m (wt_nextSub w) (wt_buffered w)
    (wt_closed w) b.

(** The error of [Publish], if any, and the watcher after it. *)
Definition Publish (w : Watcher) (next : Config) : option (option error * Watcher) :=
  match Validate next with
  | e :: errs => Some (Some (join_errors (e :: errs)), w)
  | [] =>
      if wt_closed w then Some (Some err_watcher_closed, w)
      else
        let snap := MkSnap (next_version (wt_version w)) next in
        let w1 := set_snapshot w snap in
        let channels := (map_to_list (wt_subs w1)).*2 in
        m ← deliver_all snap channels (wt_chans w1);
        b ← publish_bus (wt_eventBus w1);
        Some (None, set_chans w1 m b)
  end.

(** The identity of the subscription; its channel is the one under it. *)
Definition Subscribe (w : Watcher) : Watcher * nat :=
  let id := wt_nextSub w in
  let buf := if (wt_buffered w <? 0)%Z then 0 else Z.to_nat (wt_buffered w) in
  (MkWatcher (wt_current w) (wt_version w) (<[id := id]> (wt_subs w))
     (<[id := MkSChan buf [] false]> (wt_chans w)) (S id) (wt_buffered w) (wt_closed w)
     (wt_eventBus w), id).

Definition close_schan (m : gmap nat SChan) (ch : nat) : option (gmap nat SChan) :=
  match m !! ch with
  | Some c => if sc_closed c then None else Some (<[ch := MkSChan (sc_cap c) (sc_buf c) true]> m)
  | None => None
  end.

Definition cancel (w : Watcher) (id : nat) : option Watcher :=
  match wt_subs w !! id with
  | Some sub =>
      m ← close_schan (wt_chans w) sub;
      Some (MkWatcher (wt_current w) (wt_version w) (delete id (wt_subs w)) m (wt_nextSub w)
              (wt_buffered w) (wt_closed w) (wt_eventBus w))
  | None => Some w
  end.

Fixpoint close_schans (chs : list nat) (m : gmap nat SChan) : option (gmap nat SChan) :=
  match chs with
  | [] => Some m
  | ch :: chs' => m' ← close_schan m ch; close_schans chs' m'
  end.

Definition Close (w : Watcher) : option Watcher :=
  if wt_closed w then Some w
  else
    m ← close_schans (map_to_list (wt_subs w)).*2 (wt_chans w);
    Some (MkWatcher (wt_current w) (wt_version w) ∅ m (wt_nextSub w) (wt_buffered w) true
            (wt_eventBus w)).

(** A receive on a subscriber's channel that does not block. *)
Definition receive (w : Watcher) (ch : nat) : option (Snapshot * Watcher) :=
  match wt_chans w !! ch with
  | Some (MkSChan cap (s :: buf) closed) =>
      Some (s, set_chans w (<[ch := MkSChan cap buf closed]> (wt_chans w)) (wt_eventBus w))
  | _ => None
  end.

(** ** Executions without an event bus *)

Inductive wlabel := WPublish (c : Config) | WSubscribe | WCancel (id : nat) | WReceive (ch : nat) | WClose.

Definition wact (w : Watcher) (l : wlabel) : option Watcher :=
  match l with
  | WPublish c => snd <$> Publish w c
  | WSubscribe => Some (fst (Subscribe w))
  | WCancel id => cancel w id
  | WReceive ch => Some (match receive w ch with Some (_, w') => w' | None => w end)
  | WClose => Close w
  end.

Inductive wreach (initial : Config) (buffered : Z) : Watcher -> Prop :=
| wreach_init : wreach initial buffered (NewWatcher initial buffered None)
| wreach_step w l w' :
    wreach initial buffered w -> (wt_version w < 2 ^ 64 - 1)%Z -> wact w l = Some w' ->
    wreach initial buffered w'.
