(* ===== verification/WatcherSpec.v ===== *)
(** * What the watcher guarantees

  A publication reaches every subscriber with room for one snapshot, whatever
  the subscriber has not read yet; buffered versions increase and every snapshot
  anybody can read is a valid configuration; no operation panics. *)

From S2P Require Import Prelude GoLib Config ConfigSpec Events EventsSpec Watcher.
From Stdlib Require Import Sorting.Sorted.

(** ** Delivery *)

(** The buffer after a delivery: the oldest snapshot makes room. *)
Definition delivered (c : SChan) (snap : Snapshot) : list Snapshot :=
  if Nat.eqb (sc_cap c) 0 then [] else drop (length (sc_buf c) + 1 - sc_cap c) (sc_buf c) ++ [snap].

Lemma deliver_loop_spec c snap :
  length (sc_buf c) <= sc_cap c ->
  deliver_loop deliver_fuel c snap = Some (MkSChan (sc_cap c) (delivered c snap) (sc_closed c)).
Proof.
  destruct c as [cap buf cl]. simpl. unfold delivered, deliver_turn. simpl. intros Hl.
  destruct (Nat.ltb_spec (length buf) cap) as [Hlt|Hge].
  - destruct (Nat.eqb_spec cap 0); [lia|]. by replace (length buf + 1 - cap) with 0 by lia.
  - destruct buf as [|s buf]; simpl in *.
    + destruct (Nat.eqb_spec cap 0); [by subst|lia].
    + destruct (Nat.eqb_spec cap 0); [lia|].
      replace (S (length buf + 1) - cap) with 1 by lia. simpl. rewrite drop_0.
      destruct (Nat.ltb_spec (length buf) cap); [done|lia].
Qed.

Lemma delivered_length c snap :
  length (sc_buf c) <= sc_cap c -> length (delivered c snap) <= sc_cap c.
Proof.
  unfold delivered. intros Hl. destruct (Nat.eqb_spec (sc_cap c) 0); simpl; [lia|].
  rewrite length_app, length_drop. simpl. lia.
Qed.

(** ** The invariant *)

Definition older (a b : Snapshot) : Prop := (sn_Version a < sn_Version b)%Z.

Record chan_ok (v : Z) (c : SChan) : Prop := {
  ck_len : length (sc_buf c) <= sc_cap c;
  ck_sorted : StronglySorted older (sc_buf c);
  ck_snaps : Forall (fun s => (sn_Version s <= v)%Z /\ Validate (sn_Config s) = []) (sc_buf c);
}.

(** The event bus, if there is one, outside its operations. *)
Definition bus_ok (b : option Bus) : Prop := forall bus, b = Some bus -> bus_inv (MkSys bus []).

Lemma publish_bus_ok b : bus_ok b -> exists b', publish_bus b = Some b' /\ bus_ok b'.
Proof.
  intros Hb. destruct b as [bus|]; [|by exists None].
  destruct (bus_inv_publish bus "config" reload_event (Hb bus eq_refl)) as (bus' & E & Hi).
  exists (Some bus'). cbn [publish_bus]. rewrite E. split; [done|]. by intros ? [= <-].
Qed.

Record winv (w : Watcher) : Prop := {
  wi_version : (1 <= wt_version w)%Z /\ sn_Version (wt_current w) = wt_version w;
  wi_valid : Validate (sn_Config (wt_current w)) = [];
  wi_chans : forall ch c, wt_chans w !! ch = Some c -> ch < wt_nextSub w /\ chan_ok (wt_version w) c;
  wi_subs : forall id ch, wt_subs w !! id = Some ch ->
    ch = id /\ exists c, wt_chans w !! ch = Some c /\ sc_closed c = false;
  wi_bus : bus_ok (wt_eventBus w);
}.

Lemma drop_strongly_sorted {A} (R : A -> A -> Prop) n : forall l,
  StronglySorted R l -> StronglySorted R (drop n l).
Proof.
  induction n as [| n IH]; intros [|x l] Hl; simpl; auto. apply IH. by inversion Hl.
Qed.

Lemma snoc_strongly_sorted {A} (R : A -> A -> Prop) l x :
  StronglySorted R l -> Forall (fun y => R y x) l -> StronglySorted R (l ++ [x]).
Proof.
  induction 1 as [| y l Hl IH Hy]; simpl; intros Hx; [repeat constructor|].
  inversion Hx; subst. constructor; [by apply IH|]. apply Forall_app. by repeat constructor.
Qed.

Lemma chan_ok_delivered v c next :
  chan_ok v c -> Validate next = [] ->
  chan_ok (v + 1) (MkSChan (sc_cap c) (delivered c (MkSnap (v + 1) next)) (sc_closed c)).
Proof.
  intros [Hl Hs Hf] Hv. constructor; cbn [sc_cap sc_buf]; [by apply delivered_length| |];
    unfold delivered; destruct (Nat.eqb (sc_cap c) 0); try constructor.
  - apply snoc_strongly_sorted; [by apply drop_strongly_sorted|].
    apply Forall_drop. eapply Forall_impl; [exact Hf|]. unfold older. simpl. intros s [? _]. lia.
  - apply Forall_app. split; [|repeat constructor; simpl; auto; lia].
    apply Forall_drop. eapply Forall_impl; [exact Hf|]. simpl. intros s [? ?]. split; [lia|done].
Qed.

Lemma chan_ok_mono v v' c : (v <= v')%Z -> chan_ok v c -> chan_ok v' c.
Proof.
  intros Hv [Hl Hs Hf]. constructor; auto.
  eapply Forall_impl; [exact Hf|]. simpl. intros s [? ?]. split; [lia|done].
Qed.

Lemma winv_new initial buffered bus :
  Validate initial = [] -> bus_ok bus -> winv (NewWatcher initial buffered bus).
Proof.
  intros Hv Hb. constructor; simpl; auto; [lia| |]; intros ? ?; by rewrite lookup_empty.
Qed.

(** ** Publication *)

Definition live (m : gmap nat SChan) (ch : nat) : Prop :=
  exists c, m !! ch = Some c /\ sc_closed c = false /\ length (sc_buf c) <= sc_cap c.

Lemma deliver_all_spec snap chs : forall m,
  NoDup chs -> (forall ch, ch ∈ chs -> live m ch) ->
  exists m', deliver_all snap chs m = Some m' /\
    forall ch, m' !! ch =
      (c ← m !! ch;
       Some (if bool_decide (ch ∈ chs) then MkSChan (sc_cap c) (delivered c snap) (sc_closed c) else c)).
Proof.
  induction chs as [| ch chs IH]; intros m Hnd Ho; cbn [deliver_all].
  { exists m. split; [done|]. intros c. destruct (m !! c); cbn [mbind option_bind]; [|done].
    rewrite bool_decide_eq_false_2; [done|set_solver]. }
  apply NoDup_cons in Hnd as [Hni Hnd].
  destruct (Ho ch) as (c & Hc & Hcl & Hl); [set_solver|].
  unfold deliver. rewrite Hc, Hcl, deliver_loop_spec by done. cbn [mbind option_bind].
  destruct (IH (<[ch:=MkSChan (sc_cap c) (delivered c snap) (sc_closed c)]> m)) as (m' & Hm' & Hlk); [done| |].
  { intros ch' Hin. destruct (Ho ch') as (c' & ? & ? & ?); [set_solver|].
    exists c'. rewrite lookup_insert_ne by set_solver. done. }
  exists m'. split; [done|]. intros ch'. rewrite Hlk. destruct (decide (ch' = ch)) as [->|Hne].
  - rewrite lookup_insert_eq, Hc. cbn [mbind option_bind].
    rewrite bool_decide_eq_false_2 by done. by rewrite bool_decide_eq_true_2 by set_solver.
  - rewrite lookup_insert_ne by done. destruct (m !! ch'); cbn [mbind option_bind]; [|done].
    by rewrite (bool_decide_ext (ch' ∈ ch :: chs) (ch' ∈ chs)) by set_solver.
Qed.

Lemma elem_of_subs w ch :
  ch ∈ (map_to_list (wt_subs w)).*2 <-> exists id, wt_subs w !! id = Some ch.
Proof.
  rewrite list_elem_of_fmap. split.
  - intros ([id c] & -> & Hin). apply elem_of_map_to_list in Hin. eauto.
  - intros (id & Hid). exists (id, ch). split; [done|]. by apply elem_of_map_to_list.
Qed.

Lemma subs_NoDup w : winv w -> NoDup (map_to_list (wt_subs w)).*2.
Proof.
  intros Hi. apply NoDup_fmap_2_strong; [|apply NoDup_map_to_list].
  intros [i x] [j y] Hx Hy Hxy. simpl in Hxy. subst y.
  apply elem_of_map_to_list in Hx, Hy.
  apply (wi_subs _ Hi) in Hx as [-> _]. apply (wi_subs _ Hi) in Hy as [-> _]. done.
Qed.

Lemma subs_live w ch : winv w -> ch ∈ (map_to_list (wt_subs w)).*2 -> live (wt_chans w) ch.
Proof.
  intros Hi Hin. apply elem_of_subs in Hin as (id & Hid).
  apply (wi_subs _ Hi) in Hid as (_ & c & Hc & Hcl). exists c.
  split_and!; auto. by apply (wi_chans _ Hi) in Hc as [_ [? _ _]].
Qed.

Lemma next_version_succ v : (1 <= v < 2 ^ 64 - 1)%Z -> next_version v = (v + 1)%Z.
Proof. intros Hv. unfold next_version. apply Z.mod_small. lia. Qed.

(** The channels after a publication. *)
Lemma Publish_ok w next :
  winv w -> (wt_version w < 2 ^ 64 - 1)%Z -> Validate next = [] -> wt_closed w = false ->
  exists w', Publish w next = Some (None, w') /\ winv w' /\
    wt_current w' = MkSnap (wt_version w + 1) next /\ wt_subs w' = wt_subs w /\
    forall ch, wt_chans w' !! ch =
      (c ← wt_chans w !! ch;
       Some (if bool_decide (ch ∈ (map_to_list (wt_subs w)).*2)
             then MkSChan (sc_cap c) (delivered c (wt_current w')) (sc_closed c) else c)).
Proof.
  intros Hi Hv Hval Hcl. pose proof (wi_version _ Hi) as [Hv1 _].
  unfold Publish. rewrite Hval, Hcl, next_version_succ by lia.
  destruct (deliver_all_spec (MkSnap (wt_version w + 1) next) (map_to_list (wt_subs w)).*2 (wt_chans w))
    as (m & Hm & Hlk).
  { by apply subs_NoDup. }
  { intros ch. by apply subs_live. }
  cbn [set_snapshot wt_subs wt_chans wt_eventBus]. rewrite Hm. cbn [mbind option_bind].
  destruct (publish_bus_ok (wt_eventBus w)) as (bus' & Hbus & Hbok); [apply (wi_bus _ Hi)|].
  rewrite Hbus. cbn [mbind option_bind].
  eexists. split; [reflexivity|]. split; [|by split_and!].
  constructor; cbn [set_chans set_snapshot wt_version wt_current wt_chans wt_subs wt_eventBus wt_nextSub
                    sn_Version sn_Config]; auto; [lia| |].
  - intros ch c. rewrite Hlk. destruct (wt_chans w !! ch) as [c0|] eqn:Hc; [|done].
    cbn [mbind option_bind]. intros [= <-]. apply (wi_chans _ Hi) in Hc as [Hlt Hok].
    split; [done|]. case_bool_decide; [by apply chan_ok_delivered|]. apply (chan_ok_mono (wt_version w)); [lia|done].
  - intros id ch Hid. destruct (wi_subs _ Hi id ch Hid) as (He & c & Hc & Hcc).
    split; [done|]. rewrite Hlk, Hc. cbn [mbind option_bind]. eexists. split; [done|].
    by case_bool_decide.
Qed.

(** ** The other operations *)

Lemma winv_subscribe w : winv w -> winv (fst (Subscribe w)).
Proof.
  intros [Hv Hval Hc Hs Hb]. constructor; simpl; auto.
  - intros ch c. rewrite lookup_insert_Some. intros [[<- <-]|[Hne Hch]].
    + split; [lia|]. constructor; simpl; [lia|constructor|constructor].
    + apply Hc in Hch as [? ?]. split; [lia|done].
  - intros id ch. rewrite lookup_insert_Some. intros [[<- <-]|[Hne Hid]].
    + split; [done|]. eexists. by rewrite lookup_insert_eq.
    + destruct (Hs id ch Hid) as (-> & c & Hch & Hcl). split; [done|].
      exists c. by rewrite lookup_insert_ne.
Qed.

Lemma chan_ok_close v c : chan_ok v c -> chan_ok v (MkSChan (sc_cap c) (sc_buf c) true).
Proof. by intros [? ? ?]; constructor. Qed.

Lemma cancel_ok w id : winv w -> exists w', cancel w id = Some w' /\ winv w'.
Proof.
  intros Hi. unfold cancel. destruct (wt_subs w !! id) as [ch|] eqn:Hid; [|eauto].
  pose proof Hi as [Hv Hval Hc Hs Hb].
  destruct (Hs id ch Hid) as (-> & c & Hch & Hcl).
  unfold close_schan. rewrite Hch, Hcl. cbn [mbind option_bind]. eexists. split; [done|].
  constructor; simpl; auto.
  - intros ch c'. rewrite lookup_insert_Some. intros [[<- <-]|[Hne Hch']]; [|by apply Hc].
    apply Hc in Hch as [? ?]. split; [done|]. by apply chan_ok_close.
  - intros id' ch'. rewrite lookup_delete_Some. intros [Hne Hid'].
    destruct (Hs id' ch' Hid') as (-> & c' & Hc' & Hcl'). split; [done|].
    exists c'. by rewrite lookup_insert_ne.
Qed.

Lemma close_schans_spec chs : forall m,
  NoDup chs -> (forall ch, ch ∈ chs -> live m ch) ->
  exists m', close_schans chs m = Some m' /\
    forall ch c', m' !! ch = Some c' ->
      exists c, m !! ch = Some c /\ (c' = c \/ c' = MkSChan (sc_cap c) (sc_buf c) true).
Proof.
  induction chs as [| ch chs IH]; intros m Hnd Ho; cbn [close_schans]; [by exists m; split; eauto|].
  apply NoDup_cons in Hnd as [Hni Hnd].
  destruct (Ho ch) as (c & Hc & Hcl & Hl); [set_solver|].
  unfold close_schan. rewrite Hc, Hcl. cbn [mbind option_bind].
  destruct (IH (<[ch:=MkSChan (sc_cap c) (sc_buf c) true]> m)) as (m' & Hm' & Hlk); [done| |].
  { intros ch' Hin. destruct (Ho ch') as (c' & ? & ? & ?); [set_solver|].
    exists c'. rewrite lookup_insert_ne by set_solver. done. }
  exists m'. split; [done|]. intros ch' c' Hc'. apply Hlk in Hc' as (c0 & Hc0 & Hor).
  apply lookup_insert_Some in Hc0 as [[<- <-]|[Hne Hc0]]; [|eauto].
  exists c. split; [done|]. right. by destruct Hor as [->| ->].
Qed.

Lemma Close_ok w : winv w -> exists w', Close w = Some w' /\ winv w'.
Proof.
  intros Hi. unfold Close. destruct (wt_closed w); [eauto|].
  destruct (close_schans_spec (map_to_list (wt_subs w)).*2 (wt_chans w)) as (m & Hm & Hlk).
  { by apply subs_NoDup. }
  { intros ch. by apply subs_live. }
  rewrite Hm. cbn [mbind option_bind]. eexists. split; [done|].
  pose proof Hi as [Hv Hval Hc Hs Hb]. constructor; simpl; auto.
  - intros ch c' Hc'. apply Hlk in Hc' as (c & Hch & Hor). apply Hc in Hch as [? ?].
    split; [done|]. destruct Hor as [->| ->]; [done|by apply chan_ok_close].
  - intros id ch. by rewrite lookup_empty.
Qed.

Lemma winv_receive w ch s w' : winv w -> receive w ch = Some (s, w') -> winv w'.
Proof.
  intros [Hv Hval Hc Hs Hb]. unfold receive.
  destruct (wt_chans w !! ch) as [[cap [|s' buf] cl]|] eqn:Hch; [done| |done].
  intros [= <- <-]. constructor; simpl; auto.
  - intros ch' c. rewrite lookup_insert_Some. intros [[<- <-]|[Hne Hch']]; [|by apply Hc].
    apply Hc in Hch as [? [Hl Hso Hf]]. split; [done|]. simpl in *.
    inversion Hso; inversion Hf; subst. constructor; simpl; [lia|done|done].
  - intros id ch' Hid. destruct (Hs id ch' Hid) as (-> & c & Hc' & Hcl). split; [done|].
    destruct (decide (id = ch)) as [->|Hne].
    + rewrite Hch in Hc'. simplify_eq. eexists. rewrite lookup_insert_eq. done.
    + exists c. by rewrite lookup_insert_ne.
Qed.

(** Whatever is published, [Publish] returns. *)
Lemma Publish_total w next :
  winv w -> (wt_version w < 2 ^ 64 - 1)%Z ->
  exists e w', Publish w next = Some (e, w') /\ winv w' /\ match e with None => sn_Config (wt_current w') = next | Some _ => w' = w end.
Proof.
  intros Hi Hv. destruct (Validate next) eqn:Hval; [|unfold Publish; rewrite Hval; eauto].
  destruct (wt_closed w) eqn:Hcl; [unfold Publish; rewrite Hval, Hcl; eauto|].
  destruct (Publish_ok w next Hi Hv Hval Hcl) as (w' & Hp & Hi' & Hc & _). exists None, w'. by rewrite Hc.
Qed.

(** The bus may be used by others in between. *)
Lemma winv_bus w b : winv w -> bus_ok b -> winv (set_chans w (wt_chans w) b).
Proof. by intros [Hv Hval Hc Hs _] Hb; constructor. Qed.

Lemma wact_ok w l :
  winv w -> (wt_version w < 2 ^ 64 - 1)%Z -> exists w', wact w l = Some w' /\ winv w'.
Proof.
  intros Hi Hv. destruct l as [c | | id | ch |]; simpl.
  - destruct (Publish_total w c Hi Hv) as (e & w' & -> & Hi' & _). simpl. eauto.
  - eexists. split; [done|]. by apply winv_subscribe.
  - by apply cancel_ok.
  - destruct (receive w ch) as [[s w']|] eqn:Hr; [|eauto].
    eexists. split; [done|]. by eapply winv_receive.
  - by apply Close_ok.
Qed.

Lemma wreach_inv initial buffered w :
  Validate initial = [] -> wreach initial buffered w -> winv w.
Proof.
  intros Hval. induction 1 as [| w l w' _ IH Hv Hact]; [by apply (winv_new _ _ None)|].
  destruct (wact_ok w l IH Hv) as (w'' & Hw & Hi). by simplify_eq.
Qed.

(** ** Claims *)



(** [Publish] of a valid configuration on an open watcher makes it the current
    snapshot under the next version and leaves it, as the newest entry, in the
    channel of every subscriber that can hold one: the oldest entry of a full
    channel is dropped, the others keep their order, and a channel nobody
    subscribes to is untouched.  An invalid configuration, or a closed watcher,
    is refused with an error and changes nothing. *)
Theorem watcher_publish initial buffered w next :
  Validate initial = [] -> wreach initial buffered w -> (wt_version w < 2 ^ 64 - 1)%Z ->
  (Validate next <> [] \/ wt_closed w = true -> exists e, Publish w next = Some (Some e, w)) /\
  (Validate next = [] -> wt_closed w = false ->
   exists w', Publish w next = Some (None, w') /\
     Current w' = MkSnap (sn_Version (Current w) + 1) next /\
     (forall id ch c, wt_subs w !! id = Some ch -> wt_chans w !! ch = Some c -> 0 < sc_cap c ->
        exists c', wt_chans w' !! ch = Some c' /\ last (sc_buf c') = Some (Current w') /\
          sc_buf c' = drop (length (sc_buf c) + 1 - sc_cap c) (sc_buf c) ++ [Current w']) /\
     (forall ch, (forall id, wt_subs w !! id <> Some ch) -> wt_chans w' !! ch = wt_chans w !! ch)).
Proof.
  intros Hval Hr Hv. apply wreach_inv in Hr as Hi; [|done]. split.
  { unfold Publish. destruct (Validate next); [|eauto].
    intros [Hne| ->]; [by destruct Hne|eauto]. }
  intros Hn Hcl. destruct (Publish_ok w next Hi Hv Hn Hcl) as (w' & Hp & _ & Hcur & Hsubs & Hlk).
  exists w'. split; [done|]. unfold Current. destruct (wi_version _ Hi) as [_ ->].
  split; [done|]. split.
  - intros id ch c Hid Hc Hcap. rewrite Hlk, Hc. cbn [mbind option_bind].
    rewrite bool_decide_eq_true_2 by (apply elem_of_subs; eauto). eexists. split; [done|].
    cbn [sc_buf]. unfold delivered. destruct (Nat.eqb_spec (sc_cap c) 0); [lia|].
    split; [by rewrite last_snoc|done].
  - intros ch Hno. rewrite Hlk. rewrite bool_decide_eq_false_2; [by destruct (wt_chans w !! ch)|].
    rewrite elem_of_subs. intros (id & Hid). by apply (Hno id).
Qed.

Lemma watcher_publish_witness :
  exists w', Publish (fst (Subscribe (NewWatcher Defaults 1 None))) Defaults = Some (None, w') /\
    Current w' = MkSnap 2 Defaults.
Proof.
  destruct (watcher_publish Defaults 1 (fst (Subscribe (NewWatcher Defaults 1 None))) Defaults)
    as (_ & H).
  - vm_compute. reflexivity.
  - apply (wreach_step _ _ (NewWatcher Defaults 1 None) WSubscribe); [constructor|reflexivity|reflexivity].
  - reflexivity.
  - destruct H as (w' & Hp & Hc & _); [vm_compute; reflexivity|reflexivity|].
    exists w'. split; [exact Hp|exact Hc].
Defined.
