(* ===== verification/Cache.v ===== *)
(** * [internal/cache]: the resolution cache

  [cache.go], [domains.go], [records.go], [snapshot.go], [stats.go], [kv.go]:
  the tables of the SQLite database with the statements the code executes on
  them, one Definition per statement, inside transactions whose every call may
  fail.  The limit on the parameters of a statement is the database's. *)

From S2P Require Import Prelude Order GoLib Os Netip NetipText Cidr Float64.
From Stdlib Require Import SpecFloat.

Local Open Scope Z_scope.

(** ** Results of a resolution *)

Inductive Status := StatusValid | StatusFailed | StatusNXDomain | StatusUnknown.

#[export] Instance Status_eq_dec : EqDecision Status.
Proof. solve_decision. Defined.

Definition status_string (s : Status) : string :=
  match s with
  | StatusValid => "valid"
  | StatusFailed => "failed"
  | StatusNXDomain => "nxdomain"
  | StatusUnknown => "unknown"
  end.

(** [rr_ResolvedAt] counts nanoseconds since the epoch. *)
Record ResolveResult := MkResult {
  rr_Domain : string; rr_IPv4 : list Addr; rr_IPv6 : list Addr; rr_Status : Status;
  rr_ResolvedAt : Z; rr_Err : option error }.

Definition Unix (t : Z) : Z := t / 10 ^ 9.

(** [int64(d.seconds64())]: the seconds of a duration in binary64, truncated. *)
Definition seconds64 (d : Z) : spec_float :=
  SFadd 53 1024 (F64.of_int (Z.quot d (10 ^ 9))) (F64.div (F64.of_int (Z.rem d (10 ^ 9))) (F64.of_int (10 ^ 9))).

(** ** Tables *)

Record DomainRow := MkDomainRow { dr_id : Z; dr_status : string; dr_last : Z }.
Record RecordVal := MkRecordVal { rv_updated : Z; rv_status : string }.

(** [records] under its unique key [(domain_id, ip, type)]. *)
Abbreviation RecordKey := (Z * string * string)%type.

Record Tables := MkTables {
  tb_domains : gmap string DomainRow;
  tb_records : gmap RecordKey RecordVal;
  tb_kv : gmap string string }.
Definition emptyTables : Tables := MkTables ∅ ∅ ∅.

(** The database in the world the operations run in. *)
Class Sqlite (K : Type) := {
  db_get : K -> Tables;
  db_set : Tables -> K -> K;
  db_get_set : forall t k, db_get (db_set t k) = t;
  max_params : Z
}.

Definition set_domains (t : Tables) (m : gmap string DomainRow) : Tables := MkTables m (tb_records t) (tb_kv t).
Definition set_records (t : Tables) (m : gmap RecordKey RecordVal) : Tables := MkTables (tb_domains t) m (tb_kv t).
Definition set_kv (t : Tables) (m : gmap string string) : Tables := MkTables (tb_domains t) (tb_records t) m.

(** An [INTEGER PRIMARY KEY] is one above the largest in the table. *)
Definition next_id (m : gmap string DomainRow) : Z := 1 + foldr Z.max 0 (dr_id <$> (map_to_list m).*2).

(** [INSERT INTO domains(name) VALUES ... ON CONFLICT(name) DO NOTHING], with the
    defaults of the schema. *)
Definition insert_domain (m : gmap string DomainRow) (name : string) : gmap string DomainRow :=
  match m !! name with
  | Some _ => m
  | None => <[name := MkDomainRow (next_id m) "unknown" 0]> m
  end.
Definition insert_domains (names : list string) (t : Tables) : option Tables :=
  Some (set_domains t (foldl insert_domain (tb_domains t) names)).

(** Per-domain metadata and [UPDATE domains SET ... WHERE name=?] with the check
    on the column. *)
Record domainStatus := MkDomainStatus { ds_name : string; ds_resolveStatus : string; ds_lastResolvedAt : Z }.

Definition update_domain (ds : domainStatus) (t : Tables) : option Tables :=
  if one_of (ds_resolveStatus ds) ["unknown"; "valid"; "failed"; "nxdomain"]%string then
    Some (set_domains t
      (alter (fun r => MkDomainRow (dr_id r) (ds_resolveStatus ds) (ds_lastResolvedAt ds)) (ds_name ds) (tb_domains t)))
  else None.

Record recordRow := MkRecordRow {
  rw_domain : string; rw_ip : string; rw_typ : string; rw_updatedAt : Z; rw_status : string }.

(** One row of the upsert with the checks and the foreign key of the table. *)
Definition upsert_record (t : Tables) (kv : RecordKey * RecordVal) : option Tables :=
  let '((id, ip, typ), v) := kv in
  if one_of typ ["A"; "AAAA"]%string && one_of (rv_status v) ["valid"; "failed"]%string
     && existsb (fun r => dr_id r =? id) (map_to_list (tb_domains t)).*2
  then Some (set_records t (<[(id, ip, typ) := v]> (tb_records t)))
  else None.

Fixpoint upsert_records (rows : list (RecordKey * RecordVal)) (t : Tables) : option Tables :=
  match rows with
  | [] => Some t
  | r :: rows' => t' ← upsert_record t r; upsert_records rows' t'
  end.

(** ** Batches *)

Definition maxParamsPerStmt : nat := 900.
Definition maxRowsPerTx : nat := 1000.

(** [for i := 0; i < len(l); i += n]: the slices [l[i:min(i+n, len(l))]]. *)
Fixpoint chunks_loop {A} (fuel n : nat) (l : list A) : list (list A) :=
  match fuel, l with
  | S fuel', _ :: _ => take n l :: chunks_loop fuel' n (drop n l)
  | _, _ => []
  end.
Definition chunks {A} (n : nat) (l : list A) : list (list A) := chunks_loop (length l) n l.

(** ** [UpsertBatch] *)

Definition record_status (s : Status) : string := if bool_decide (s = StatusValid) then "valid" else "failed".

Definition expand_result (r : ResolveResult) : list recordRow :=
  let row typ addr :=
    MkRecordRow (rr_Domain r) (AString addr) typ (Unix (rr_ResolvedAt r)) (record_status (rr_Status r)) in
  (row "A"%string <$> rr_IPv4 r) ++ (row "AAAA"%string <$> rr_IPv6 r).
Definition expandResultsWithDomain (results : list ResolveResult) : list recordRow := results ≫= expand_result.

Definition domain_status (r : ResolveResult) : domainStatus :=
  MkDomainStatus (rr_Domain r) (status_string (rr_Status r)) (Unix (rr_ResolvedAt r)).
Definition buildDomainStatuses (results : list ResolveResult) : list domainStatus := domain_status <$> results.

(** The names in the order of their first occurrence. *)
Fixpoint unique_names (seen : gset string) (l : list domainStatus) : list string :=
  match l with
  | [] => []
  | ds :: l' =>
      if bool_decide (ds_name ds ∈ seen) then unique_names seen l'
      else ds_name ds :: unique_names ({[ds_name ds]} ∪ seen) l'
  end.

Section Cache.
Context {K : Type} `{Env K} `{Sqlite K}.
Local Notation IO := (IO K).

(** The database of a world. *)
Definition db (w : World K) : Tables := db_get (w_kern w).

Definition get_db : IO Tables := fun w => (Ok (db w), w).
Definition put_db (t : Tables) : IO unit := fun w =>
  (Ok tt, MkWorld (w_files w) (db_set t (w_kern w)) (w_calls w)).

(** A statement with [n] parameters on the tables a transaction sees. *)
Definition exec_stmt (n : Z) (f : Tables -> option Tables) (t : Tables) : IO Tables :=
  syscall;;
  if max_params <? n then io_err (ErrNew "too many SQL variables")
  else match f t with Some t' => mret t' | None => io_err (ErrNew "constraint failed") end.

(** A query with [n] parameters: it fails or sees the tables. *)
Definition query {A} (n : Z) (f : Tables -> A) (t : Tables) : IO A :=
  syscall;; if max_params <? n then io_err (ErrNew "too many SQL variables") else mret (f t).

(** [BeginTx], a body and [Commit]; when any of them fails nothing is written. *)
Definition transaction {A} (body : Tables -> IO (A * Tables)) : IO A :=
  io_wrap "begin tx" syscall;;
  t ← get_db;
  '(a, t') ← body t;
  io_wrap "commit" syscall;;
  put_db t';;
  mret a.

(** A statement or query outside a transaction. *)
Definition autocommit (n : Z) (f : Tables -> option Tables) : IO unit :=
  t ← get_db; t' ← exec_stmt n f t; put_db t'.
Definition select {A} (n : Z) (f : Tables -> A) : IO A := t ← get_db; query n f t.

Fixpoint each {X} (step : X -> Tables -> IO Tables) (l : list X) (t : Tables) : IO Tables :=
  match l with [] => mret t | x :: l' => t ← step x t; each step l' t end.

(** [SELECT id, name FROM domains WHERE name IN (...)]. *)
Definition ids_of (names : list string) (t : Tables) : gmap string Z :=
  dr_id <$> filter (fun kv : string * DomainRow => kv.1 ∈ names) (tb_domains t).

Fixpoint select_ids (batches : list (list string)) (idMap : gmap string Z) (t : Tables) : IO (gmap string Z) :=
  match batches with
  | [] => mret idMap
  | batch :: batches' =>
      rows ← io_wrap "select domain ids" (query (Z.of_nat (length batch)) (ids_of batch) t);
      select_ids batches' (rows ∪ idMap) t
  end.

Definition ensureAllDomainsWithStatus (domains : list string) (statuses : list domainStatus)
    : IO (gmap string Z) :=
  if Nat.eqb (length domains) 0 then mret ∅ else
  transaction (fun t =>
    t ← each (fun batch t => io_wrap "insert domains batch"
                (exec_stmt (Z.of_nat (length batch)) (insert_domains batch) t)) (chunks maxParamsPerStmt domains) t;
    t ← each (fun ds t => io_wrap "update domain status" (exec_stmt 3 (update_domain ds) t)) statuses t;
    idMap ← select_ids (chunks maxParamsPerStmt domains) ∅ t;
    mret (idMap, t)).

(** The arguments of the bulk upsert; [None] is a domain without an id. *)
Definition bind_row (idMap : gmap string Z) (row : recordRow) : option (RecordKey * RecordVal) :=
  id ← idMap !! rw_domain row;
  Some ((id, rw_ip row, rw_typ row), MkRecordVal (rw_updatedAt row) (rw_status row)).

Definition upsert_tx (idMap : gmap string Z) (batch : list recordRow) : IO unit :=
  transaction (fun t =>
    match mapM (bind_row idMap) batch with
    | None => io_err (ErrNew "domain missing from idMap after ensureDomains")
    | Some args =>
        t ← io_wrap "upsert records" (exec_stmt (5 * Z.of_nat (length batch)) (upsert_records args) t);
        mret (tt, t)
    end).

Fixpoint upsert_batches (idMap : gmap string Z) (batches : list (list recordRow)) : IO unit :=
  match batches with
  | [] => mret tt
  | batch :: batches' => upsert_tx idMap batch;; upsert_batches idMap batches'
  end.

Definition UpsertBatch (results : list ResolveResult) : IO unit :=
  if Nat.eqb (length results) 0 then mret tt else
  let rows := expandResultsWithDomain results in
  let domainStatuses := buildDomainStatuses results in
  let allDomains := unique_names ∅ domainStatuses in
  idMap ← io_wrap "ensure domains" (ensureAllDomainsWithStatus allDomains domainStatuses);
  upsert_batches idMap (chunks maxRowsPerTx rows).

(** ** [NeedsRefresh] *)

(** Whether a row found by the query is stale. *)
Definition row_stale (validThresh failedThresh : Z) (r : DomainRow) : bool :=
  if String.eqb (dr_status r) "unknown" then true
  else
    let threshold := if one_of (dr_status r) ["failed"; "nxdomain"]%string then failedThresh else validThresh in
    negb (threshold <=? dr_last r).

(** The rows of a batch, put over the map built so far. *)
Definition checkStaleBatch (domains : list string) (validThresh failedThresh : Z) (staleSet : gmap string bool)
    : IO (gmap string bool) :=
  rows ← io_wrap "query batch" (select (Z.of_nat (length domains))
           (fun t => filter (fun kv : string * DomainRow => kv.1 ∈ domains) (tb_domains t)));
  mret ((row_stale validThresh failedThresh <$> rows) ∪ staleSet).

Fixpoint check_batches (batches : list (list string)) (validThresh failedThresh : Z) (staleSet : gmap string bool)
    : IO (gmap string bool) :=
  match batches with
  | [] => mret staleSet
  | batch :: batches' =>
      staleSet ← checkStaleBatch batch validThresh failedThresh staleSet;
      check_batches batches' validThresh failedThresh staleSet
  end.

Definition mark_missing (staleSet : gmap string bool) (name : string) : gmap string bool :=
  match staleSet !! name with Some _ => staleSet | None => <[name := true]> staleSet end.

Definition NeedsRefresh (order : gset string -> list string) (domains : list string) (ttl failedTTL : Z)
    : IO (list string) :=
  if Nat.eqb (length domains) 0 then mret [] else
  now ← Now;
  let now := Unix now in
  let validThreshold := int64_wrap (now - truncate (seconds64 ttl)) in
  let failedThreshold := int64_wrap (now - truncate (seconds64 failedTTL)) in
  staleSet ← check_batches (chunks maxParamsPerStmt domains) validThreshold failedThreshold ∅;
  let staleSet := foldl mark_missing staleSet domains in
  let stale := order (dom (filter (fun kv : string * bool => kv.2 = true) staleSet)) in
  mret (go_sort string_less stale).

(** ** Snapshots *)

(** The keys of the valid records that satisfy [f]. *)
Definition valid_keys (t : Tables) (f : RecordKey -> bool) : gset RecordKey :=
  dom (filter (fun kv : RecordKey * RecordVal => rv_status kv.2 = "valid"%string /\ f kv.1 = true) (tb_records t)).

(** [SELECT DISTINCT ip ... ORDER BY ip]; texts that do not parse are skipped. *)
Definition snapshotFamily (typ : string) : IO (list Addr) :=
  rows ← io_wrap "query" (select 1 (fun t =>
    go_sort string_less (elements (set_map (D := gset string) (fun k : RecordKey => k.1.2)
      (valid_keys t (fun k => String.eqb k.2 typ))))));
  mret (go_sort compareAddrs (omap ParseAddr rows)).

Definition Snapshot : IO (list Addr * list Addr) :=
  v4 ← io_wrap "snapshot v4" (snapshotFamily "A");
  v6 ← io_wrap "snapshot v6" (snapshotFamily "AAAA");
  mret (v4, v6).

(** The join of [records] with the rows of [domains] that are asked for. *)
Definition joined (t : Tables) (domains : list string) (k : RecordKey) : bool :=
  existsb (fun kv => (dr_id kv.2 =? k.1.1) && one_of kv.1 domains) (map_to_list (tb_domains t)).

(** One row of the result, by family. *)
Definition scan_row (k : RecordKey) : option (bool * Addr) :=
  addr ← ParseAddr k.1.2; Some (String.eqb k.2 "A" || Is4 addr, addr).

Definition SnapshotForDomains (rec_order : gset RecordKey -> list RecordKey) (domains : list string)
    : IO (list Addr * list Addr) :=
  if Nat.eqb (length domains) 0 then mret ([], []) else
  rows ← io_wrap "cache: snapshot query" (select (1 + Z.of_nat (length domains))
           (fun t => rec_order (valid_keys t (joined t domains))));
  let addrs := omap scan_row rows in
  mret (snd <$> List.filter fst addrs, snd <$> List.filter (fun a => negb (fst a)) addrs).

(** ** [Stats] and [Vacuum] *)

Record Stats_ := MkStats {
  sa_Domains : Z; sa_DomainsValid : Z; sa_DomainsFailed : Z; sa_DomainsNXDomain : Z;
  sa_RecordsTotal : Z; sa_RecordsV4 : Z; sa_RecordsV6 : Z; sa_RecordsValid : Z; sa_RecordsFail : Z;
  sa_RecordsNXDomain : Z; sa_OldestUpdatedAt : Z; sa_NewestUpdatedAt : Z }.

Definition count_domains (status : string) : IO Z :=
  select 0 (fun t => Z.of_nat (size (filter (fun kv : string * DomainRow => dr_status kv.2 = status) (tb_domains t)))).
Definition count_records (f : RecordKey * RecordVal -> bool) : IO Z :=
  select 0 (fun t => Z.of_nat (size (filter (fun kv : RecordKey * RecordVal => f kv = true) (tb_records t)))).

(** [MIN] and [MAX] of a column; an empty table has none. *)
Definition extremum (pick : Z -> Z -> Z) (l : list Z) : Z :=
  match l with [] => 0 | x :: l' => foldr pick x l' end.

Definition Stats : IO Stats_ :=
  domains ← select 0 (fun t => Z.of_nat (size (tb_domains t)));
  dv ← count_domains "valid";
  df ← count_domains "failed";
  dn ← count_domains "nxdomain";
  total ← select 0 (fun t => Z.of_nat (size (tb_records t)));
  v4 ← count_records (fun kv => String.eqb kv.1.2 "A");
  v6 ← count_records (fun kv => String.eqb kv.1.2 "AAAA");
  rv ← count_records (fun kv => String.eqb (rv_status kv.2) "valid");
  rf ← count_records (fun kv => String.eqb (rv_status kv.2) "failed");
  rn ← count_records (fun kv => String.eqb (rv_status kv.2) "nxdomain");
  '(oldest, newest) ← select 0 (fun t =>
    let l := rv_updated <$> (map_to_list (tb_records t)).*2 in (extremum Z.min l, extremum Z.max l));
  mret (MkStats domains dv df dn total v4 v6 rv rf rn oldest newest).

(** The pages of the file ([PRAGMA freelist_count], [PRAGMA page_count]: [pragma]) only
    decide whether the freelist is given back, which changes no table. *)
Definition worthwhile (freelist pageCount : Z) : bool :=
  (0 <? pageCount) && negb (F64.geb (F64.div F64.one (F64.of_int 10)) (F64.div (F64.of_int freelist) (F64.of_int pageCount))).

Definition Vacuum (pragma : string -> Tables -> Z) (olderThan : Z) : IO Z :=
  now ← Now;
  let threshold := Unix (now - olderThan) in
  let old (kv : RecordKey * RecordVal) := rv_updated kv.2 < threshold in
  t ← get_db;
  let deleted := Z.of_nat (size (filter old (tb_records t))) in
  io_wrap "delete old records" (autocommit 1 (fun t =>
    Some (set_records t (filter (fun kv => ~ old kv) (tb_records t)))));;
  freelist ← io_wrap "freelist_count" (select 0 (pragma "freelist_count"));
  pageCount ← io_wrap "page_count" (select 0 (pragma "page_count"));
  (if worthwhile freelist pageCount then io_wrap "incremental_vacuum" syscall else mret tt);;
  mret deleted.

(** ** [kv_settings] *)

Definition GetAll : IO (gmap string string) := io_wrap "query kv_settings" (select 0 tb_kv).
Definition Set_ (key value : string) : IO unit :=
  io_wrap "upsert kv_settings" (autocommit 2 (fun t => Some (set_kv t (<[key := value]> (tb_kv t))))).
Definition Delete (key : string) : IO unit :=
  io_wrap "delete kv_settings" (autocommit 1 (fun t => Some (set_kv t (delete key (tb_kv t))))).
End Cache.
