(* ===== verification/CacheSpec.v ===== *)
(** * The cache against its abstract specification

  A cache is a map from domains to entries: the outcome and time of the last
  resolution and the records under their address text and type.  [refines]
  relates the tables of the database to such a map; the operations of [Cache]
  implement the operations on it. *)

From S2P Require Import Prelude Order GoLib Os Netip NetipText Cidr Float64 Cache.

Local Open Scope Z_scope.

(** ** The abstract cache *)

Record Entry := MkEntry { en_status : string; en_last : Z; en_recs : gmap (string * string) RecordVal }.
Definition newEntry : Entry := MkEntry "unknown" 0 ∅.

Definition entry_status (ds : domainStatus) (e : Entry) : Entry :=
  MkEntry (ds_resolveStatus ds) (ds_lastResolvedAt ds) (en_recs e).
Definition entry_row (row : recordRow) (e : Entry) : Entry :=
  MkEntry (en_status e) (en_last e)
    (<[(rw_ip row, rw_typ row) := MkRecordVal (rw_updatedAt row) (rw_status row)]> (en_recs e)).

(** The entry of a domain after one result for it. *)
Definition entry_result (r : ResolveResult) (e : Entry) : Entry :=
  foldl (fun e row => entry_row row e) (entry_status (domain_status r) e) (expand_result r).

Definition spec_result (a : gmap string Entry) (r : ResolveResult) : gmap string Entry :=
  <[rr_Domain r := entry_result r (default newEntry (a !! rr_Domain r))]> a.
Definition spec_upsert (a : gmap string Entry) (results : list ResolveResult) : gmap string Entry :=
  foldl spec_result a results.

(** Never resolved, or resolved before the time its outcome allows. *)
Definition entry_stale (validSince failedSince : Z) (e : Entry) : bool :=
  String.eqb (en_status e) "unknown" ||
  (en_last e <? (if String.eqb (en_status e) "failed" || String.eqb (en_status e) "nxdomain"
                 then failedSince else validSince)).

(** A domain needs a refresh when it has no entry or a stale one. *)
Definition spec_stale (a : gmap string Entry) (now ttl failedTTL : Z) (name : string) : bool :=
  match a !! name with
  | None => true
  | Some e => entry_stale (int64_wrap (now - truncate (seconds64 ttl)))
                (int64_wrap (now - truncate (seconds64 failedTTL))) e
  end.

(** The addresses a domain has: those of its valid records, by family. *)
Definition spec_has (a : gmap string Entry) (name : string) (v4 : bool) (addr : Addr) : Prop :=
  exists e ip typ v, a !! name = Some e /\ en_recs e !! (ip, typ) = Some v /\ rv_status v = "valid"%string /\
    ParseAddr ip = Some addr /\ v4 = String.eqb typ "A" || Is4 addr.

(** ** The relation with the tables *)

Definition same_entry (records : gmap RecordKey RecordVal) (r : DomainRow) (e : Entry) : Prop :=
  dr_status r = en_status e /\ dr_last r = en_last e /\
  forall ip typ, records !! (dr_id r, ip, typ) = en_recs e !! (ip, typ).

Record refines (t : Tables) (a : gmap string Entry) : Prop := {
  rf_dom : forall name, match tb_domains t !! name, a !! name with
                        | Some r, Some e => same_entry (tb_records t) r e
                        | None, None => True
                        | _, _ => False
                        end;
  rf_ids : forall n1 n2 r1 r2, tb_domains t !! n1 = Some r1 -> tb_domains t !! n2 = Some r2 ->
             dr_id r1 = dr_id r2 -> n1 = n2;
  rf_fk : forall id ip typ v, tb_records t !! (id, ip, typ) = Some v ->
            exists name r, tb_domains t !! name = Some r /\ dr_id r = id
}.

Lemma refines_empty : refines emptyTables ∅.
Proof. split; cbn; [by intros name|by intros|intros id ip typ v ?; by simplify_map_eq]. Qed.

Lemma rf_some t a name r : refines t a -> tb_domains t !! name = Some r ->
  exists e, a !! name = Some e /\ same_entry (tb_records t) r e.
Proof. intros Hr Hn. pose proof (rf_dom _ _ Hr name) as Hd. rewrite Hn in Hd. destruct (a !! name); [eauto|done]. Qed.

(** ** Statements *)

Lemma next_id_above m name r : m !! name = Some r -> dr_id r < next_id m.
Proof.
  intros Hr. unfold next_id.
  assert (dr_id r ∈ dr_id <$> (map_to_list m).*2) as Hin.
  { apply list_elem_of_fmap. exists r. split; [done|]. apply list_elem_of_fmap. exists (name, r).
    split; [done|by apply elem_of_map_to_list]. }
  assert (forall l x, x ∈ l -> x <= foldr Z.max 0 l) as Hmax; [|specialize (Hmax _ _ Hin); lia].
  intros l x. induction l as [|y l IH]; [by intros ?%elem_of_nil|]. cbn. intros [->|?%IH]%elem_of_cons; lia.
Qed.

Definition spec_insert (a : gmap string Entry) (name : string) : gmap string Entry :=
  match a !! name with Some _ => a | None => <[name := newEntry]> a end.

Lemma refines_insert t a name :
  refines t a -> refines (set_domains t (insert_domain (tb_domains t) name)) (spec_insert a name).
Proof.
  intros Hr. unfold insert_domain, spec_insert. pose proof (rf_dom _ _ Hr name) as Hd.
  destruct (tb_domains t !! name) as [row|] eqn:Hn, (a !! name) as [e|] eqn:Ha; try done; [by destruct t|].
  pose proof (next_id_above (tb_domains t)) as Hid. split; cbn [set_domains tb_domains tb_records].
  - intros name'. destruct (decide (name' = name)) as [->|Hne].
    + rewrite !lookup_insert_eq. split; [done|]. split; [done|]. intros ip typ. cbn.
      destruct (tb_records t !! (_, ip, typ)) as [v|] eqn:Hv; [|by rewrite lookup_empty].
      apply (rf_fk _ _ Hr) in Hv as (n' & r' & Hn' & E). specialize (Hid _ _ Hn'). lia.
    + rewrite !lookup_insert_ne by done. apply (rf_dom _ _ Hr).
  - intros n1 n2 r1 r2. destruct (decide (n1 = name)) as [->|H1], (decide (n2 = name)) as [->|H2];
      rewrite ?lookup_insert_eq, ?lookup_insert_ne by done; [done|..].
    + intros [= <-] Hr2 E. specialize (Hid _ _ Hr2). cbn in E. lia.
    + intros Hr1 [= <-] E. specialize (Hid _ _ Hr1). cbn in E. lia.
    + apply (rf_ids _ _ Hr).
  - intros id ip typ v (n' & r' & Hn' & E)%(rf_fk _ _ Hr). exists n', r'. split; [|done].
    by rewrite lookup_insert_ne by congruence.
Qed.

Lemma lookup_set_status ds (m : gmap string DomainRow) n r :
  alter (fun r => MkDomainRow (dr_id r) (ds_resolveStatus ds) (ds_lastResolvedAt ds)) (ds_name ds) m !! n = Some r ->
  exists r', m !! n = Some r' /\ dr_id r = dr_id r'.
Proof.
  rewrite lookup_alter. case_decide; subst; [|intros Hr; by exists r].
  intros (r' & Hr' & ->)%fmap_Some. exists r'. split; [exact Hr'|reflexivity].
Qed.

Lemma refines_status t a ds t' :
  refines t a -> update_domain ds t = Some t' -> refines t' (alter (entry_status ds) (ds_name ds) a).
Proof.
  intros Hr. unfold update_domain. case_if; [|done]. intros [= <-]. split; cbn [set_domains tb_domains tb_records].
  - intros name. pose proof (rf_dom _ _ Hr name) as Hd. destruct (decide (name = ds_name ds)) as [->|Hne].
    + rewrite !lookup_alter_eq. destruct (tb_domains t !! _), (a !! _); try done.
      destruct Hd as (_ & _ & Hd). by split.
    + by rewrite !lookup_alter_ne by done.
  - intros n1 n2 r1 r2 (r1' & H1 & E1)%lookup_set_status (r2' & H2 & E2)%lookup_set_status E.
    apply (rf_ids _ _ Hr n1 n2 r1' r2'); [done..|]. by rewrite <- E1, <- E2.
  - intros id ip typ v (n' & r' & Hn' & E)%(rf_fk _ _ Hr).
    destruct (decide (n' = ds_name ds)) as [->|Hne].
    + eexists (ds_name ds), _. rewrite lookup_alter_eq, Hn'. by split.
    + exists n', r'. by rewrite lookup_alter_ne by done.
Qed.

Lemma refines_record t a id name row t' :
  refines t a -> dr_id <$> tb_domains t !! name = Some id -> rw_domain row = name ->
  upsert_record t ((id, rw_ip row, rw_typ row), MkRecordVal (rw_updatedAt row) (rw_status row)) = Some t' ->
  tb_domains t' = tb_domains t /\ refines t' (alter (entry_row row) name a).
Proof.
  intros Hr (r & Hn & ->)%fmap_Some Hname. unfold upsert_record. case_if; [|done]. intros [= <-].
  split; [done|]. split; cbn [set_records tb_domains tb_records].
  - intros n. pose proof (rf_dom _ _ Hr n) as Hd. destruct (decide (n = name)) as [->|Hne].
    + rewrite lookup_alter_eq. rewrite Hn in Hd |- *. destruct (a !! name) as [e|]; [|done].
      destruct Hd as (H1 & H2 & H3). split; [done|]. split; [done|]. intros ip typ. cbn.
      destruct (decide ((ip, typ) = (rw_ip row, rw_typ row))) as [[= -> ->]|Hne].
      * by rewrite !lookup_insert_eq.
      * rewrite !lookup_insert_ne by congruence. apply H3.
    + rewrite lookup_alter_ne by done. destruct (tb_domains t !! n) as [r'|] eqn:Hn', (a !! n) as [e|]; try done.
      destruct Hd as (H1 & H2 & H3). split; [done|]. split; [done|]. intros ip typ.
      rewrite lookup_insert_ne; [apply H3|]. intros [= E _ _]. apply Hne. symmetry. by apply (rf_ids _ _ Hr name n r r').
  - apply (rf_ids _ _ Hr).
  - intros id ip typ v. destruct (decide ((id, ip, typ) = (dr_id r, rw_ip row, rw_typ row))) as [[= -> -> ->]|Hne].
    + intros _. by exists name, r.
    + rewrite lookup_insert_ne by congruence. apply (rf_fk _ _ Hr).
Qed.

(** ** Transactions *)

Section Transactions.
Context {K : Type} `{Env K} `{Sqlite K}.
Implicit Types (w : World K) (t : Tables).

Lemma files_only_get_db : files_only (get_db : IO K Tables).
Proof. by intros w r w' [= <- <-]. Qed.
Lemma files_only_exec n f t : files_only (exec_stmt n f t : IO K Tables).
Proof.
  unfold exec_stmt. apply files_only_bind; [apply files_only_syscall|]. intros _. case_if; [apply files_only_err|].
  destruct (f t); [apply files_only_ret|apply files_only_err].
Qed.
Lemma files_only_query {A} n (f : Tables -> A) t : files_only (query n f t : IO K A).
Proof.
  unfold query. apply files_only_bind; [apply files_only_syscall|]. intros _.
  case_if; [apply files_only_err|apply files_only_ret].
Qed.
Lemma files_only_each {X} (step : X -> Tables -> IO K Tables) l :
  (forall x t, files_only (step x t)) -> forall t, files_only (each step l t).
Proof.
  intros Hs. induction l as [|x l IH]; intros t; [apply files_only_ret|].
  apply files_only_bind; [apply Hs|]. intros t'. apply IH.
Qed.
End Transactions.

#[export] Hint Resolve files_only_get_db files_only_exec files_only_query files_only_each : d2ip.

(** Walks the structure of an operation that leaves the database alone. *)
Ltac files_only_walk :=
  repeat first
    [ progress intros | apply files_only_bind | apply files_only_wrap | apply files_only_each
    | solve [auto with d2ip] | case_match ].

Section Updates.
Context {K : Type} `{Env K} `{Sqlite K}.
Implicit Types (w : World K) (t : Tables).

Lemma exec_ok n f t w t' w' : exec_stmt n f t w = (Ok t', w') -> f t = Some t'.
Proof.
  unfold exec_stmt. intros (? & w1 & _ & E)%io_bind_ok. revert E. case_if; [done|].
  destruct (f t) as [t1|]; [|done]. by intros [-> _]%io_ret_ok.
Qed.

(** A transaction commits what its body computed or leaves the database alone. *)
Lemma transaction_cases {A} (body : Tables -> IO K (A * Tables)) w r w' :
  (forall t, files_only (body t)) -> transaction body w = (r, w') ->
  match r with
  | Ok a => exists w1 w2, body (db w) w1 = (Ok (a, db w'), w2)
  | Err _ => db w' = db w
  end.
Proof.
  intros Hb E. unfold transaction in E.
  apply io_bind_any in E as [(? & w1 & E1 & E)|(e & E1 & ->)].
  2: { unfold db. f_equal. eapply files_only_wrap; [apply files_only_syscall|exact E1]. }
  assert (db w1 = db w) as Hd1.
  { unfold db. f_equal. eapply files_only_wrap; [apply files_only_syscall|exact E1]. }
  unfold mbind at 1, io_bind at 1, get_db at 1 in E. rewrite Hd1 in E.
  apply io_bind_any in E as [([a t'] & w2 & E2 & E)|(e & E2 & ->)].
  2: { rewrite <- Hd1. unfold db. f_equal. eapply Hb, E2. }
  apply io_bind_any in E as [(? & w3 & E3 & E)|(e & E3 & ->)].
  - unfold mbind, io_bind, put_db in E. injection E as <- <-. unfold db at 2. cbn [w_kern].
    rewrite db_get_set. eauto.
  - rewrite <- Hd1. unfold db. f_equal. etransitivity; [|eapply Hb, E2].
    eapply files_only_wrap; [apply files_only_syscall|exact E3].
Qed.

(** A statement on its own: executed, or nothing changes. *)
Lemma autocommit_cases n f w r w' :
  autocommit n f w = (r, w') ->
  match r with Ok _ => f (db w) = Some (db w') | Err _ => db w' = db w end.
Proof.
  intros E. unfold autocommit in E. apply io_bind_any in E as [(t & w1 & [= <- <-] & E)|(e & [=] & _)].
  pose proof (files_only_exec n f (db w)) as Hf.
  apply io_bind_any in E as [(t' & w2 & E2 & E)|(e & E2 & ->)]; pose proof (Hf _ _ _ E2) as Hk.
  - apply exec_ok in E2. unfold put_db in E. injection E as <- <-. unfold db at 2. cbn. by rewrite db_get_set.
  - unfold db. by rewrite Hk.
Qed.

(** An invariant over the steps of a loop of statements. *)
Lemma each_inv {X} (step : X -> Tables -> IO K Tables) (P : list X -> Tables -> Prop) l t w t' w' :
  P [] t -> (forall pre x t1 t2 w1 w2, P pre t1 -> step x t1 w1 = (Ok t2, w2) -> P (pre ++ [x]) t2) ->
  each step l t w = (Ok t', w') -> P l t'.
Proof.
  intros Hnil Hs. cut (forall pre, P pre t -> each step l t w = (Ok t', w') -> P (pre ++ l) t'); [by intros Hc; apply (Hc [])|].
  clear Hnil. revert t w. induction l as [|x l IH]; intros t w pre Hp E.
  - apply io_ret_ok in E as [<- _]. by rewrite app_nil_r.
  - apply io_bind_ok in E as (t1 & w1 & E1 & E). rewrite cons_middle, app_assoc. eapply IH; [|exact E]. by eapply Hs.
Qed.
End Updates.

(** ** Batches *)

Lemma chunks_loop_join {A} (n fuel : nat) (l : list A) :
  (0 < n)%nat -> (length l <= fuel)%nat -> mjoin (chunks_loop fuel n l) = l.
Proof.
  intros Hn. revert l. induction fuel as [|fuel IH]; intros [|x l] Hl; try done; [by cbn in Hl; lia|].
  change (take n (x :: l) ++ mjoin (chunks_loop fuel n (drop n (x :: l))) = x :: l).
  rewrite IH; [apply take_drop|]. rewrite length_drop. cbn [length] in *. lia.
Qed.

Lemma chunks_join {A} (n : nat) (l : list A) : (0 < n)%nat -> mjoin (chunks n l) = l.
Proof. intros Hn. by apply chunks_loop_join. Qed.

Lemma chunks_loop_length {A} (n fuel : nat) (l : list A) :
  Forall (fun b => (length b <= n)%nat) (chunks_loop fuel n l).
Proof.
  revert l. induction fuel as [|fuel IH]; intros [|x l]; try constructor; [|apply IH].
  rewrite length_take. lia.
Qed.

Lemma unique_names_elem seen l name :
  name ∈ unique_names seen l <-> name ∈ ds_name <$> l /\ name ∉ seen.
Proof.
  revert seen. induction l as [|ds l IH]; intros seen; cbn.
  - split; [by intros ?%elem_of_nil|by intros [?%elem_of_nil _]].
  - case_bool_decide as Hs; rewrite ?elem_of_cons, !IH; [set_solver|].
    destruct (decide (name = ds_name ds)) as [->|Hne]; set_solver.
Qed.

(** ** [UpsertBatch] *)

Definition spec_ensure (a : gmap string Entry) (names : list string) (statuses : list domainStatus) : gmap string Entry :=
  foldl (fun a ds => alter (entry_status ds) (ds_name ds) a) (foldl spec_insert a names) statuses.
Definition spec_rows (a : gmap string Entry) (rows : list recordRow) : gmap string Entry :=
  foldl (fun a row => alter (entry_row row) (rw_domain row) a) a rows.

(** What [idMap] says about the tables. *)
Definition ids_sound (idMap : gmap string Z) (t : Tables) : Prop :=
  forall name id, idMap !! name = Some id -> dr_id <$> tb_domains t !! name = Some id.

Section Upsert.
Context {K : Type} `{Env K} `{Sqlite K}.
Implicit Types (w : World K) (t : Tables).

Lemma refines_inserts t a names :
  refines t a ->
  refines (set_domains t (foldl insert_domain (tb_domains t) names)) (foldl spec_insert a names).
Proof.
  intros Hr. revert t a Hr. induction names as [|n names IH]; intros t a Hr; [by destruct t|].
  apply (refines_insert _ _ n) in Hr. by apply IH in Hr.
Qed.

Lemma query_ok {A} n (f : Tables -> A) t w x w' : query n f t w = (Ok x, w') -> x = f t.
Proof.
  unfold query. intros (? & w1 & _ & E)%io_bind_ok. revert E. case_if; [done|]. by intros [-> _]%io_ret_ok.
Qed.

Lemma ids_of_sound names t : ids_sound (ids_of names t) t.
Proof.
  intros name id. unfold ids_of. rewrite lookup_fmap. intros (r & Hr & ->)%fmap_Some.
  apply map_lookup_filter_Some in Hr as [-> _]. done.
Qed.

Lemma select_ids_sound batches m t w m' w' :
  ids_sound m t -> select_ids batches m t w = (Ok m', w') -> ids_sound m' t.
Proof.
  revert m w. induction batches as [|b batches IH]; intros m w Hm E; [by apply io_ret_ok in E as [<- _]|].
  apply io_bind_ok in E as (rows & w1 & E1 & E). apply io_wrap_ok, query_ok in E1 as ->.
  eapply IH; [|exact E]. intros name id [Hn|[_ Hn]]%lookup_union_Some_raw; [by eapply ids_of_sound|by apply Hm].
Qed.

Lemma files_only_select_ids batches m t : files_only (select_ids batches m t : IO K _).
Proof. revert m. induction batches as [|b bs IH]; intros m; cbn [select_ids]; files_only_walk. Qed.

Lemma insert_phase names t a w t1 w1 :
  refines t a ->
  each (fun batch t => io_wrap "insert domains batch"
          (exec_stmt (Z.of_nat (length batch)) (insert_domains batch) t)) (chunks maxParamsPerStmt names) t w = (Ok t1, w1) ->
  refines t1 (foldl spec_insert a names).
Proof.
  intros Hr E. eapply (each_inv _ (fun pre t => refines t (foldl spec_insert a (mjoin pre)))) in E; [|done|].
  2: { intros pre b t2 t3 w2 w3 Hp Eb. apply io_wrap_ok, exec_ok in Eb as [= <-].
       rewrite join_app, foldl_app. cbn. rewrite app_nil_r. by apply refines_inserts. }
  by rewrite chunks_join in E by (unfold maxParamsPerStmt; lia).
Qed.

Lemma status_phase names statuses t a w t1 w1 :
  refines t (foldl spec_insert a names) ->
  each (fun ds t => io_wrap "update domain status" (exec_stmt 3 (update_domain ds) t)) statuses t w = (Ok t1, w1) ->
  refines t1 (spec_ensure a names statuses).
Proof.
  intros Hr E. eapply (each_inv _ (fun pre t => refines t (spec_ensure a names pre))) in E; [done|done|].
  intros pre ds t2 t3 w2 w3 Hp Eb. apply io_wrap_ok, exec_ok in Eb. unfold spec_ensure. rewrite foldl_app.
  by eapply refines_status.
Qed.

Lemma ensure_cases names statuses w r w' a :
  refines (db w) a -> ensureAllDomainsWithStatus names statuses w = (r, w') ->
  match r with
  | Ok idMap => (names = [] /\ w' = w) \/ (refines (db w') (spec_ensure a names statuses) /\ ids_sound idMap (db w'))
  | Err _ => db w' = db w
  end.
Proof.
  intros Hr. unfold ensureAllDomainsWithStatus. destruct (Nat.eqb_spec (length names) 0) as [Hl|_].
  { intros [= <- <-]. left. split; [by apply nil_length_inv|done]. }
  intros E. apply transaction_cases in E.
  2: { files_only_walk. apply files_only_select_ids. }
  destruct r as [idMap|e]; [|done]. right. destruct E as (w1 & w2 & E).
  apply io_bind_ok in E as (t1 & w3 & E1 & E). apply io_bind_ok in E as (t2 & w4 & E2 & E).
  apply io_bind_ok in E as (m & w5 & E3 & E). apply io_ret_ok in E as [[= -> ->] _].
  eapply insert_phase in E1; [|exact Hr]. eapply status_phase in E2; [|exact E1].
  split; [done|]. eapply select_ids_sound; [|exact E3]. by intros n id ?%lookup_empty_Some.
Qed.

Lemma upsert_records_refines idMap rows args t t' a :
  refines t a -> ids_sound idMap t -> mapM (bind_row idMap) rows = Some args ->
  upsert_records args t = Some t' -> tb_domains t' = tb_domains t /\ refines t' (spec_rows a rows).
Proof.
  revert args t a. induction rows as [|row rows IH]; intros args t a Hr Hs.
  - intros [= <-] [= <-]. done.
  - cbn [mapM]. intros (arg & Ha & (args' & Hargs & [= <-])%bind_Some)%bind_Some.
    intros (t1 & H1 & H2)%bind_Some.
    unfold bind_row in Ha. apply bind_Some in Ha as (id & Hid & [= <-]).
    eapply refines_record in H1 as [Hd Hr1]; [|done|by apply Hs|done].
    destruct (IH args' t1 _ Hr1) as [Hd' Hr']; [|done|done|by rewrite Hd'].
    intros n i Hn. rewrite Hd. by apply Hs.
Qed.

Lemma upsert_tx_cases idMap batch w r w' a :
  refines (db w) a -> ids_sound idMap (db w) -> upsert_tx idMap batch w = (r, w') ->
  match r with
  | Ok _ => refines (db w') (spec_rows a batch) /\ tb_domains (db w') = tb_domains (db w)
  | Err _ => db w' = db w
  end.
Proof.
  intros Hr Hs E. apply transaction_cases in E.
  2: { files_only_walk. }
  destruct r as [[]|e]; [|done]. destruct E as (w1 & w2 & E).
  destruct (mapM (bind_row idMap) batch) as [args|] eqn:Hb; [|done].
  apply io_bind_ok in E as (t & w3 & E1 & E). apply io_ret_ok in E as [[= ->] _].
  apply io_wrap_ok, exec_ok in E1. eapply upsert_records_refines in E1 as [? ?]; eauto.
Qed.

(** The batches that committed, and whether all did. *)
Lemma upsert_batches_cases idMap batches w r w' a :
  refines (db w) a -> ids_sound idMap (db w) -> upsert_batches idMap batches w = (r, w') ->
  exists done rest, batches = done ++ rest /\ refines (db w') (spec_rows a (mjoin done)) /\
    (match r with Ok _ => rest = [] | Err _ => rest <> [] end).
Proof.
  revert w a. induction batches as [|b batches IH]; intros w a Hr Hs E.
  - injection E as <- <-. by exists [], [].
  - cbn [upsert_batches] in E. apply io_bind_any in E as [([] & w1 & E1 & E)|(e & E1 & ->)].
    + eapply upsert_tx_cases in E1 as [Hr1 Hd]; [|done..].
      destruct (IH _ _ Hr1) with (2 := E) as (dn & rest & -> & Hr' & Hres).
      { intros n id Hn. rewrite Hd. by apply Hs. }
      exists (b :: dn), rest. split; [done|]. split; [|done]. unfold spec_rows in *. cbn. by rewrite foldl_app.
    + eapply upsert_tx_cases in E1; [|done..]. exists [], (b :: batches). rewrite E1. done.
Qed.
End Upsert.

(** ** One result at a time

  The batch writes all names, then all outcomes, then all records; on the
  abstract cache that is the same as taking the results one after the other. *)

Section Pointwise.
Context (name : string).

Definition status_at (e : Entry) (ds : domainStatus) : Entry :=
  if decide (ds_name ds = name) then entry_status ds e else e.
Definition row_at (e : Entry) (row : recordRow) : Entry :=
  if decide (rw_domain row = name) then entry_row row e else e.
Definition result_at (e : Entry) (r : ResolveResult) : Entry :=
  if decide (rr_Domain r = name) then entry_result r e else e.

Lemma insert_lookup names a :
  foldl spec_insert a names !! name =
  if decide (name ∈ names) then Some (default newEntry (a !! name)) else a !! name.
Proof.
  induction names as [|n names IH] using rev_ind; [by rewrite decide_False by apply not_elem_of_nil|].
  rewrite foldl_app. cbn. unfold spec_insert at 1.
  destruct (decide (n = name)) as [->|Hne].
  - rewrite (decide_True (P := name ∈ names ++ [name])) by set_solver. destruct (foldl spec_insert a names !! name) as [e|] eqn:Hl.
    + rewrite Hl, IH. case_decide; [done|]. by rewrite <- IH.
    + rewrite lookup_insert_eq. revert IH. case_decide; [done|]. by intros <-.
  - trans (foldl spec_insert a names !! name); [destruct (_ !! n); [done|by rewrite lookup_insert_ne]|].
    rewrite IH. repeat case_decide; set_solver.
Qed.

Lemma alter_fold_lookup {X} (key : X -> string) (step : X -> Entry -> Entry) l (a : gmap string Entry) :
  foldl (fun a x => alter (step x) (key x) a) a l !! name =
  (fun e => foldl (fun e x => if decide (key x = name) then step x e else e) e l) <$> a !! name.
Proof.
  revert a. induction l as [|x l IH]; intros a; cbn; [by destruct (a !! name)|].
  rewrite IH. destruct (decide (key x = name)) as [<-|Hne].
  - rewrite lookup_alter_eq. by destruct (a !! key x).
  - by rewrite lookup_alter_ne.
Qed.

Lemma upsert_lookup results a :
  spec_upsert a results !! name =
  if decide (name ∈ rr_Domain <$> results)
  then Some (foldl result_at (default newEntry (a !! name)) results) else a !! name.
Proof.
  unfold spec_upsert. induction results as [|r rs IH] using rev_ind; [by rewrite decide_False by apply not_elem_of_nil|].
  rewrite !foldl_app, fmap_app. cbn. unfold spec_result at 1, result_at at 1.
  destruct (decide (rr_Domain r = name)) as [->|Hne].
  - rewrite lookup_insert_eq, IH, (decide_True (P := name ∈ _ ++ [name])) by set_solver.
    case_decide as Hin; [done|]. do 2 f_equal.
    clear IH. induction rs as [|r' rs IH]; [done|]. cbn. rewrite fmap_cons in Hin. apply not_elem_of_cons in Hin as [Hne Hin].
    unfold result_at at 2. rewrite decide_False by congruence. by apply IH.
  - rewrite lookup_insert_ne, IH by done. case_decide as H1; case_decide as H2; set_solver.
Qed.

Lemma status_past_rows ds e rows :
  foldl row_at (status_at e ds) rows = status_at (foldl row_at e rows) ds.
Proof.
  revert e. induction rows as [|row rows IH]; intros e; [done|]. cbn. rewrite <- IH. f_equal.
  unfold row_at, status_at. by repeat case_decide.
Qed.

Lemma rows_of_result r e :
  foldl row_at (status_at e (domain_status r)) (expand_result r) = result_at e r.
Proof.
  unfold status_at, result_at, entry_result. cbn [ds_name domain_status].
  assert (forall rows e, Forall (fun row => rw_domain row = rr_Domain r) rows ->
    foldl row_at e rows = if decide (rr_Domain r = name) then foldl (fun e row => entry_row row e) e rows else e) as Hrows.
  { induction rows as [|row rows IH]; intros e' Hf; [by case_decide|]. inversion_clear Hf as [|? ? Hd Hf'].
    cbn. rewrite IH by done. unfold row_at. rewrite Hd. by case_decide. }
  rewrite Hrows; [by case_decide|]. unfold expand_result. apply Forall_app.
  split; apply Forall_fmap; by apply Forall_true.
Qed.

Lemma upsert_entry results e :
  foldl row_at (foldl status_at e (buildDomainStatuses results)) (expandResultsWithDomain results) =
  foldl result_at e results.
Proof.
  unfold buildDomainStatuses, expandResultsWithDomain.
  induction results as [|r rs IH] using rev_ind; [done|].
  rewrite fmap_app, bind_app, !foldl_app. cbn. rewrite app_nil_r, status_past_rows, IH. apply rows_of_result.
Qed.
End Pointwise.

Lemma spec_upsert_phases a results :
  spec_rows (spec_ensure a (unique_names ∅ (buildDomainStatuses results)) (buildDomainStatuses results))
    (expandResultsWithDomain results) = spec_upsert a results.
Proof.
  apply map_eq. intros name. unfold spec_rows, spec_ensure. rewrite !alter_fold_lookup, insert_lookup, upsert_lookup.
  assert (name ∈ unique_names ∅ (buildDomainStatuses results) <-> name ∈ rr_Domain <$> results) as Hin.
  { rewrite unique_names_elem. unfold buildDomainStatuses. rewrite <- list_fmap_compose. set_solver. }
  case_decide as Hu; case_decide as Hd; try (exfalso; tauto); [cbn; f_equal; apply upsert_entry|].
  destruct (a !! name) as [e|]; [|done]. cbn. f_equal.
  change (foldl (row_at name) (foldl (status_at name) e (buildDomainStatuses results)) (expandResultsWithDomain results) = e).
  rewrite upsert_entry. clear Hin Hu. induction results as [|r rs IH]; [done|].
  rewrite fmap_cons in Hd. apply not_elem_of_cons in Hd as [Hne Hd]. cbn. unfold result_at at 2.
  rewrite decide_False by congruence. by apply IH.
Qed.

(** ** Queries *)

Section Queries.
Context {K : Type} `{Env K} `{Sqlite K}.
Implicit Types (w : World K) (t : Tables).

Lemma select_cases {A} n (f : Tables -> A) w r w' :
  select n f w = (r, w') -> db w' = db w /\ forall x, r = Ok x -> x = f (db w).
Proof.
  intros E. split.
  - unfold db. f_equal. revert E. assert (files_only (select n f : IO K A)) as Hf; [|apply Hf].
    unfold select. files_only_walk.
  - intros x ->. unfold select in E. apply io_bind_ok in E as (t & w1 & [= <- <-] & E). by apply query_ok in E.
Qed.

Lemma wrap_select_cases {A} msg n (f : Tables -> A) w r w' :
  io_wrap msg (select n f) w = (r, w') -> db w' = db w /\ forall x, r = Ok x -> x = f (db w).
Proof.
  unfold io_wrap. destruct (select n f w) as [[x|e] w1] eqn:E; intros [= <- <-];
    apply select_cases in E as [Hd Hx]; (split; [done|]); [intros y [= <-]; by apply Hx|done].
Qed.

Lemma filter_names_lookup {A} (names : list string) (m : gmap string A) name :
  filter (fun kv : string * A => kv.1 ∈ names) m !! name = if decide (name ∈ names) then m !! name else None.
Proof.
  case_decide as Hn.
  - destruct (m !! name) eqn:Hm; [by apply map_lookup_filter_Some_2|apply map_lookup_filter_None_2; auto].
  - apply map_lookup_filter_None_2. right. intros x _. exact Hn.
Qed.

(** What the batches leave for each name. *)
Lemma check_batches_cases batches vt ft m w r w' :
  check_batches batches vt ft m w = (r, w') ->
  db w' = db w /\ forall m', r = Ok m' -> forall name,
    m' !! name = if decide (name ∈ mjoin batches /\ is_Some (tb_domains (db w) !! name))
                 then row_stale vt ft <$> tb_domains (db w) !! name else m !! name.
Proof.
  revert m w. induction batches as [|b batches IH]; intros m w E.
  - injection E as <- <-. split; [done|]. intros m' [= <-] name. rewrite decide_False; [done|].
    by intros [?%elem_of_nil _].
  - apply io_bind_any in E as [(m1 & w1 & E1 & E)|(e & E1 & ->)].
    + unfold checkStaleBatch in E1. apply io_bind_ok in E1 as (rows & w2 & E1 & E2).
      apply io_ret_ok in E2 as [<- ->]. apply wrap_select_cases in E1 as [Hd Hrows].
      specialize (Hrows _ eq_refl) as ->. apply IH in E as [Hd' Hm']. split; [congruence|].
      intros m' Hm name. rewrite (Hm' m' Hm name), Hd. rewrite (lookup_union _ m), lookup_fmap. cbn [mjoin list_join].
      rewrite filter_names_lookup.
      destruct (decide (name ∈ b)) as [Hb|Hb], (tb_domains (db w) !! name) as [row|];
        cbn; destruct (m !! name); repeat case_decide; try done; exfalso; set_solver.
    + split; [|done]. unfold checkStaleBatch in E1.
      apply io_bind_any in E1 as [(rows & w2 & E1 & E2)|(e' & E1 & _)]; [done|by apply wrap_select_cases in E1 as [-> _]].
Qed.

Lemma mark_missing_lookup names m name :
  foldl mark_missing m names !! name =
  match m !! name with Some b => Some b | None => if decide (name ∈ names) then Some true else None end.
Proof.
  revert m. induction names as [|n names IH]; intros m; cbn.
  - rewrite decide_False by apply not_elem_of_nil. by destruct (m !! name).
  - rewrite IH. unfold mark_missing. destruct (decide (n = name)) as [->|Hne].
    + rewrite (decide_True (P := name ∈ name :: names)) by set_solver.
      destruct (m !! name) as [b|] eqn:Hm; [by rewrite Hm|]. by rewrite lookup_insert_eq.
    + replace (match m !! n with Some _ => m | None => <[n := true]> m end !! name) with (m !! name)
        by (destruct (m !! n); [done|by rewrite lookup_insert_ne]).
      destruct (m !! name); [done|]. repeat case_decide; set_solver.
Qed.

Lemma row_stale_entry vt ft t r e :
  same_entry (tb_records t) r e -> entry_stale vt ft e = row_stale vt ft r.
Proof.
  intros (H1 & H2 & _). unfold row_stale, entry_stale. rewrite <- H1, <- H2. cbn [one_of existsb].
  destruct (String.eqb_spec (dr_status r) "unknown"); [done|]. rewrite orb_false_l, orb_false_r, Z.ltb_antisym. done.
Qed.

Lemma NeedsRefresh_cases order `{!MapOrder order} domains ttl ftl w r w' a :
  refines (db w) a -> NeedsRefresh order domains ttl ftl w = (r, w') ->
  db w' = db w /\ forall l, r = Ok l ->
    StronglySorted (not_less string_less) l /\ NoDup l /\
    forall name, name ∈ l <-> name ∈ domains /\ spec_stale a (Unix (clock (w_calls w))) ttl ftl name = true.
Proof.
  intros Hr. unfold NeedsRefresh. destruct (Nat.eqb_spec (length domains) 0) as [Hl|_].
  { intros [= <- <-]. split; [done|]. intros l [= <-]. apply nil_length_inv in Hl as ->.
    split_and!; [constructor..|]. intros name. split; [by intros ?%elem_of_nil|by intros [?%elem_of_nil _]]. }
  intros E. unfold mbind at 1, io_bind at 1, Now in E.
  cbv zeta in E.
  apply io_bind_any in E as [(m & w1 & E1 & E)|(e & E1 & ->)]; apply check_batches_cases in E1 as [Hd Hm].
  2: { split; [done|done]. }
  injection E as <- <-. split; [done|]. intros l [= <-]. specialize (Hm _ eq_refl).
  split; [apply sort_strings_sorted|]. split.
  { rewrite go_sort_perm, (map_order_perm _). apply NoDup_elements. }
  intros name. rewrite elem_of_go_sort, elem_of_map_order by done. rewrite elem_of_dom. unfold is_Some.
  setoid_rewrite map_lookup_filter_Some. cbn [snd]. rewrite mark_missing_lookup, Hm.
  rewrite (chunks_join maxParamsPerStmt domains) by (unfold maxParamsPerStmt; lia). rewrite lookup_empty.
  pose proof (rf_dom _ _ Hr name) as Hn. unfold spec_stale. change (db (tick w)) with (db w).
  destruct (tb_domains (db w) !! name) as [row|] eqn:Hrow, (a !! name) as [e|]; try done.
  - rewrite (row_stale_entry _ _ (db w) row e Hn).
    assert (is_Some (Some row)) by eauto. repeat case_decide; naive_solver.
  - assert (~ is_Some (None : option DomainRow)) by (by intros [? ?]). repeat case_decide; naive_solver.
Qed.
End Queries.

Section Batches.
Context {K : Type} `{Env K} `{Sqlite K}.
Implicit Types (w : World K) (t : Tables).

(** A batch that fails half-way: every outcome is recorded, but only the records
    of the first [k] transactions. *)
Definition spec_torn (a : gmap string Entry) (results : list ResolveResult) (k : nat) : gmap string Entry :=
  spec_rows (spec_ensure a (unique_names ∅ (buildDomainStatuses results)) (buildDomainStatuses results))
    (take (maxRowsPerTx * k) (expandResultsWithDomain results)).

Lemma chunks_prefix {A} n (l : list A) fuel done rest :
  (length l <= fuel)%nat -> (0 < n)%nat -> chunks_loop fuel n l = done ++ rest -> rest <> [] ->
  mjoin done = take (n * length done) l /\ (n * length done < length l)%nat.
Proof.
  intros Hl Hn. revert l fuel Hl. induction done as [|b done IH]; intros l fuel Hl E Hne.
  - rewrite Nat.mul_0_r. split; [done|]. destruct l; [|cbn; lia]. destruct fuel; cbn in E; congruence.
  - destruct fuel as [|fuel], l as [|x l]; [done..|]. injection E as <- E. cbn [length] in Hl.
    apply IH in E as [E1 E2]; [|rewrite length_drop; cbn [length]; lia|done].
    rewrite length_drop in E2. split; [|cbn [length] in *; lia].
    change (mjoin (take n (x :: l) :: done)) with (take n (x :: l) ++ mjoin done). rewrite E1.
    rewrite (Nat.mul_comm n (length (_ :: done))). cbn [length Nat.mul]. rewrite (Nat.mul_comm (length done)).
    symmetry. rewrite <- (take_drop n (x :: l)) at 1. cbn [length] in *.
    rewrite take_app_ge by (rewrite length_take; cbn [length]; lia).
    f_equal. f_equal. rewrite length_take. cbn [length]. lia.
Qed.

Lemma UpsertBatch_cases results w r w' a :
  refines (db w) a -> UpsertBatch results w = (r, w') ->
  match r with
  | Ok _ => refines (db w') (spec_upsert a results)
  | Err _ => db w' = db w \/
      exists k, (maxRowsPerTx * k < length (expandResultsWithDomain results))%nat /\
        refines (db w') (spec_torn a results k)
  end.
Proof.
  intros Hr. unfold UpsertBatch. destruct (Nat.eqb_spec (length results) 0) as [Hl|Hne].
  { intros [= <- <-]. by apply nil_length_inv in Hl as ->. }
  intros E. apply io_bind_any in E as [(idMap & w1 & E1 & E)|(e & E1 & ->)].
  2: { left. unfold io_wrap in E1. destruct (ensureAllDomainsWithStatus _ _ _) as [[m|e'] w2] eqn:E2; [done|].
       injection E1 as <- <-. by eapply ensure_cases in E2. }
  apply io_wrap_ok in E1. eapply ensure_cases in E1 as [[Hn ->]|[Hr1 Hs]]; [| |exact Hr].
  { exfalso. destruct results as [|r0 rs]; [done|].
    apply (not_elem_of_nil (rr_Domain r0)). rewrite <- Hn. apply unique_names_elem. cbn. set_solver. }
  eapply upsert_batches_cases in E as (dn & rest & Hc & Hr' & Hres); [|done..]. destruct r as [[]|e].
  - subst rest. rewrite app_nil_r in Hc. rewrite <- Hc, chunks_join in Hr' by (unfold maxRowsPerTx; lia).
    by rewrite <- spec_upsert_phases.
  - right. apply chunks_prefix in Hc as [Hj Hlt]; [|lia|unfold maxRowsPerTx; lia|done].
    exists (length dn). split; [done|]. unfold spec_torn. by rewrite <- Hj.
Qed.
End Batches.

Section Snapshots.
Context {K : Type} `{Env K} `{Sqlite K}.
Context (order : gset string -> list string) (rec_order : gset RecordKey -> list RecordKey).
Context `{!MapOrder order, !MapOrder rec_order}.
Implicit Types (w : World K) (t : Tables).

Lemma elem_of_valid_keys t f k :
  k ∈ valid_keys t f <-> exists v, tb_records t !! k = Some v /\ rv_status v = "valid"%string /\ f k = true.
Proof.
  unfold valid_keys. rewrite elem_of_dom. unfold is_Some. setoid_rewrite map_lookup_filter_Some. naive_solver.
Qed.

Lemma joined_spec t domains id ip typ :
  joined t domains (id, ip, typ) = true <->
  exists name r, name ∈ domains /\ tb_domains t !! name = Some r /\ dr_id r = id.
Proof.
  unfold joined. rewrite existsb_exists. setoid_rewrite <- list_elem_of_In. setoid_rewrite andb_true_iff.
  unfold one_of. setoid_rewrite existsb_exists. setoid_rewrite <- list_elem_of_In. split.
  - intros ([name r] & Hr%elem_of_map_to_list & Hid%Z.eqb_eq & x & Hx & Hn%String.eqb_eq). cbn in Hn, Hid. subst x. eauto.
  - intros (name & r & Hn & Hr & <-). exists (name, r). split; [by apply elem_of_map_to_list|].
    split; [apply Z.eqb_refl|]. exists name. split; [done|]. apply String.eqb_refl.
Qed.

(** The rows of the join give the addresses the domains have. *)
Lemma scanned_rows t a domains v4 addr :
  refines t a ->
  (exists k, k ∈ rec_order (valid_keys t (joined t domains)) /\ scan_row k = Some (v4, addr)) <->
  exists name, name ∈ domains /\ spec_has a name v4 addr.
Proof.
  intros Hr. split.
  - intros ([[id ip] typ] & Hk & Hs). rewrite elem_of_map_order in Hk by done.
    apply elem_of_valid_keys in Hk as (v & Hv & Hst & (name & row & Hn & Hrow & <-)%joined_spec).
    destruct (rf_some _ _ _ _ Hr Hrow) as (e & He & _ & _ & Hrec).
    exists name. split; [done|]. exists e, ip, typ, v. rewrite <- Hrec.
    unfold scan_row in Hs. cbn [fst snd] in Hs. apply bind_Some in Hs as (addr' & Hp & [= <- <-]). done.
  - intros (name & Hn & e & ip & typ & v & He & Hv & Hst & Hp & ->).
    pose proof (rf_dom _ _ Hr name) as Hd. rewrite He in Hd. destruct (tb_domains t !! name) as [row|] eqn:Hrow; [|done].
    destruct Hd as (_ & _ & Hrec). exists (dr_id row, ip, typ). split.
    + rewrite elem_of_map_order by done. apply elem_of_valid_keys. exists v. rewrite Hrec, joined_spec. eauto 8.
    + unfold scan_row. cbn [fst snd]. by rewrite Hp.
Qed.

Lemma SnapshotForDomains_cases domains w r w' a :
  refines (db w) a -> SnapshotForDomains rec_order domains w = (r, w') ->
  db w' = db w /\ forall v4 v6, r = Ok (v4, v6) -> forall addr,
    (addr ∈ v4 <-> exists name, name ∈ domains /\ spec_has a name true addr) /\
    (addr ∈ v6 <-> exists name, name ∈ domains /\ spec_has a name false addr).
Proof.
  intros Hr. unfold SnapshotForDomains. destruct (Nat.eqb_spec (length domains) 0) as [Hl|_].
  { intros [= <- <-]. split; [done|]. intros v4 v6 [= <- <-] addr. apply nil_length_inv in Hl as ->.
    split; (split; [by intros ?%elem_of_nil|by intros (? & ?%elem_of_nil & _)]). }
  intros E. apply io_bind_any in E as [(rows & w1 & E1 & E)|(e & E1 & ->)]; apply wrap_select_cases in E1 as [Hd Hrows].
  2: { split; [done|done]. }
  injection E as <- <-. split; [done|]. intros v4 v6 [= <- <-] addr. specialize (Hrows _ eq_refl) as ->.
  rewrite <- !(scanned_rows _ a domains _ addr Hr), !list_elem_of_fmap.
  assert (forall b, (exists y : bool * Addr, addr = snd y /\
     y ∈ List.filter (fun z => Bool.eqb (fst z) b) (omap scan_row (rec_order (valid_keys (db w) (joined (db w) domains))))) <->
    exists k, k ∈ rec_order (valid_keys (db w) (joined (db w) domains)) /\ scan_row k = Some (b, addr)) as Hb.
  { intros b. setoid_rewrite list_elem_of_In. setoid_rewrite filter_In. setoid_rewrite <- list_elem_of_In.
    setoid_rewrite list_elem_of_omap. setoid_rewrite Bool.eqb_true_iff. split.
    - intros ([b' x] & -> & (k & Hk & Hs) & <-). by exists k.
    - intros (k & Hk & Hs). exists (b, addr). eauto. }
  rewrite <- !Hb. split; (split; intros (y & -> & Hy); exists y; (split; [done|]));
    rewrite !list_elem_of_In, !filter_In in *; destruct Hy as [Hy Hf]; (split; [done|]); revert Hf; by destruct (fst y).
Qed.

(** ** The simulation *)

Inductive cop := CUpsert (results : list ResolveResult) | CNeedsRefresh (domains : list string) (ttl failedTTL : Z)
  | CSnapshot (domains : list string).
Inductive cout := OUnit | ONames (l : list string) | OAddrs (v4 v6 : list Addr).

Definition crun (op : cop) : IO K cout :=
  match op with
  | CUpsert results => UpsertBatch results;; mret OUnit
  | CNeedsRefresh domains ttl failedTTL => l ← NeedsRefresh order domains ttl failedTTL; mret (ONames l)
  | CSnapshot domains => '(v4, v6) ← SnapshotForDomains rec_order domains; mret (OAddrs v4 v6)
  end.

(** What the abstract cache allows an operation at time [now] to answer and to
    become. *)
Definition cspec (op : cop) (now : Z) (a : gmap string Entry) (out : res error cout) (a' : gmap string Entry) : Prop :=
  match op with
  | CUpsert results =>
      match out with
      | Ok o => o = OUnit /\ a' = spec_upsert a results
      | Err _ => a' = a \/
          exists k, (maxRowsPerTx * k < length (expandResultsWithDomain results))%nat /\ a' = spec_torn a results k
      end
  | CNeedsRefresh domains ttl failedTTL =>
      a' = a /\ forall o, out = Ok o -> exists l, o = ONames l /\
        StronglySorted (not_less string_less) l /\ NoDup l /\
        forall name, name ∈ l <-> name ∈ domains /\ spec_stale a (Unix now) ttl failedTTL name = true
  | CSnapshot domains =>
      a' = a /\ forall o, out = Ok o -> exists v4 v6, o = OAddrs v4 v6 /\ forall addr,
        (addr ∈ v4 <-> exists name, name ∈ domains /\ spec_has a name true addr) /\
        (addr ∈ v6 <-> exists name, name ∈ domains /\ spec_has a name false addr)
  end.

End Snapshots.

(** ** Batches do not fail by themselves *)

Section Totality.
Context {K : Type} `{Env K} `{Sqlite K}.
Implicit Types (w : World K).

Lemma exec_runs n f t t' w :
  (forall i, fault i = None) -> n <= max_params -> f t = Some t' -> exec_stmt n f t w = (Ok t', tick w).
Proof.
  intros Hf Hn Ht. unfold exec_stmt, mbind, io_bind, syscall. rewrite Hf, Ht.
  by destruct (Z.ltb_spec max_params n); [lia|].
Qed.

Lemma query_runs {A} n (f : Tables -> A) t w :
  (forall i, fault i = None) -> n <= max_params -> query n f t w = (Ok (f t), tick w).
Proof.
  intros Hf Hn. unfold query, mbind, io_bind, syscall. rewrite Hf. by destruct (Z.ltb_spec max_params n); [lia|].
Qed.

Lemma transaction_runs {A} (body : Tables -> IO K (A * Tables)) (Q : A -> Prop) w :
  (forall i, fault i = None) -> (forall w1, exists x t' w2, body (db w) w1 = (Ok (x, t'), w2) /\ Q x) ->
  exists x w', transaction body w = (Ok x, w') /\ Q x.
Proof.
  intros Hf Hb. unfold transaction, mbind, io_bind, io_wrap, syscall, get_db. rewrite Hf. change (db (tick w)) with (db w).
  destruct (Hb (tick w)) as (x & t' & w2 & -> & Hq). rewrite Hf. unfold put_db, mret, io_ret. eauto.
Qed.

Lemma each_runs {X} (step : X -> Tables -> IO K Tables) l t w :
  (forall x t w, x ∈ l -> exists t' w', step x t w = (Ok t', w')) -> exists t' w', each step l t w = (Ok t', w').
Proof.
  revert t w. induction l as [|x l IH]; intros t w Hs; [by eexists _, _|].
  destruct (Hs x t w (list_elem_of_here _ _)) as (t1 & w1 & E1).
  destruct (IH t1 w1) as (t' & w' & E); [intros; apply Hs; by right|].
  exists t', w'. cbn [each]. unfold mbind, io_bind. by rewrite E1.
Qed.

Lemma select_ids_runs batches m t w :
  (forall i, fault i = None) -> Forall (fun b => Z.of_nat (length b) <= max_params) batches ->
  exists m' w', select_ids batches m t w = (Ok m', w') /\
    forall name, is_Some (m !! name) \/ (name ∈ mjoin batches /\ is_Some (tb_domains t !! name)) ->
      is_Some (m' !! name).
Proof.
  intros Hf. revert m w. induction batches as [|b batches IH]; intros m w Hb.
  - exists m, w. split; [done|]. by intros name [?|[?%elem_of_nil _]].
  - apply Forall_cons in Hb as [H1 H2]. destruct (IH (ids_of b t ∪ m) (tick w) H2) as (m' & w' & E & Hin).
    exists m', w'. split.
    { cbn [select_ids]. unfold mbind, io_bind, io_wrap. by rewrite query_runs. }
    intros name Hn. apply Hin. rewrite lookup_union_is_Some. unfold ids_of. rewrite lookup_fmap, filter_names_lookup, fmap_is_Some.
    destruct Hn as [Hn|[[Hn|Hn]%elem_of_app Hs]]; [auto|rewrite decide_True by done; auto|auto].
Qed.

Lemma expand_domain row results : row ∈ expandResultsWithDomain results -> rw_domain row ∈ rr_Domain <$> results.
Proof.
  unfold expandResultsWithDomain. intros (r & Hrow & Hr)%list_elem_of_bind. apply list_elem_of_fmap. exists r.
  split; [|done]. unfold expand_result in Hrow.
  apply elem_of_app in Hrow as [(x & -> & _)%list_elem_of_fmap|(x & -> & _)%list_elem_of_fmap]; done.
Qed.

(** The checks of the table hold of every row the code writes. *)
Lemma expand_checks row results :
  row ∈ expandResultsWithDomain results ->
  one_of (rw_typ row) ["A"; "AAAA"]%string && one_of (rw_status row) ["valid"; "failed"]%string = true.
Proof.
  unfold expandResultsWithDomain. intros (r & Hrow & Hr)%list_elem_of_bind. unfold expand_result in Hrow.
  apply elem_of_app in Hrow as [(x & -> & _)%list_elem_of_fmap|(x & -> & _)%list_elem_of_fmap]; cbn [rw_typ rw_status];
    unfold record_status; by case_bool_decide.
Qed.

Lemma status_checks r : one_of (status_string (rr_Status r)) ["unknown"; "valid"; "failed"; "nxdomain"]%string = true.
Proof. by destruct (rr_Status r). Qed.

Lemma ensure_runs names results w a :
  (forall i, fault i = None) -> 5000 <= max_params -> refines (db w) a ->
  names = unique_names ∅ (buildDomainStatuses results) -> results <> [] ->
  exists idMap w', ensureAllDomainsWithStatus names (buildDomainStatuses results) w = (Ok idMap, w') /\
    forall name, name ∈ rr_Domain <$> results -> is_Some (idMap !! name).
Proof.
  intros Hf Hp Hr -> Hne. unfold ensureAllDomainsWithStatus. set (names := unique_names _ _).
  assert (forall name, name ∈ rr_Domain <$> results -> name ∈ names) as Hnames.
  { intros name Hn. apply unique_names_elem. unfold buildDomainStatuses. rewrite <- list_fmap_compose. set_solver. }
  destruct (Nat.eqb_spec (length names) 0) as [Hl|_].
  { exfalso. destruct results as [|r rs]; [done|]. apply nil_length_inv in Hl.
    apply (not_elem_of_nil (rr_Domain r)). rewrite <- Hl. apply Hnames. left. }
  apply transaction_runs; [done|]. intros w1.
  destruct (each_runs (fun batch t => io_wrap "insert domains batch"
    (exec_stmt (Z.of_nat (length batch)) (insert_domains batch) t)) (chunks maxParamsPerStmt names) (db w) w1)
    as (t1 & w2 & E1).
  { intros b t w2 Hb. eexists _, _. unfold io_wrap. erewrite exec_runs; [reflexivity|exact Hf| |reflexivity].
    apply (proj1 (Forall_forall _ _) (chunks_loop_length maxParamsPerStmt _ _)) in Hb. unfold maxParamsPerStmt in Hb. lia. }
  destruct (each_runs (fun ds t => io_wrap "update domain status" (exec_stmt 3 (update_domain ds) t))
    (buildDomainStatuses results) t1 w2) as (t2 & w3 & E2).
  { intros ds t w3 (r & -> & _)%list_elem_of_fmap. eexists _, _. unfold io_wrap.
    erewrite exec_runs; [reflexivity|exact Hf|lia|]. unfold update_domain. cbn [ds_resolveStatus domain_status].
    rewrite status_checks. reflexivity. }
  pose proof (insert_phase _ _ _ _ _ _ Hr E1) as Hr1. pose proof (status_phase _ _ _ _ _ _ _ Hr1 E2) as Hr2.
  destruct (select_ids_runs (chunks maxParamsPerStmt names) ∅ t2 w3 Hf) as (m & w4 & E3 & Hm).
  { eapply Forall_impl; [apply chunks_loop_length|]. unfold maxParamsPerStmt. intros b Hb. cbn in Hb. lia. }
  exists m, t2, w4. split.
  { unfold mbind, io_bind. by rewrite E1, E2, E3. }
  intros name Hn. apply Hm. right. apply Hnames in Hn. split; [by rewrite chunks_join by (unfold maxParamsPerStmt; lia)|].
  pose proof (rf_dom _ _ Hr2 name) as Hd. destruct (tb_domains t2 !! name); [eauto|].
  unfold spec_ensure in Hd. by rewrite alter_fold_lookup, insert_lookup, decide_True in Hd.
Qed.

Lemma upsert_records_runs idMap rows args t :
  (forall row, row ∈ rows -> one_of (rw_typ row) ["A"; "AAAA"]%string && one_of (rw_status row) ["valid"; "failed"]%string = true) ->
  ids_sound idMap t -> mapM (bind_row idMap) rows = Some args -> exists t', upsert_records args t = Some t'.
Proof.
  revert args t. induction rows as [|row rows IH]; intros args t Hc Hs; [intros [= <-]; by eexists|].
  cbn [mapM]. intros (arg & Ha & (args' & Hargs & [= <-])%bind_Some)%bind_Some.
  unfold bind_row in Ha. apply bind_Some in Ha as (id & Hid & [= <-]).
  cbn [upsert_records upsert_record rv_status]. rewrite Hc by left.
  assert (existsb (fun r => dr_id r =? id) (map_to_list (tb_domains t)).*2 = true) as ->.
  { apply Hs, fmap_Some in Hid as (r & Hr & ->). apply existsb_exists. exists r.
    rewrite <- list_elem_of_In, list_elem_of_fmap, Z.eqb_refl. split; [|done].
    exists (rw_domain row, r). split; [done|by apply elem_of_map_to_list]. }
  cbn. apply (IH args'); [intros; apply Hc; by right|exact Hs|done].
Qed.

Lemma upsert_runs results a w :
  (forall i, fault i = None) -> 5000 <= max_params -> refines (db w) a ->
  exists w', UpsertBatch results w = (Ok tt, w') /\ refines (db w') (spec_upsert a results).
Proof.
  intros Hf Hp Hr. cut (exists w', UpsertBatch results w = (Ok tt, w')).
  { intros [w' E]. exists w'. split; [done|]. by eapply UpsertBatch_cases in E. }
  unfold UpsertBatch. destruct (Nat.eqb_spec (length results) 0) as [Hl|Hne]; [eauto|].
  destruct (ensure_runs _ results w a Hf Hp Hr eq_refl) as (idMap & w1 & E1 & Hids).
  { by intros ->. }
  unfold mbind at 1, io_bind at 1, io_wrap. rewrite E1.
  eapply ensure_cases in E1 as [[Hn ->]|[Hr1 Hs]]; [| |exact Hr].
  { exfalso. destruct results as [|r0 rs]; [done|].
    apply (not_elem_of_nil (rr_Domain r0)). rewrite <- Hn. apply unique_names_elem. cbn. set_solver. }
  assert (Forall (fun b => (length b <= maxRowsPerTx)%nat /\ b ⊆ expandResultsWithDomain results)
            (chunks maxRowsPerTx (expandResultsWithDomain results))) as Hb.
  { apply Forall_forall. intros b Hb. split.
    - by apply (proj1 (Forall_forall _ _) (chunks_loop_length maxRowsPerTx _ _)) in Hb.
    - intros row Hrow. rewrite <- (chunks_join maxRowsPerTx (expandResultsWithDomain results)) by (unfold maxRowsPerTx; lia).
      apply list_elem_of_join. eauto. }
  revert w1 Hs Hr1. generalize (spec_ensure a (unique_names ∅ (buildDomainStatuses results)) (buildDomainStatuses results)).
  induction Hb as [|b bs [Hlen Hsub] _ IH]; intros a1 w1 Hs Hr1; [by eexists|]. cbn [upsert_batches].
  destruct (transaction_runs (fun t => match mapM (bind_row idMap) b with
    | None => io_err (ErrNew "domain missing from idMap after ensureDomains")
    | Some args => t ← io_wrap "upsert records" (exec_stmt (5 * Z.of_nat (length b)) (upsert_records args) t); mret (tt, t)
    end) (fun _ => True) w1 Hf) as ([] & w2 & E2 & _).
  { intros w2. assert (is_Some (mapM (bind_row idMap) b)) as [args Ha].
    { apply mapM_is_Some, Forall_forall. intros row Hrow.
      destruct (Hids (rw_domain row)) as [id Hid]; [by apply expand_domain, Hsub|]. unfold bind_row, compose. rewrite Hid. by eexists. }
    destruct (upsert_records_runs idMap b args (db w1)) as [t' Ht]; [|done|done|].
    { intros row Hrow. by apply (expand_checks row results), Hsub. }
    rewrite Ha. unfold mbind, io_bind, io_wrap. rewrite (exec_runs _ _ _ t'); [by eexists _, _, _|done| |done].
    unfold maxRowsPerTx in Hlen. lia. }
  unfold mbind, io_bind. unfold upsert_tx at 1. rewrite E2.
  eapply (upsert_tx_cases idMap b) in E2 as [Hr2 Hd]; [|exact Hr1|done].
  eapply IH; [|exact Hr2]. intros n id Hn. rewrite Hd. by apply Hs.
Qed.

(** A batch never fails by itself: with a working database whose statements
    take the 5000 parameters of a full transaction, every batch of results is
    stored, whatever it contains; no row violates a check, a key or the foreign
    key of the schema. *)
Theorem upsert_succeeds results a w :
  (forall i, fault i = None) -> 5000 <= max_params -> refines (db w) a ->
  exists w', UpsertBatch results w = (Ok tt, w') /\ refines (db w') (spec_upsert a results).
Proof. apply upsert_runs. Qed.
End Totality.

(** ** What is served after a batch *)

(** What a resolver delivers: valid addresses, and none for a domain that did not
    resolve. *)
Definition result_ok (r : ResolveResult) : Prop :=
  Forall (fun x => IsValid x = true /\ addr_wf x) (rr_IPv4 r ++ rr_IPv6 r) /\
  (rr_Status r <> StatusValid -> rr_IPv4 r = [] /\ rr_IPv6 r = []).

Definition is_valid_rec (m : gmap (string * string) RecordVal) (k : string * string) : Prop :=
  exists v, m !! k = Some v /\ rv_status v = "valid"%string.

Lemma valid_after_rows rows e k :
  Forall (fun row => rw_status row = "valid"%string) rows ->
  is_valid_rec (en_recs (foldl (fun e row => entry_row row e) e rows)) k <->
  k ∈ (fun row => (rw_ip row, rw_typ row)) <$> rows \/ is_valid_rec (en_recs e) k.
Proof.
  intros Hf. revert e. induction Hf as [|row rows Hv _ IH]; intros e; cbn.
  { split; [auto|intros [?%elem_of_nil|?]; done]. }
  rewrite IH, elem_of_cons. unfold is_valid_rec, entry_row. cbn [en_recs].
  destruct (decide (k = (rw_ip row, rw_typ row))) as [->|Hne].
  - rewrite lookup_insert_eq. split; [tauto|]. intros _. right. eauto.
  - rewrite lookup_insert_ne by done. tauto.
Qed.

(** The addresses of a result by the family they are served under: an IPv4 address
    in an AAAA answer counts as IPv4. *)
Definition gives (r : ResolveResult) (v4 : bool) (addr : Addr) : Prop :=
  if v4 then addr ∈ rr_IPv4 r \/ (addr ∈ rr_IPv6 r /\ Is4 addr = true)
  else addr ∈ rr_IPv6 r /\ Is4 addr = false.
Definition delivers (r : ResolveResult) (v4 : bool) (addr : Addr) : Prop :=
  rr_Status r = StatusValid /\ gives r v4 addr.

(** An address under the type of the answer it came in. *)
Definition answers (r : ResolveResult) (typ : string) (addr : Addr) : Prop :=
  (typ = "A"%string /\ addr ∈ rr_IPv4 r) \/ (typ = "AAAA"%string /\ addr ∈ rr_IPv6 r).
Definition spec_rec (a : gmap string Entry) (name typ : string) (addr : Addr) : Prop :=
  exists e ip v, a !! name = Some e /\ en_recs e !! (ip, typ) = Some v /\ rv_status v = "valid"%string /\
    ParseAddr ip = Some addr.

Lemma spec_has_rec a name v4 addr :
  spec_has a name v4 addr <-> exists typ, spec_rec a name typ addr /\ v4 = String.eqb typ "A" || Is4 addr.
Proof. unfold spec_has, spec_rec. naive_solver. Qed.

Lemma delivers_answers r v4 addr :
  delivers r v4 addr <->
  rr_Status r = StatusValid /\ exists typ, answers r typ addr /\ v4 = String.eqb typ "A" || Is4 addr.
Proof.
  unfold delivers, gives, answers. split; (intros [Hs Hg]; split; [done|]).
  - destruct v4; [destruct Hg as [Hx|[Hx E]]|destruct Hg as [Hx E]];
      [exists "A"%string|exists "AAAA"%string; rewrite E|exists "AAAA"%string; rewrite E]; auto.
  - destruct Hg as (typ & [[-> Hx]|[-> Hx]] & ->); cbn; [by left|]. destruct (Is4 addr) eqn:E; [by right|done].
Qed.

(** The keys a result writes. *)
Lemma expand_keys r typ addr :
  result_ok r ->
  (exists ip, (ip, typ) ∈ (fun row => (rw_ip row, rw_typ row)) <$> expand_result r /\ ParseAddr ip = Some addr) <->
  answers r typ addr.
Proof.
  intros (Hw & _). unfold expand_result, answers. rewrite fmap_app, <- !list_fmap_compose. unfold compose. cbn [rw_ip rw_typ].
  rewrite Forall_app, !Forall_forall in Hw. destruct Hw as [Hw4 Hw6]. split.
  - intros (ip & [(x & [= -> ->] & Hx)%list_elem_of_fmap|(x & [= -> ->] & Hx)%list_elem_of_fmap]%elem_of_app & Hp);
      [destruct (Hw4 x Hx)|destruct (Hw6 x Hx)]; rewrite ParseAddr_AString in Hp by done; injection Hp as <-; auto.
  - intros [[-> Hx]|[-> Hx]]; (exists (AString addr)); [destruct (Hw4 addr Hx)|destruct (Hw6 addr Hx)];
      (split; [|by apply ParseAddr_AString]); apply elem_of_app; [left|right]; apply list_elem_of_fmap; by exists addr.
Qed.

Lemma spec_rec_result a r name typ addr :
  result_ok r ->
  spec_rec (spec_result a r) name typ addr <->
  spec_rec a name typ addr \/ (rr_Domain r = name /\ rr_Status r = StatusValid /\ answers r typ addr).
Proof.
  intros Hok. unfold spec_rec, spec_result. destruct (decide (rr_Domain r = name)) as [->|Hne].
  2: { setoid_rewrite lookup_insert_ne; [|done]. naive_solver. }
  setoid_rewrite lookup_insert_eq. rewrite <- (expand_keys r typ addr Hok).
  unfold entry_result. destruct (decide (rr_Status r = StatusValid)) as [Hs|Hs].
  - assert (Forall (fun row => rw_status row = "valid"%string) (expand_result r)) as Hrows.
    { unfold expand_result, record_status. rewrite Hs, bool_decide_true by done.
      apply Forall_app. split; apply Forall_fmap, Forall_true; done. }
    pose proof (fun e k => valid_after_rows (expand_result r) e k Hrows) as Hv.
    split.
    + intros (e & ip & v & [= <-] & Hv1 & Hv2 & Hp).
      destruct (proj1 (Hv _ (ip, typ)) (ex_intro _ v (conj Hv1 Hv2))) as [Hk|(v0 & Hv0 & Hst)]; [right; eauto 8|].
      left. destruct (a !! name) as [e|]; [|by cbn in Hv0; rewrite lookup_empty in Hv0]. eauto 10.
    + intros [(e & ip & v & -> & Hv1 & Hv2 & Hp)|(_ & _ & ip & Hk & Hp)].
      * destruct (proj2 (Hv (entry_status (domain_status r) e) (ip, typ))) as (v' & Hv' & Hst'); [right; by exists v|]. eauto 10.
      * destruct (proj2 (Hv (entry_status (domain_status r) (default newEntry (a !! name))) (ip, typ))) as (v' & Hv' & Hst');
          [by left|]. eauto 10.
  - destruct Hok as (_ & Hn). destruct (Hn Hs) as [H4 H6]. unfold expand_result. rewrite H4, H6. cbn. split.
    + intros (e & ip & v & [= <-] & Hv1 & Hv2 & Hp). left. cbn in Hv1.
      destruct (a !! name) as [e|]; [|by cbn in Hv1; rewrite lookup_empty in Hv1]. eauto 10.
    + intros [(e & ip & v & -> & Hv1 & Hv2 & Hp)|(_ & ? & _)]; [|done]. eauto 10.
Qed.

Lemma spec_rec_upsert a results name typ addr :
  Forall result_ok results ->
  spec_rec (spec_upsert a results) name typ addr <->
  spec_rec a name typ addr \/
  exists r, r ∈ results /\ rr_Domain r = name /\ rr_Status r = StatusValid /\ answers r typ addr.
Proof.
  intros Hf. revert a. induction Hf as [|r rs Hr _ IH]; intros a; cbn.
  - split; [auto|intros [?|(? & ?%elem_of_nil & _)]; done].
  - change (foldl spec_result (spec_result a r) rs) with (spec_upsert (spec_result a r) rs).
    rewrite IH, spec_rec_result by done. set_solver.
Qed.

Lemma spec_has_upsert a results name v4 addr :
  Forall result_ok results ->
  spec_has (spec_upsert a results) name v4 addr <->
  spec_has a name v4 addr \/ exists r, r ∈ results /\ rr_Domain r = name /\ delivers r v4 addr.
Proof.
  intros Hf. rewrite !spec_has_rec. setoid_rewrite (spec_rec_upsert a results name _ addr Hf).
  setoid_rewrite delivers_answers. naive_solver.
Qed.

Lemma torn_status a results k name (P : string -> Z -> Prop) :
  name ∈ rr_Domain <$> results -> (forall r, r ∈ results -> P (status_string (rr_Status r)) (Unix (rr_ResolvedAt r))) ->
  exists e, spec_torn a results k !! name = Some e /\ P (en_status e) (en_last e).
Proof.
  intros Hn Hp. unfold spec_torn, spec_rows, spec_ensure. rewrite !alter_fold_lookup, insert_lookup.
  rewrite decide_True.
  2: { apply unique_names_elem. unfold buildDomainStatuses. rewrite <- list_fmap_compose. set_solver. }
  eexists. split; [done|]. set (e0 := default newEntry (a !! name)).
  assert (forall rows e, P (en_status e) (en_last e) ->
    P (en_status (foldl (row_at name) e rows)) (en_last (foldl (row_at name) e rows))) as Hrows.
  { induction rows as [|row rows IH]; intros e He; [done|]. apply IH. unfold row_at. by case_decide. }
  apply (Hrows (take (maxRowsPerTx * k) (expandResultsWithDomain results))). unfold buildDomainStatuses.
  clear Hrows. revert Hn Hp. induction results as [|r rs IH] using rev_ind; [by intros ?%elem_of_nil|].
  rewrite !fmap_app, foldl_app. intros Hn Hp. cbn. case_decide as Hd.
  - cbn. apply Hp. set_solver.
  - apply IH; set_solver.
Qed.

(** ** Claims *)

Section Claims.
Context {K : Type} `{Env K} `{Sqlite K}.
Context (order : gset string -> list string) (rec_order : gset RecordKey -> list RecordKey).
Context `{!MapOrder order, !MapOrder rec_order}.
Implicit Types (w : World K).


(** After a batch is stored, reading a list of domains gives exactly the
    addresses their valid results delivered and those they had before: addresses
    accumulate, and a resolution that fails or no longer gives an address does
    not take it away. *)
Theorem upsert_then_snapshot results domains a w w1 v4 v6 w2 :
  refines (db w) a -> Forall result_ok results ->
  UpsertBatch results w = (Ok tt, w1) -> SnapshotForDomains rec_order domains w1 = (Ok (v4, v6), w2) ->
  forall addr,
    (addr ∈ v4 <-> exists name, name ∈ domains /\
       (spec_has a name true addr \/ exists r, r ∈ results /\ rr_Domain r = name /\ delivers r true addr)) /\
    (addr ∈ v6 <-> exists name, name ∈ domains /\
       (spec_has a name false addr \/ exists r, r ∈ results /\ rr_Domain r = name /\ delivers r false addr)).
Proof.
  intros Hr Hok Eu Es addr. eapply UpsertBatch_cases in Eu; [|exact Hr].
  eapply SnapshotForDomains_cases in Es as [_ Hl]; [|done|exact Eu].
  destruct (Hl v4 v6 eq_refl addr) as [-> ->]. by setoid_rewrite spec_has_upsert.
Qed.

(** ** Batches that fail half-way *)

(** C14. A batch is not one transaction: when storing it fails after the outcomes
    are recorded, the domains whose result is valid and recent count as fresh,
    although addresses of the batch were not stored. *)
Theorem torn_batch_counts_as_fresh results domains ttl ftl a w e w1 l w2 :
  refines (db w) a -> UpsertBatch results w = (Err e, w1) -> db w1 <> db w ->
  (forall r, r ∈ results -> rr_Status r = StatusValid /\
     int64_wrap (Unix (clock (w_calls w1)) - truncate (seconds64 ttl)) <= Unix (rr_ResolvedAt r)) ->
  NeedsRefresh order domains ttl ftl w1 = (Ok l, w2) ->
  (forall name, name ∈ rr_Domain <$> results -> name ∉ l) /\
  exists k, refines (db w1) (spec_torn a results k) /\
    (length (take (maxRowsPerTx * k) (expandResultsWithDomain results)) < length (expandResultsWithDomain results))%nat.
Proof.
  intros Hr Eu Hne Hall En. eapply UpsertBatch_cases in Eu as [|(k & Hk & Hr')]; [done| |exact Hr].
  split; [|exists k; split; [done|]; rewrite length_take; lia].
  intros name Hn Hl. eapply NeedsRefresh_cases in En as [_ Hs]; [|done|exact Hr'].
  destruct (Hs l eq_refl) as (_ & _ & Hel). apply Hel in Hl as [_ Hst]. unfold spec_stale in Hst.
  destruct (torn_status a results k name (fun s t => s = "valid"%string /\
    int64_wrap (Unix (clock (w_calls w1)) - truncate (seconds64 ttl)) <= t) Hn) as (en & Hen & Hv & Ht).
  { intros r Hin. destruct (Hall r Hin) as [-> ?]. done. }
  rewrite Hen in Hst. unfold entry_stale in Hst. rewrite Hv in Hst. cbn in Hst.
  apply Z.ltb_lt in Hst. lia.
Qed.
End Claims.

(** ** A database *)

(** The world is the database; [failing] is the call that fails, if any, and a
    second passes between two calls. *)
Definition demo_env (failing : option nat) : Env Tables := {|
  fault n := if bool_decide (failing = Some n) then Some "disk I/O error"%string else None;
  torn _ old _ := old;
  exec _ _ k := (None, "", "", k)%string;
  look_path _ _ := true;
  clock n := (1700000000 + Z.of_nat n) * 10 ^ 9
|}.
#[export, refine] Instance demo_sqlite : Sqlite Tables := {| db_get t := t; db_set t _ := t; max_params := 32766 |}.
Proof. done. Defined.

Definition demo_addr : Addr := Addr4 (10 * 2 ^ 24 + 1).
Definition demo_results : list ResolveResult :=
  [MkResult "a.example" [demo_addr] [Addr6 1 ""] StatusValid (1700000000 * 10 ^ 9) None;
   MkResult "b.example" [] [] StatusNXDomain (1700000000 * 10 ^ 9) None].
Definition start : World Tables := MkWorld ∅ emptyTables 0.

Lemma demo_results_ok : Forall result_ok demo_results.
Proof. repeat constructor; vm_compute; try done; by intros []. Qed.

Section Working.
#[local] Instance working : Env Tables := demo_env None.

Lemma working_never_fails i : fault i = None.
Proof. done. Qed.

Lemma upsert_succeeds_witness : exists w', UpsertBatch demo_results start = (Ok tt, w').
Proof.
  destruct (upsert_succeeds demo_results ∅ start) as (w' & E & _);
    [intros i; reflexivity|vm_compute; discriminate|exact refines_empty|by exists w'].
Defined.


Definition stored : World Tables := snd (UpsertBatch demo_results start).

Lemma upsert_then_snapshot_witness :
  fst (SnapshotForDomains elements ["a.example"; "b.example"]%string stored) = Ok ([demo_addr], [Addr6 1 ""]) /\
  (demo_addr ∈ [demo_addr] <-> exists name, name ∈ ["a.example"; "b.example"]%string /\
     (spec_has ∅ name true demo_addr \/ exists r, r ∈ demo_results /\ rr_Domain r = name /\ delivers r true demo_addr)).
Proof.
  split; [vm_compute; reflexivity|].
  apply (upsert_then_snapshot (K := Tables) elements demo_results ["a.example"; "b.example"]%string ∅ start stored
           [demo_addr] [Addr6 1 ""] (snd (SnapshotForDomains elements ["a.example"; "b.example"]%string stored))).
  - exact refines_empty.
  - exact demo_results_ok.
  - vm_compute. reflexivity.
  - vm_compute. reflexivity.
Defined.
End Working.

(** The commit of the outcomes succeeds, the transaction of the records does not. *)
Section Failing.
#[local] Instance failing : Env Tables := demo_env (Some 6%nat).
Definition half : World Tables := snd (UpsertBatch (take 1 demo_results) start).

Lemma torn_batch_counts_as_fresh_witness :
  fst (NeedsRefresh elements ["a.example"%string] (3600 * 10 ^ 9) (60 * 10 ^ 9) half) = Ok [] /\
  tb_records (db half) = ∅ /\ "a.example"%string ∉ @nil string.
Proof.
  split; [vm_compute; reflexivity|]. split; [vm_compute; reflexivity|].
  destruct (UpsertBatch (take 1 demo_results) start) as [r w1] eqn:E.
  assert (exists e, r = Err e) as [e ->] by (vm_compute in E; injection E as <- _; eauto).
  assert (half = w1) as Hw by (unfold half; by rewrite E).
  apply (torn_batch_counts_as_fresh (K := Tables) elements (take 1 demo_results)
           ["a.example"%string] (3600 * 10 ^ 9) (60 * 10 ^ 9) ∅ start e w1 []
           (snd (NeedsRefresh elements ["a.example"%string] (3600 * 10 ^ 9) (60 * 10 ^ 9) w1))).
  - exact refines_empty.
  - exact E.
  - rewrite <- Hw. vm_compute. discriminate.
  - intros r ->%list_elem_of_singleton. rewrite <- Hw. split; [reflexivity|]. vm_compute. discriminate.
  - rewrite <- Hw. vm_compute. reflexivity.
  - vm_compute. apply list_elem_of_here.
Defined.
End Failing.
