(* ===== verification/Migrate.v ===== *)
(** * [internal/cache/sqlite.go]: opening the database

  [Open] with its connection string, pragmas and migrations.  The SQL of a
  migration is opaque: [script] is what executing it does to the database, which
  is known to leave [schema_version] alone; the embedded file system maps names to
  directories or files. *)

From S2P Require Import Prelude Order GoLib Os.

Local Open Scope Z_scope.

(** ** Names *)

(** [n = n*10 + int(r-'0')] over the digits, with the wrap-around of an [int]. *)
Fixpoint version_digits (s : string) (n : Z) : option Z :=
  match s with
  | EmptyString => Some n
  | String c s' => if is_digit c then version_digits s' (int64_wrap (n * 10 + digit_val c)) else None
  end.

Definition parseMigrationVersion (name : string) : option Z :=
  let stem := TrimSuffix name ".sql" in
  let numPart := match cut_at (Ascii.eqb "_") stem with Some (a, _) => a | None => stem end in
  if String.eqb numPart "" then None else version_digits numPart 0.

(** The migrations of the embedded files, a directory or the text of a file each. *)
Definition migration_files (fs : gmap string (option string)) : list string :=
  go_sort string_less
    (elements (dom (filter (fun kv : string * option string => is_Some kv.2 /\ HasSuffix kv.1 ".sql" = true) fs))).

(** ** The connection string *)

Definition hex_digit (n : Z) : ascii := ascii_of_N (Z.to_N (if n <? 10 then 48 + n else 55 + n)).
Definition unreserved (c : ascii) : bool :=
  is_digit c || (65 <=? code c) && (code c <=? 90) || (97 <=? code c) && (code c <=? 122)
  || existsb (Ascii.eqb c) ["-"; "_"; "."; "~"]%char.
(** [url.QueryEscape] *)
Fixpoint QueryEscape (s : string) : string :=
  match s with
  | EmptyString => EmptyString
  | String c s' =>
      (if unreserved c then String c ""
       else if Ascii.eqb c " " then "+"
       else String "%" (String (hex_digit (code c / 16)) (String (hex_digit (code c mod 16)) ""))) +:+ QueryEscape s'
  end.

Definition buildDSN (dbPath : string) : string :=
  if String.eqb dbPath ":memory:"
  then "file::memory:?cache=shared&_pragma=foreign_keys(1)&_pragma=busy_timeout(5000)&_pragma=temp_store(2)"
  else
    "file:" +:+ dbPath +:+ "?" +:+
    Join ((fun v => "_pragma=" +:+ QueryEscape v)
            <$> ["journal_mode(WAL)"; "synchronous(NORMAL)"; "foreign_keys(1)"; "busy_timeout(5000)"; "temp_store(2)"]%string) "&".

(** ** The database *)

Class SchemaDb (K : Type) := {
  versions : K -> gset Z;
  add_version : Z -> K -> K;
  script : string -> K -> option K;
  versions_add : forall v k, versions (add_version v k) = {[v]} ∪ versions k;
  versions_script : forall body k k', script body k = Some k' -> versions k' = versions k
}.

Section Migrate.
Context {K : Type} `{Env K} `{SchemaDb K}.
Context (fs : gmap string (option string)).
Local Notation IO := (IO K).

Definition max_version (k : K) : Z :=
  match elements (versions k) with [] => 0 | x :: l => foldr Z.max x l end.

Definition currentSchemaVersion : IO Z :=
  io_wrap "read schema_version" (syscall;; io_fun (fun w => (Ok (max_version (w_kern w)), w))).

(** One migration and its bookkeeping in a transaction. *)
Definition applyMigration (version : Z) (name body : string) : IO unit :=
  io_wrap ("begin tx for " +:+ name) syscall;;
  k ← io_fun (fun w => (Ok (w_kern w), w));
  k ← io_wrap ("exec " +:+ name)
        (syscall;; match script body k with Some k => mret k | None => io_err (ErrNew "SQL logic error") end);
  Now;;
  io_wrap "record version" syscall;;
  io_wrap ("commit " +:+ name) syscall;;
  io_fun (fun w => (Ok tt, MkWorld (w_files w) (add_version version k) (w_calls w))).

Fixpoint migrate_files (current : Z) (names : list string) : IO unit :=
  match names with
  | [] => mret tt
  | name :: names' =>
      match parseMigrationVersion name with
      | None => migrate_files current names'
      | Some ver =>
          if ver <=? current then migrate_files current names'
          else
            match fs !! name with
            | Some (Some body) => applyMigration ver name body;; migrate_files current names'
            | _ => io_err (ErrWrap ("read migration " +:+ name) ErrNotExist)
            end
      end
  end.

Definition migrate : IO unit :=
  io_wrap "bootstrap schema_version" syscall;;
  current ← currentSchemaVersion;
  migrate_files current (migration_files fs).

Fixpoint pragmas (stmts : list string) : IO unit :=
  match stmts with [] => mret tt | stmt :: stmts' => io_wrap stmt syscall;; pragmas stmts' end.

Definition applyPragmas (path : string) : IO unit :=
  (if String.eqb path ":memory:" then mret tt else io_wrap "set journal_mode=WAL" syscall);;
  pragmas ["PRAGMA synchronous=NORMAL"; "PRAGMA foreign_keys=ON"; "PRAGMA busy_timeout=5000"; "PRAGMA temp_store=MEMORY"].

(** [Open]; the handle is the connection string. *)
Definition Open (dbPath : string) : IO string :=
  if String.eqb (TrimSpace dbPath) "" then io_err (ErrNew "cache.Open: empty db path")
  else
    io_wrap "cache.Open: sql.Open" syscall;;
    io_wrap "cache.Open: pragmas" (applyPragmas dbPath);;
    io_wrap "cache.Open: migrate" migrate;;
    mret (buildDSN dbPath).

(** ** What a migration run is for *)

(** The migrations above a version, in order. *)
Definition above (current : Z) (names : list string) : list (Z * string) :=
  omap (fun name => ver ← parseMigrationVersion name;
                    body ← mjoin (fs !! name);
                    if ver <=? current then None else Some (ver, body)) names.

Fixpoint apply_all (todo : list (Z * string)) (k : K) : option K :=
  match todo with
  | [] => Some k
  | (ver, body) :: todo' => k' ← script body k; apply_all todo' (add_version ver k')
  end.

(** The database with every pending migration applied, if all of them can be. *)
Definition migrated (k : K) : option K := apply_all (above (max_version k) (migration_files fs)) k.

(** Later files have larger versions. *)
Definition numbered : Prop :=
  StronglySorted Z.lt (omap parseMigrationVersion (migration_files fs)).
End Migrate.
