(* ===== verification/MigrateSpec.v ===== *)
(** * Migrations can be resumed

  Whatever call fails in the middle of [migrate], what is left to do is what was
  left to do before. *)

From S2P Require Import Prelude Order GoLib Os Migrate.

Local Open Scope Z_scope.

(** ** The largest version *)

Lemma foldr_max_spec (x : Z) l : foldr Z.max x l ∈ x :: l /\ forall y, y ∈ x :: l -> y <= foldr Z.max x l.
Proof.
  induction l as [|z l [IHin IHle]]; cbn [foldr].
  - split; [left|]. intros y ->%list_elem_of_singleton. lia.
  - split.
    + destruct (Z.max_spec z (foldr Z.max x l)) as [[_ ->]|[_ ->]]; [|right; left].
      apply elem_of_cons in IHin as [->|?]; [left|by right; right].
    + intros y [->|[->|Hy]%elem_of_cons]%elem_of_cons; [|lia|].
      * pose proof (IHle x ltac:(left)). lia.
      * pose proof (IHle y ltac:(by right)). lia.
Qed.

Section Spec.
Context {K : Type} `{Env K} `{SchemaDb K}.
Context (fs : gmap string (option string)).
Implicit Types (w : World K) (k : K).

Lemma max_version_ge k v : v ∈ versions k -> v <= max_version k.
Proof.
  rewrite <- elem_of_elements. unfold max_version.
  destruct (elements (versions k)) as [|x l]; [by intros ?%elem_of_nil|]. apply foldr_max_spec.
Qed.

Lemma max_version_eq k m : m ∈ versions k -> (forall v, v ∈ versions k -> v <= m) -> max_version k = m.
Proof.
  intros Hm Hle. apply Z.le_antisymm; [|by apply max_version_ge]. apply elem_of_elements in Hm.
  assert (forall v, v ∈ elements (versions k) -> v <= m) as Hle' by (intros v ?%elem_of_elements; auto).
  unfold max_version. destruct (elements (versions k)) as [|x l]; [by apply elem_of_nil in Hm|].
  apply Hle', foldr_max_spec.
Qed.

(** ** What a run does *)

Lemma applyMigration_cases ver name body w r w' :
  applyMigration ver name body w = (r, w') ->
  (r = Ok tt /\ exists k, script body (w_kern w) = Some k /\ w_kern w' = add_version ver k) \/
  ((exists e, r = Err e) /\ w_kern w' = w_kern w).
Proof.
  unfold applyMigration, syscall, Now, io_fun. io_unfold. cbn [tick w_calls w_kern].
  destruct (fault (w_calls w)); [intros [= <- <-]; right; by eauto|]. cbn [tick w_calls w_kern].
  destruct (fault (S (w_calls w))); [intros [= <- <-]; right; by eauto|]. cbn [tick w_calls w_kern].
  destruct (script body (w_kern w)) as [k|]; [|intros [= <- <-]; right; by eauto]. cbn [tick w_calls w_kern].
  do 2 (destruct (fault _); [intros [= <- <-]; right; by eauto|]; cbn [tick w_calls w_kern]).
  intros [= <- <-]. left. split; [done|]. by exists k.
Qed.

Lemma apply_all_app l1 l2 k k' : apply_all l1 k = Some k' -> apply_all (l1 ++ l2) k = apply_all l2 k'.
Proof.
  revert k. induction l1 as [|[ver body] l1 IH]; intros k; cbn; [by intros [= <-]|].
  destruct (script body k); cbn; [apply IH|done].
Qed.

Lemma migrate_files_cases current names w r w' :
  migrate_files fs current names w = (r, w') ->
  exists pre post, above fs current names = pre ++ post /\ apply_all pre (w_kern w) = Some (w_kern w') /\
    (r = Ok tt -> post = []).
Proof.
  revert w. induction names as [|name names IH]; intros w; cbn [migrate_files above omap list_omap].
  { intros [= <- <-]. by exists [], []. }
  destruct (parseMigrationVersion name) as [ver|]; cbn; [|apply IH].
  destruct (fs !! name) as [[body|]|]; cbn; destruct (ver <=? current) eqn:Ev; try apply IH.
  2, 3: intros [= <- <-]; exists [], (above fs current names); by split_and!.
  unfold mbind at 1, io_bind at 1. destruct (applyMigration ver name body w) as [r1 w1] eqn:E1.
  apply applyMigration_cases in E1 as [[-> (k & Hk & Hk')]|[[e ->] Hk]].
  - intros (pre & post & Ha & Hp & Hr)%IH. exists ((ver, body) :: pre), post.
    split; [cbn; by f_equal|]. split; [|done]. cbn. rewrite Hk. cbn. by rewrite <- Hk'.
  - intros [= <- <-]. exists [], ((ver, body) :: above fs current names). split_and!; [done|by rewrite Hk|done].
Qed.

(** ** What is left *)

Lemma above_filter c c' names :
  c <= c' -> above fs c' names = filter (fun p => c' < p.1) (above fs c names).
Proof.
  intros Hc. unfold above. induction names as [|name names IH]; [done|]. cbn [omap list_omap].
  destruct (parseMigrationVersion name) as [ver|]; cbn; [|done].
  destruct (mjoin (fs !! name)) as [body|]; cbn; [|done].
  destruct (Z.leb_spec ver c), (Z.leb_spec ver c'); cbn; try lia; [done| |].
  - rewrite decide_False by lia. done.
  - rewrite decide_True by lia. by f_equal.
Qed.

Lemma above_sorted c names :
  StronglySorted Z.lt (omap parseMigrationVersion names) ->
  StronglySorted Z.lt ((above fs c names).*1) /\ Forall (fun p => c < p.1) (above fs c names).
Proof.
  assert (forall ns v, v ∈ (above fs c ns).*1 -> v ∈ omap parseMigrationVersion ns) as Hsub.
  { intros ns v ([v' b] & -> & Hin)%list_elem_of_fmap. unfold above in Hin.
    apply list_elem_of_omap in Hin as (n & Hn & E). apply list_elem_of_omap. exists n. split; [done|]. cbn.
    destruct (parseMigrationVersion n) as [ver|]; cbn in E; [|done].
    destruct (mjoin (fs !! n)); cbn in E; [|done]. destruct (ver <=? c); congruence. }
  induction names as [|name names IH]; [by repeat constructor|]. cbn [omap list_omap].
  specialize (Hsub names). unfold above in *. cbn [omap list_omap].
  destruct (parseMigrationVersion name) as [ver|]; cbn; [|done].
  intros [Hs Hall]%StronglySorted_inv. specialize (IH Hs) as [IH1 IH2].
  destruct (mjoin (fs !! name)) as [body|]; cbn; [|done].
  destruct (Z.leb_spec ver c); [done|]. split; constructor; try done.
  apply Forall_forall. intros v Hv. rewrite Forall_forall in Hall. auto.
Qed.

(** After the first part of the pending migrations the second part is pending. *)
Lemma above_rest names pre post k k' :
  StronglySorted Z.lt (omap parseMigrationVersion names) ->
  above fs (max_version k) names = pre ++ post -> apply_all pre k = Some k' ->
  above fs (max_version k') names = post.
Proof.
  intros Hs Ha Hp. pose proof (above_sorted (max_version k) names Hs) as [Hso Hgt]. rewrite Ha in Hso, Hgt.
  assert (forall l k1 k2, apply_all l k1 = Some k2 -> versions k2 = list_to_set l.*1 ∪ versions k1) as Hv.
  { clear. intros l. induction l as [|[v b] l IH]; intros k1 k2; cbn; [intros [= <-]; set_solver|].
    destruct (script b k1) eqn:E; cbn; [|done]. intros ->%IH. rewrite versions_add, (versions_script _ _ _ E). set_solver. }
  destruct pre as [|p pre _] using rev_ind.
  { cbn in Hp. injection Hp as <-. by rewrite Ha. }
  rewrite !fmap_app in Hso. cbn in Hso. pose proof (fun x y => StronglySorted_app_1_elem_of _ _ _ x y Hso) as Hlt.
  apply StronglySorted_app_1_l in Hso.
  apply Forall_app in Hgt as [Hgt1 Hgt2]. apply Forall_app in Hgt1 as [Hgt1 Hgtp]. apply Forall_cons in Hgtp as [Hgtp _]. cbn in Hgtp.
  pose proof (fun x y => StronglySorted_app_1_elem_of _ _ _ x y Hso) as Hlt1.
  assert (max_version k' = p.1) as Hm.
  { apply max_version_eq; rewrite (Hv _ _ _ Hp), fmap_app, list_to_set_app_L; [set_solver|].
    intros v [[Hi|Hi]%elem_of_union|Hi]%elem_of_union.
    - apply elem_of_list_to_set in Hi. specialize (Hlt1 v p.1 Hi ltac:(left)). lia.
    - apply elem_of_list_to_set in Hi. cbn in Hi. apply list_elem_of_singleton in Hi as ->. done.
    - apply max_version_ge in Hi. lia. }
  rewrite Hm, (above_filter (max_version k)), Ha, filter_app, filter_none, filter_every; [done|apply Forall_forall..|].
  - apply Forall_forall. intros q Hq. apply (Hlt p.1); [set_solver|]. apply list_elem_of_fmap. by exists q.
  - apply Forall_app. split; [|constructor; [lia|done]]. apply Forall_forall. intros q Hq.
    assert (q.1 < p.1); [|lia]. apply Hlt1; [|left]. apply list_elem_of_fmap. by exists q.
  - lia.
Qed.

End Spec.

(** ** The two migrations of the program *)

Definition embedded : gmap string (option string) :=
  {[ "0001_init.sql"%string := Some "CREATE TABLE domains"%string;
     "0002_domain_status.sql"%string := Some "ALTER TABLE domains"%string ]}.

(** A database that logs the scripts; [failing] is the call that fails. *)
Definition logged : Type := gset Z * list string.
#[local] Instance logged_schema : SchemaDb logged := {|
  versions k := fst k;
  add_version v k := ({[v]} ∪ fst k, snd k);
  script body k := Some (fst k, snd k ++ [body]);
  versions_add v k := eq_refl;
  versions_script body k k' E := f_equal fst (eq_sym (Some_inj _ _ E))
|}.
Definition log_env (failing : nat) : Env logged := {|
  fault n := if Nat.eqb n failing then Some "disk I/O error"%string else None;
  torn _ old _ := old;
  exec _ _ k := (None, "", "", k)%string;
  look_path _ _ := true;
  clock n := Z.of_nat n
|}.

Lemma embedded_numbered : numbered embedded.
Proof. unfold numbered. vm_compute. repeat constructor. Qed.

