(* ===== verification/Resolver.v ===== *)
(** * [internal/resolver]: one domain

  [types.go], [dns.go] and the sequential part of [resolver.go]: a query, the
  CNAME chain, the retries with their backoff.  The exchange with the upstream
  server ([miekg/dns]) and the random numbers are interfaces; a context is its
  error at every moment, a closed resolver a moment. *)

From S2P Require Import Prelude GoLib Os Netip NetipText Float64 Config Exporter Cache.
From Stdlib Require Import SpecFloat.

Local Open Scope Z_scope.

(** ** Data *)

Record ResolverCfg := MkResolverCfg {
  rs_Upstream : string; rs_Network : string; rs_Concurrency : Z; rs_QPS : Z; rs_Timeout : Z;
  rs_Retries : Z; rs_BackoffBase : Z; rs_BackoffMax : Z; rs_FollowCNAME : bool; rs_MaxCNAMEChain : Z }.

Definition DefaultConfig : ResolverCfg :=
  MkResolverCfg "8.8.8.8:53" "udp" 64 1000 (5 * Second) 2 (100 * Millisecond) (5 * Second) true 8.

(** [New]: the checked configuration, with the default chain length. *)
Definition NewResolver (cfg : ResolverCfg) : res error ResolverCfg :=
  if String.eqb (rs_Upstream cfg) "" then Err (ErrNew "resolver: upstream cannot be empty")
  else if rs_Concurrency cfg <? 1 then Err (ErrNew "resolver: concurrency must be >= 1")
  else if rs_QPS cfg <? 1 then Err (ErrNew "resolver: qps must be >= 1")
  else Ok (MkResolverCfg (rs_Upstream cfg) (rs_Network cfg) (rs_Concurrency cfg) (rs_QPS cfg) (rs_Timeout cfg)
             (rs_Retries cfg) (rs_BackoffBase cfg) (rs_BackoffMax cfg) (rs_FollowCNAME cfg)
             (if rs_MaxCNAMEChain cfg =? 0 then 8 else rs_MaxCNAMEChain cfg)).

(** What [main] makes of the configuration. *)
Definition resolver_config (cfg : Config) : ResolverCfg :=
  let r := cfg_Resolver cfg in
  MkResolverCfg (rc_Upstream r) (rc_Network r) (rc_Concurrency r) (rc_QPS r) (rc_Timeout r) (rc_Retries r)
    (rc_BackoffBase r) (rc_BackoffMax r) (rc_FollowCNAME r) 8.

(** An IP of a record ([net.IP], 4 or 16 bytes) and its text: an IPv4-mapped one
    prints as IPv4. *)
Inductive NetIP := IP4 (u : Z) | IP16 (u : Z) | IPNil.
Definition ip_string (ip : NetIP) : string :=
  match ip with
  | IP4 u => string4 u
  | IP16 u => if Is4In6 (Addr6 u "") then string4 (Z.land u (Z.ones 32)) else string6 u
  | IPNil => "<nil>"
  end.

Inductive RR := RR_A (a : NetIP) | RR_AAAA (aaaa : NetIP) | RR_CNAME (target : string) | RR_Other.
Inductive QType := TypeA | TypeAAAA | TypeCNAME.
Record Msg := MkMsg { ms_Rcode : Z; ms_Answer : list RR }.

Definition RcodeSuccess : Z := 0.
Definition RcodeServerFailure : Z := 2.
Definition RcodeNameError : Z := 3.

(** The upstream server, asked for a name and a type. *)
Class Dns (K : Type) := {
  exchange : string -> string -> QType -> K -> res error Msg * K;
  rcode_text : Z -> string;
  (** [rand.Float64] *)
  random : nat -> spec_float
}.

(** [*DNSError] or any other error. *)
Inductive qerr := DNSError (rcode : Z) (msg : string) | NetError (e : error).
Definition qerr_error (e : qerr) : error :=
  match e with
  | DNSError rcode msg => ErrNew ("DNS error: " +:+ msg +:+ " (rcode=" +:+ Itoa rcode +:+ ")")
  | NetError e => e
  end.

Definition isNXDomain (err : option qerr) : bool :=
  match err with Some (DNSError rcode _) => rcode =? RcodeNameError | _ => false end.

Definition isRetryable (err : option qerr) : bool :=
  match err with
  | None => false
  | Some (DNSError rcode _) => rcode =? RcodeServerFailure
  | Some (NetError e) =>
      StrContains (Error e) "timeout" || StrContains (Error e) "i/o" || StrContains (Error e) "connection refused"
  end.

(** The addresses of the answers of the queried type. *)
Definition answer_addr (qtype : QType) (rr : RR) : option Addr :=
  match qtype, rr with
  | TypeA, RR_A ip | TypeAAAA, RR_AAAA ip => ParseAddr (ip_string ip)
  | _, _ => None
  end.

Fixpoint first_cname (l : list RR) : string :=
  match l with
  | [] => ""
  | RR_CNAME target :: _ => TrimSuffix target "."
  | _ :: l' => first_cname l'
  end.

Definition absolute (domain : string) : string := if HasSuffix domain "." then domain else domain +:+ ".".

Section Resolver.
Context {K : Type} `{Env K} `{Dns K}.
Context (cfg : ResolverCfg) (ctx : Ctx) (closed : nat -> bool).
Local Notation IO := (IO K).

Definition Exchange (domain : string) (qtype : QType) : World K -> res error Msg * World K := fun w =>
  let '(r, k) := exchange (rs_Upstream cfg) (absolute domain) qtype (w_kern w) in
  (r, MkWorld (w_files w) k (S (w_calls w))).

(** ** [queryType] *)

(** The exchange races with the context. *)
Definition queryType (domain : string) (qtype : QType) (w : World K) : list Addr * option qerr * World K :=
  let '(r, w') := Exchange domain qtype w in
  match ctx (w_calls w) with
  | Some e => ([], Some (NetError e), w')
  | None =>
      match r with
      | Err e => ([], Some (NetError e), w')
      | Ok resp =>
          if ms_Rcode resp =? RcodeNameError then ([], Some (DNSError (ms_Rcode resp) "NXDOMAIN"), w')
          else if ms_Rcode resp =? RcodeServerFailure then ([], Some (DNSError (ms_Rcode resp) "SERVFAIL"), w')
          else if negb (ms_Rcode resp =? RcodeSuccess)
          then ([], Some (DNSError (ms_Rcode resp) (rcode_text (ms_Rcode resp))), w')
          else (omap (answer_addr qtype) (ms_Answer resp), None, w')
      end
  end.

(** ** CNAME chains *)

Definition queryCNAME (domain : string) (w : World K) : res error string * World K :=
  let '(r, w') := Exchange domain TypeCNAME w in
  match r with
  | Err e => (Err e, w')
  | Ok resp => (Ok (if ms_Rcode resp =? RcodeSuccess then first_cname (ms_Answer resp) else ""%string), w')
  end.

(** The loop: [hops] iterations are left. *)
Fixpoint follow (hops : nat) (visited : gset string) (current : string) (w : World K)
    : res error string * World K :=
  match hops with
  | O => (Err (ErrNew ("CNAME chain too long (>" +:+ Itoa (rs_MaxCNAMEChain cfg) +:+ " hops)")), w)
  | S hops' =>
      if bool_decide (current ∈ visited) then (Err (ErrNew ("CNAME loop detected at " +:+ current)), w)
      else
        match queryCNAME current w with
        | (Err _, w') => (Ok current, w')
        | (Ok cname, w') =>
            if String.eqb cname "" || String.eqb cname current then (Ok current, w')
            else follow hops' ({[current]} ∪ visited) cname w'
        end
  end.

Definition followCNAME (domain : string) (w : World K) : res error string * World K :=
  if negb (rs_FollowCNAME cfg) then (Ok domain, w)
  else follow (Z.to_nat (rs_MaxCNAMEChain cfg)) ∅ domain w.

(** ** [queryDomain] *)

(** The outcome of the two queries and whether to retry. *)
Definition query_outcome (domain : string) (now : Z) (ipv4 : list Addr) (errA : option qerr)
    (ipv6 : list Addr) (errAAAA : option qerr) : ResolveResult * bool :=
  if Nat.ltb 0 (length ipv4) || Nat.ltb 0 (length ipv6)
  then (MkResult domain ipv4 ipv6 StatusValid now None, false)
  else if isNXDomain errA || isNXDomain errAAAA
  then (MkResult domain [] [] StatusNXDomain now (qerr_error <$> errA), false)
  else
    match errA, errAAAA with
    | None, None => (MkResult domain [] [] StatusNXDomain now None, false)
    | Some e, _ => (MkResult domain [] [] StatusFailed now (Some (qerr_error e)), isRetryable errA || isRetryable errAAAA)
    | None, Some e => (MkResult domain [] [] StatusFailed now (Some (qerr_error e)), isRetryable errA || isRetryable errAAAA)
    end.

Definition queryDomain (domain : string) (w : World K) : ResolveResult * bool * World K :=
  let now := clock (w_calls w) in
  match (if rs_FollowCNAME cfg then followCNAME domain (tick w) else (Ok domain, tick w)) with
  | (Err e, w) => (MkResult domain [] [] StatusFailed now (Some e), false, w)
  | (Ok targetDomain, w) =>
      let '(ipv4, errA, w) := queryType targetDomain TypeA w in
      let '(ipv6, errAAAA, w) := queryType targetDomain TypeAAAA w in
      (query_outcome domain now ipv4 errA ipv6 errAAAA, w)
  end.

(** ** Retries *)

Definition float_quarter : spec_float := F64.div F64.one (F64.of_int 4).

(** [time.Duration(float64(backoff) * 0.25 * (2*randomFloat() - 1))]. *)
Definition jitter (backoff : Z) (u : spec_float) : Z :=
  truncate (SFmul 53 1024 (SFmul 53 1024 (F64.of_int backoff) float_quarter)
              (SFsub 53 1024 (SFmul 53 1024 (F64.of_int 2) u) F64.one)).

Definition capped_backoff (attempt : Z) : Z :=
  let backoff := int64_wrap (rs_BackoffBase cfg * shl1_int attempt) in
  if rs_BackoffMax cfg <? backoff then rs_BackoffMax cfg else backoff.

Definition calculateBackoff (attempt : Z) (u : spec_float) : Z :=
  let backoff := int64_wrap (capped_backoff attempt + jitter (capped_backoff attempt) u) in
  if backoff <? 0 then rs_BackoffBase cfg else backoff.

(** The wait before an attempt: the timer after its duration, the context or the
    shutdown. *)
Inductive Waited := Elapsed (d : Z) | Cancelled (e : error) | Shutdown.
Definition wait_backoff (attempt : Z) (w : World K) : Waited * World K :=
  let backoff := calculateBackoff attempt (random (w_calls w)) in
  (match ctx (w_calls w) with
   | Some e => Cancelled e
   | None => if closed (w_calls w) then Shutdown else Elapsed backoff
   end, tick w).

(** [attempts] attempts are left, the next one has the number [attempt]. *)
Fixpoint resolve_loop (attempts : nat) (attempt : Z) (domain : string) (lastErr : option error) (w : World K)
    : ResolveResult * World K :=
  match attempts with
  | O =>
      let err := match lastErr with
                 | Some e => ErrWrap "max retries exceeded" e
                 | None => ErrNew "max retries exceeded: %!w(<nil>)"
                 end in
      (MkResult domain [] [] StatusFailed (clock (w_calls w)) (Some err), tick w)
  | S attempts' =>
      match (if 0 <? attempt then wait_backoff attempt w else (Elapsed 0, w)) with
      | (Cancelled e, w) => (MkResult domain [] [] StatusFailed (clock (w_calls w)) (Some e), tick w)
      | (Shutdown, w) =>
          (MkResult domain [] [] StatusFailed (clock (w_calls w)) (Some (ErrNew "resolver closed")), tick w)
      | (Elapsed _, w) =>
          let '(result, shouldRetry, w) := queryDomain domain w in
          if shouldRetry : bool then resolve_loop attempts' (attempt + 1) domain (rr_Err result) w
          else (result, w)
      end
  end.

Definition resolveDomain (domain : string) (w : World K) : ResolveResult * World K :=
  resolve_loop (Z.to_nat (rs_Retries cfg + 1)) 0 domain None w.
End Resolver.
