(* ===== verification/ResolverSpec.v ===== *)
(** * What the resolver guarantees for one domain

  The result has the addresses of the answers or the reason there are none; the
  number of queries is bounded; a CNAME chain is followed to its end when it has
  fewer hops than the limit. *)

From S2P Require Import Prelude GoLib Os Netip NetipText Float64 Config Exporter Cache CacheSpec Resolver.
From Stdlib Require Import SpecFloat.

Local Open Scope Z_scope.

(** ** Answers *)

Definition ip_wf (ip : NetIP) : Prop :=
  match ip with IP4 u => 0 <= u < 2 ^ 32 | IP16 u => 0 <= u < 2 ^ 128 | IPNil => True end.
Definition rr_wf (rr : RR) : Prop :=
  match rr with RR_A ip | RR_AAAA ip => ip_wf ip | _ => True end.

(** The address an IP denotes for the program. *)
Definition ip_addr (ip : NetIP) : option Addr :=
  match ip with
  | IP4 u => Some (Addr4 u)
  | IP16 u => Some (if Is4In6 (Addr6 u "") then Addr4 (Z.land u (Z.ones 32)) else Addr6 u "")
  | IPNil => None
  end.

Lemma parse_ip_string ip : ip_wf ip -> ParseAddr (ip_string ip) = ip_addr ip.
Proof.
  destruct ip as [u|u|]; cbn [ip_wf ip_string ip_addr]; intros Hw; [by apply ParseAddr_string4| |done].
  destruct (Is4In6 (Addr6 u "")) eqn:E.
  - apply ParseAddr_string4. rewrite Z.land_ones by lia. apply Z.mod_pos_bound. lia.
  - transitivity (ParseAddr (AString (Addr6 u ""))); [|by apply ParseAddr_AString].
    f_equal. unfold AString. rewrite E. cbn. by rewrite str_app_nil_r.
Qed.

Lemma ip_addr_wf ip a : ip_wf ip -> ip_addr ip = Some a -> IsValid a = true /\ addr_wf a.
Proof.
  destruct ip as [u|u|]; intros Hw E; unfold ip_addr in E; [| |discriminate].
  { injection E as <-. split; [reflexivity|exact Hw]. }
  destruct (Is4In6 (Addr6 u "")); injection E as <-; (split; [reflexivity|]); [|exact Hw].
  unfold addr_wf. cbn [addr_num BitLen]. rewrite Z.land_ones by lia. apply Z.mod_pos_bound. lia.
Qed.

Section ResolverSpec.
Context {K : Type} `{Env K} `{Dns K}.
Context (cfg : ResolverCfg) (ctx : Ctx) (closed : nat -> bool).
(** The server's answers hold addresses of 32 and of 128 bits. *)
Context (answers_wf : forall up name qtype k msg, fst (exchange up name qtype k) = Ok msg -> Forall rr_wf (ms_Answer msg)).
Implicit Types (w : World K).

Lemma exchange_calls name qtype w : w_calls (snd (Exchange cfg name qtype w)) = S (w_calls w).
Proof. unfold Exchange. by destruct (exchange _ _ _ _). Qed.

Lemma queryType_spec name qtype w l err w' :
  queryType cfg ctx name qtype w = (l, err, w') ->
  w_calls w' = S (w_calls w) /\ Forall (fun x => IsValid x = true /\ addr_wf x) l /\ (err <> None -> l = []).
Proof.
  unfold queryType, Exchange. destruct (exchange _ _ _ _) as [r k] eqn:Er.
  destruct (ctx (w_calls w)); [by intros [= <- <- <-]|]. destruct r as [resp|e]; [|by intros [= <- <- <-]].
  repeat case_if; intros [= <- <- <-]; try done. split; [done|]. split; [|done].
  pose proof (answers_wf (rs_Upstream cfg) (absolute name) qtype (w_kern w) resp) as Hwf. rewrite Er in Hwf.
  specialize (Hwf eq_refl). apply Forall_forall. intros a (rr & Hrr & Ha)%list_elem_of_omap.
  rewrite Forall_forall in Hwf. specialize (Hwf rr Hrr).
  destruct qtype, rr as [ip|ip| |]; cbn in Ha; try done; cbn in Hwf; rewrite parse_ip_string in Ha by done;
    by eapply ip_addr_wf.
Qed.

Lemma follow_calls hops visited current w r w' :
  follow cfg hops visited current w = (r, w') -> (w_calls w <= w_calls w' <= w_calls w + hops)%nat.
Proof.
  revert visited current w. induction hops as [|hops IH]; intros visited current w; cbn [follow].
  { intros [= <- <-]. lia. }
  case_if; [intros [= <- <-]; lia|]. unfold queryCNAME. pose proof (exchange_calls current TypeCNAME w) as Hc.
  destruct (Exchange cfg current TypeCNAME w) as [[resp|e] w1]; cbn in Hc; [|intros [= <- <-]; lia].
  case_if; [intros [= <- <-]; lia|]. intros E%IH. lia.
Qed.

Lemma queryDomain_spec name w r retry w' :
  queryDomain cfg ctx name w = (r, retry, w') ->
  (w_calls w' <= w_calls w + Z.to_nat (rs_MaxCNAMEChain cfg) + 3)%nat /\ (w_calls w < w_calls w')%nat /\
  rr_Domain r = name /\ result_ok r /\ rr_Status r <> StatusUnknown /\
  (rr_Status r = StatusValid <-> rr_IPv4 r ++ rr_IPv6 r <> []) /\
  (retry = true -> rr_Status r = StatusFailed).
Proof.
  unfold queryDomain.
  assert (forall q, (if rs_FollowCNAME cfg then followCNAME cfg name (tick w) else (Ok name, tick w)) = q ->
    (S (w_calls w) <= w_calls (snd q) <= S (w_calls w) + Z.to_nat (rs_MaxCNAMEChain cfg))%nat) as Hq.
  { intros [t w1]. destruct (rs_FollowCNAME cfg) eqn:Ef; [|intros [= <- <-]; cbn; lia].
    unfold followCNAME. rewrite Ef. intros E%follow_calls. cbn in E |- *. lia. }
  destruct (if rs_FollowCNAME cfg then _ else _) as [[target|e] w1]; specialize (Hq _ eq_refl); cbn [snd] in Hq.
  2: { intros [= <- <- <-]. cbn. split_and!; try done; lia. }
  destruct (queryType cfg ctx target TypeA w1) as [[ipv4 errA] w2] eqn:E4.
  destruct (queryType cfg ctx target TypeAAAA w2) as [[ipv6 errAAAA] w3] eqn:E6.
  apply queryType_spec in E4 as (Hc4 & Hw4 & _). apply queryType_spec in E6 as (Hc6 & Hw6 & _).
  intros [= Eq <-]. split; [lia|]. split; [lia|]. unfold query_outcome in Eq.
  assert (forall st e, st <> StatusValid -> result_ok (MkResult name [] [] st (clock (w_calls w)) e)) as Hnil.
  { intros st e Hs. split; [constructor|done]. }
  destruct (Nat.ltb 0 (length ipv4) || Nat.ltb 0 (length ipv6)) eqn:El.
  - injection Eq as <- <-. cbn. split_and!; try done. { split; [by apply Forall_app|done]. } split; [|done]. intros _ E.
    apply app_eq_nil in E as [-> ->]. done.
  - destruct (isNXDomain errA || isNXDomain errAAAA); [|destruct errA, errAAAA]; injection Eq as <- <-;
      cbn [rr_Domain rr_Status rr_IPv4 rr_IPv6]; split_and!; try done; by apply Hnil.
Qed.

Lemma resolve_loop_spec attempts attempt name lastErr w r w' :
  resolve_loop cfg ctx closed attempts attempt name lastErr w = (r, w') ->
  (w_calls w' <= w_calls w + attempts * (Z.to_nat (rs_MaxCNAMEChain cfg) + 4) + 1)%nat /\
  rr_Domain r = name /\ result_ok r /\ rr_Status r <> StatusUnknown /\
  (rr_Status r = StatusValid <-> rr_IPv4 r ++ rr_IPv6 r <> []).
Proof.
  assert (forall st now e n, st = StatusFailed -> let r := MkResult n [] [] st now e in
    rr_Domain r = n /\ result_ok r /\ rr_Status r <> StatusUnknown /\
    (rr_Status r = StatusValid <-> rr_IPv4 r ++ rr_IPv6 r <> [])) as Hfail.
  { intros st now e n ->. by split_and!. }
  revert attempt lastErr w. induction attempts as [|attempts IH]; intros attempt lastErr w; cbn [resolve_loop].
  { intros [= <- <-]. split; [cbn; lia|by apply Hfail]. }
  destruct (if 0 <? attempt then _ else _) as [wt w1] eqn:Ew.
  assert (w_calls w1 <= S (w_calls w))%nat as Hw1.
  { destruct (0 <? attempt); injection Ew as _ <-; cbn; lia. }
  destruct wt as [d|e|].
  - destruct (queryDomain cfg ctx name w1) as [[r1 retry] w2] eqn:Eq.
    apply queryDomain_spec in Eq as (Hc & _ & Hd & Hok & Hu & Hv & _). destruct retry.
    + intros (Hc' & Hrest)%IH. split; [lia|done].
    + intros [= <- <-]. split; [lia|done].
  - intros [= <- <-]. split; [cbn; lia|by apply Hfail].
  - intros [= <- <-]. split; [cbn; lia|by apply Hfail].
Qed.

Lemma resolveDomain_result name w r w' :
  resolveDomain cfg ctx closed name w = (r, w') ->
  rr_Domain r = name /\ result_ok r /\ (rr_Status r = StatusValid <-> rr_IPv4 r ++ rr_IPv6 r <> []).
Proof. intros (_ & ? & ? & _ & ?)%resolve_loop_spec. done. Qed.

(** C18. Resolving a domain ends after a bounded number of network and clock calls,
    linear in the retries and the limit of the CNAME chain, with a result for that
    domain; the result is valid exactly when it has addresses, and all of them are
    valid. *)
Theorem resolveDomain_spec name w r w' :
  resolveDomain cfg ctx closed name w = (r, w') ->
  (w_calls w' <= w_calls w + Z.to_nat (rs_Retries cfg + 1) * (Z.to_nat (rs_MaxCNAMEChain cfg) + 4) + 1)%nat /\
  rr_Domain r = name /\ result_ok r /\ rr_Status r <> StatusUnknown /\
  (rr_Status r = StatusValid <-> rr_IPv4 r ++ rr_IPv6 r <> []).
Proof. apply resolve_loop_spec. Qed.
End ResolverSpec.

(** ** CNAME chains *)

Section Chains.
Context {K : Type} `{Env K} `{Dns K}.
Context (cfg : ResolverCfg).
(** A server whose CNAME answers do not change: the alias of each name. *)
Context (alias : string -> res error string).
Context (stable : forall name w, fst (queryCNAME cfg name w) = alias name).
Implicit Types (w : World K).

(** The next name of the chain, if it goes on. *)
Definition hop (name : string) : option string :=
  match alias name with
  | Ok c => if String.eqb c "" || String.eqb c name then None else Some c
  | Err _ => None
  end.

Fixpoint hops (n : nat) (name : string) : option string :=
  match n with O => Some name | S n' => c ← hop name; hops n' c end.

Lemma hops_snoc n name : hops (S n) name = (c ← hops n name; hop c).
Proof.
  revert name. induction n as [|n IH]; intros name; [cbn; by destruct (hop name)|].
  change (hops (S (S n)) name) with (c ← hop name; hops (S n) c). destruct (hop name) as [c|] eqn:E; cbn [mbind option_bind].
  - rewrite IH. cbn [hops]. by rewrite E.
  - cbn [hops]. by rewrite E.
Qed.

Lemma hops_add m n name : hops (m + n) name = (c ← hops m name; hops n c).
Proof.
  revert name. induction m as [|m IH]; intros name; [done|]. cbn. destruct (hop name); [apply IH|done].
Qed.

(** A chain that ends does not come back. *)
Lemma hops_distinct n name t i j :
  hops n name = Some t -> hop t = None -> (i < j <= n)%nat -> hops i name <> hops j name.
Proof.
  intros Hn Ht Hij E.
  assert (exists c, hops i name = Some c) as [c Hi].
  { destruct (hops i name) eqn:Hi; [eauto|]. replace n with (i + (n - i))%nat in Hn by lia. by rewrite hops_add, Hi in Hn. }
  assert (forall k, hops (j + k) name = hops (i + k) name) as Hshift.
  { intros k. by rewrite !hops_add, <- E. }
  assert (hops (S n) name = None) as HS by (by rewrite hops_snoc, Hn).
  assert (hops (i + (n - j)) name = Some t) as Hend.
  { rewrite <- Hshift. replace (j + (n - j))%nat with n by lia. done. }
  replace n with ((i + (n - j)) + (j - i))%nat in Hn by lia. rewrite hops_add, Hend in Hn. cbn in Hn.
  replace (j - i)%nat with (S (j - i - 1)) in Hn by lia. cbn in Hn. by rewrite Ht in Hn.
Qed.

Lemma follow_ok fuel visited current w t w' :
  follow cfg fuel visited current w = (Ok t, w') ->
  exists n, (n < fuel)%nat /\ hops n current = Some t /\ hop t = None.
Proof.
  revert visited current w. induction fuel as [|fuel IH]; intros visited current w; cbn [follow]; [done|].
  case_if; [done|]. pose proof (stable current w) as Hs. destruct (queryCNAME cfg current w) as [[c|e] w1]; cbn in Hs.
  - destruct (String.eqb c "" || String.eqb c current) eqn:Ec.
    + intros [= <- <-]. exists 0%nat. split; [lia|]. split; [done|]. unfold hop. by rewrite <- Hs, Ec.
    + intros (n & Hn & Hh & Ht)%IH. exists (S n). split; [lia|]. split; [|done].
      cbn. unfold hop at 1. rewrite <- Hs, Ec. done.
  - intros [= <- <-]. exists 0%nat. split; [lia|]. split; [done|]. unfold hop. by rewrite <- Hs.
Qed.

Lemma follow_complete fuel n visited current w t :
  (n < fuel)%nat -> hops n current = Some t -> hop t = None ->
  (forall i c, (i <= n)%nat -> hops i current = Some c -> c ∉ visited) ->
  fst (follow cfg fuel visited current w) = Ok t.
Proof.
  revert n visited current w. induction fuel as [|fuel IH]; intros n visited current w Hn Hh Ht Hv; [lia|].
  cbn [follow]. rewrite bool_decide_false by (apply (Hv 0%nat); [lia|done]).
  pose proof (stable current w) as Hs. destruct (queryCNAME cfg current w) as [r w1]. cbn in Hs. subst r.
  destruct n as [|n].
  - cbn in Hh. injection Hh as ->. unfold hop in Ht. destruct (alias t) as [c|e]; [|done]. by case_if.
  - cbn in Hh. unfold hop in Hh at 1. destruct (alias current) as [c|e] eqn:Ea; [|done].
    destruct (String.eqb c "" || String.eqb c current) eqn:Ec; [done|]. cbn in Hh.
    assert (hop current = Some c) as Hc by (unfold hop; by rewrite Ea, Ec).
    apply (IH n); [lia|done|done|]. intros i c' Hi Hc' Hin.
    assert (hops (S i) current = Some c') as HS by (cbn; by rewrite Hc).
    apply elem_of_union in Hin as [->%elem_of_singleton|Hin]; [|by apply (Hv (S i) c'); [lia|..]].
    apply (hops_distinct (S n) current t 0 (S i)); [cbn; by rewrite Hc|done|lia|]. by rewrite HS.
Qed.

(** A CNAME chain is followed to its end exactly when it has fewer hops than
    the limit: a longer one, one of exactly the limit included, and one with a
    loop are refused. *)
Theorem followCNAME_spec name w t :
  rs_FollowCNAME cfg = true ->
  fst (followCNAME cfg name w) = Ok t <->
  exists n, Z.of_nat n < rs_MaxCNAMEChain cfg /\ hops n name = Some t /\ hop t = None.
Proof.
  intros Hf. unfold followCNAME. rewrite Hf. cbn [negb]. split.
  - destruct (follow _ _ _ _ _) as [r w'] eqn:E. cbn. intros ->. apply follow_ok in E as (n & Hn & Hh & Ht).
    exists n. split; [lia|done].
  - intros (n & Hn & Hh & Ht). apply (follow_complete _ n); [lia|done|done|]. set_solver.
Qed.
End Chains.

(** ** Backoff *)

(** The wait before the attempts of a validated configuration grows by
    doubling up to the maximum, without overflow, and is never negative whatever
    the random number is. *)
Theorem backoff_bounds cfg attempt u :
  0 <= rs_BackoffBase cfg <= rs_BackoffMax cfg -> rs_BackoffMax cfg < 2 ^ 52 -> 1 <= attempt <= 10 ->
  capped_backoff cfg attempt = Z.min (rs_BackoffBase cfg * 2 ^ attempt) (rs_BackoffMax cfg) /\
  0 <= calculateBackoff cfg attempt u.
Proof.
  intros Hb Hm Ha. split.
  - unfold capped_backoff. rewrite shl1_int_small by lia.
    assert (0 < 2 ^ attempt <= 2 ^ 10) as Hp by (split; [lia|apply Z.pow_le_mono_r; lia]).
    rewrite wrap_s_id by (change (2 ^ (64 - 1)) with (2 ^ 52 * 2 ^ 11); nia).
    destruct (Z.ltb_spec (rs_BackoffMax cfg) (rs_BackoffBase cfg * 2 ^ attempt)); lia.
  - unfold calculateBackoff. destruct (Z.ltb_spec (int64_wrap (capped_backoff cfg attempt + jitter (capped_backoff cfg attempt) u)) 0); lia.
Qed.

Lemma backoff_bounds_witness : capped_backoff DefaultConfig 2 = 400 * Millisecond /\ 0 <= calculateBackoff DefaultConfig 2 F64.half.
Proof.
  destruct (backoff_bounds DefaultConfig 2 F64.half) as [E Hn]; [vm_compute; split; discriminate|vm_compute; reflexivity|lia|].
  split; [rewrite E; reflexivity|exact Hn].
Defined.

(** ** A server *)

#[local] Instance server_env : Env Tables := demo_env None.

(** [a.example] is an alias of [b.example], which has two addresses. *)
#[export] Instance demo_dns : Dns Tables := {|
  exchange _ name qtype k :=
    (Ok (if String.eqb name "b.example." then
           MkMsg RcodeSuccess (match qtype with
             | TypeA => [RR_A (IP4 (10 * 2 ^ 24 + 1))]
             | TypeAAAA => [RR_AAAA (IP16 1)]
             | TypeCNAME => []
             end)
         else if String.eqb name "a.example." then MkMsg RcodeSuccess [RR_CNAME "b.example."]
         else MkMsg RcodeNameError []), k);
  rcode_text _ := "";
  random _ := F64.half
|}.

Lemma demo_answers_wf up name qtype k msg : fst (exchange up name qtype k) = Ok msg -> Forall rr_wf (ms_Answer msg).
Proof.
  cbn. repeat case_if; intros [= <-]; [destruct qtype|..]; repeat constructor; vm_compute; try done; split; discriminate.
Qed.

Definition no_ctx : Ctx := fun _ => None.
Definition asked : ResolveResult := fst (resolveDomain DefaultConfig no_ctx (fun _ => false) "a.example" start).

Lemma resolveDomain_spec_witness :
  rr_IPv4 asked = [Addr4 (10 * 2 ^ 24 + 1)] /\ rr_Status asked = StatusValid /\ result_ok asked.
Proof.
  split; [vm_compute; reflexivity|].
  destruct (resolveDomain DefaultConfig no_ctx (fun _ => false) "a.example" start) as [r w'] eqn:E.
  pose proof (resolveDomain_spec DefaultConfig no_ctx (fun _ => false) demo_answers_wf "a.example" start r w' E)
    as (_ & _ & Hok & _ & Hv).
  assert (asked = r) as -> by (unfold asked; by rewrite E).
  split; [|exact Hok]. apply Hv. vm_compute in E. injection E as <- <-. discriminate.
Defined.

Definition demo_alias (name : string) : res error string :=
  Ok (if String.eqb (absolute name) "a.example." then "b.example"%string else ""%string).

Lemma demo_stable name (w : World Tables) : fst (queryCNAME DefaultConfig name w) = demo_alias name.
Proof.
  unfold queryCNAME, Exchange, demo_alias. cbn [exchange demo_dns].
  destruct (String.eqb_spec (absolute name) "b.example.") as [->|]; [done|].
  by destruct (String.eqb_spec (absolute name) "a.example.").
Qed.

Lemma followCNAME_spec_witness : fst (followCNAME DefaultConfig "a.example" start) = Ok "b.example"%string.
Proof.
  apply (followCNAME_spec DefaultConfig demo_alias demo_stable "a.example" start "b.example"); [reflexivity|].
  exists 1%nat. split; [vm_compute; reflexivity|]. split; vm_compute; reflexivity.
Defined.
