(* ===== verification/Pool.v ===== *)
(** * [internal/resolver]: the worker pool of [ResolveBatch]

  [ResolveBatch] and [worker] of [resolver.go] as a transition system: the
  goroutine that feeds the domains, the workers, the goroutine that closes the
  result channel, the consumer, and the two ways to stop.  Both channels are
  bounded; a [select] with several ready cases takes any of them. *)

From S2P Require Import Prelude GoLib Os Netip Config Exporter Cache CacheSpec Resolver ResolverSpec.

(** ** States *)

(** Where a worker is: at its [select], in the rate limiter, in [resolveDomain],
    at the send of a result, or returned. *)
Inductive wstate :=
| Idle
| Waiting (domain : string)
| Resolving (domain : string)
| Sending (result : ResolveResult)
| Exited.

(** [pl_feed] is what the feeder still has to send, [None] once it closed the
    domain channel; [pl_queue] and [pl_results] are the channels' buffers. *)
Record Pool := MkPool {
  pl_feed : option (list string); pl_queue : list string; pl_workers : list wstate;
  pl_results : list ResolveResult; pl_closed : bool; pl_received : list ResolveResult;
  pl_ctx : bool; pl_shut : bool }.

Definition with_workers (p : Pool) (ws : list wstate) : Pool :=
  MkPool (pl_feed p) (pl_queue p) ws (pl_results p) (pl_closed p) (pl_received p) (pl_ctx p) (pl_shut p).
Definition with_feed (p : Pool) (feed : option (list string)) (queue : list string) : Pool :=
  MkPool feed queue (pl_workers p) (pl_results p) (pl_closed p) (pl_received p) (pl_ctx p) (pl_shut p).

Section Pool.
(** [cfg.Concurrency], and the results resolving a domain can have. *)
Context (capacity : nat) (resolves : string -> ResolveResult -> Prop).

Definition ResolveBatch (domains : list string) : Pool :=
  MkPool (Some domains) [] (replicate capacity Idle) [] false [] false false.

(** [<-ctx.Done()] or [<-r.closed] is ready. *)
Definition stopping (p : Pool) : bool := pl_ctx p || pl_shut p.

(** A worker in state [st] goes on: its next state, what is left of the domain
    queue and what it puts in the result channel. *)
Inductive worker (p : Pool) : wstate -> wstate -> list string -> list ResolveResult -> Prop :=
| w_take d q : pl_queue p = d :: q -> worker p Idle (Waiting d) q []
| w_drained : pl_queue p = [] -> pl_feed p = None -> worker p Idle Exited [] []
| w_stop : stopping p = true -> worker p Idle Exited (pl_queue p) []
| w_permit d : worker p (Waiting d) (Resolving d) (pl_queue p) []
| w_refused d : pl_ctx p = true -> worker p (Waiting d) Exited (pl_queue p) []
| w_resolve d r : resolves d r -> worker p (Resolving d) (Sending r) (pl_queue p) []
| w_send r : (length (pl_results p) < capacity)%nat -> worker p (Sending r) Idle (pl_queue p) [r]
| w_send_stop r : stopping p = true -> worker p (Sending r) Exited (pl_queue p) [].

(** A step of one of the goroutines or of the consumer. *)
Inductive sstep : Pool -> Pool -> Prop :=
| s_feed p d ds : pl_feed p = Some (d :: ds) -> (length (pl_queue p) < capacity)%nat ->
    sstep p (with_feed p (Some ds) (pl_queue p ++ [d]))
| s_feed_end p : pl_feed p = Some [] -> sstep p (with_feed p None (pl_queue p))
| s_feed_stop p d ds : pl_feed p = Some (d :: ds) -> stopping p = true -> sstep p (with_feed p None (pl_queue p))
| s_worker p ws1 ws2 st st' q rs :
    pl_workers p = ws1 ++ st :: ws2 -> worker p st st' q rs ->
    sstep p (MkPool (pl_feed p) q (ws1 ++ st' :: ws2) (pl_results p ++ rs) (pl_closed p) (pl_received p)
               (pl_ctx p) (pl_shut p))
| s_close p : pl_closed p = false -> Forall (eq Exited) (pl_workers p) ->
    sstep p (MkPool (pl_feed p) (pl_queue p) (pl_workers p) (pl_results p) true (pl_received p) (pl_ctx p) (pl_shut p))
| s_receive p r rs : pl_results p = r :: rs ->
    sstep p (MkPool (pl_feed p) (pl_queue p) (pl_workers p) rs (pl_closed p) (pl_received p ++ [r]) (pl_ctx p) (pl_shut p)).

(** The context is cancelled, or [Close] is called. *)
Inductive estep : Pool -> Pool -> Prop :=
| e_cancel p : pl_ctx p = false ->
    estep p (MkPool (pl_feed p) (pl_queue p) (pl_workers p) (pl_results p) (pl_closed p) (pl_received p) true (pl_shut p))
| e_close p : pl_shut p = false ->
    estep p (MkPool (pl_feed p) (pl_queue p) (pl_workers p) (pl_results p) (pl_closed p) (pl_received p) (pl_ctx p) true).

Definition pstep (p p' : Pool) : Prop := sstep p p' \/ estep p p'.

Inductive preach (domains : list string) : Pool -> Prop :=
| preach_init : preach domains (ResolveBatch domains)
| preach_step p p' : preach domains p -> pstep p p' -> preach domains p'.

(** The consumer's loop over the channel is over. *)
Definition finished (p : Pool) : Prop := pl_closed p = true /\ pl_results p = [].

(** ** Where the domains are *)

Definition in_flight (st : wstate) : list string :=
  match st with Waiting d | Resolving d => [d] | Sending r => [rr_Domain r] | _ => [] end.

Definition accounted (p : Pool) : list string :=
  default [] (pl_feed p) ++ pl_queue p ++ (pl_workers p ≫= in_flight)
  ++ (rr_Domain <$> pl_results p) ++ (rr_Domain <$> pl_received p).

Definition resolved (r : ResolveResult) : Prop := resolves (rr_Domain r) r.

Record pool_inv (domains : list string) (p : Pool) : Prop := {
  pi_domains : exists lost, accounted p ++ lost ≡ₚ domains /\ (stopping p = false -> lost = []);
  pi_exited : stopping p = false -> Exited ∈ pl_workers p -> pl_feed p = None /\ pl_queue p = [];
  pi_closed : pl_closed p = true -> Forall (eq Exited) (pl_workers p);
  pi_count : length (pl_workers p) = capacity;
  pi_bounds : (length (pl_queue p) <= capacity)%nat /\ (length (pl_results p) <= capacity)%nat;
  pi_sending : Forall (fun st => match st with Sending r => resolved r | _ => True end) (pl_workers p);
  pi_results : Forall resolved (pl_results p) /\ Forall resolved (pl_received p)
}.

Context (names : forall d r, resolves d r -> rr_Domain r = d).

Lemma idle_nothing n : replicate n Idle ≫= in_flight = [].
Proof. by induction n. Qed.

Lemma exited_nothing ws : Forall (eq Exited) ws -> ws ≫= in_flight = [].
Proof. induction 1 as [|st ws <- _ IH]; [done|exact IH]. Qed.

Lemma inv_init domains : pool_inv domains (ResolveBatch domains).
Proof.
  split; cbn.
  - exists []. split; [|done]. unfold accounted. cbn [ResolveBatch pl_feed pl_queue pl_workers pl_results pl_received default].
    rewrite idle_nothing. cbn. by rewrite !app_nil_r.
  - intros _ Hin%elem_of_replicate. destruct Hin. congruence.
  - done.
  - apply length_replicate.
  - lia.
  - apply Forall_replicate. done.
  - done.
Qed.

(** A worker's step moves a domain along, or loses it when stopping. *)
Lemma worker_moves p st st' q rs :
  worker p st st' q rs ->
  exists lost, pl_queue p ++ in_flight st ≡ₚ q ++ in_flight st' ++ (rr_Domain <$> rs) ++ lost /\
    (stopping p = false -> lost = []).
Proof.
  unfold stopping. intros [d q' Hq|Hq Hf|Hs|d|d Hs|d r Hr|r Hl|r Hs]; cbn.
  - exists []. rewrite Hq. split; [|done]. cbn. rewrite app_nil_r. apply Permutation_cons_append.
  - exists []. by rewrite Hq.
  - exists []. by rewrite ?app_nil_r.
  - by exists [].
  - exists [d]. by rewrite Hs.
  - exists []. by rewrite (names d r Hr).
  - by exists [].
  - exists [rr_Domain r]. split; [done|]. unfold stopping in Hs. by rewrite Hs.
Qed.

Lemma Forall_middle {A} (P : A -> Prop) l1 x l2 : Forall P (l1 ++ x :: l2) <-> Forall P l1 /\ P x /\ Forall P l2.
Proof. by rewrite Forall_app, Forall_cons. Qed.

Lemma inv_worker domains p ws1 ws2 st st' q rs :
  pool_inv domains p -> pl_workers p = ws1 ++ st :: ws2 -> worker p st st' q rs ->
  pool_inv domains (MkPool (pl_feed p) q (ws1 ++ st' :: ws2) (pl_results p ++ rs) (pl_closed p) (pl_received p)
                      (pl_ctx p) (pl_shut p)).
Proof.
  intros Hi Hws Hw. destruct (worker_moves _ _ _ _ _ Hw) as (lost' & Hm & Hl').
  destruct Hi as [(lost & Hp & Hl) Hex Hc Hn Hb Hs Hr]. rewrite Hws in *.
  apply Forall_middle in Hs as (Hs1 & Hst & Hs2).
  split; cbn [pl_feed pl_queue pl_workers pl_results pl_closed pl_received pl_ctx pl_shut].
  - exists (lost' ++ lost). split; [|intros E; by rewrite (Hl' E), (Hl E)].
    rewrite <- Hp. unfold accounted. cbn. rewrite Hws, !bind_app, !bind_cons, fmap_app.
    apply (Permutation_app_inv_l []). cbn.
    transitivity ((default [] (pl_feed p) ++ (ws1 ≫= in_flight) ++ (ws2 ≫= in_flight) ++ (rr_Domain <$> pl_results p)
       ++ (rr_Domain <$> pl_received p) ++ lost) ++ (q ++ in_flight st' ++ (rr_Domain <$> rs) ++ lost')); [solve_Permutation|].
    rewrite <- Hm. solve_Permutation.
  - intros E Hin. destruct Hw as [d q' Hq|Hq Hf|Hst'|d|d Hst'|d r Hr'|r Hl0|r Hst']; try done;
      try (by unfold stopping in *; cbn in E; rewrite Hst' in E; rewrite ?orb_true_r in E);
      (destruct Hex as [E1 E2]; [done|set_solver|]); rewrite ?E1, ?E2; try done. congruence.
  - intros E. apply Hc, Forall_middle in E as (_ & <- & _). inversion Hw.
  - rewrite length_app in *. cbn in *. lia.
  - destruct Hw; rewrite ?length_app; cbn; try lia; destruct Hb as [Hb1 Hb2].
    + rewrite H in Hb1. cbn in Hb1. lia.
  - apply Forall_middle. split; [done|]. split; [|done]. destruct Hw; try done. unfold resolved. by rewrite (names _ _ H).
  - split; [|apply Hr]. apply Forall_app. split; [apply Hr|]. destruct Hw; repeat constructor. exact Hst.
Qed.

Lemma inv_step domains p p' : pool_inv domains p -> pstep p p' -> pool_inv domains p'.
Proof.
  intros Hi [Hs|He].
  - destruct Hs as [p d ds Hf Hl|p Hf|p d ds Hf Hs|p ws1 ws2 st st' q rs Hws Hw|p Hc Hx|p r rs Hr];
      [..|by eapply inv_worker| |]; destruct Hi as [(lost & Hp & Hl0) Hex Hc0 Hn [Hb1 Hb2] Hsd [Hr1 Hr2]];
      unfold accounted in Hp; split; unfold accounted, stopping in *; cbn in *; try done; try lia.
    + exists lost. split; [|done]. rewrite <- Hp, Hf. cbn. solve_Permutation.
    + intros E Hin. destruct (Hex E Hin) as [E' _]. congruence.
    + rewrite length_app. cbn. lia.
    + exists lost. split; [|done]. by rewrite <- Hp, Hf.
    + intros E Hin. destruct (Hex E Hin) as [E' _]. congruence.
    + exists (d :: ds ++ lost). split; [|by rewrite Hs]. rewrite <- Hp, Hf. cbn. solve_Permutation.
    + intros E. by rewrite Hs in E.
    + by exists lost.
    + exists lost. split; [|done]. rewrite <- Hp, Hr, fmap_app. cbn. solve_Permutation.
    + rewrite Hr in Hb2. cbn in Hb2. lia.
    + rewrite Hr in Hr1. apply Forall_cons in Hr1 as [Hr0 Hr1]. split; [done|]. apply Forall_app. auto.
  - destruct Hi as [(lost & Hp & Hl0) Hex Hc0 Hn Hb Hsd Hr].
    destruct He as [p He|p He]; split; unfold accounted, stopping in *; cbn in *; try done; rewrite ?orb_true_r; try done;
      by exists lost.
Qed.

Lemma preach_inv domains p : preach domains p -> pool_inv domains p.
Proof. induction 1; [apply inv_init|by eapply inv_step]. Qed.

(** ** Progress *)

Context (capacity_pos : (0 < capacity)%nat) (total : forall d, exists r, resolves d r).

Lemma not_all_exited ws : ~ Forall (eq Exited) ws -> exists ws1 st ws2, ws = ws1 ++ st :: ws2 /\ st <> Exited.
Proof.
  induction ws as [|st ws IH]; [intros []; constructor|]. intros Hn.
  destruct st; try (by eexists [], _, ws).
  destruct IH as (ws1 & st & ws2 & -> & ?); [intros Hf; apply Hn; by constructor|]. by exists (Exited :: ws1), st, ws2.
Qed.

#[local] Instance wstate_exited_dec st : Decision (eq Exited st).
Proof. destruct st; (by left) || (by right). Defined.

(** Unless the consumer is done, some goroutine can go on, stopping or not. *)
Lemma pool_progress domains p : preach domains p -> finished p \/ exists p', sstep p p'.
Proof.
  intros Hi%preach_inv. destruct (pl_results p) as [|r rs] eqn:Hr; [|right; eexists; by eapply s_receive].
  destruct (pl_closed p) eqn:Hc; [by left|]. right.
  destruct (decide (Forall (eq Exited) (pl_workers p))) as [Hx|Hx]; [eexists; by apply s_close|].
  apply not_all_exited in Hx as (ws1 & st & ws2 & Hws & Hst).
  destruct st as [|d|d|r|]; [| | | |done].
  - destruct (pl_queue p) as [|d q] eqn:Hq; [|eexists; eapply s_worker; [exact Hws|by eapply w_take]].
    destruct (pl_feed p) as [[|d ds]|] eqn:Hf.
    + eexists. by apply s_feed_end.
    + eexists. eapply s_feed; [exact Hf|]. by rewrite Hq.
    + eexists. eapply s_worker; [exact Hws|by apply w_drained].
  - eexists. eapply s_worker; [exact Hws|apply w_permit].
  - destruct (total d) as [r Hres]. eexists. eapply s_worker; [exact Hws|by eapply w_resolve].
  - eexists. eapply s_worker; [exact Hws|apply w_send]. by rewrite Hr.
Qed.

(** ** Termination *)

Definition weight (st : wstate) : nat :=
  match st with Idle => 1 | Waiting _ => 6 | Resolving _ => 5 | Sending _ => 4 | Exited => 0 end.

(** The steps that are left at most. *)
Definition measure (p : Pool) : nat :=
  match pl_feed p with Some ds => 1 + 7 * length ds | None => 0 end + 6 * length (pl_queue p)
  + sum_list_with weight (pl_workers p) + 2 * length (pl_results p)
  + Nat.b2n (negb (pl_closed p)) + Nat.b2n (negb (pl_ctx p)) + Nat.b2n (negb (pl_shut p)).

Lemma measure_step p p' : pstep p p' -> (measure p' < measure p)%nat.
Proof.
  unfold measure. intros [Hs|He].
  - destruct Hs as [p d ds Hf Hl|p Hf|p d ds Hf Hs|p ws1 ws2 st st' q rs Hws Hw|p Hc Hx|p r rs Hr]; cbn.
    + rewrite Hf, length_app. cbn. lia.
    + rewrite Hf. cbn. lia.
    + rewrite Hf. cbn. lia.
    + rewrite Hws, !sum_list_with_app, length_app.
      destruct Hw as [d q' Hq|Hq Hf|Hst|d|d Hst|d r Hr|r Hl|r Hst]; cbn; rewrite ?Hq; cbn; lia.
    + rewrite Hc. cbn. lia.
    + rewrite Hr. cbn. lia.
  - destruct He as [p He|p He]; cbn; rewrite He; cbn; lia.
Qed.
End Pool.

(** ** Claims *)

Section Claims.
Context (capacity : nat) (resolves : string -> ResolveResult -> Prop).
Context (capacity_pos : (0 < capacity)%nat).
Context (names : forall d r, resolves d r -> rr_Domain r = d).

(** C20. A batch ends: from every state the pool can reach, whatever the goroutines
    and the two ways to stop do, only finitely many steps are possible, and they
    stop only when the result channel is closed and drained, so the consumer's
    loop ends; there is no deadlock with any number of workers. *)
Theorem pool_terminates domains p :
  (forall d, exists r, resolves d r) -> preach capacity resolves domains p ->
  Acc (fun p2 p1 => pstep capacity resolves p1 p2) p /\
  ((forall p', ~ sstep capacity resolves p p') -> finished p).
Proof.
  intros Ht Hr. split.
  - clear Hr. remember (measure p) as n eqn:En. revert p En. induction n as [n IH] using lt_wf_ind. intros p ->.
    constructor. intros p' Hp. eapply IH; [|reflexivity]. by eapply measure_step.
  - intros Hn. by destruct (pool_progress capacity resolves names capacity_pos Ht domains p Hr) as [|[p' Hs%Hn]].
Qed.

(** A batch that is neither cancelled nor shut down delivers one result for every
    domain, in some order; a stopped one delivers results for some of them. *)
Lemma pool_delivers domains p :
  preach capacity resolves domains p -> finished p ->
  Forall (fun r => resolves (rr_Domain r) r) (pl_received p) /\
  (rr_Domain <$> pl_received p) ⊆+ domains /\
  (pl_ctx p = false -> pl_shut p = false -> rr_Domain <$> pl_received p ≡ₚ domains).
Proof.
  intros Hr [Hc Hd]. apply preach_inv in Hr as [(lost & Hp & Hl) Hex Hc0 Hn _ _ [_ Hres]]; [|done].
  split; [exact Hres|]. unfold accounted in Hp. split.
  - rewrite <- Hp. solve_submseteq.
  - intros E1 E2. unfold stopping in *. rewrite E1, E2 in *.
    assert (Exited ∈ pl_workers p) as Hin.
    { specialize (Hc0 Hc). destruct (pl_workers p) as [|st ws]; [cbn in Hn; lia|].
      apply Forall_cons in Hc0 as [<- _]. left. }
    destruct (Hex eq_refl Hin) as [Hf Hq]. rewrite (Hl eq_refl), Hf, Hq, Hd in Hp. cbn in Hp.
    rewrite app_nil_r in Hp. rewrite <- Hp.
    by rewrite exited_nothing by auto.
Qed.
End Claims.

(** ** The pool over the resolver *)

Section Resolves.
Context {K : Type} `{Env K} `{Dns K}.
Context (cfg : ResolverCfg) (ctx : Ctx) (closed : nat -> bool).
Context (answers_wf : forall up name qtype k msg, fst (exchange up name qtype k) = Ok msg -> Forall rr_wf (ms_Answer msg)).

(** The results [resolveDomain] can return, in whatever world it runs. *)
Definition resolves (domain : string) (r : ResolveResult) : Prop :=
  exists w w', resolveDomain cfg ctx closed domain w = (r, w').

Lemma resolves_names d r : resolves d r -> rr_Domain r = d.
Proof. intros (w & w' & E). by apply (resolveDomain_result cfg ctx closed answers_wf) in E as [? _]. Qed.

(** C21. The results of a batch are what the cache expects: addresses are valid and
    come with valid results only; there is one result for each domain without a
    stop, and for some of them with one. *)
Theorem batch_results_ok domains p :
  (1 <= rs_Concurrency cfg)%Z ->
  preach (Z.to_nat (rs_Concurrency cfg)) resolves domains p -> finished p ->
  Forall result_ok (pl_received p) /\
  Forall (fun r => rr_Status r = StatusValid <-> rr_IPv4 r ++ rr_IPv6 r <> []) (pl_received p) /\
  (rr_Domain <$> pl_received p) ⊆+ domains /\
  (pl_ctx p = false -> pl_shut p = false -> rr_Domain <$> pl_received p ≡ₚ domains).
Proof.
  intros Hc Hr Hf.
  destruct (pool_delivers (Z.to_nat (rs_Concurrency cfg)) resolves ltac:(lia) resolves_names domains p Hr Hf)
    as (Hres & Hsub & Hall).
  assert (Forall (fun r => result_ok r /\ (rr_Status r = StatusValid <-> rr_IPv4 r ++ rr_IPv6 r <> [])) (pl_received p)) as Hok.
  { eapply Forall_impl; [exact Hres|]. intros r (w & w' & E). cbn.
    by apply (resolveDomain_result cfg ctx closed answers_wf) in E as (_ & ? & ?). }
  apply Forall_and in Hok as [H1 H2]. done.
Qed.
End Resolves.

(** ** An execution *)

#[local] Instance pool_env : Env Tables := demo_env None.
Definition one_worker : ResolverCfg := MkResolverCfg "8.8.8.8:53" "udp" 1 1 (5 * Second) 0 0 0 true 8.
Definition demo_result : ResolveResult := fst (resolveDomain one_worker no_ctx (fun _ => false) "a.example" start).
Abbreviation demo_resolves := (resolves one_worker no_ctx (fun _ => false)).

Definition done_pool : Pool := MkPool None [] [Exited] [] true [demo_result] false false.

Lemma demo_run : preach 1 demo_resolves ["a.example"%string] done_pool.
Proof.
  assert (demo_resolves "a.example"%string demo_result) as Hres.
  { exists start, (snd (resolveDomain one_worker no_ctx (fun _ => false) "a.example" start)). apply surjective_pairing. }
  assert (forall p p', sstep 1 demo_resolves p p' -> preach 1 demo_resolves ["a.example"%string] p ->
            preach 1 demo_resolves ["a.example"%string] p') as Hnext.
  { intros p p' Hs Hp. eapply preach_step; [exact Hp|by left]. }
  pose (at_worker st feed queue results := MkPool feed queue [st] results false [] false false).
  assert (forall st st' feed queue q rs, worker 1 demo_resolves (at_worker st feed queue []) st st' q rs ->
            preach 1 demo_resolves ["a.example"%string] (at_worker st feed queue []) ->
            preach 1 demo_resolves ["a.example"%string] (at_worker st' feed q rs)) as Hw.
  { intros st st' feed queue q rs Hw. apply Hnext. by apply (s_worker _ _ (at_worker st feed queue []) [] [] st st' q rs). }
  apply (Hnext (MkPool None [] [Exited] [demo_result] true [] false false)); [by apply (s_receive _ _ (MkPool None [] [Exited] [demo_result] true [] false false) demo_result [])|].
  apply (Hnext (MkPool None [] [Exited] [demo_result] false [] false false)); [apply (s_close _ _ (MkPool None [] [Exited] [demo_result] false [] false false)); [done|by repeat constructor]|].
  apply (Hnext (MkPool None [] [Idle] [demo_result] false [] false false)).
  { by apply (s_worker _ _ (MkPool None [] [Idle] [demo_result] false [] false false) [] [] Idle Exited [] []), w_drained. }
  apply (Hnext (MkPool (Some []) [] [Idle] [demo_result] false [] false false)); [by apply (s_feed_end _ _ (MkPool (Some []) [] [Idle] [demo_result] false [] false false))|].
  apply (Hw (Sending demo_result) Idle (Some []) []); [apply w_send; cbn; lia|].
  apply (Hw (Resolving "a.example") (Sending demo_result) (Some []) []); [by apply w_resolve|].
  apply (Hw (Waiting "a.example") (Resolving "a.example") (Some []) []); [apply w_permit|].
  apply (Hw Idle (Waiting "a.example") (Some []) ["a.example"%string]); [by apply w_take|].
  apply (Hnext (ResolveBatch 1 ["a.example"%string])); [|constructor].
  apply (s_feed 1 demo_resolves (ResolveBatch 1 ["a.example"%string]) "a.example" []); [reflexivity|cbn; lia].
Qed.

Lemma batch_results_ok_witness : result_ok demo_result /\ rr_Domain demo_result = "a.example"%string.
Proof.
  destruct (batch_results_ok one_worker no_ctx (fun _ => false) demo_answers_wf ["a.example"%string] done_pool)
    as (Hok & _ & _ & Hall); [vm_compute; discriminate|exact demo_run|by split|].
  split; [exact (Forall_inv Hok)|]. specialize (Hall eq_refl eq_refl).
  apply Permutation_singleton_r in Hall. by apply (f_equal (hd ""%string)) in Hall.
Defined.

Lemma pool_terminates_witness :
  Acc (fun p2 p1 => pstep 1 demo_resolves p1 p2) (ResolveBatch 1 ["a.example"%string]).
Proof.
  apply (pool_terminates 1 demo_resolves ltac:(lia) (resolves_names one_worker no_ctx (fun _ => false) demo_answers_wf)
           ["a.example"%string] (ResolveBatch 1 ["a.example"%string])); [|constructor].
  intros d. eexists _, start, _. apply surjective_pairing.
Defined.
