(* ===== verification/Orchestrator.v ===== *)
(** * [internal/orchestrator]: the pipeline

  [orchestrator.go].  The agents the orchestrator is given (registry, resolver,
  cache, exporter, router, configuration, event bus) are a record of operations
  over the world; [runPolicy] and [Run] compose them as the code does, and
  [with_policy_agents] puts the policy exporter and the composite router of this library
  in their places.  The second half cuts [Run] into the steps other goroutines
  can observe: the compare-and-swap, the critical sections and the release. *)

From S2P Require Import Prelude GoLib Os Netip Cidr Aggregator Config Plan Exporter Routing Cache.

Local Open Scope Z_scope.

(** ** Requests and reports *)

Record PipelineRequest := MkRequest { rq_DryRun : bool; rq_ForceResolve : bool; rq_SkipRouting : bool }.

Record PolicyReport := MkPolicyReport {
  pr_Name : string; pr_Domains : Z; pr_Resolved : Z; pr_Failed : Z; pr_IPv4Out : Z; pr_IPv6Out : Z;
  pr_Duration : Z; pr_RoutingSkipped : bool; pr_RoutingError : string }.

Record PipelineReport := MkReport {
  re_RunID : Z; re_Domains : Z; re_Stale : Z; re_Resolved : Z; re_CacheHits : Z; re_Failed : Z;
  re_IPv4Out : Z; re_IPv6Out : Z; re_Duration : Z; re_Policies : list PolicyReport }.

Definition emptyPolicyReport : PolicyReport := MkPolicyReport "" 0 0 0 0 0 0 false "".
Definition emptyReport : PipelineReport := MkReport 0 0 0 0 0 0 0 0 0 [].

Definition ErrBusy : error := ErrNew "orchestrator: pipeline already running".
Definition ErrNotRunning : error := ErrNew "orchestrator: no pipeline running".

(** ** The agents *)

(** [registry], [resolver], [cache], [policyExp], [policyRtr], [config] and
    [eventBus]; [ag_policies] says whether the policy exporter and router were
    injected at all.  Reads of the registry and of the configuration change
    nothing. *)
Record Agents (K : Type) := MkAgents {
  ag_LoadAll : IO K unit;
  ag_ResolveCategory : K -> string -> option (string * string);
  ag_GetDomains : K -> string -> res error (list string);
  ag_GetPrefixes : K -> string -> res error (list Prefix);
  ag_NeedsRefresh : list string -> Z -> Z -> IO K (list string);
  ag_ResolveBatch : list string -> World K -> list ResolveResult * World K;
  ag_UpsertBatch : list ResolveResult -> IO K unit;
  ag_SnapshotForDomains : list string -> IO K (list Addr * list Addr);
  ag_policies : bool;
  ag_WritePolicy : PolicyConfig -> list Prefix -> list Prefix -> IO K PolicyExportReport;
  ag_Caps : PolicyConfig -> IO K unit;
  ag_ApplyPolicy : PolicyConfig -> list Prefix -> list Prefix -> IO K unit;
  ag_config : K -> Config;
  ag_publish : string -> string -> any -> World K -> World K
}.
Arguments MkAgents {K}. Arguments ag_LoadAll {K}. Arguments ag_ResolveCategory {K}.
Arguments ag_GetDomains {K}. Arguments ag_GetPrefixes {K}. Arguments ag_NeedsRefresh {K}.
Arguments ag_ResolveBatch {K}. Arguments ag_UpsertBatch {K}. Arguments ag_SnapshotForDomains {K}.
Arguments ag_policies {K}. Arguments ag_WritePolicy {K}. Arguments ag_Caps {K}.
Arguments ag_ApplyPolicy {K}. Arguments ag_config {K}. Arguments ag_publish {K}.

(** ** Pure parts of a policy run *)

Definition level_of (l : AggregationLevel) : Aggressiveness :=
  if String.eqb l LevelOff then AggOff
  else if String.eqb l LevelConservative then AggConservative
  else if String.eqb l LevelBalanced then AggBalanced
  else if String.eqb l LevelAggressive then AggAggressive
  else AggBalanced.

(** The categories the registry knows, in the order of the policy. *)
Definition split_categories (resolve : string -> option (string * string)) (cats : list string)
    : list string * list string :=
  foldr (fun cat '(ds, ps) =>
    match resolve cat with
    | Some (_, ty) => if String.eqb ty "domain" then (cat :: ds, ps) else (ds, cat :: ps)
    | None => (ds, ps)
    end) ([], []) cats.

(** The union of the categories that can be read. *)
Definition collect_domains (get : string -> res error (list string)) (cats : list string) : gset string :=
  foldl (fun acc cat => match get cat with Ok ds => list_to_set ds ∪ acc | Err _ => acc end) ∅ cats.

Definition collect_prefixes (get : string -> res error (list Prefix)) (cats : list string)
    : list Prefix * list Prefix :=
  foldl (fun '(v4, v6) cat =>
    match get cat with
    | Ok ps => (v4 ++ List.filter (fun p => Is4 (PAddr p)) ps,
                v6 ++ List.filter (fun p => negb (Is4 (PAddr p))) ps)
    | Err _ => (v4, v6)
    end) ([], []) cats.

Section Outputs.
Context (map_order : gset Addr -> list Addr).

(** What a policy exports and routes for the addresses and direct prefixes. *)
Definition policy_outputs (cfg : Config) (aggLevel : Aggressiveness) (policy : PolicyConfig)
    (ipv4Addrs ipv6Addrs : list Addr) (ipv4Prefixes ipv6Prefixes : list Prefix)
    : list Prefix * list Prefix :=
  let '(v4Out, v6Out) :=
    match pc_Aggregation policy with
    | Some agg =>
        if ac_Enabled agg then
          let level := level_of (ac_Level agg) in
          (AggregateV4 map_order ipv4Addrs level (ac_V4MaxPrefix agg),
           AggregateV6 map_order ipv6Addrs level (ac_V6MaxPrefix agg))
        else if ac_Enabled (cfg_Aggregation cfg) then
          (AggregateV4 map_order ipv4Addrs aggLevel (ac_V4MaxPrefix (cfg_Aggregation cfg)),
           AggregateV6 map_order ipv6Addrs aggLevel (ac_V6MaxPrefix (cfg_Aggregation cfg)))
        else ((fun a => PrefixFrom a 32) <$> ipv4Addrs, (fun a => PrefixFrom a 128) <$> ipv6Addrs)
    | None =>
        if ac_Enabled (cfg_Aggregation cfg) then
          (AggregateV4 map_order ipv4Addrs aggLevel (ac_V4MaxPrefix (cfg_Aggregation cfg)),
           AggregateV6 map_order ipv6Addrs aggLevel (ac_V6MaxPrefix (cfg_Aggregation cfg)))
        else ((fun a => PrefixFrom a 32) <$> ipv4Addrs, (fun a => PrefixFrom a 128) <$> ipv6Addrs)
    end in
  (v4Out ++ ipv4Prefixes, v6Out ++ ipv6Prefixes).
End Outputs.

(** ** [runPolicy] and [Run] *)

Section Run.
Context {K : Type} `{Env K}.
Local Notation IO := (IO K).
Context (ag : Agents K).
(** the enumerations of the maps the code builds *)
Context (addr_order : gset Addr -> list Addr) (name_order : gset string -> list string).

Definition read {A} (f : K -> A) : IO A := fun w => (Ok (f (w_kern w)), w).

Definition emit (eventType : string) (data : any) : IO unit :=
  fun w => (Ok tt, ag_publish ag "pipeline" eventType data w).

(** [time.Since] saturates. *)
Definition since (start : Z) : IO Z := now ← Now; mret (Z.max (- 2 ^ 63) (Z.min (2 ^ 63 - 1) (now - start))).
(** [Duration.Seconds] as a decimal numeral. *)
Definition Seconds (d : Z) : any := AFloat (Itoa d +:+ "e-9").
Definition milliseconds (d : Z) : Z := Z.quot d 1000000.

(** One result drained from the resolver's channel: the counters and, every ten
    results and at the end, a progress event. *)
Definition is_valid (r : ResolveResult) : bool :=
  match rr_Status r with StatusValid => true | _ => false end.

Fixpoint drain (runID : Z) (name : string) (total : Z) (results : list ResolveResult)
    (resolved failed processed : Z) : IO (Z * Z) :=
  match results with
  | [] => mret (resolved, failed)
  | r :: results' =>
      let resolved := if is_valid r then resolved + 1 else resolved in
      let failed := if is_valid r then failed else failed + 1 in
      let processed := processed + 1 in
      (if (processed mod 10 =? 0) || (processed =? total)
       then emit "pipeline.progress" (AMap [("run_id"%string, AInt runID); ("policy"%string, AStr name);
              ("step"%string, AStr "resolve"); ("resolved"%string, AInt resolved);
              ("failed"%string, AInt failed); ("total"%string, AInt total);
              ("processed"%string, AInt processed)])
       else mret tt);;
      drain runID name total results' resolved failed processed
  end.

(** The refresh of stale domains and the read of the cache: the addresses and
    the resolved, failed, stale and cache-hit counts. *)
Definition resolve_policy (runID : Z) (cfg : Config) (req : PipelineRequest) (policy : PolicyConfig)
    (policyDomains : list string) : IO (list Addr * list Addr * (Z * Z * Z * Z)) :=
  if Nat.eqb (length policyDomains) 0 then mret ([], [], (0, 0, 0, 0)) else
  '(toResolve, cacheHits) ←
    (if rq_ForceResolve req then mret (policyDomains, 0)
     else stale ← io_wrap "cache check"
            (ag_NeedsRefresh ag policyDomains (cc_TTL (cfg_Cache cfg)) (cc_FailedTTL (cfg_Cache cfg)));
          mret (stale, Z.of_nat (length policyDomains) - Z.of_nat (length stale)));
  let total := Z.of_nat (length toResolve) in
  '(resolved, failed) ←
    (if Nat.eqb (length toResolve) 0 then mret (0, 0)
     else
       results ← (fun w => let '(l, w') := ag_ResolveBatch ag toResolve w in (Ok l, w'));
       '(resolved, failed) ← drain runID (pc_Name policy) total results 0 0 0;
       io_wrap "cache upsert" (ag_UpsertBatch ag results);;
       mret (resolved, failed));
  '(v4, v6) ← io_wrap "cache snapshot" (ag_SnapshotForDomains ag policyDomains);
  mret (v4, v6, (resolved, failed, total, cacheHits)).

(** The part of [runPolicy] before the capability check. *)
Definition prepare_policy (runID : Z) (policy : PolicyConfig) (req : PipelineRequest)
    (aggLevel : Aggressiveness) (cfg : Config)
    : IO (list string * (Z * Z * Z * Z) * (list Prefix * list Prefix)) :=
  '(domainCats, prefixCats) ← read (fun k => split_categories (ag_ResolveCategory ag k) (pc_Categories policy));
  domainSet ← read (fun k => collect_domains (ag_GetDomains ag k) domainCats);
  let policyDomains := name_order domainSet in
  '(ipv4Addrs, ipv6Addrs, counts) ← resolve_policy runID cfg req policy policyDomains;
  '(ipv4Prefixes, ipv6Prefixes) ← read (fun k => collect_prefixes (ag_GetPrefixes ag k) prefixCats);
  mret (policyDomains, counts,
        policy_outputs addr_order cfg aggLevel policy ipv4Addrs ipv6Addrs ipv4Prefixes ipv6Prefixes).

Definition runPolicy (runID : Z) (policy : PolicyConfig) (req : PipelineRequest)
    (aggLevel : Aggressiveness) (cfg : Config) : IO (PolicyReport * Z * Z) :=
  start ← Now;
  '(policyDomains, (resolved, failed, stale, cacheHits), (v4Out, v6Out)) ←
    prepare_policy runID policy req aggLevel cfg;
  let report v4 v6 d skipped err :=
    (MkPolicyReport (pc_Name policy) (Z.of_nat (length policyDomains)) resolved failed v4 v6 d skipped err,
     stale, cacheHits) in
  let n4 := Z.of_nat (length v4Out) in
  let n6 := Z.of_nat (length v6Out) in
  caps ← io_try (ag_Caps ag policy);
  match caps with
  | Err e => mret (report n4 n6 0 true (Error e))
  | Ok _ =>
      if rq_DryRun req || pc_DryRun policy then
        d ← since start; mret (report n4 n6 (milliseconds d) false ""%string)
      else
        exp ← ag_WritePolicy ag policy v4Out v6Out;
        (if negb (rq_SkipRouting req) then ag_ApplyPolicy ag policy v4Out v6Out else mret tt);;
        d ← since start;
        mret (report (pe_IPv4Count exp) (pe_IPv6Count exp) (milliseconds d) false ""%string)
  end.

(** The counts of a policy are added to the report of the run. *)
Definition add_policy (re : PipelineReport) (p : PolicyReport) (stale hits : Z) : PipelineReport :=
  MkReport (re_RunID re) (re_Domains re) (re_Stale re + stale) (re_Resolved re + pr_Resolved p)
    (re_CacheHits re + hits) (re_Failed re + pr_Failed p) (re_IPv4Out re + pr_IPv4Out p)
    (re_IPv6Out re + pr_IPv6Out p) (re_Duration re) (re_Policies re ++ [p]).

Definition with_duration (p : PolicyReport) (ms : Z) : PolicyReport :=
  MkPolicyReport (pr_Name p) (pr_Domains p) (pr_Resolved p) (pr_Failed p) (pr_IPv4Out p) (pr_IPv6Out p)
    ms (pr_RoutingSkipped p) (pr_RoutingError p).

(** A failed policy leaves an entry with its name and duration. *)
Definition record_policy (re : PipelineReport) (policy : PolicyConfig)
    (r : res error (PolicyReport * Z * Z)) (d : Z) : PipelineReport :=
  match r with
  | Err _ =>
      add_policy re (with_duration (MkPolicyReport (pc_Name policy) 0 0 0 0 0 0 false "") (milliseconds d)) 0 0
  | Ok (p, stale, hits) => add_policy re (with_duration p (milliseconds d)) stale hits
  end.

Fixpoint run_policies (runID : Z) (req : PipelineRequest) (aggLevel : Aggressiveness) (cfg : Config)
    (policies : list PolicyConfig) (re : PipelineReport) : IO PipelineReport :=
  match policies with
  | [] => mret re
  | policy :: policies' =>
      if negb (pc_Enabled policy) then run_policies runID req aggLevel cfg policies' re else
      policyStart ← Now;
      r ← io_try (runPolicy runID policy req aggLevel cfg);
      d ← since policyStart;
      run_policies runID req aggLevel cfg policies' (record_policy re policy r d)
  end.

Definition enabled_categories (cfg : Config) : gset string :=
  list_to_set (mjoin (pc_Categories <$> List.filter pc_Enabled (ro_Policies (cfg_Routing cfg)))).

Definition categorizePolicyCategories (k : K) (cfg : Config) : list string * list string :=
  split_categories (ag_ResolveCategory ag k) (name_order (enabled_categories cfg)).

(** A [select] on [ctx.Done()]. *)
Definition set_domains (re : PipelineReport) (n : Z) : PipelineReport :=
  MkReport (re_RunID re) n (re_Stale re) (re_Resolved re) (re_CacheHits re) (re_Failed re)
    (re_IPv4Out re) (re_IPv6Out re) (re_Duration re) (re_Policies re).
Definition set_duration (re : PipelineReport) (d : Z) : PipelineReport :=
  MkReport (re_RunID re) (re_Domains re) (re_Stale re) (re_Resolved re) (re_CacheHits re) (re_Failed re)
    (re_IPv4Out re) (re_IPv6Out re) d (re_Policies re).

(** What [Run] does between the publication of the running status and its
    outcome: the report as the deferred function sees it, and the error. *)
Definition run_body (ctx : Ctx) (req : PipelineRequest) (runID started : Z)
    : IO (PipelineReport * option error) :=
  let report := MkReport runID 0 0 0 0 0 0 0 0 [] in
  loaded ← io_try (ag_LoadAll ag);
  match loaded with
  | Err e => mret (report, Some (ErrWrap "source load" e))
  | Ok _ =>
      done ← io_try (ctx_check ctx);
      match done with
      | Err e => mret (report, Some e)
      | Ok _ =>
          cfg ← read (ag_config ag);
          cats ← read (fun k => fst (categorizePolicyCategories k cfg));
          domainSet ← read (fun k => collect_domains (ag_GetDomains ag k) cats);
          let report := set_domains report (Z.of_nat (length (name_order domainSet))) in
          done ← io_try (ctx_check ctx);
          match done with
          | Err e => mret (report, Some e)
          | Ok _ =>
              let aggLevel := level_of (ac_Level (cfg_Aggregation cfg)) in
              let policies := ro_Policies (cfg_Routing cfg) in
              report ← (if Nat.ltb 0 (length policies) && ag_policies ag
                        then run_policies runID req aggLevel cfg policies report
                        else mret report);
              d ← since started;
              let report := set_duration report d in
              emit "pipeline.complete" (AMap [("run_id"%string, AInt runID);
                ("domains"%string, AInt (re_Domains report)); ("resolved"%string, AInt (re_Resolved report));
                ("failed"%string, AInt (re_Failed report)); ("ipv4_out"%string, AInt (re_IPv4Out report));
                ("ipv6_out"%string, AInt (re_IPv6Out report));
                ("duration"%string, Seconds (re_Duration report))]);;
              mret (report, None)
          end
      end
  end.
End Run.

(** ** The orchestrator's own state *)

Record RunStatus := MkStatus {
  st_Running : bool; st_RunID : Z; st_Started : Z; st_Report : option PipelineReport }.

(** [cancelFn] is the run whose context it cancels. *)
Record Orchestrator := MkOrch {
  or_running : bool;
  or_current : RunStatus;
  or_cancelFn : option Z;
  or_history : list PipelineReport;
  or_runCounter : Z }.

Definition NewOrchestrator : Orchestrator := MkOrch false (MkStatus false 0 0 None) None [] 0.

(** [CompareAndSwap(false, true)] and, for the winner, the run counter. *)
Definition acquire (o : Orchestrator) : (Orchestrator * Z) + error :=
  if or_running o
  then inr (ErrWrap ("run_id=" +:+ Itoa (st_RunID (or_current o))) ErrBusy)
  else let runID := int64_wrap (or_runCounter o + 1) in
       inl (MkOrch true (or_current o) (or_cancelFn o) (or_history o) runID, runID).

Definition set_cancel (o : Orchestrator) (runID : Z) : Orchestrator :=
  MkOrch (or_running o) (or_current o) (Some runID) (or_history o) (or_runCounter o).

Definition set_current (o : Orchestrator) (st : RunStatus) : Orchestrator :=
  MkOrch (or_running o) st (or_cancelFn o) (or_history o) (or_runCounter o).

Definition set_running (o : Orchestrator) (runID started : Z) : Orchestrator :=
  set_current o (MkStatus true runID started None).

(** [o.current.Running = false; o.current.Report = &report]. *)
Definition set_finished (o : Orchestrator) (report : PipelineReport) : Orchestrator :=
  set_current o (MkStatus false (st_RunID (or_current o)) (st_Started (or_current o)) (Some report)).

Definition append_history (o : Orchestrator) (report : PipelineReport) : Orchestrator :=
  let h := if Nat.leb 10 (length (or_history o)) then tail (or_history o) else or_history o in
  MkOrch (or_running o) (or_current o) (or_cancelFn o) (h ++ [report]) (or_runCounter o).

Definition release (o : Orchestrator) : Orchestrator :=
  MkOrch false (or_current o) (or_cancelFn o) (or_history o) (or_runCounter o).

Definition Status_ (o : Orchestrator) : RunStatus := or_current o.
Definition History (o : Orchestrator) : list PipelineReport := or_history o.

(** The run that is cancelled, or the error. *)
Definition Cancel (o : Orchestrator) : Z + error :=
  if negb (or_running o) then inr ErrNotRunning
  else match or_cancelFn o with Some id => inl id | None => inr ErrNotRunning end.

(** [Run] when no other goroutine calls in between. *)
Definition Run {K} `{Env K} (ag : Agents K) (addr_order : gset Addr -> list Addr)
    (name_order : gset string -> list string) (ctx : Ctx) (req : PipelineRequest)
    (o : Orchestrator) : World K -> (Orchestrator * PipelineReport * option error) * World K := fun w =>
  match acquire o with
  | inr busy => ((o, emptyReport, Some busy), w)
  | inl (o, runID) =>
      let w := ag_publish ag "pipeline" "pipeline.start" (AMap [("run_id"%string, AInt runID)]) w in
      let started := clock (w_calls w) in
      let w := tick w in
      let o := set_running (set_cancel o runID) runID started in
      match run_body ag addr_order name_order ctx req runID started w with
      | (Ok (report, None), w) =>
          ((release (append_history (set_finished o report) report), report, None), w)
      | (Ok (report, Some e), w) =>
          let w := ag_publish ag "pipeline" "pipeline.failed"
                     (AMap [("run_id"%string, AInt runID); ("error"%string, AStr "pipeline failed")]) w in
          ((release (append_history o report), report, Some e), w)
      | (Err e, w) => ((release o, emptyReport, Some e), w)
      end
  end.

(** ** Concurrent runs *)

(** Where a goroutine inside [Run] is. *)
Inductive phase :=
| PAcquired (runID : Z)                            (** before [o.cancelFn = cancel] *)
| PCancellable (runID : Z)                         (** before [o.current = ...] *)
| PBody (runID : Z)                                (** loading, resolving, applying *)
| PFinished (report : PipelineReport)              (** before the history *)
| PRecorded.                                       (** before [o.running.Store(false)] *)

Record Conc := MkConc { co_orch : Orchestrator; co_threads : gmap nat phase; co_cancelled : gset Z }.

Definition with_orch (c : Conc) (o : Orchestrator) (tid : nat) (p : phase) : Conc :=
  MkConc o (<[tid := p]> (co_threads c)) (co_cancelled c).

(** One observable action of goroutine [tid], or a call of [Cancel]. *)
Inductive cstep : Conc -> Conc -> Prop :=
| step_acquire c tid o' runID :
    co_threads c !! tid = None -> acquire (co_orch c) = inl (o', runID) ->
    cstep c (with_orch c o' tid (PAcquired runID))
| step_busy c tid e :
    co_threads c !! tid = None -> acquire (co_orch c) = inr e -> cstep c c
| step_cancelFn c tid runID :
    co_threads c !! tid = Some (PAcquired runID) ->
    cstep c (with_orch c (set_cancel (co_orch c) runID) tid (PCancellable runID))
| step_running c tid runID started :
    co_threads c !! tid = Some (PCancellable runID) ->
    cstep c (with_orch c (set_running (co_orch c) runID started) tid (PBody runID))
| step_success c tid runID report :
    co_threads c !! tid = Some (PBody runID) -> re_RunID report = runID ->
    cstep c (with_orch c (set_finished (co_orch c) report) tid (PFinished report))
| step_failure c tid runID report :
    co_threads c !! tid = Some (PBody runID) -> re_RunID report = runID ->
    cstep c (with_orch c (co_orch c) tid (PFinished report))
| step_history c tid report :
    co_threads c !! tid = Some (PFinished report) ->
    cstep c (with_orch c (append_history (co_orch c) report) tid PRecorded)
| step_release c tid :
    co_threads c !! tid = Some PRecorded ->
    cstep c (MkConc (release (co_orch c)) (delete tid (co_threads c)) (co_cancelled c))
| step_cancel c id :
    Cancel (co_orch c) = inl id ->
    cstep c (MkConc (co_orch c) (co_threads c) ({[id]} ∪ co_cancelled c)).

Inductive creach : Conc -> Prop :=
| creach_init : creach (MkConc NewOrchestrator ∅ ∅)
| creach_step c c' : creach c -> or_runCounter (co_orch c) < 2 ^ 63 - 1 -> cstep c c' -> creach c'.

(** ** The agents this library models *)

Definition with_policy_agents {K} `{Env K} `{StateCodec} (ag : Agents K) (exportDir : string)
    (router : CompositeRouter) : Agents K :=
  MkAgents (ag_LoadAll ag) (ag_ResolveCategory ag) (ag_GetDomains ag) (ag_GetPrefixes ag)
    (ag_NeedsRefresh ag) (ag_ResolveBatch ag) (ag_UpsertBatch ag) (ag_SnapshotForDomains ag) true
    (WritePolicy exportDir) (Caps router) (ApplyPolicy router) (ag_config ag) (ag_publish ag).
