(* ===== verification/OrchestratorSpec.v ===== *)
(** * What a pipeline run guarantees

  The outputs of a policy cover every address and direct prefix; a dry run never
  reaches the exporter or the router; one failing policy does not hide the
  others; a run always frees its slot, and at most one goroutine holds it. *)

From S2P Require Import Prelude GoLib Os Netip Cidr CidrFacts CidrSpec Aggregator.
From S2P Require Import Config Plan Exporter Routing Cache Orchestrator Machine.
From Stdlib Require Import Sorting.Sorted.

Local Open Scope Z_scope.

(** ** Outputs of a policy *)

Section Outputs.
Context (order : gset Addr -> list Addr) `{!MapOrder order}.

Lemma Aggregate_covers addrs threshold maxPrefix a :
  inputs_ok addrs -> a ∈ addrs -> IsValid a = true ->
  exists p, p ∈ Aggregate order addrs threshold maxPrefix /\ Contains p (withoutZone a) = true.
Proof.
  intros Hok Ha Hv. pose proof (inputs_ok_elem addrs a Hok Ha Hv) as Hw.
  destruct (part_covers order addrs threshold maxPrefix (negb (Is4 a)) a Hok) as (p & Hp & Hc).
  { apply elem_of_split_of; [done|]. split; [done|by apply in_some_family]. }
  exists p. split; [|done]. apply elem_of_Aggregate. eauto.
Qed.

Lemma host_contains a w :
  IsValid a = true -> addr_wf a -> w = BitLen a -> Contains (PrefixFrom a w) (withoutZone a) = true.
Proof.
  intros Hv Hw ->. pose proof (BitLen_nonneg a).
  assert (addr_wf (withoutZone a)) as Hwz
    by (unfold addr_wf; by rewrite addr_num_withoutZone, BitLen_withoutZone).
  apply Contains_PrefixFrom; auto; rewrite ?Z.sub_diag, ?Z.mod_1_r, ?addr_num_withoutZone,
    ?BitLen_withoutZone; [lia|done|].
  split_and!; [done|by destruct a|lia|lia].
Qed.

(** Addresses the cache can hold for a family. *)
Definition family_addrs (bits : Z) (addrs : list Addr) : Prop :=
  Forall (fun a => IsValid a = true /\ addr_wf a /\ BitLen a = bits) addrs.

Lemma family_addrs_ok bits addrs : family_addrs bits addrs -> inputs_ok addrs.
Proof. intros Hf. eapply Forall_impl; [exact Hf|]. by intros a (? & ? & ?) _. Qed.

(** Aggregated or not, a list of addresses is covered. *)
Lemma covers_aggregated bits addrs threshold maxPrefix a :
  family_addrs bits addrs -> a ∈ addrs ->
  exists p, p ∈ Aggregate order addrs threshold maxPrefix /\ Contains p (withoutZone a) = true.
Proof.
  intros Hf Ha. apply Aggregate_covers; [by eapply family_addrs_ok|done|].
  by apply (proj1 (Forall_forall _ _) Hf).
Qed.

Lemma covers_hosts bits addrs a :
  family_addrs bits addrs -> a ∈ addrs ->
  exists p, p ∈ ((fun a => PrefixFrom a bits) <$> addrs) /\ Contains p (withoutZone a) = true.
Proof.
  intros Hf Ha. exists (PrefixFrom a bits). split; [apply list_elem_of_fmap; eauto|].
  destruct (proj1 (Forall_forall _ _) Hf a Ha) as (Hv & Hw & Hb). by apply host_contains.
Qed.

Lemma covers_app (addrs : list Addr) (l l' : list Prefix) :
  (forall a : Addr, a ∈ addrs -> exists p, p ∈ l /\ Contains p (withoutZone a) = true) ->
  forall a, a ∈ addrs -> exists p, p ∈ l ++ l' /\ Contains p (withoutZone a) = true.
Proof. intros Hc a Ha. destruct (Hc a Ha) as (p & Hp & ?). exists p. split; [set_solver|done]. Qed.

(** C29. Whatever the aggregation settings of the configuration and the policy, the
    prefixes a policy exports and routes contain every address its domains have
    and include every direct prefix of its family. *)
Theorem policy_outputs_cover cfg aggLevel policy v4 v6 p4 p6 :
  family_addrs 32 v4 -> family_addrs 128 v6 ->
  let out := policy_outputs order cfg aggLevel policy v4 v6 p4 p6 in
  (forall a, a ∈ v4 -> exists p, p ∈ fst out /\ Contains p (withoutZone a) = true) /\
  (forall a, a ∈ v6 -> exists p, p ∈ snd out /\ Contains p (withoutZone a) = true) /\
  (forall p, p ∈ p4 -> p ∈ fst out) /\ (forall p, p ∈ p6 -> p ∈ snd out).
Proof.
  intros H4 H6. unfold policy_outputs, AggregateV4, AggregateV6.
  destruct (pc_Aggregation policy) as [agg|]; [destruct (ac_Enabled agg)|];
    try destruct (ac_Enabled (cfg_Aggregation cfg)); cbn [fst snd];
    (split; [|split; [|split; set_solver]]); apply covers_app;
    eauto using covers_aggregated, covers_hosts.
Qed.
End Outputs.

Definition out_policy : PolicyConfig :=
  {| pc_Name := "p"; pc_Enabled := true; pc_Categories := []; pc_Backend := BackendIProute2;
     pc_TableID := 100; pc_Iface := "eth0"; pc_NFTTable := ""; pc_NFTSetV4 := ""; pc_NFTSetV6 := "";
     pc_DryRun := false; pc_ExportFormat := ""; pc_Aggregation := None |}.

Lemma policy_outputs_cover_witness :
  exists p, p ∈ snd (policy_outputs elements Defaults AggBalanced out_policy
                       [Addr4 (10 * 2 ^ 24 + 1); Addr4 (10 * 2 ^ 24 + 2)] [Addr6 1 ""] [] []) /\
    Contains p (Addr6 1 "") = true.
Proof.
  edestruct (policy_outputs_cover elements Defaults AggBalanced out_policy
           [Addr4 (10 * 2 ^ 24 + 1); Addr4 (10 * 2 ^ 24 + 2)] [Addr6 1 ""] [] []) as (_ & H6 & _);
    [| |exact (H6 (Addr6 1 "") (list_elem_of_here _ _))].
  - unfold family_addrs. apply (bool_decide_unpack _). vm_compute. exact I.
  - unfold family_addrs. apply (bool_decide_unpack _). vm_compute. exact I.
Defined.

(** ** One run *)

Section Runs.
Context {K : Type} `{Env K}.
Context (ag : Agents K) (addr_order : gset Addr -> list Addr) (name_order : gset string -> list string).
Implicit Types (w : World K) (o : Orchestrator).

(** The same agents with another exporter and router. *)
Definition with_outputs (wp : PolicyConfig -> list Prefix -> list Prefix -> IO K PolicyExportReport)
    (ap : PolicyConfig -> list Prefix -> list Prefix -> IO K unit) : Agents K :=
  MkAgents (ag_LoadAll ag) (ag_ResolveCategory ag) (ag_GetDomains ag) (ag_GetPrefixes ag)
    (ag_NeedsRefresh ag) (ag_ResolveBatch ag) (ag_UpsertBatch ag) (ag_SnapshotForDomains ag)
    (ag_policies ag) wp (ag_Caps ag) ap (ag_config ag) (ag_publish ag).

Lemma io_bind_ext {A B} (m : IO K A) (f g : A -> IO K B) w :
  (forall a w', f a w' = g a w') -> (m ≫= f) w = (m ≫= g) w.
Proof. intros Hfg. unfold mbind, io_bind. destruct (m w) as [[a|e] w']; [apply Hfg|done]. Qed.

Lemma runPolicy_dry wp ap id policy req lvl cfg w :
  rq_DryRun req || pc_DryRun policy = true ->
  runPolicy (with_outputs wp ap) addr_order name_order id policy req lvl cfg w =
  runPolicy ag addr_order name_order id policy req lvl cfg w.
Proof.
  intros Hd. unfold runPolicy. apply io_bind_ext. intros start w1.
  apply (io_bind_ext (prepare_policy ag addr_order name_order id policy req lvl cfg)).
  intros [[ds [[[r f] s] h]] [v4 v6]] w2. apply (io_bind_ext (io_try (ag_Caps ag policy))).
  intros [[]|e] w3; [|done]. by rewrite Hd.
Qed.

Lemma run_policies_dry wp ap id req lvl cfg policies : forall re w,
  rq_DryRun req = true ->
  run_policies (with_outputs wp ap) addr_order name_order id req lvl cfg policies re w =
  run_policies ag addr_order name_order id req lvl cfg policies re w.
Proof.
  induction policies as [|p ps IH]; intros re w Hd; cbn [run_policies]; [done|].
  case_if; [by apply IH|]. apply io_bind_ext. intros st w1.
  assert (forall w, io_try (runPolicy (with_outputs wp ap) addr_order name_order id p req lvl cfg) w =
                    io_try (runPolicy ag addr_order name_order id p req lvl cfg) w) as Heq.
  { intros w2. unfold io_try. by rewrite runPolicy_dry by (by rewrite Hd). }
  unfold mbind at 1 3, io_bind at 1 3. rewrite Heq.
  destruct (io_try _ w1) as [[r|e] w2]; [|done].
  apply io_bind_ext. intros d w3. by apply IH.
Qed.

Lemma run_body_dry wp ap ctx req id started w :
  rq_DryRun req = true ->
  run_body (with_outputs wp ap) addr_order name_order ctx req id started w =
  run_body ag addr_order name_order ctx req id started w.
Proof.
  intros Hd. unfold run_body.
  apply (io_bind_ext (io_try (ag_LoadAll ag))). intros [[]|e] w1; [|done].
  apply io_bind_ext. intros [[]|e] w2; [|done].
  apply (io_bind_ext (read (ag_config ag))). intros cfg w3.
  apply (io_bind_ext (read (fun k => fst (categorizePolicyCategories ag name_order k cfg)))). intros cats w4.
  apply (io_bind_ext (read (fun k => collect_domains (ag_GetDomains ag k) cats))). intros ds w5.
  apply io_bind_ext. intros [[]|e] w6; [|done].
  unfold mbind at 1 4, io_bind at 1 4.
  cbn [ag_policies with_outputs]. case_if; [|done].
  by rewrite run_policies_dry.
Qed.

(** A dry run never reaches the exporter or the router: replacing both by
    anything else changes neither the result of the run, nor the world it leaves,
    nor the orchestrator's state. *)
Theorem dry_run_isolated wp ap ctx req o w :
  rq_DryRun req = true ->
  Run (with_outputs wp ap) addr_order name_order ctx req o w =
  Run ag addr_order name_order ctx req o w.
Proof.
  intros Hd. unfold Run. destruct (acquire o) as [[o1 id]|e]; [|done].
  cbn [ag_publish with_outputs]. by rewrite run_body_dry.
Qed.

(** ** The report *)

Definition enabled_names (cfg : Config) : list string :=
  pc_Name <$> List.filter pc_Enabled (ro_Policies (cfg_Routing cfg)).

Definition sum (l : list Z) : Z := foldr Z.add 0 l.

(** A report whose totals are those of its policies. *)
Record totals_ok (re : PipelineReport) : Prop := {
  to_resolved : re_Resolved re = sum (pr_Resolved <$> re_Policies re);
  to_failed : re_Failed re = sum (pr_Failed <$> re_Policies re);
  to_v4 : re_IPv4Out re = sum (pr_IPv4Out <$> re_Policies re);
  to_v6 : re_IPv6Out re = sum (pr_IPv6Out <$> re_Policies re);
}.

Lemma sum_snoc l x : sum (l ++ [x]) = sum l + x.
Proof. induction l as [|y l IH]; cbn in *; [lia|]. unfold sum in *. rewrite IH. lia. Qed.

Lemma totals_add re p s h : totals_ok re -> totals_ok (add_policy re p s h).
Proof.
  intros [H1 H2 H3 H4]. constructor; cbn [add_policy re_Resolved re_Failed re_IPv4Out re_IPv6Out re_Policies];
    rewrite fmap_app; cbn [fmap list_fmap]; rewrite sum_snoc; congruence.
Qed.

Lemma since_ok start w : exists d w', since start w = (Ok d, w').
Proof. eexists _, _. reflexivity. Qed.

Lemma runPolicy_name id policy req lvl cfg w p s h w' :
  runPolicy ag addr_order name_order id policy req lvl cfg w = (Ok (p, s, h), w') ->
  pr_Name p = pc_Name policy.
Proof.
  unfold runPolicy. intros (start & w1 & _ & E)%io_bind_ok.
  apply io_bind_ok in E as ([[ds [[[r f] s'] h']] [v4 v6]] & w2 & _ & E).
  apply io_bind_ok in E as (caps & w3 & _ & E). destruct caps as [[]|e]; [|by inversion E].
  destruct (rq_DryRun req || pc_DryRun policy).
  - apply io_bind_ok in E as (d & w4 & _ & E). by inversion E.
  - apply io_bind_ok in E as (exp & w4 & _ & E). apply io_bind_ok in E as (u & w5 & _ & E).
    apply io_bind_ok in E as (d & w6 & _ & E). by inversion E.
Qed.

Lemma record_policy_ok re p r d :
  totals_ok re -> (forall q s h, r = Ok (q, s, h) -> pr_Name q = pc_Name p) ->
  totals_ok (record_policy re p r d) /\ re_RunID (record_policy re p r d) = re_RunID re /\
  pr_Name <$> re_Policies (record_policy re p r d) = (pr_Name <$> re_Policies re) ++ [pc_Name p].
Proof.
  intros Ht Hr. destruct r as [[[q s] h]|e]; (split; [by apply totals_add|]);
    (split; [done|]); cbn [record_policy add_policy re_Policies]; rewrite fmap_app; [|done].
  cbn. by rewrite (Hr q s h).
Qed.

Lemma io_bind_now {B} (f : Z -> IO K B) w (P : res error B * World K -> Prop) :
  (forall t, P (f t (tick w))) -> P ((Now ≫= f) w).
Proof. intros Hp. apply Hp. Qed.

Lemma io_bind_since {B} start (f : Z -> IO K B) w (P : res error B * World K -> Prop) :
  (forall d, P (f d (tick w))) -> P ((since start ≫= f) w).
Proof. intros Hp. apply Hp. Qed.

Lemma run_policies_report id req lvl cfg policies : forall re w,
  totals_ok re ->
  exists re' w', run_policies ag addr_order name_order id req lvl cfg policies re w = (Ok re', w') /\
    totals_ok re' /\ re_RunID re' = re_RunID re /\
    pr_Name <$> re_Policies re' = (pr_Name <$> re_Policies re) ++ (pc_Name <$> List.filter pc_Enabled policies).
Proof.
  induction policies as [|p ps IH]; intros re w Ht; cbn [run_policies].
  { exists re, w. split_and!; auto. cbn. by rewrite app_nil_r. }
  cbn [List.filter]. destruct (pc_Enabled p); cbn [negb]; [|by apply IH].
  apply (io_bind_now _ _ (fun x => exists re' w', x = (Ok re', w') /\ _)). intros st.
  destruct (runPolicy ag addr_order name_order id p req lvl cfg (tick w)) as [r w1] eqn:E.
  rewrite (io_try_run _ _ _ _ E). cbn [fst snd].
  apply (io_bind_since _ _ _ (fun x => exists re' w', x = (Ok re', w') /\ _)). intros d.
  destruct (record_policy_ok re p r d Ht) as (Ht' & Hid & Hn).
  { intros q s h ->. by eapply runPolicy_name. }
  destruct (IH (record_policy re p r d) (tick w1) Ht') as (re2 & w3 & E2 & Ht2 & Hid2 & Hn2).
  exists re2, w3. split_and!; [exact E2|done|congruence|]. rewrite Hn2, Hn. cbn. by rewrite <- app_assoc.
Qed.

Lemma run_body_spec ctx req id started w :
  exists re err w', run_body ag addr_order name_order ctx req id started w = (Ok (re, err), w') /\
    re_RunID re = id /\ totals_ok re /\
    (err = None -> ag_policies ag = true ->
     exists w1, ag_LoadAll ag w = (Ok tt, w1) /\
       pr_Name <$> re_Policies re = enabled_names (ag_config ag (w_kern w1))).
Proof.
  assert (forall d n, totals_ok (MkReport id n 0 0 0 0 0 0 d [])) as Hempty by done.
  unfold run_body. destruct (ag_LoadAll ag w) as [l w1] eqn:El.
  rewrite (io_try_run _ _ _ _ El). cbn [fst snd].
  destruct l as [[]|e]; [|by eexists _, _, _].
  destruct (ctx_check ctx w1) as [c w2] eqn:Ec. rewrite (io_try_run _ _ _ _ Ec). cbn [fst snd].
  assert (w_kern w2 = w_kern w1) as Hk.
  { unfold ctx_check in Ec. destruct (ctx (w_calls w1)); by inversion Ec. }
  destruct c as [[]|e]; [|by eexists _, _, _].
  unfold mbind at 1, io_bind at 1, read at 1. unfold mbind at 1, io_bind at 1, read at 1.
  unfold mbind at 1, io_bind at 1, read at 1.
  set (cfg := ag_config ag (w_kern w2)).
  destruct (ctx_check ctx w2) as [c w3] eqn:Ec2. rewrite (io_try_run _ _ _ _ Ec2). cbn [fst snd].
  destruct c as [[]|e]; [|by eexists _, _, _].
  set (re0 := set_domains _ _).
  assert (exists re w4, (if Nat.ltb 0 (length (ro_Policies (cfg_Routing cfg))) && ag_policies ag
      then run_policies ag addr_order name_order id req (level_of (ac_Level (cfg_Aggregation cfg))) cfg
             (ro_Policies (cfg_Routing cfg)) re0
      else mret re0) w3 = (Ok re, w4) /\ re_RunID re = id /\ totals_ok re /\
      (ag_policies ag = true -> pr_Name <$> re_Policies re = enabled_names cfg)) as (re & w4 & Er & Hid & Ht & Hn).
  { case_if.
    - destruct (run_policies_report id req (level_of (ac_Level (cfg_Aggregation cfg))) cfg
        (ro_Policies (cfg_Routing cfg)) re0 w3) as (re & w4 & Er & Ht & Hid & Hn); [done|].
      exists re, w4. split_and!; auto.
    - exists re0, w3. split_and!; try done. intros Ha. rewrite Ha, andb_true_r in Heqb.
      unfold enabled_names. by destruct (ro_Policies (cfg_Routing cfg)). }
  unfold mbind at 1, io_bind at 1. rewrite Er.
  eexists _, None, _. split; [reflexivity|]. destruct Ht.
  split; [done|]. split; [done|]. intros _ Ha. exists w1. split; [done|].
  cbn [set_duration re_Policies]. rewrite (Hn Ha). unfold cfg. by rewrite Hk.
Qed.

(** The world [Run] hands to its body. *)
Definition after_start (id : Z) w : World K :=
  tick (ag_publish ag "pipeline" "pipeline.start" (AMap [("run_id"%string, AInt id)]) w).

(** A run that gets the slot, in terms of its body. *)
Lemma Run_fresh ctx req o w :
  or_running o = false ->
  let id := int64_wrap (or_runCounter o + 1) in
  exists re err w2 w3 o1,
    Run ag addr_order name_order ctx req o w =
      ((release (append_history (match err with None => set_finished o1 re | Some _ => o1 end) re), re, err), w3) /\
    or_current o1 = MkStatus true id (st_Started (or_current o1)) None /\
    or_runCounter o1 = id /\ or_history o1 = or_history o /\
    re_RunID re = id /\ totals_ok re /\
    (err = None -> w3 = w2 /\ (ag_policies ag = true ->
     exists w1, ag_LoadAll ag (after_start id w) = (Ok tt, w1) /\
       pr_Name <$> re_Policies re = enabled_names (ag_config ag (w_kern w1)))).
Proof.
  intros Hr id. unfold Run, acquire. rewrite Hr. cbv zeta. fold id.
  set (started := clock _).
  destruct (run_body_spec ctx req id started (after_start id w)) as (re & err & w2 & E & Hid & Ht & Hn).
  unfold after_start in E. rewrite E.
  exists re, err, w2. destruct err as [e|]; eexists _, _; (split; [reflexivity|]); split_and!; auto; done.
Qed.

(** The report of a successful run is complete: it has one entry per enabled
    policy of the configuration read after loading, in order, whether the policy
    succeeded or failed; its totals are the sums over the entries; and it becomes
    the reported status, no longer running. *)
Theorem run_report ctx req o o' rep w w' :
  or_running o = false -> ag_policies ag = true ->
  Run ag addr_order name_order ctx req o w = ((o', rep, None), w') ->
  (exists w1, ag_LoadAll ag (after_start (int64_wrap (or_runCounter o + 1)) w) = (Ok tt, w1) /\
     pr_Name <$> re_Policies rep = enabled_names (ag_config ag (w_kern w1))) /\
  re_Resolved rep = sum (pr_Resolved <$> re_Policies rep) /\
  re_Failed rep = sum (pr_Failed <$> re_Policies rep) /\
  re_IPv4Out rep = sum (pr_IPv4Out <$> re_Policies rep) /\
  re_IPv6Out rep = sum (pr_IPv6Out <$> re_Policies rep) /\
  st_Running (Status_ o') = false /\ st_Report (Status_ o') = Some rep.
Proof.
  intros Hr Ha. destruct (Run_fresh ctx req o w Hr) as (re & err & w2 & w3 & o1 & -> & _ & _ & _ & _ & [] & Hn).
  intros [= <- <- ->]. destruct (Hn eq_refl) as [_ Hn']. split_and!; auto.
Qed.

(** Every run frees the slot it took, whatever happens in it: a run started
    while another holds the slot changes nothing and gets [ErrBusy]; any other
    run gets the next identifier, leaves the slot free and its report last in a
    history of at most ten. *)
Theorem run_slot ctx req o o' rep err w w' :
  (length (or_history o) <= 10)%nat ->
  Run ag addr_order name_order ctx req o w = ((o', rep, err), w') ->
  (or_running o = true ->
   o' = o /\ w' = w /\ exists e, err = Some e /\ errors_Is e ErrBusy = true) /\
  (or_running o = false ->
   or_running o' = false /\ re_RunID rep = int64_wrap (or_runCounter o + 1) /\
   or_runCounter o' = re_RunID rep /\
   last (or_history o') = Some rep /\ (length (or_history o') <= 10)%nat).
Proof.
  intros Hl. destruct (or_running o) eqn:Hr.
  { unfold Run, acquire. rewrite Hr. intros [= <- <- <- <-]. split; [|done]. intros _.
    split_and!; auto. eexists. split; [done|]. auto with d2ip. }
  destruct (Run_fresh ctx req o w Hr) as (re & er & w2 & w3 & o1 & -> & _ & Hc & Hh & Hid & _).
  intros [= <- <- <- <-]. split; [done|]. intros _.
  cbn [release append_history or_running or_runCounter or_history].
  replace (or_history (match er with Some _ => o1 | None => set_finished o1 re end)) with (or_history o)
    by (by destruct er).
  replace (or_runCounter (match er with Some _ => o1 | None => set_finished o1 re end)) with (re_RunID re)
    by (rewrite Hid; by destruct er).
  split_and!; auto; [by rewrite last_snoc|]. rewrite length_app. cbn [length].
  destruct (Nat.leb_spec 10 (length (or_history o))); [|lia].
  destruct (or_history o); cbn [tail length] in *; lia.
Qed.

(** A run that fails leaves the status of a running pipeline behind:
    [Status] says running while the slot is free and [Cancel] finds nothing to
    cancel. *)
Theorem failed_run_status ctx req o o' rep e w w' :
  or_running o = false ->
  Run ag addr_order name_order ctx req o w = ((o', rep, Some e), w') ->
  st_Running (Status_ o') = true /\ st_Report (Status_ o') = None /\
  or_running o' = false /\ Cancel o' = inr ErrNotRunning.
Proof.
  intros Hr. destruct (Run_fresh ctx req o w Hr) as (re & er & w2 & w3 & o1 & -> & Hc & _).
  intros [= <- <- ->]. unfold Status_. cbn [release append_history or_current]. by rewrite Hc.
Qed.
End Runs.

(** ** What a run may do to the world *)

Section RunRespects.
Context {K : Type} `{Env K}.
Context (ag : Agents K) (addr_order : gset Addr -> list Addr) (name_order : gset string -> list string).
Context (R : relation (World K)) `{!PreOrder R}.

(** Every operation of the agents keeps to [R]. *)
Record agents_respect : Prop := {
  ar_tick : forall w, R w (tick w);
  ar_load : respects R (ag_LoadAll ag);
  ar_refresh : forall ds ttl failedTTL, respects R (ag_NeedsRefresh ag ds ttl failedTTL);
  ar_batch : forall ds w, R w (snd (ag_ResolveBatch ag ds w));
  ar_upsert : forall results, respects R (ag_UpsertBatch ag results);
  ar_snapshot : forall ds, respects R (ag_SnapshotForDomains ag ds);
  ar_write : forall policy v4 v6, respects R (ag_WritePolicy ag policy v4 v6);
  ar_caps : forall policy, respects R (ag_Caps ag policy);
  ar_apply : forall policy v4 v6, respects R (ag_ApplyPolicy ag policy v4 v6);
  ar_publish : forall topic ev data w, R w (ag_publish ag topic ev data w)
}.

Context (Hag : agents_respect).

Lemma respects_read {A} (f : K -> A) : respects R (read f).
Proof. by intros w r w' [= <- <-]. Qed.
Lemma respects_emit ev data : respects R (emit ag ev data).
Proof. intros w r w' [= <- <-]. by apply ar_publish. Qed.
Lemma respects_since start : respects R (since start).
Proof. apply respects_bind; [done|apply respects_Now, (ar_tick Hag)|]. intros now. by apply respects_ret. Qed.
Lemma respects_ctx ctx : respects R (ctx_check ctx).
Proof. intros w r w'. unfold ctx_check. destruct (ctx (w_calls w)); intros [= <- <-]; apply (ar_tick Hag). Qed.

Lemma respects_drain id name total results : forall a b c, respects R (drain ag id name total results a b c).
Proof.
  induction results as [|x l IH]; intros a b c; cbn [drain]; [by apply respects_ret|].
  apply respects_bind; [done| |intros _; apply IH]. case_if; [apply respects_emit|by apply respects_ret].
Qed.

Lemma respects_batch ds :
  respects R ((fun w => let '(l, w') := ag_ResolveBatch ag ds w in (Ok l, w')) : IO K (list ResolveResult)).
Proof. intros w r w'. pose proof (ar_batch Hag ds w) as Hb. destruct (ag_ResolveBatch ag ds w). by intros [= <- <-]. Qed.

Ltac run_leaf :=
  first [ apply respects_read | apply respects_emit | apply respects_since | apply respects_ctx | apply respects_drain
        | apply respects_batch | apply (ar_load Hag) | apply (ar_refresh Hag) | apply (ar_upsert Hag)
        | apply (ar_snapshot Hag) | apply (ar_write Hag) | apply (ar_caps Hag) | apply (ar_apply Hag)
        | apply respects_Now, (ar_tick Hag) | assumption ].

Lemma respects_resolve_policy id cfg req policy ds : respects R (resolve_policy ag id cfg req policy ds).
Proof. unfold resolve_policy. respects_walk run_leaf. Qed.

Lemma respects_runPolicy id policy req lvl cfg : respects R (runPolicy ag addr_order name_order id policy req lvl cfg).
Proof.
  unfold runPolicy, prepare_policy. respects_walk ltac:(first [run_leaf | apply respects_resolve_policy]).
Qed.

Lemma respects_run_policies id req lvl cfg policies : forall re,
  respects R (run_policies ag addr_order name_order id req lvl cfg policies re).
Proof.
  induction policies as [|policy policies IH]; intros re; cbn [run_policies]; [by apply respects_ret|].
  case_if; [apply IH|]. respects_walk ltac:(first [run_leaf | apply respects_runPolicy | apply IH]).
Qed.

Lemma respects_run_body ctx req id started : respects R (run_body ag addr_order name_order ctx req id started).
Proof. unfold run_body. respects_walk ltac:(first [run_leaf | apply respects_run_policies]). Qed.

(** A run keeps to [R], frees the slot it took and leaves a history of at most ten. *)
Lemma Run_respects ctx req o o' rep err w w' :
  Run ag addr_order name_order ctx req o w = ((o', rep, err), w') ->
  R w w' /\ (or_running o = false -> (length (or_history o) <= 10)%nat ->
             or_running o' = false /\ (length (or_history o') <= 10)%nat).
Proof.
  intros E. split.
  - revert E. unfold Run. destruct (acquire o) as [[o1 id]|busy]; [|by intros [= _ _ _ <-]]. cbv zeta.
    set (w1 := ag_publish ag _ _ _ w). assert (R w (tick w1)) as H1.
    { etrans; [by apply (ar_publish Hag)|apply (ar_tick Hag)]. }
    pose proof (respects_run_body ctx req id (clock (w_calls w1)) (tick w1)) as H2.
    destruct (run_body _ _ _ _ _ _ _ _) as [[[re [e|]]|e] w2]; intros [= _ _ _ <-];
      (etrans; [exact H1|]); (etrans; [by eapply H2|]); [apply (ar_publish Hag)|done..].
  - intros Hr Hl. destruct (Run_fresh ag addr_order name_order ctx req o w Hr) as (re & er & w2 & w3 & o1 & E' & _ & _ & Hh & _).
    rewrite E' in E. injection E as <- _ _ _. cbn [release append_history or_running or_history]. split; [done|].
    replace (or_history (match er with Some _ => o1 | None => set_finished o1 re end)) with (or_history o) by (by destruct er).
    rewrite length_app. cbn [length]. destruct (Nat.leb_spec 10 (length (or_history o))); [|lia].
    destruct (or_history o); cbn [tail length] in *; lia.
Qed.
End RunRespects.

(** ** Concurrent runs *)

(** What each place in [Run] means for the shared state. *)
Definition phase_ok (o : Orchestrator) (p : phase) : Prop :=
  match p with
  | PAcquired id => id = or_runCounter o /\ (forall x, or_cancelFn o = Some x -> x < id)
  | PCancellable id => id = or_runCounter o /\ or_cancelFn o = Some id
  | PBody id => id = or_runCounter o /\ or_cancelFn o = Some id /\
                st_Running (or_current o) = true /\ st_RunID (or_current o) = id
  | PFinished rep => re_RunID rep = or_runCounter o
  | PRecorded => True
  end.

Definition ids (o : Orchestrator) : list Z := re_RunID <$> or_history o.

Record cinv (c : Conc) : Prop := {
  ci_slot :
    (co_threads c = ∅ /\ or_running (co_orch c) = false) \/
    (exists tid p, co_threads c = {[tid := p]} /\ or_running (co_orch c) = true /\
       phase_ok (co_orch c) p /\
       (p <> PRecorded -> Forall (fun id => id < or_runCounter (co_orch c)) (ids (co_orch c))));
  ci_counter : 0 <= or_runCounter (co_orch c);
  ci_sorted : StronglySorted Z.lt (ids (co_orch c));
  ci_bound : Forall (fun id => id <= or_runCounter (co_orch c)) (ids (co_orch c));
  ci_length : (length (or_history (co_orch c)) <= 10)%nat;
  ci_cancel : forall x, or_cancelFn (co_orch c) = Some x -> x <= or_runCounter (co_orch c);
}.

(** The goroutine that takes a step holds the slot. *)
Lemma holder c tid p :
  cinv c -> co_threads c !! tid = Some p ->
  co_threads c = {[tid := p]} /\ or_running (co_orch c) = true /\ phase_ok (co_orch c) p /\
  (p <> PRecorded -> Forall (fun id => id < or_runCounter (co_orch c)) (ids (co_orch c))).
Proof.
  intros Hi Hp. destruct (ci_slot _ Hi) as [[He _]|(t & q & He & Hr)]; rewrite He in Hp; [done|].
  apply lookup_singleton_Some in Hp as [-> ->]. done.
Qed.

(** A step of the holder that keeps the counter and the history. *)
Lemma cinv_holder c tid p p' o' :
  cinv c -> co_threads c !! tid = Some p -> p <> PRecorded -> p' <> PRecorded ->
  or_running o' = true -> or_runCounter o' = or_runCounter (co_orch c) ->
  or_history o' = or_history (co_orch c) -> phase_ok o' p' ->
  (forall x, or_cancelFn o' = Some x -> x <= or_runCounter o') ->
  cinv (with_orch c o' tid p').
Proof.
  intros Hi Hp Hne Hne' Hr Hc Hh Hok Hcan. destruct (holder _ _ _ Hi Hp) as (He & _ & _ & Hlt).
  destruct Hi as [_ H2 H3 H4 H5 H6]. unfold ids in *.
  constructor; cbn [with_orch co_orch co_threads]; unfold ids; rewrite ?Hh, ?Hc; auto.
  - right. exists tid, p'. split; [by rewrite He, insert_singleton_eq|]. split_and!; auto.
  - intros x Hx. rewrite <- Hc. auto.
Qed.

Lemma tail_strongly_sorted {A} (R : A -> A -> Prop) l : StronglySorted R l -> StronglySorted R (tail l).
Proof. destruct 1; [constructor|done]. Qed.

Lemma Forall_tail {A} (P : A -> Prop) l : Forall P l -> Forall P (tail l).
Proof. destruct 1; [constructor|done]. Qed.

Lemma snoc_sorted l x : StronglySorted Z.lt l -> Forall (fun y => y < x) l -> StronglySorted Z.lt (l ++ [x]).
Proof.
  induction 1 as [|y l Hl IH Hy]; cbn; intros Hx; [repeat constructor|].
  inversion Hx; subst. constructor; [by apply IH|]. apply Forall_app. by repeat constructor.
Qed.

Lemma fmap_tail {A B} (f : A -> B) (l : list A) : f <$> tail l = tail (f <$> l).
Proof. by destruct l. Qed.

Lemma cinv_history c tid rep :
  cinv c -> co_threads c !! tid = Some (PFinished rep) ->
  cinv (with_orch c (append_history (co_orch c) rep) tid PRecorded).
Proof.
  intros Hi Hp. destruct (holder _ _ _ Hi Hp) as (He & Hr & Hid & Hlt).
  specialize (Hlt ltac:(done)). cbn [phase_ok] in Hid. destruct Hi as [_ H2 H3 H4 H5 H6].
  set (h := if Nat.leb 10 (length (or_history (co_orch c))) then tail (or_history (co_orch c))
            else or_history (co_orch c)).
  assert (StronglySorted Z.lt (re_RunID <$> h) /\
          Forall (fun id => id < or_runCounter (co_orch c)) (re_RunID <$> h)) as [Hs Hf].
  { unfold h, ids in *. case_if; rewrite ?fmap_tail; auto using tail_strongly_sorted, Forall_tail. }
  constructor; cbn [with_orch co_orch co_threads append_history or_running or_runCounter or_history or_cancelFn];
    unfold ids; cbn [append_history or_history]; fold h; rewrite ?fmap_app; cbn [fmap list_fmap]; auto.
  - right. exists tid, PRecorded. split; [by rewrite He, insert_singleton_eq|]. by split_and!.
  - apply snoc_sorted; [done|]. by rewrite Hid.
  - apply Forall_app. split; [|repeat constructor; lia].
    eapply Forall_impl; [exact Hf|]. intros x Hx. cbn in Hx. lia.
  - rewrite length_app. cbn [length]. unfold h. destruct (Nat.leb_spec 10 (length (or_history (co_orch c)))); [|lia].
    destruct (or_history (co_orch c)); cbn [tail length] in *; lia.
Qed.

Lemma cinv_step c c' : cinv c -> or_runCounter (co_orch c) < 2 ^ 63 - 1 -> cstep c c' -> cinv c'.
Proof.
  intros Hi Hb Hs. destruct Hs as [c tid o' id Ht Ha | c tid e Ht Ha | c tid id Ht | c tid id st Ht
    | c tid id rep Ht Hid | c tid id rep Ht Hid | c tid rep Ht | c tid Ht | c id Hc]; [|done|..].
  - unfold acquire in Ha. destruct (or_running (co_orch c)) eqn:Hr; [done|]. injection Ha as <- <-.
    destruct Hi as [Hsl H2 H3 H4 H5 H6].
    destruct Hsl as [[He _]|(t & q & _ & Hr' & _)]; [|congruence].
    assert (int64_wrap (or_runCounter (co_orch c) + 1) = or_runCounter (co_orch c) + 1) as ->
      by (apply wrap_s_id; lia).
    assert (forall l, Forall (fun id => id <= or_runCounter (co_orch c)) l ->
      Forall (fun id => id < or_runCounter (co_orch c) + 1) l) as Hw.
    { intros l Hl. eapply Forall_impl; [exact Hl|]. intros x Hx. cbn in Hx. lia. }
    constructor; cbn [with_orch co_orch co_threads or_running or_runCounter or_history or_cancelFn];
      unfold ids in *; cbn [or_history]; auto; [|lia| |].
    + right. exists tid, (PAcquired (or_runCounter (co_orch c) + 1)).
      split; [by rewrite He|]. cbn. split_and!; auto. intros x Hx. apply H6 in Hx. lia.
    + eapply Forall_impl; [exact (Hw _ H4)|]. intros x Hx. cbn in Hx. lia.
    + intros x Hx. apply H6 in Hx. lia.
  - destruct (holder _ _ _ Hi Ht) as (_ & Hr & [-> _] & _).
    apply (cinv_holder c tid (PAcquired (or_runCounter (co_orch c)))); try done. cbn. intros x [= <-]. lia.
  - destruct (holder _ _ _ Hi Ht) as (_ & Hr & [-> Hc] & _).
    apply (cinv_holder c tid (PCancellable (or_runCounter (co_orch c)))); try done. apply (ci_cancel _ Hi).
  - destruct (holder _ _ _ Hi Ht) as (_ & Hr & (-> & Hc & _) & _).
    apply (cinv_holder c tid (PBody (or_runCounter (co_orch c)))); try done. apply (ci_cancel _ Hi).
  - destruct (holder _ _ _ Hi Ht) as (_ & Hr & (-> & Hc & _) & _).
    apply (cinv_holder c tid (PBody (or_runCounter (co_orch c)))); try done. apply (ci_cancel _ Hi).
  - by apply cinv_history.
  - destruct (holder _ _ _ Hi Ht) as (He & Hr & _ & _). destruct Hi as [_ H2 H3 H4 H5 H6].
    constructor; cbn [co_orch co_threads release or_running or_runCounter or_history or_cancelFn]; auto.
    left. split; [|done]. by rewrite He, delete_singleton_eq.
  - destruct Hi. by constructor.
Qed.

Lemma creach_inv c : creach c -> cinv c.
Proof.
  induction 1 as [|c c' _ IH Hb Hs]; [|by eapply cinv_step].
  constructor; cbn; auto; try lia; [constructor|done].
Qed.

(** C30. Single flight: in every interleaving of goroutines calling [Run] and
    [Cancel], at most one is inside [Run], and the slot is taken exactly when one
    is; the identifiers in the history strictly increase and there are at most
    ten; and a [Cancel] during the body of a run hits that run. *)
Theorem single_flight c :
  creach c ->
  (size (co_threads c) <= 1)%nat /\ (or_running (co_orch c) = true <-> co_threads c <> ∅) /\
  StronglySorted Z.lt (re_RunID <$> or_history (co_orch c)) /\
  (length (or_history (co_orch c)) <= 10)%nat /\
  (forall tid id, co_threads c !! tid = Some (PBody id) ->
     Cancel (co_orch c) = inl id /\ st_Running (Status_ (co_orch c)) = true /\
     st_RunID (Status_ (co_orch c)) = id).
Proof.
  intros Hr. apply creach_inv in Hr as Hi. split_and!; [| |apply (ci_sorted _ Hi)|apply (ci_length _ Hi)|].
  - destruct (ci_slot _ Hi) as [[-> _]|(t & p & -> & _)]; [rewrite map_size_empty|rewrite map_size_singleton]; lia.
  - destruct (ci_slot _ Hi) as [[-> ->]|(t & p & -> & -> & _)]; [done|].
    split; [|done]. intros _. apply map_non_empty_singleton.
  - intros tid id Ht. destruct (holder _ _ _ Hi Ht) as (_ & Hr' & (_ & Hc & Hst & Hid) & _).
    unfold Cancel. rewrite Hr', Hc. done.
Qed.

(** Between the compare-and-swap and the registration of its context, a run
    cannot be cancelled: a [Cancel] that arrives there reports success and
    cancels a run that is over. *)
Theorem cancel_hits_finished_run c tid id id' :
  creach c -> co_threads c !! tid = Some (PAcquired id) -> or_cancelFn (co_orch c) = Some id' ->
  Cancel (co_orch c) = inl id' /\ id' < id.
Proof.
  intros Hr Ht Hc. apply creach_inv in Hr as Hi. destruct (holder _ _ _ Hi Ht) as (_ & Hrun & (_ & Hlt) & _).
  unfold Cancel. rewrite Hrun, Hc. auto.
Qed.

(** An execution: goroutine 0 runs to the end, then starts again. *)
Definition conc_at (o : Orchestrator) (t : gmap nat phase) : Conc := MkConc o t ∅.
Definition rep1 : PipelineReport := MkReport 1 0 0 0 0 0 0 0 0 [].
Definition o_busy1 : Orchestrator := MkOrch true (MkStatus false 0 0 None) None [] 1.
Definition o_done1 : Orchestrator :=
  release (append_history (set_finished (set_running (set_cancel o_busy1 1) 1 0) rep1) rep1).
Definition o_busy2 : Orchestrator := MkOrch true (or_current o_done1) (Some 1) [rep1] 2.
Definition conc2 : Conc := conc_at o_busy2 (<[0%nat := PAcquired 2]> ∅).

Lemma demo_body : creach (conc_at (set_running (set_cancel o_busy1 1) 1 0) {[0%nat := PBody 1]}).
Proof.
  eapply (creach_step (conc_at (set_cancel o_busy1 1) {[0%nat := PCancellable 1]})); [|done|].
  2: { exact (step_running (conc_at (set_cancel o_busy1 1) {[0%nat := PCancellable 1]}) 0 1 0 eq_refl). }
  eapply (creach_step (conc_at o_busy1 {[0%nat := PAcquired 1]})); [|done|].
  2: { exact (step_cancelFn (conc_at o_busy1 {[0%nat := PAcquired 1]}) 0 1 eq_refl). }
  eapply (creach_step (MkConc NewOrchestrator ∅ ∅)); [constructor|done|].
  exact (step_acquire (MkConc NewOrchestrator ∅ ∅) 0 o_busy1 1 eq_refl eq_refl).
Qed.

Lemma demo_second : creach conc2.
Proof.
  eapply (creach_step (conc_at o_done1 ∅)); [|done|].
  2: { exact (step_acquire (conc_at o_done1 ∅) 0 o_busy2 2 eq_refl eq_refl). }
  set (o3 := set_finished (set_running (set_cancel o_busy1 1) 1 0) rep1).
  eapply (creach_step (conc_at (append_history o3 rep1) {[0%nat := PRecorded]})); [|done|].
  2: { exact (step_release (conc_at (append_history o3 rep1) {[0%nat := PRecorded]}) 0 eq_refl). }
  eapply (creach_step (conc_at o3 {[0%nat := PFinished rep1]})); [|done|].
  2: { exact (step_history (conc_at o3 {[0%nat := PFinished rep1]}) 0 rep1 eq_refl). }
  eapply creach_step; [exact demo_body|done|].
  exact (step_success (conc_at (set_running (set_cancel o_busy1 1) 1 0) {[0%nat := PBody 1]}) 0 1 rep1 eq_refl eq_refl).
Qed.

Lemma single_flight_witness :
  Cancel (set_running (set_cancel o_busy1 1) 1 0) = inl 1.
Proof.
  by apply (proj2 (proj2 (proj2 (proj2 (single_flight _ demo_body)))) 0%nat 1 eq_refl).
Defined.

Lemma cancel_hits_finished_run_witness : Cancel o_busy2 = inl 1 /\ 1 < 2.
Proof. exact (cancel_hits_finished_run conc2 0 2 1 demo_second eq_refl eq_refl). Defined.

(** ** A concrete pipeline *)

(** One enabled policy, one domain with two addresses, one direct prefix. *)
Definition demo_config : Config := {|
  cfg_Listen := cfg_Listen Defaults; cfg_Source := cfg_Source Defaults; cfg_Sources := cfg_Sources Defaults;
  cfg_Resolver := cfg_Resolver Defaults; cfg_Cache := cfg_Cache Defaults;
  cfg_Aggregation := cfg_Aggregation Defaults; cfg_Export := cfg_Export Defaults;
  cfg_Routing := {| ro_Enabled := true; ro_StateDir := "/s"; ro_Policies := [demo_policy BackendIProute2] |};
  cfg_Scheduler := cfg_Scheduler Defaults; cfg_Logging := cfg_Logging Defaults;
  cfg_Metrics := cfg_Metrics Defaults |}.

Definition demo_agents (loaded : option string) : Agents Kernel :=
  with_policy_agents {|
    ag_LoadAll := match loaded with None => mret tt | Some e => io_err (ErrNew e) end;
    ag_ResolveCategory _ cat := if String.eqb cat "geosite:x" then Some ("s", "domain")%string else None;
    ag_GetDomains _ _ := Ok ["a.test"%string];
    ag_GetPrefixes _ _ := Err (ErrNew "none");
    ag_NeedsRefresh ds _ _ := mret ds;
    ag_ResolveBatch ds w := ((fun d => MkResult d [Addr4 (10 * 2 ^ 24)] [] StatusValid 0 None) <$> ds, w);
    ag_UpsertBatch _ := mret tt;
    ag_SnapshotForDomains _ := mret ([Addr4 (10 * 2 ^ 24)], []);
    ag_policies := true;
    ag_WritePolicy _ _ _ := io_err (ErrNew "");
    ag_Caps _ := mret tt;
    ag_ApplyPolicy _ _ _ := io_err (ErrNew "");
    ag_config _ := demo_config;
    ag_publish _ _ _ w := w
  |} "/out" (NewCompositeRouter (cfg_Routing demo_config)).

Definition demo_run (loaded : option string) (dry : bool) :=
  Run (demo_agents loaded) elements elements (fun _ => None) (MkRequest dry false false) NewOrchestrator start.

Definition run_orch (loaded : option string) : Orchestrator := fst (fst (fst (demo_run loaded false))).
Definition run_rep (loaded : option string) : PipelineReport := snd (fst (fst (demo_run loaded false))).

Lemma demo_run_ok :
  demo_run None false = ((run_orch None, run_rep None, None), snd (demo_run None false)).
Proof. vm_compute. reflexivity. Qed.

Lemma demo_run_fails :
  demo_run (Some "down") false =
  ((run_orch (Some "down"), run_rep (Some "down"), Some (ErrWrap "source load" (ErrNew "down"))),
   snd (demo_run (Some "down") false)).
Proof. vm_compute. reflexivity. Qed.

Lemma dry_run_isolated_witness :
  Run (with_outputs (demo_agents None) (fun _ _ _ => io_err (ErrNew "disk")) (fun _ _ _ => io_err (ErrNew "kernel")))
    elements elements (fun _ => None) (MkRequest true false false) NewOrchestrator start = demo_run None true.
Proof. by apply (dry_run_isolated (demo_agents None) elements elements). Defined.

Lemma run_report_witness : re_IPv4Out (run_rep None) = sum (pr_IPv4Out <$> re_Policies (run_rep None)).
Proof.
  by apply (run_report (demo_agents None) elements elements (fun _ => None) (MkRequest false false false)
    NewOrchestrator (run_orch None) (run_rep None) start (snd (demo_run None false)) eq_refl eq_refl demo_run_ok).
Defined.

Lemma run_slot_witness : or_running (run_orch (Some "down")) = false /\ re_RunID (run_rep (Some "down")) = 1.
Proof.
  destruct (run_slot (demo_agents (Some "down")) elements elements (fun _ => None) (MkRequest false false false)
    NewOrchestrator _ _ _ start _ (le_S _ _ (Nat.le_0_l _)) demo_run_fails) as [_ Hs].
  destruct (Hs eq_refl) as (Hr & Hid & _). split; [exact Hr|exact Hid].
Defined.

Lemma failed_run_status_witness : st_Running (Status_ (run_orch (Some "down"))) = true.
Proof.
  by apply (failed_run_status (demo_agents (Some "down")) elements elements (fun _ => None)
    (MkRequest false false false) NewOrchestrator _ _ _ start _ eq_refl demo_run_fails).
Defined.

Example demo_run_applies : pr_Name <$> re_Policies (run_rep None) = ["demo"]%string /\ re_IPv4Out (run_rep None) = 1.
Proof. vm_compute. done. Qed.
