(* ===== verification/Resolution.v ===== *)
(** * The pipeline over the resolver and the cache

  [with_resolution] puts the cache and a batch resolver in the place of the
  orchestrator's agents; the resolution step of a policy run, proved against what
  the resolver and the cache promise. *)

From S2P Require Import Prelude Order GoLib Os Netip NetipText Cidr Aggregator.
From S2P Require Import Config Plan Exporter Routing Cache CacheSpec Resolver ResolverSpec Orchestrator.

Local Open Scope Z_scope.

(** The agents with [SQLiteCache] as the cache and [batch] as the resolver. *)
Definition with_resolution {K} `{Env K} `{Sqlite K} (ag : Agents K) (order : gset string -> list string)
    (rec_order : gset RecordKey -> list RecordKey)
    (batch : list string -> World K -> list ResolveResult * World K) : Agents K :=
  MkAgents (ag_LoadAll ag) (ag_ResolveCategory ag) (ag_GetDomains ag) (ag_GetPrefixes ag)
    (NeedsRefresh order) batch UpsertBatch (SnapshotForDomains rec_order) (ag_policies ag)
    (ag_WritePolicy ag) (ag_Caps ag) (ag_ApplyPolicy ag) (ag_config ag) (ag_publish ag).

Section Resolution.
Context {K : Type} `{Env K} `{Sqlite K}.
Context (ag : Agents K) (order : gset string -> list string) (rec_order : gset RecordKey -> list RecordKey).
Context `{!MapOrder order, !MapOrder rec_order}.
Context (batch : list string -> World K -> list ResolveResult * World K).
(** What [batch_results_ok] shows of the pool: a result for each domain, as the
    cache expects it; and neither resolving nor publishing an event writes to the
    database. *)
Context (batch_ok : forall ds w, Forall result_ok (fst (batch ds w)) /\
  rr_Domain <$> fst (batch ds w) ≡ₚ ds /\ db (snd (batch ds w)) = db w).
Context (publish_db : forall topic ev data w, db (ag_publish ag topic ev data w) = db w).
Implicit Types (w : World K).
Local Notation ag' := (with_resolution ag order rec_order batch).

Lemma drain_spec runID name total results resolved failed processed w :
  exists resolved' failed' w', drain ag' runID name total results resolved failed processed w = (Ok (resolved', failed'), w') /\
    db w' = db w /\ resolved' + failed' = resolved + failed + Z.of_nat (length results) /\
    resolved' = resolved + Z.of_nat (length (List.filter is_valid results)).
Proof.
  revert resolved failed processed w. induction results as [|r rs IH]; intros resolved failed processed w.
  { eexists _, _, _. split; [reflexivity|]. cbn. split_and!; [done|lia|lia]. }
  cbn [drain]. unfold mbind at 1, io_bind at 1.
  assert (exists w1, (if ((processed + 1) mod 10 =? 0) || (processed + 1 =? total)
    then emit ag' "pipeline.progress" (AMap [("run_id"%string, AInt runID); ("policy"%string, AStr name);
           ("step"%string, AStr "resolve"); ("resolved"%string, AInt (if is_valid r then resolved + 1 else resolved));
           ("failed"%string, AInt (if is_valid r then failed else failed + 1)); ("total"%string, AInt total);
           ("processed"%string, AInt (processed + 1))])
    else mret tt) w = (Ok tt, w1) /\ db w1 = db w) as (w1 & E1 & Hd1).
  { case_if; [|by exists w]. eexists. split; [reflexivity|]. apply publish_db. }
  rewrite E1.
  destruct (IH (if is_valid r then resolved + 1 else resolved) (if is_valid r then failed else failed + 1) (processed + 1) w1)
    as (re & fa & w' & E & Hd & Hs & Hv).
  exists re, fa, w'. split; [exact E|]. split; [congruence|]. cbn [List.filter length].
  destruct (is_valid r); cbn [length]; lia.
Qed.

(** The domains to resolve: all of them when forced, else the stale ones. *)
Definition wanted (req : PipelineRequest) (cfg : Config) (a : gmap string Entry) (now : Z) (name : string) : Prop :=
  rq_ForceResolve req = true \/
  spec_stale a (Unix now) (cc_TTL (cfg_Cache cfg)) (cc_FailedTTL (cfg_Cache cfg)) name = true.

Lemma refresh_phase req cfg domains a w toResolve hits w1 :
  refines (db w) a ->
  (if rq_ForceResolve req then mret (domains, 0)
   else stale ← io_wrap "cache check" (NeedsRefresh order domains (cc_TTL (cfg_Cache cfg)) (cc_FailedTTL (cfg_Cache cfg)));
        mret (stale, Z.of_nat (length domains) - Z.of_nat (length stale))) w = (Ok (toResolve, hits), w1) ->
  db w1 = db w /\
  (forall name, name ∈ toResolve <-> name ∈ domains /\ wanted req cfg a (clock (w_calls w)) name) /\
  (rq_ForceResolve req = false -> hits + Z.of_nat (length toResolve) = Z.of_nat (length domains)).
Proof.
  intros Hr. unfold wanted. destruct (rq_ForceResolve req).
  - intros [= <- <- <-]. split_and!; try done. intros name. naive_solver.
  - intros (stale & w2 & E1 & E2)%io_bind_ok. apply io_wrap_ok in E1. injection E2 as <- <- <-.
    eapply NeedsRefresh_cases in E1 as [Hd Hs]; [|done|exact Hr]. destruct (Hs _ eq_refl) as (_ & Hn & Hel).
    split_and!; [done| |intros _; lia]. intros name. rewrite Hel. naive_solver.
Qed.

Lemma store_phase runID policy toResolve a w re fa w2 :
  refines (db w) a ->
  (if Nat.eqb (length toResolve) 0 then mret (0, 0)
   else
     results ← ((fun w => let '(l, w') := ag_ResolveBatch ag' toResolve w in (Ok l, w')) : IO K (list ResolveResult));
     '(resolved, failed) ← drain ag' runID (pc_Name policy) (Z.of_nat (length toResolve)) results 0 0 0;
     io_wrap "cache upsert" (ag_UpsertBatch ag' results);;
     mret (resolved, failed)) w = (Ok (re, fa), w2) ->
  exists results, Forall result_ok results /\ rr_Domain <$> results ≡ₚ toResolve /\
    refines (db w2) (spec_upsert a results) /\
    re + fa = Z.of_nat (length results) /\ re = Z.of_nat (length (List.filter is_valid results)).
Proof.
  intros Hr. destruct (Nat.eqb_spec (length toResolve) 0) as [Hl|_].
  { apply nil_length_inv in Hl as ->. intros [= <- <- <-]. exists []. by split_and!. }
  intros (results & w4 & E4 & E2)%io_bind_ok.
  destruct (batch_ok toResolve w) as (Hok & Hp & Hdb). cbn [ag_ResolveBatch with_resolution] in E4.
  destruct (batch toResolve w) as [l w5] eqn:Eb. injection E4 as <- <-. cbn [fst snd] in Hok, Hp, Hdb.
  apply io_bind_ok in E2 as ([re' fa'] & w6 & E5 & E2). apply io_bind_ok in E2 as ([] & w7 & E6 & E2).
  injection E2 as <- <- <-. apply io_wrap_ok in E6.
  destruct (drain_spec runID (pc_Name policy) (Z.of_nat (length toResolve)) l 0 0 0 w5) as (x & y & w8 & E7 & Hd8 & Hs & Hv).
  rewrite E7 in E5. injection E5 as <- <- <-.
  exists l. split; [done|]. split; [done|]. split; [|lia]. cbn [ag_UpsertBatch with_resolution] in E6.
  eapply UpsertBatch_cases in E6; [exact E6|]. rewrite Hd8, Hdb. exact Hr.
Qed.

(** C5. What a policy run works with: the domains that need it are resolved, each
    once, and stored; the addresses it goes on with are exactly those its domains
    had in the cache and those just delivered, and the counts add up. *)
Theorem resolution_complete runID cfg req policy domains a w v4 v6 resolved failed total hits w' :
  refines (db w) a -> domains <> [] ->
  resolve_policy ag' runID cfg req policy domains w = (Ok (v4, v6, (resolved, failed, total, hits)), w') ->
  exists results,
    (forall name, name ∈ rr_Domain <$> results <-> name ∈ domains /\ wanted req cfg a (clock (w_calls w)) name) /\
    refines (db w') (spec_upsert a results) /\
    (forall (v4' : bool) (addr : Addr), addr ∈ (if v4' then v4 else v6) <-> exists name, name ∈ domains /\
       (spec_has a name v4' addr \/ exists r, r ∈ results /\ rr_Domain r = name /\ delivers r v4' addr)) /\
    total = Z.of_nat (length results) /\ resolved + failed = total /\
    resolved = Z.of_nat (length (List.filter is_valid results)) /\
    (rq_ForceResolve req = false -> hits + total = Z.of_nat (length domains)).
Proof.
  intros Hr Hne E. unfold resolve_policy in E.
  destruct (Nat.eqb_spec (length domains) 0) as [Hl|_]; [by apply nil_length_inv in Hl|].
  apply io_bind_ok in E as ([toResolve cacheHits] & w1 & E1 & E).
  eapply refresh_phase in E1 as (Hd1 & Hto & Hhits); [|exact Hr]. rewrite <- Hd1 in Hr.
  apply io_bind_ok in E as ([re fa] & w2 & E2 & E).
  eapply store_phase in E2 as (results & Hok & Hperm & Hr2 & Hsum & Hval); [|exact Hr].
  apply io_bind_ok in E as ([s4 s6] & w3 & E3 & E). injection E as <- <- <- <- <- <- <-. apply io_wrap_ok in E3.
  eapply SnapshotForDomains_cases in E3 as [Hd3 Hs]; [|done|exact Hr2]. specialize (Hs s4 s6 eq_refl).
  exists results. assert (length results = length toResolve) as Hlen by (rewrite <- Hperm; by rewrite length_fmap).
  split_and!; [intros name; by rewrite Hperm|by rewrite Hd3| |lia|lia|done|done].
  intros v4' addr. setoid_rewrite <- (spec_has_upsert a results _ _ _ Hok). destruct (Hs addr), v4'; done.
Qed.
End Resolution.

(** ** A resolution *)

#[local] Instance resolution_env : Env Tables := demo_env None.

Definition demo_batch (ds : list string) (w : World Tables) : list ResolveResult * World Tables :=
  ((fun d => fst (resolveDomain DefaultConfig no_ctx (fun _ => false) d w)) <$> ds, w).

Lemma demo_batch_ok ds w :
  Forall result_ok (fst (demo_batch ds w)) /\ rr_Domain <$> fst (demo_batch ds w) ≡ₚ ds /\
  db (snd (demo_batch ds w)) = db w.
Proof.
  pose proof (fun d => resolveDomain_result DefaultConfig no_ctx (fun _ => false) demo_answers_wf d w _ _
                (surjective_pairing _)) as Hd.
  split_and!; [| |done]; cbn [fst demo_batch].
  - apply Forall_fmap, Forall_true. intros d. apply (Hd d).
  - rewrite <- list_fmap_compose. rewrite (list_fmap_ext _ id ds).
    { by rewrite list_fmap_id. }
    intros i d _. apply (Hd d).
Qed.

Definition no_agents : Agents Tables :=
  MkAgents (mret tt) (fun _ _ => None) (fun _ _ => Err (ErrNew "")) (fun _ _ => Err (ErrNew "")) (fun _ _ _ => mret [])
    (fun _ w => ([], w)) (fun _ => mret tt) (fun _ => mret ([], [])) false
    (fun _ _ _ => io_err (ErrNew "")) (fun _ => mret tt) (fun _ _ _ => mret tt) (fun _ => Defaults) (fun _ _ _ w => w).

Definition demo_policy : PolicyConfig :=
    {| pc_Name := "p"; pc_Enabled := true; pc_Categories := []; pc_Backend := BackendIProute2;
       pc_TableID := 100; pc_Iface := "eth0"; pc_NFTTable := ""; pc_NFTSetV4 := ""; pc_NFTSetV6 := "";
       pc_DryRun := false; pc_ExportFormat := ""; pc_Aggregation := None |}.

Definition demo_resolution :=
  resolve_policy (with_resolution no_agents elements elements demo_batch) 1 Defaults (MkRequest false false false)
    demo_policy ["a.example"%string] start.

Lemma resolution_complete_witness :
  exists v4 v6 counts w', demo_resolution = (Ok (v4, v6, counts), w') /\
    exists name, name ∈ ["a.example"%string] /\ (spec_has ∅ name true (Addr4 (10 * 2 ^ 24 + 1)) \/
      exists r, rr_Domain r = name /\ delivers r true (Addr4 (10 * 2 ^ 24 + 1))).
Proof.
  destruct demo_resolution as [[[[v4 v6] [[[resolved failed] total] hits]]|e] w'] eqn:E; [|vm_compute in E; discriminate].
  exists v4, v6, (resolved, failed, total, hits), w'. split; [reflexivity|].
  destruct (resolution_complete no_agents elements elements demo_batch demo_batch_ok (fun _ _ _ _ => eq_refl)
              1 Defaults (MkRequest false false false) demo_policy ["a.example"%string] ∅ start v4 v6 resolved failed total hits w')
    as (results & _ & _ & Hs & _); [exact refines_empty|discriminate|exact E|].
  destruct (proj1 (Hs true (Addr4 (10 * 2 ^ 24 + 1)))) as (name & Hn & Hh).
  { vm_compute in E. injection E as <- _ _ _ _ _. apply list_elem_of_here. }
  exists name. split; [exact Hn|]. destruct Hh as [Hh|(r & _ & Hr)]; [by left|right; by exists r].
Defined.
