(* ===== verification/Scheduler.v ===== *)
(** * [internal/scheduler]: the cron loop

  [scheduler.go]: the Scheduler with its mutex as a transition system.  A cron
  instance ([robfig/cron]) is what its documentation says: between its Start and
  its Stop it may fire at any moment, every firing runs the job in a goroutine of
  its own, and the context Stop returns is done once no job runs.  The parser of
  cron expressions is a parameter. *)

From S2P Require Import Prelude GoLib Os Netip Exporter Plan Config Cache Orchestrator.

(** ** Data *)

Record Cron := MkCron {
  cn_ticking : bool;     (** started and not stopped *)
  cn_cancelled : bool;   (** the context of its jobs *)
  cn_jobs : nat }.

(** [sc_cron] and [sc_cancel] name an instance in the list of all that were made. *)
Record Scheduler := MkScheduler {
  sc_cronExpr : string; sc_cron : option nat; sc_running : bool; sc_cancel : option nat }.

(** Where a goroutine inside [Stop] is: waiting for the jobs of an instance, or
    before it takes the mutex again. *)
Inductive stop_phase := AwaitJobs (c : nat) | Finish.

Record Sys := MkSys { sy_sched : Scheduler; sy_crons : list Cron; sy_stops : gmap nat stop_phase }.

Definition set_crons (s : Sys) (l : list Cron) : Sys := MkSys (sy_sched s) l (sy_stops s).
Definition set_stop (s : Sys) (tid : nat) (p : option stop_phase) : Sys :=
  MkSys (sy_sched s) (sy_crons s) (partial_alter (fun _ => p) tid (sy_stops s)).

Section Scheduler.
(** The error of the parser of cron expressions, if it has one. *)
Context (parse : string -> option error).

(** [New]; the orchestrator is there. *)
Definition NewScheduler (cronExpr : string) : res error Scheduler :=
  if String.eqb cronExpr "" then Err (ErrNew "scheduler: cron expression cannot be empty")
  else match parse cronExpr with
       | Some e => Err (ErrWrap "scheduler: invalid cron expression" e)
       | None => Ok (MkScheduler cronExpr None false None)
       end.

(** [Start], under the mutex from its first to its last line. *)
Definition Start (s : Sys) : option error * Sys :=
  let sc := sy_sched s in
  if sc_running sc then (Some (ErrNew "scheduler: already running"), s)
  else
    let c := length (sy_crons s) in
    match parse (sc_cronExpr sc) with
    | Some e =>
        (Some (ErrWrap "scheduler: failed to schedule cron job" e),
         MkSys (MkScheduler (sc_cronExpr sc) (Some c) false (Some c))
           (sy_crons s ++ [MkCron false true 0]) (sy_stops s))
    | None =>
        (None, MkSys (MkScheduler (sc_cronExpr sc) (Some c) true (Some c))
                 (sy_crons s ++ [MkCron true false 0]) (sy_stops s))
    end.

Definition cancel_jobs (c : option nat) (l : list Cron) : list Cron :=
  match c with Some c => alter (fun x => MkCron (cn_ticking x) true (cn_jobs x)) c l | None => l end.
Definition stop_cron (c : nat) (l : list Cron) : list Cron :=
  alter (fun x => MkCron false (cn_cancelled x) (cn_jobs x)) c l.

(** [Stop] up to its wait: goroutine [tid] returns at once or goes on. *)
Definition stop_begin (tid : nat) (s : Sys) : Sys :=
  let sc := sy_sched s in
  if negb (sc_running sc) then s
  else
    let s := set_crons s (cancel_jobs (sc_cancel sc) (sy_crons s)) in
    match sc_cron sc with
    | Some c => set_stop (set_crons s (stop_cron c (sy_crons s))) tid (Some (AwaitJobs c))
    | None => set_stop s tid (Some Finish)
    end.

(** [s.running = false] under the mutex, and the return. *)
Definition stop_end (tid : nat) (s : Sys) : Sys :=
  let sc := sy_sched s in
  set_stop (MkSys (MkScheduler (sc_cronExpr sc) (sc_cron sc) false (sc_cancel sc)) (sy_crons s) (sy_stops s)) tid None.

(** ** Steps *)

(** [alone]: calls of [Stop] do not overlap. *)
Inductive sched_step (alone : bool) : Sys -> Sys -> Prop :=
| t_start s : sched_step alone s (snd (Start s))
| t_stop s tid : sy_stops s !! tid = None -> (alone = true -> sy_stops s = ∅) -> sched_step alone s (stop_begin tid s)
| t_waited s tid c x : sy_stops s !! tid = Some (AwaitJobs c) -> sy_crons s !! c = Some x -> cn_jobs x = 0 ->
    sched_step alone s (set_stop s tid (Some Finish))
| t_stopped s tid : sy_stops s !! tid = Some Finish -> sched_step alone s (stop_end tid s)
| t_tick s c x : sy_crons s !! c = Some x -> cn_ticking x = true ->
    sched_step alone s (set_crons s (<[c := MkCron true (cn_cancelled x) (S (cn_jobs x))]> (sy_crons s)))
| t_job s c x n : sy_crons s !! c = Some x -> cn_jobs x = S n ->
    sched_step alone s (set_crons s (<[c := MkCron (cn_ticking x) (cn_cancelled x) n]> (sy_crons s))).

Inductive sched_reach (alone : bool) (sc : Scheduler) : Sys -> Prop :=
| sreach_init : sched_reach alone sc (MkSys sc [] ∅)
| sreach_step s s' : sched_reach alone sc s -> sched_step alone s s' -> sched_reach alone sc s'.
End Scheduler.

(** [runPipeline], the job of a tick: a full run; its report and its error are only
    logged. *)
Definition runPipeline {K} `{Env K} (ag : Agents K) (addr_order : gset Addr -> list Addr)
    (name_order : gset string -> list string) (ctx : Ctx) (o : Orchestrator) : World K -> Orchestrator * World K := fun w =>
  let '((o, _, _), w) := Run ag addr_order name_order ctx (MkRequest false false false) o w in (o, w).

(** What [main] starts: an interval of 0 disables the scheduler. *)
Definition scheduler_of (parse : string -> option error) (duration_string : Z -> string) (cfg : Config)
    : option (res error Scheduler) :=
  let every := sc_ResolveCycle (cfg_Scheduler cfg) in
  if (0 <? every)%Z then Some (NewScheduler parse ("@every " +:+ duration_string every)) else None.
