(* ===== verification/SchedulerSpec.v ===== *)
(** * One schedule at a time

  The invariant of the scheduler while calls of [Stop] do not overlap, and what
  goes wrong when they do. *)

From S2P Require Import Prelude GoLib Os Netip Exporter Plan Config Cache Orchestrator Scheduler.

(** An instance that is over. *)
Definition idle (x : Cron) : Prop := cn_ticking x = false /\ cn_cancelled x = true /\ cn_jobs x = 0.

(** The only instance that may be live is the last one. *)
Inductive sched_inv : Sys -> Prop :=
| inv_stopped e c d l : Forall idle l -> sched_inv (MkSys (MkScheduler e c false d) l ∅)
| inv_running e l n : Forall idle l ->
    sched_inv (MkSys (MkScheduler e (Some (length l)) true (Some (length l))) (l ++ [MkCron true false n]) ∅)
| inv_waiting e l n tid : Forall idle l ->
    sched_inv (MkSys (MkScheduler e (Some (length l)) true (Some (length l))) (l ++ [MkCron false true n])
                 {[tid := AwaitJobs (length l)]})
| inv_finish e l tid : Forall idle l ->
    sched_inv (MkSys (MkScheduler e (Some (length l)) true (Some (length l))) (l ++ [MkCron false true 0])
                 {[tid := Finish]}).

Section Inv.
Context (parse : string -> option error).

(** A lookup in the instances finds one that is over or the last one. *)
Lemma lookup_crons l y c x : Forall idle l -> (l ++ [y]) !! c = Some x -> idle x \/ (c = length l /\ x = y).
Proof.
  intros Hl. rewrite lookup_app_Some. intros [Hx|[Hc Hx]].
  - left. by eapply Forall_lookup in Hl.
  - right. apply list_lookup_singleton_Some in Hx as [? ->]. split; [lia|done].
Qed.

Lemma alter_last (f : Cron -> Cron) l y : alter f (length l) (l ++ [y]) = l ++ [f y].
Proof. rewrite alter_app_r_alt by lia. by rewrite Nat.sub_diag. Qed.

Lemma insert_last l (y z : Cron) : <[length l := z]> (l ++ [y]) = l ++ [z].
Proof. rewrite insert_app_r_alt by lia. by rewrite Nat.sub_diag. Qed.

Lemma replace_stop tid (p q : stop_phase) :
  partial_alter (fun _ => Some q) tid {[tid := p]} =@{gmap nat stop_phase} {[tid := q]}.
Proof.
  apply map_eq. intros i. destruct (decide (tid = i)) as [<-|Hne].
  - by rewrite lookup_partial_alter_eq, lookup_singleton_eq.
  - by rewrite lookup_partial_alter_ne, !lookup_singleton_ne.
Qed.
Lemma remove_stop tid (p : stop_phase) : partial_alter (fun _ => None) tid {[tid := p]} =@{gmap nat stop_phase} ∅.
Proof.
  apply map_eq. intros i. destruct (decide (tid = i)) as [<-|Hne].
  - by rewrite lookup_partial_alter_eq, lookup_empty.
  - by rewrite lookup_partial_alter_ne, lookup_singleton_ne, lookup_empty.
Qed.

Lemma sched_inv_start s : sched_inv s -> sched_inv (snd (Start parse s)).
Proof.
  intros [e c d l Hl|e l n Hl|e l n tid Hl|e l tid Hl]; unfold Start; cbn; try by constructor.
  destruct (parse e); cbn; constructor; [|done]. apply Forall_app. by repeat constructor.
Qed.

Lemma sched_inv_stop s tid : sy_stops s = ∅ -> sched_inv s -> sched_inv (stop_begin tid s).
Proof.
  intros He Hi. destruct Hi as [e c d l Hl|e l n Hl|e l n t Hl|e l t Hl]; cbn in He.
  - by constructor.
  - unfold stop_begin, set_stop, cancel_jobs, stop_cron. cbn. rewrite !alter_last. cbn. by constructor.
  - by apply map_non_empty_singleton in He.
  - by apply map_non_empty_singleton in He.
Qed.

Lemma sched_inv_step s s' : sched_step parse true s s' -> sched_inv s -> sched_inv s'.
Proof.
  intros Hst Hi. destruct Hst as [s|s tid Hn Ha|s tid c x Ht Hx Hj|s tid Ht|s c x Hx Ht|s c x n Hx Hj].
  - by apply sched_inv_start.
  - by apply sched_inv_stop; [apply Ha|].
  - destruct Hi as [e cc d l Hl|e l n Hl|e l n t Hl|e l t Hl]; cbn in Ht, Hx; try by rewrite lookup_empty in Ht.
    + apply lookup_singleton_Some in Ht as [<- [= <-]]. rewrite lookup_app_r, Nat.sub_diag in Hx by lia.
      injection Hx as <-. cbn in Hj. subst n. unfold set_stop. cbn. rewrite replace_stop. by constructor.
    + by apply lookup_singleton_Some in Ht as [_ ?].
  - destruct Hi as [e cc d l Hl|e l n Hl|e l n t Hl|e l t Hl]; cbn in Ht; try by rewrite lookup_empty in Ht.
    + by apply lookup_singleton_Some in Ht as [_ ?].
    + apply lookup_singleton_Some in Ht as [<- _]. unfold stop_end, set_stop. cbn.
      rewrite remove_stop. constructor. apply Forall_app. by repeat constructor.
  - destruct Hi as [e cc d l Hl|e l n Hl|e l n t Hl|e l t Hl]; cbn in Hx |- *.
    + eapply Forall_lookup in Hl as [Hf _]; [|exact Hx]. congruence.
    + apply lookup_crons in Hx as [[Hf _]|[-> ->]]; [congruence| |done]. cbn. rewrite insert_last. by constructor.
    + apply lookup_crons in Hx as [[Hf _]|[-> ->]]; [congruence|done|done].
    + apply lookup_crons in Hx as [[Hf _]|[-> ->]]; [congruence|done|done].
  - destruct Hi as [e cc d l Hl|e l m Hl|e l m t Hl|e l t Hl]; cbn in Hx |- *.
    + eapply Forall_lookup in Hl as (_ & _ & Hf); [|exact Hx]. congruence.
    + apply lookup_crons in Hx as [(_ & _ & Hf)|[-> ->]]; [congruence| |done]. cbn. rewrite insert_last. by constructor.
    + apply lookup_crons in Hx as [(_ & _ & Hf)|[-> ->]]; [congruence| |done]. cbn. rewrite insert_last. by constructor.
    + apply lookup_crons in Hx as [(_ & _ & Hf)|[-> ->]]; [congruence|done|done].
Qed.

Lemma sched_expr alone sc s : sched_reach parse alone sc s -> sc_cronExpr (sy_sched s) = sc_cronExpr sc.
Proof.
  induction 1 as [|s s' Hr IH Hst]; [done|]. rewrite <- IH. clear IH Hr.
  destruct Hst as [s|s tid Hn Ha|s tid c x Ht Hx Hj|s tid Ht|s c x Hx Ht|s c x n Hx Hj]; try done.
  - unfold Start. destruct (sc_running (sy_sched s)), (parse (sc_cronExpr (sy_sched s))); done.
  - unfold stop_begin. destruct (sc_running (sy_sched s)); [|done]. cbn. by destruct (sc_cron (sy_sched s)).
Qed.

Lemma sched_reach_inv sc s e :
  NewScheduler parse e = Ok sc -> sched_reach parse true sc s -> sched_inv s /\ parse (sc_cronExpr (sy_sched s)) = None.
Proof.
  unfold NewScheduler. case_if; [done|]. destruct (parse e) eqn:Ep; [done|]. intros [= <-] Hr. split.
  - induction Hr; [by constructor|by eapply sched_inv_step].
  - by rewrite (sched_expr _ _ _ Hr).
Qed.

(** C26. However Start, Stop, the ticks and the ends of the jobs interleave, while
    calls of Stop do not overlap: at most one schedule fires, and one does, with a
    live context, exactly between a Start and the next Stop; when Stop has returned
    no job is left; Start succeeds exactly when the scheduler is not running, and a
    Stop that waits can go on unless a job still runs. *)
Theorem scheduler_single e sc s :
  NewScheduler parse e = Ok sc -> sched_reach parse true sc s ->
  (forall c1 c2 x1 x2, sy_crons s !! c1 = Some x1 -> sy_crons s !! c2 = Some x2 ->
     cn_ticking x1 = true -> cn_ticking x2 = true -> c1 = c2) /\
  (sc_running (sy_sched s) = true -> sy_stops s = ∅ ->
     exists c x, sc_cron (sy_sched s) = Some c /\ sy_crons s !! c = Some x /\
       cn_ticking x = true /\ cn_cancelled x = false) /\
  (sc_running (sy_sched s) = false -> sy_stops s = ∅ /\ Forall idle (sy_crons s)) /\
  (fst (Start parse s) = None <-> sc_running (sy_sched s) = false) /\
  (forall tid, is_Some (sy_stops s !! tid) ->
     (exists c x, sy_crons s !! c = Some x /\ cn_jobs x <> 0 /\ cn_cancelled x = true) \/
     exists p, sched_step parse true s (set_stop s tid p) \/ sched_step parse true s (stop_end tid s)).
Proof.
  intros Hnew Hr. destruct (sched_reach_inv _ _ _ Hnew Hr) as [Hi Hp]. clear Hr. split_and!.
  - destruct Hi as [e' cc d l Hl|e' l n Hl|e' l n t Hl|e' l t Hl]; intros c1 c2 x1 x2 H1 H2 T1 T2; cbn in *.
    { eapply Forall_lookup in Hl as [? _]; [|exact H1]. congruence. }
    all: apply lookup_crons in H1 as [[? _]|[-> ->]]; [congruence| |done].
    all: apply lookup_crons in H2 as [[? _]|[-> ->]]; [congruence| |done].
    all: done.
  - destruct Hi as [e' cc d l Hl|e' l n Hl|e' l n t Hl|e' l t Hl]; cbn; intros Hrun He; try done.
    exists (length l), (MkCron true false n). by rewrite lookup_app_r, Nat.sub_diag by lia.
  - by destruct Hi.
  - unfold Start. destruct (sc_running (sy_sched s)); [done|]. by rewrite Hp.
  - intros tid [p Ht]. destruct Hi as [e' cc d l Hl|e' l n Hl|e' l n t Hl|e' l t Hl]; cbn in Ht;
      try by rewrite lookup_empty in Ht.
    + apply lookup_singleton_Some in Ht as [<- _]. destruct n as [|n].
      * right. exists (Some Finish). left. apply (t_waited _ _ _ _ (length l) (MkCron false true 0)); [|cbn|done].
        { apply lookup_singleton_eq. } by rewrite lookup_app_r, Nat.sub_diag by lia.
      * left. exists (length l), (MkCron false true (S n)). cbn. by rewrite lookup_app_r, Nat.sub_diag by lia.
    + apply lookup_singleton_Some in Ht as [<- _]. right. exists None. right. apply t_stopped. apply lookup_singleton_eq.
Qed.

End Inv.

(** ** Start and Stop once *)

Definition any_expr (expr : string) : option error := None.
Definition hourly : Scheduler := MkScheduler "@every 1h" None false None.

(** Two overlapping calls of Stop, and a Start between their returns: the second
    one clears [running] of the new schedule, and the next Start adds a schedule to
    one that no Stop reaches any more. *)
Definition before_returns : Sys :=
  let s := stop_begin 2 (stop_begin 1 (snd (Start any_expr (MkSys hourly [] ∅)))) in
  set_stop (set_stop s 1 (Some Finish)) 2 (Some Finish).
Definition after_returns : Sys := stop_end 2 (snd (Start any_expr (stop_end 1 before_returns))).

Lemma overlapping_stops_leak :
  sched_reach any_expr false hourly (snd (Start any_expr after_returns)) /\
  map cn_ticking (sy_crons (snd (Start any_expr after_returns))) = [false; true; true].
Proof.
  split; [|reflexivity].
  eapply sreach_step; [|apply t_start]. eapply sreach_step; [|apply t_stopped; reflexivity].
  eapply sreach_step; [|apply t_start]. eapply sreach_step; [|apply t_stopped; reflexivity].
  eapply sreach_step; [|eapply (t_waited _ _ _ 2 0); reflexivity].
  eapply sreach_step; [|eapply (t_waited _ _ _ 1 0); reflexivity].
  eapply sreach_step; [|apply t_stop; [reflexivity|done]]. eapply sreach_step; [|apply t_stop; [reflexivity|done]].
  eapply sreach_step; [|apply t_start]. apply sreach_init.
Qed.

Lemma scheduler_single_witness :
  let s := snd (Start any_expr (MkSys hourly [] ∅)) in
  sc_running (sy_sched s) = true /\ (fst (Start any_expr s) = None <-> sc_running (sy_sched s) = false).
Proof.
  cbv zeta. split; [reflexivity|].
  apply (scheduler_single any_expr "@every 1h" hourly (snd (Start any_expr (MkSys hourly [] ∅)))); [reflexivity|].
  eapply sreach_step; [apply sreach_init|]. apply (t_start any_expr true (MkSys hourly [] ∅)).
Defined.
