(* ===== verification/Sourcereg.v ===== *)
(** * [internal/sourcereg]: the source registry

  [types.go]: the [Source] interface, a class whose laws the registry relies on.
  [factory.go]: the factories, an interface.  [registry.go]: [DBRegistry], its
  database table and its in-memory sources; [database/sql] calls fail like any
  other system call, and the [UNIQUE] constraint on prefixes is the table's. *)

From S2P Require Import Prelude GoLib Os Netip Config.

(** ** The table and the interfaces *)

Record SrcConfig := MkSrcConfig {
  sg_ID : string; sg_Provider : string; sg_Prefix : string; sg_Enabled : bool;
  sg_Config : gmap string any }.

(** A row of [sources] under its primary key. *)
Record Row := MkRow { row_provider : string; row_prefix : string; row_enabled : Z; row_config : string }.

(** What of a value survives JSON and what a factory reads: texts, booleans and
    lists of them (a number comes back as another type). *)
Fixpoint texts (v : any) : any :=
  match v with
  | AStr _ | ABool _ => v
  | AList l => AList (map texts l)
  | _ => ANil
  end.

(** [encoding/json] on a configuration map. *)
Class ConfigCodec := {
  marshal_config : gmap string any -> option string;
  unmarshal_config : string -> option (gmap string any);
  unmarshal_marshal_config c b :
    marshal_config c = Some b ->
    exists c', unmarshal_config b = Some c' /\ texts <$> c' = texts <$> c
}.

(** What a source says of itself; [in_LastFetched] is set by a successful load. *)
Record SourceInfo := MkSourceInfo {
  in_ID : string; in_Provider : string; in_Prefix : string; in_Enabled : bool; in_Categories : list string;
  in_LastFetched : option Z; in_LastError : string }.

(** What the registry relies on: the
    categories of a source carry its prefix and loading keeps its identity, its
    prefix and its kind. *)
Class Source (K St : Type) := {
  src_ID : St -> string;
  src_Prefix : St -> string;
  src_IsDomainSource : St -> bool;
  src_IsPrefixSource : St -> bool;
  src_Categories : St -> list string;
  src_Info : St -> SourceInfo;
  src_Load : St -> World K -> (St * option error) * World K;
  src_GetDomains : St -> string -> res error (list string);
  src_GetPrefixes : St -> string -> res error (list Prefix);
  src_cats s c : c ∈ src_Categories s -> exists n, c = src_Prefix s +:+ ":" +:+ n;
  src_load_same s w :
    let s' := fst (fst (src_Load s w)) in
    src_ID s' = src_ID s /\ src_Prefix s' = src_Prefix s /\
    src_IsDomainSource s' = src_IsDomainSource s
}.

(** Whether a factory succeeds depends on the texts of the configuration; it may
    read files. *)
Class Factories (K St : Type) `{Source K St} := {
  createSource : SrcConfig -> World K -> res error St * World K;
  creatable : SrcConfig -> bool;
  create_ok cfg w s w' :
    createSource cfg w = (Ok s, w') ->
    creatable cfg = true /\ src_ID s = sg_ID cfg /\ src_Prefix s = sg_Prefix cfg;
  create_err cfg w e w' : createSource cfg w = (Err e, w') -> creatable cfg = false;
  creatable_texts cfg c :
    texts <$> c = texts <$> sg_Config cfg ->
    creatable (MkSrcConfig (sg_ID cfg) (sg_Provider cfg) (sg_Prefix cfg) (sg_Enabled cfg) c) = creatable cfg
}.

Section Sourcereg.
Context {K St : Type} `{Env K} `{!Source K St} `{!Factories K St} `{ConfigCodec}.
Local Notation IO := (IO K).

(** ** State *)

Record DBRegistry := MkRegistry { reg_db : gmap string Row; reg_sources : gmap string St }.

Definition NewDBRegistry : DBRegistry := MkRegistry ∅ ∅.

Definition boolToInt (b : bool) : Z := if b then 1%Z else 0%Z.

(** ** [AddSource] *)

Definition prefix_ok (prefix : string) : bool := str_forallb prefix_char prefix.

(** Another source holds the prefix: the [UNIQUE] constraint. *)
Definition prefix_taken (db : gmap string Row) (id prefix : string) : bool :=
  existsb (fun kv => negb (String.eqb (fst kv) id) && String.eqb (row_prefix (snd kv)) prefix)
    (map_to_list db).

(** The upsert: [None] when a constraint refuses it. *)
Definition upsert_row (db : gmap string Row) (id : string) (row : Row) : option (gmap string Row) :=
  if prefix_taken db id (row_prefix row) then None else Some (<[id := row]> db).

Definition check_source (cfg : SrcConfig) : option error :=
  if String.eqb (sg_ID cfg) "" then Some (ErrNew "sourcereg: source id is required")
  else if String.eqb (sg_Prefix cfg) "" then Some (ErrNew "sourcereg: source prefix is required")
  else if String.eqb (sg_Provider cfg) "" then Some (ErrNew "sourcereg: source provider is required")
  else if negb (prefix_ok (sg_Prefix cfg))
  then Some (ErrNew "sourcereg: prefix must be lowercase alphanumeric or hyphen")
  else None.

Definition db_exec : World K -> option error * World K := fun w =>
  let '(r, w') := syscall w in
  (match r with Ok _ => None | Err e => Some e end, w').

(** The loaded source replaces the one the map holds (it is the same object). *)
Definition load_enabled (s : St) (w : World K) : St * World K :=
  if in_Enabled (src_Info s) then let '((s', _), w') := src_Load s w in (s', w') else (s, w).

Definition AddSource (r : DBRegistry) (cfg : SrcConfig) : World K -> (DBRegistry * option error) * World K :=
  fun w =>
  match check_source cfg with
  | Some e => ((r, Some e), w)
  | None =>
      match createSource cfg w with
      | (Err e, w) => ((r, Some e), w)
      | (Ok src, w) =>
          match marshal_config (sg_Config cfg) with
          | None => ((r, Some (ErrNew "sourcereg: marshal config")), w)
          | Some configJSON =>
              match db_exec w with
              | (Some e, w) => ((r, Some (ErrWrap "sourcereg: insert source" e)), w)
              | (None, w) =>
                  let row := MkRow (sg_Provider cfg) (sg_Prefix cfg) (boolToInt (sg_Enabled cfg)) configJSON in
                  match upsert_row (reg_db r) (sg_ID cfg) row with
                  | None => ((r, Some (ErrWrap "sourcereg: insert source"
                                         (ErrNew "UNIQUE constraint failed: sources.prefix"))), w)
                  | Some db =>
                      let '(src, w) := load_enabled src w in
                      ((MkRegistry db (<[sg_ID cfg := src]> (reg_sources r)), None), w)
                  end
              end
          end
      end
  end.

(** ** [RemoveSource] *)

Definition RemoveSource (r : DBRegistry) (id : string) : World K -> (DBRegistry * option error) * World K :=
  fun w =>
  let sources := delete id (reg_sources r) in
  match db_exec w with
  | (Some e, w) => ((MkRegistry (reg_db r) sources, Some (ErrWrap "sourcereg: delete source" e)), w)
  | (None, w) => ((MkRegistry (delete id (reg_db r)) sources, None), w)
  end.

Definition GetSource (r : DBRegistry) (id : string) : option St := reg_sources r !! id.

Definition ListSources (order : gset string -> list string) (r : DBRegistry) : list SourceInfo :=
  src_Info <$> omap (fun id => reg_sources r !! id) (order (dom (reg_sources r))).

(** ** [LoadAll] *)

Definition row_config_of (id : string) (row : Row) : option SrcConfig :=
  c ← unmarshal_config (row_config row);
  Some (MkSrcConfig id (row_provider row) (row_prefix row) (Z.eqb (row_enabled row) 1) c).

(** The rows of the query: the new sources and the number of skipped rows. *)
Fixpoint scan_rows (rows : list (string * Row)) (sources : gmap string St) (skipped : Z) (w : World K)
    : gmap string St * Z * World K :=
  match rows with
  | [] => (sources, skipped, w)
  | (id, row) :: rows' =>
      match row_config_of id row with
      | None => scan_rows rows' sources (skipped + 1)%Z w
      | Some cfg =>
          match createSource cfg w with
          | (Err _, w) => scan_rows rows' sources (skipped + 1)%Z w
          | (Ok src, w) => scan_rows rows' (<[sg_ID cfg := src]> sources) skipped w
          end
      end
  end.

(** The loads, in the order the map is enumerated. *)
Fixpoint load_each (ids : list string) (sources : gmap string St) (w : World K) : gmap string St * World K :=
  match ids with
  | [] => (sources, w)
  | id :: ids' =>
      match sources !! id with
      | None => load_each ids' sources w
      | Some src => let '(src', w') := load_enabled src w in load_each ids' (<[id := src']> sources) w'
      end
  end.

Definition LoadAll (order : gset string -> list string) (r : DBRegistry)
    : World K -> (DBRegistry * option error) * World K := fun w =>
  match db_exec w with
  | (Some e, w) => ((r, Some (ErrWrap "sourcereg: query sources" e)), w)
  | (None, w) =>
      let '(newSources, skipped, w) := scan_rows (map_to_list (reg_db r)) ∅ 0%Z w in
      if Nat.eqb (size newSources) 0 && (0 <? skipped)%Z
      then ((r, Some (ErrNew "sourcereg: all source rows were malformed")), w)
      else
        let '(newSources, w) := load_each (order (dom newSources)) newSources w in
        ((MkRegistry (reg_db r) newSources, None), w)
  end.

(** ** Queries *)

(** The nested loops of [findSourceForCategory]. *)
Definition owns (category : string) (s : St) : bool := existsb (String.eqb category) (src_Categories s).

Definition findSourceForCategory (order : gset string -> list string) (r : DBRegistry) (category : string)
    : option St :=
  head (List.filter (owns category) (omap (fun id => reg_sources r !! id) (order (dom (reg_sources r))))).

Definition GetDomains (order : gset string -> list string) (r : DBRegistry) (category : string)
    : res error (list string) :=
  match findSourceForCategory order r category with
  | None => Err (ErrNew "sourcereg: no source found for category")
  | Some src =>
      if src_IsDomainSource src then src_GetDomains src category
      else Err (ErrNew "sourcereg: source does not provide domains")
  end.

Definition GetPrefixes (order : gset string -> list string) (r : DBRegistry) (category : string)
    : res error (list Prefix) :=
  match findSourceForCategory order r category with
  | None => Err (ErrNew "sourcereg: no source found for category")
  | Some src =>
      if src_IsPrefixSource src then src_GetPrefixes src category
      else Err (ErrNew "sourcereg: source does not provide prefixes")
  end.

Definition ResolveCategory (order : gset string -> list string) (r : DBRegistry) (category : string)
    : option (string * string) :=
  match findSourceForCategory order r category with
  | None => None
  | Some src =>
      if src_IsDomainSource src then Some (src_ID src, "domain"%string)
      else Some (src_ID src, "prefix"%string)
  end.

(** A category, its owner, its type and the number of its entries. *)
Record CategoryInfo := MkCategoryInfo { ci_Name : string; ci_SourceID : string; ci_Type : string; ci_Count : Z }.

Definition category_info (src : St) (cat : string) : CategoryInfo :=
  MkCategoryInfo cat (src_ID src)
    (if src_IsPrefixSource src then "prefix" else "domain")
    (if src_IsDomainSource src
     then match src_GetDomains src cat with Ok d => Z.of_nat (length d) | Err _ => 0 end
     else if src_IsPrefixSource src
     then match src_GetPrefixes src cat with Ok p => Z.of_nat (length p) | Err _ => 0 end
     else 0)%Z.

Definition ListCategories (order : gset string -> list string) (r : DBRegistry) : list CategoryInfo :=
  mjoin ((fun src => category_info src <$> src_Categories src)
    <$> omap (fun id => reg_sources r !! id) (order (dom (reg_sources r)))).

Definition CloseRegistry (r : DBRegistry) : DBRegistry := MkRegistry (reg_db r) ∅.

(** ** Executions *)

Inductive rlabel := RAdd (cfg : SrcConfig) | RRemove (id : string) | RLoadAll | RClose.

Definition ract (order : gset string -> list string) (r : DBRegistry) (l : rlabel) (w : World K)
    : DBRegistry * World K :=
  match l with
  | RAdd cfg => let '((r, _), w) := AddSource r cfg w in (r, w)
  | RRemove id => let '((r, _), w) := RemoveSource r id w in (r, w)
  | RLoadAll => let '((r, _), w) := LoadAll order r w in (r, w)
  | RClose => (CloseRegistry r, w)
  end.

(** A source may also be reloaded on its own (the API's refresh). *)
Inductive rreach (order : gset string -> list string) : DBRegistry -> World K -> Prop :=
| rreach_init w : rreach order NewDBRegistry w
| rreach_step r w l r' w' :
    rreach order r w -> ract order r l w = (r', w') -> rreach order r' w'
| rreach_reload r w id s :
    rreach order r w -> reg_sources r !! id = Some s ->
    rreach order (MkRegistry (reg_db r) (<[id := fst (fst (src_Load s w))]> (reg_sources r)))
      (snd (src_Load s w)).
End Sourcereg.
Arguments DBRegistry St : clear implicits.
