(* ===== verification/SourceregSpec.v ===== *)
(** * What the registry guarantees

  Prefixes stay unique and everything in memory is persisted, whatever fails;
  so a category has at most one owner, independently of map iteration, and a
  reload brings every persisted source back. *)

From S2P Require Import Prelude GoLib Os Netip Config Sourcereg.

Section SourceregSpec.
Context {K St : Type} `{Env K} `{!Source K St} `{!Factories K St} `{ConfigCodec}.
Implicit Types (r : DBRegistry St) (w : World K) (order : gset string -> list string).

Record rinv (r : DBRegistry St) : Prop := {
  ri_prefix : forall id row, reg_db r !! id = Some row -> prefix_ok (row_prefix row) = true;
  ri_unique : forall id1 id2 row1 row2, reg_db r !! id1 = Some row1 -> reg_db r !! id2 = Some row2 ->
    row_prefix row1 = row_prefix row2 -> id1 = id2;
  ri_usable : forall id row, reg_db r !! id = Some row ->
    exists cfg, row_config_of id row = Some cfg /\ creatable (K := K) (St := St) cfg = true;
  ri_mem : forall id s, reg_sources r !! id = Some s ->
    src_ID s = id /\ exists row, reg_db r !! id = Some row /\ row_prefix row = src_Prefix s;
}.

Lemma load_enabled_same s w :
  src_ID (fst (load_enabled s w)) = src_ID s /\ src_Prefix (fst (load_enabled s w)) = src_Prefix s.
Proof.
  unfold load_enabled. case_if; [|done].
  destruct (src_load_same s w) as (? & ? & _). by destruct (src_Load s w) as [[s' e] w'].
Qed.

Lemma prefix_taken_false db id prefix :
  prefix_taken db id prefix = false ->
  forall id' row, db !! id' = Some row -> row_prefix row = prefix -> id' = id.
Proof.
  unfold prefix_taken. intros Hf id' row Hrow Hp.
  destruct (String.eqb_spec id' id) as [|Hne]; [done|]. exfalso.
  assert (existsb (fun kv => negb (String.eqb (fst kv) id) && String.eqb (row_prefix (snd kv)) prefix)
            (map_to_list db) = true) as Ht; [|by rewrite Ht in Hf].
  apply existsb_exists. exists (id', row). split; [by apply list_elem_of_In, elem_of_map_to_list|].
  cbn. rewrite Hp, String.eqb_refl. by destruct (String.eqb_spec id' id).
Qed.

Lemma upsert_row_ok db id row db' :
  upsert_row db id row = Some db' ->
  db' = <[id := row]> db /\
  forall id' row', db !! id' = Some row' -> row_prefix row' = row_prefix row -> id' = id.
Proof.
  unfold upsert_row. destruct (prefix_taken db id (row_prefix row)) eqn:Ht; [done|].
  intros [= <-]. split; [done|]. by apply prefix_taken_false.
Qed.

(** ** Adding a source *)

Lemma AddSource_cases r cfg w r' e w' :
  AddSource r cfg w = ((r', e), w') ->
  (exists e', e = Some e' /\ r' = r) \/
  (e = None /\ check_source cfg = None /\ creatable (K := K) (St := St) cfg = true /\
   exists b src, marshal_config (sg_Config cfg) = Some b /\
     src_ID src = sg_ID cfg /\ src_Prefix src = sg_Prefix cfg /\
     let row := MkRow (sg_Provider cfg) (sg_Prefix cfg) (boolToInt (sg_Enabled cfg)) b in
     upsert_row (reg_db r) (sg_ID cfg) row = Some (<[sg_ID cfg := row]> (reg_db r)) /\
     r' = MkRegistry (<[sg_ID cfg := row]> (reg_db r)) (<[sg_ID cfg := src]> (reg_sources r))).
Proof.
  unfold AddSource. destruct (check_source cfg); [intros [= <- <- <-]; eauto|].
  destruct (createSource cfg w) as [[s|e0] w1] eqn:Ec; [|intros [= <- <- <-]; eauto].
  destruct (marshal_config _) as [b|] eqn:Em; [|intros [= <- <- <-]; eauto].
  destruct (db_exec w1) as [[e1|] w2]; [intros [= <- <- <-]; eauto|].
  destruct (upsert_row _ _ _) as [db|] eqn:Eu; [|intros [= <- <- <-]; eauto].
  destruct (load_enabled s w2) as [s' w3] eqn:El. intros [= <- <- <-]. right.
  apply create_ok in Ec as (Hc & Hid & Hp). split_and!; auto. exists b, s'.
  pose proof (load_enabled_same s w2) as [Hi' Hp']. rewrite El in Hi', Hp'. cbn [fst] in *.
  apply upsert_row_ok in Eu as Hu. destruct Hu as [-> _].
  split_and!; auto; congruence.
Qed.

(** The row written for a configuration reads back as one the factories accept. *)
Lemma row_usable cfg b :
  marshal_config (sg_Config cfg) = Some b -> creatable (K := K) (St := St) cfg = true ->
  exists cfg', row_config_of (sg_ID cfg)
      (MkRow (sg_Provider cfg) (sg_Prefix cfg) (boolToInt (sg_Enabled cfg)) b) = Some cfg' /\
    creatable (K := K) (St := St) cfg' = true.
Proof.
  intros (c & Hc & Ht)%unmarshal_marshal_config Hcr. unfold row_config_of. cbn. rewrite Hc. cbn.
  eexists. split; [done|].
  replace (Z.eqb (boolToInt (sg_Enabled cfg)) 1) with (sg_Enabled cfg) by (by destruct (sg_Enabled cfg)).
  by rewrite (creatable_texts cfg c Ht).
Qed.

Lemma check_source_prefix cfg : check_source cfg = None -> prefix_ok (sg_Prefix cfg) = true.
Proof.
  unfold check_source. destruct (String.eqb (sg_ID cfg) ""), (String.eqb (sg_Prefix cfg) ""),
    (String.eqb (sg_Provider cfg) ""); try done.
  by destruct (prefix_ok (sg_Prefix cfg)).
Qed.

Lemma rinv_add r cfg w r' e w' : rinv r -> AddSource r cfg w = ((r', e), w') -> rinv r'.
Proof.
  intros [Hp Hu Hus Hm] [(e' & _ & ->)|(_ & Hc & Hcr & b & src & Hb & Hid & Hpx & Hup & ->)]%AddSource_cases;
    [done|].
  apply upsert_row_ok in Hup as [_ Hfree]. cbn [row_prefix] in Hfree.
  constructor; cbn [reg_db reg_sources].
  - intros id row [[<- <-]|[_ Hr]]%lookup_insert_Some; [by apply check_source_prefix|eauto].
  - intros id1 id2 row1 row2 [[<- <-]|[Hn1 H1]]%lookup_insert_Some [[<- <-]|[Hn2 H2]]%lookup_insert_Some Heq;
      cbn [row_prefix] in *; eauto. symmetry. eauto.
  - intros id row [[<- <-]|[_ Hr]]%lookup_insert_Some; [by apply row_usable|eauto].
  - intros id s [[<- <-]|[Hne Hs]]%lookup_insert_Some.
    + split; [done|]. eexists. by rewrite lookup_insert_eq.
    + destruct (Hm id s Hs) as (Hi & row & Hr & Hrp). split; [done|]. exists row.
      by rewrite lookup_insert_ne.
Qed.

(** ** Removing and reloading *)

Lemma rinv_forget r id : rinv r -> rinv (MkRegistry (reg_db r) (delete id (reg_sources r))).
Proof.
  intros [Hp Hu Hus Hm]. constructor; auto. cbn. intros id' s [_ Hs]%lookup_delete_Some. eauto.
Qed.

Lemma rinv_remove r id w r' e w' : rinv r -> RemoveSource r id w = ((r', e), w') -> rinv r'.
Proof.
  intros Hi. unfold RemoveSource. destruct (db_exec w) as [[e1|] w1]; intros [= <- <- <-];
    [by apply rinv_forget|].
  destruct Hi as [Hp Hu Hus Hm]. constructor; cbn [reg_db reg_sources].
  - intros id' row [_ Hr]%lookup_delete_Some. eauto.
  - intros id1 id2 row1 row2 [_ H1]%lookup_delete_Some [_ H2]%lookup_delete_Some. eauto.
  - intros id' row [_ Hr]%lookup_delete_Some. eauto.
  - intros id' s [Hne Hs]%lookup_delete_Some. destruct (Hm id' s Hs) as (Hi & row & Hr & Hrp).
    split; [done|]. exists row. by rewrite lookup_delete_ne.
Qed.

Lemma scan_rows_spec rows : forall sources skipped w sources' skipped' w',
  NoDup rows.*1 ->
  (forall id row, (id, row) ∈ rows ->
     exists cfg, row_config_of id row = Some cfg /\ creatable (K := K) (St := St) cfg = true) ->
  scan_rows rows sources skipped w = (sources', skipped', w') ->
  skipped' = skipped /\
  (forall id row, (id, row) ∈ rows ->
     exists s, sources' !! id = Some s /\ src_ID s = id /\ src_Prefix s = row_prefix row) /\
  (forall id, id ∉ rows.*1 -> sources' !! id = sources !! id).
Proof.
  induction rows as [|[id row] rows IH]; intros src sk w src' sk' w' Hnd Hus; cbn [scan_rows].
  { intros [= <- <- <-]. split_and!; auto. intros i r Hin. by apply elem_of_nil in Hin. }
  cbn [fmap list_fmap fst] in Hnd. apply NoDup_cons in Hnd as [Hni Hnd].
  destruct (Hus id row) as (cfg & Hcfg & Hcr); [set_solver|]. rewrite Hcfg.
  destruct (createSource cfg w) as [[s|e] w1] eqn:Ec; [|apply create_err in Ec; congruence].
  apply create_ok in Ec as (_ & Hid & Hp).
  assert (sg_ID cfg = id /\ sg_Prefix cfg = row_prefix row) as [Hi Hpr].
  { unfold row_config_of in Hcfg. destruct (unmarshal_config (row_config row)); [|done].
    cbn in Hcfg. by injection Hcfg as <-. }
  intros E. apply IH in E as (-> & Hin & Hout); [|done|set_solver]. split; [done|]. split.
  - intros id' row' [[= -> ->]|Hr]%elem_of_cons; [|eauto].
    exists s. rewrite Hout by done. rewrite Hi, lookup_insert_eq. split_and!; congruence.
  - intros id' Hid'. cbn [fmap list_fmap fst] in Hid'. apply not_elem_of_cons in Hid' as [Hne Hid'].
    rewrite Hout by done. rewrite Hi. by rewrite lookup_insert_ne.
Qed.

(** Same identities and prefixes. *)
Definition same_sources (m m' : gmap string St) : Prop :=
  forall id, match m !! id, m' !! id with
             | Some s, Some s' => src_ID s' = src_ID s /\ src_Prefix s' = src_Prefix s
             | None, None => True
             | _, _ => False
             end.

Lemma same_sources_refl m : same_sources m m.
Proof. intros id. by destruct (m !! id). Qed.

Lemma load_each_spec ids : forall m w, same_sources m (fst (load_each ids m w)).
Proof.
  induction ids as [|id ids IH]; intros m w; cbn [load_each]; [apply same_sources_refl|].
  destruct (m !! id) as [s|] eqn:Hs; [|apply IH].
  pose proof (load_enabled_same s w) as [Hi Hp]. destruct (load_enabled s w) as [s' w1]. cbn [fst] in *.
  specialize (IH (<[id := s']> m) w1). intros id'. specialize (IH id').
  destruct (decide (id' = id)) as [->|Hne].
  - rewrite lookup_insert_eq in IH. rewrite Hs. destruct (_ !! id); [|done]. destruct IH. split; congruence.
  - by rewrite lookup_insert_ne in IH.
Qed.

Lemma LoadAll_cases order r w r' e w' :
  rinv r -> LoadAll order r w = ((r', e), w') ->
  (r' = r /\ e <> None) \/
  (e = None /\ reg_db r' = reg_db r /\
   forall id row, reg_db r !! id = Some row ->
     exists s, reg_sources r' !! id = Some s /\ src_ID s = id /\ src_Prefix s = row_prefix row) /\
  (forall id s, reg_sources r' !! id = Some s -> is_Some (reg_db r !! id)).
Proof.
  intros Hi. unfold LoadAll. destruct (db_exec w) as [[e1|] w1]; [intros [= <- <- <-]; by left|].
  destruct (scan_rows (map_to_list (reg_db r)) ∅ 0%Z w1) as [[src sk] w2] eqn:Es.
  apply scan_rows_spec in Es as (-> & Hin & Hout).
  2: { apply NoDup_fst_map_to_list. }
  2: { intros id row Hr. apply elem_of_map_to_list in Hr. by apply (ri_usable _ Hi id row). }
  cbn [Z.ltb]. rewrite andb_false_r.
  destruct (load_each (order (dom src)) src w2) as [src' w3] eqn:El.
  intros [= <- <- <-]. right. cbn [reg_db reg_sources].
  pose proof (load_each_spec (order (dom src)) src w2) as Hs. rewrite El in Hs. cbn [fst] in Hs.
  split; [split_and!; auto|].
  - intros id row Hr. destruct (Hin id row) as (s & Hsr & Hid & Hp); [by apply elem_of_map_to_list|].
    specialize (Hs id). rewrite Hsr in Hs. destruct (src' !! id) as [s'|]; [|done].
    exists s'. destruct Hs. split_and!; congruence.
  - intros id s Hsr. specialize (Hs id). rewrite Hsr in Hs.
    destruct (src !! id) as [s0|] eqn:Hs0; [|done].
    destruct (reg_db r !! id) as [row|] eqn:Hrow; [eauto|]. exfalso.
    rewrite Hout, lookup_empty in Hs0; [done|].
    intros ([id' row'] & -> & Hel)%list_elem_of_fmap. apply elem_of_map_to_list in Hel. cbn in *. congruence.
Qed.

Lemma rinv_load order r w r' e w' : rinv r -> LoadAll order r w = ((r', e), w') -> rinv r'.
Proof.
  intros Hi E. apply LoadAll_cases in E as [[-> _]|[(-> & Hdb & Hrows) Hmem]]; [done| |done].
  destruct Hi as [Hp Hu Hus Hm]. constructor; rewrite Hdb; auto.
  intros id s Hs. destruct (Hmem id s Hs) as [row Hrow].
  destruct (Hrows id row Hrow) as (s' & Hs' & Hid & Hpx). rewrite Hs in Hs'. simplify_eq. eauto.
Qed.

Lemma rinv_new : rinv NewDBRegistry.
Proof. constructor; cbn; intros *; by rewrite lookup_empty. Qed.

Lemma rinv_reload r id s w :
  rinv r -> reg_sources r !! id = Some s ->
  rinv (MkRegistry (reg_db r) (<[id := fst (fst (src_Load s w))]> (reg_sources r))).
Proof.
  intros [Hp Hu Hus Hm] Hs. constructor; auto. cbn [reg_db reg_sources].
  intros id' s' [[<- <-]|[_ Hs']]%lookup_insert_Some; [|eauto].
  destruct (src_load_same s w) as (Hi & Hpx & _). rewrite Hi, Hpx. eauto.
Qed.

Lemma rreach_inv order r w : rreach order r w -> rinv r.
Proof.
  induction 1 as [w | r w l r' w' _ IH Ha | r w id s _ IH Hs]; [apply rinv_new| |by apply rinv_reload].
  destruct l as [cfg|id| |]; cbn [ract] in Ha.
  - destruct (AddSource r cfg w) as [[r1 e] w1] eqn:E. injection Ha as <- <-. by eapply rinv_add.
  - destruct (RemoveSource r id w) as [[r1 e] w1] eqn:E. injection Ha as <- <-. by eapply rinv_remove.
  - destruct (LoadAll order r w) as [[r1 e] w1] eqn:E. injection Ha as <- <-. by eapply rinv_load.
  - injection Ha as <- <-. destruct IH. constructor; auto. cbn. intros *. by rewrite lookup_empty.
Qed.

(** ** The owner of a category *)

Lemma owns_spec cat s : owns cat s = true <-> cat ∈ src_Categories s.
Proof.
  unfold owns. rewrite existsb_exists. split.
  - intros (c & Hc & He). apply String.eqb_eq in He as ->. by apply list_elem_of_In.
  - intros Hc. exists cat. split; [by apply list_elem_of_In|]. apply String.eqb_refl.
Qed.

Lemma prefix_ok_no_colon p : prefix_ok p = true -> str_forallb (fun c => negb (Ascii.eqb ":" c)) p = true.
Proof. apply str_forallb_impl. intros c Hc. by destruct c as [[] [] [] [] [] [] [] []]. Qed.

Lemma category_prefix p p' n n' :
  prefix_ok p = true -> prefix_ok p' = true -> p +:+ ":" +:+ n = p' +:+ ":" +:+ n' -> p = p'.
Proof.
  intros Hp Hp' E.
  pose proof (cut_at_app (Ascii.eqb ":") p ":" n (prefix_ok_no_colon _ Hp) eq_refl) as H1.
  pose proof (cut_at_app (Ascii.eqb ":") p' ":" n' (prefix_ok_no_colon _ Hp') eq_refl) as H2.
  change (String ":" n) with (":" +:+ n) in H1. change (String ":" n') with (":" +:+ n') in H2.
  rewrite E in H1. congruence.
Qed.

(** Two sources that own a category are the same source. *)
Lemma owner_unique r cat id1 id2 s1 s2 :
  rinv r -> reg_sources r !! id1 = Some s1 -> reg_sources r !! id2 = Some s2 ->
  cat ∈ src_Categories s1 -> cat ∈ src_Categories s2 -> id1 = id2.
Proof.
  intros Hi H1 H2 (n1 & E1)%src_cats (n2 & E2)%src_cats.
  destruct (ri_mem _ Hi _ _ H1) as (_ & row1 & Hr1 & Hp1).
  destruct (ri_mem _ Hi _ _ H2) as (_ & row2 & Hr2 & Hp2).
  apply (ri_unique _ Hi id1 id2 row1 row2 Hr1 Hr2). rewrite Hp1, Hp2.
  apply (category_prefix _ _ n1 n2); [| |congruence].
  - rewrite <- Hp1. by eapply ri_prefix.
  - rewrite <- Hp2. by eapply ri_prefix.
Qed.

Lemma find_elem order `{!MapOrder order} r cat s :
  s ∈ List.filter (owns cat) (omap (fun id => reg_sources r !! id) (order (dom (reg_sources r)))) <->
  exists id, reg_sources r !! id = Some s /\ cat ∈ src_Categories s.
Proof.
  rewrite list_elem_of_In, filter_In, <- list_elem_of_In, list_elem_of_omap, owns_spec. split.
  - intros ((id & _ & Hs) & Hc). eauto.
  - intros (id & Hs & Hc). split; [|done]. exists id. split; [|done].
    rewrite elem_of_map_order by done. by apply elem_of_dom_2 in Hs.
Qed.

Lemma findSource_spec order `{!MapOrder order} r cat s :
  rinv r ->
  findSourceForCategory order r cat = Some s <->
  exists id, reg_sources r !! id = Some s /\ cat ∈ src_Categories s.
Proof.
  intros Hi. pose proof (find_elem order r cat) as Hel. unfold findSourceForCategory.
  destruct (List.filter _ _) as [|s0 l]; cbn [head].
  - split; [done|]. intros Hs. apply Hel in Hs. by apply elem_of_nil in Hs.
  - destruct (proj1 (Hel s0)) as (id0 & Hs0 & Hc0); [set_solver|]. split.
    + intros [= <-]. eauto.
    + intros (id & Hs & Hc). rewrite (owner_unique r cat id0 id s0 s) in Hs0 by done. congruence.
Qed.

(** ** Claims *)


(** A category has one owner: looking it up finds the source that lists it,
    if any does, whatever order the map of sources is enumerated in. *)
Theorem category_owner order1 order2 `{!MapOrder order1, !MapOrder order2} r w cat :
  rreach order1 r w ->
  findSourceForCategory order1 r cat = findSourceForCategory order2 r cat /\
  ResolveCategory order1 r cat = ResolveCategory order2 r cat /\
  forall id s, reg_sources r !! id = Some s -> cat ∈ src_Categories s ->
    findSourceForCategory order1 r cat = Some s.
Proof.
  intros Hr. apply rreach_inv in Hr as Hi.
  assert (findSourceForCategory order1 r cat = findSourceForCategory order2 r cat) as Heq.
  { apply option_eq. intros s. by rewrite !findSource_spec. }
  split; [done|]. split; [unfold ResolveCategory; by rewrite Heq|].
  intros id s Hs Hc. apply findSource_spec; eauto.
Qed.

(** A source that was added is persisted and served under its prefix, and
    nothing else changes; a refused one changes nothing.  A prefix another source
    holds is refused. *)
Theorem AddSource_spec r cfg w r' e w' :
  AddSource r cfg w = ((r', e), w') ->
  match e with
  | Some _ => r' = r
  | None =>
      (exists row, reg_db r' = <[sg_ID cfg := row]> (reg_db r) /\
         row_prefix row = sg_Prefix cfg /\ row_enabled row = boolToInt (sg_Enabled cfg)) /\
      (exists s, reg_sources r' = <[sg_ID cfg := s]> (reg_sources r) /\
         src_ID s = sg_ID cfg /\ src_Prefix s = sg_Prefix cfg) /\
      forall id row, reg_db r !! id = Some row -> row_prefix row = sg_Prefix cfg -> id = sg_ID cfg
  end.
Proof.
  intros [(e' & -> & ->)|(-> & _ & _ & b & src & _ & Hid & Hp & Hup & ->)]%AddSource_cases; [done|].
  apply upsert_row_ok in Hup as [_ Hfree]. split; [|split].
  - eexists. split; [done|]. done.
  - eauto.
  - intros id row Hr Hrow. by apply (Hfree id row).
Qed.

(** [LoadAll] restores every persisted source and no other, whether its row is
    enabled or not; when it fails the registry is as it was. *)
Theorem LoadAll_restores order r w0 w r' e w' :
  rreach order r w0 -> LoadAll order r w = ((r', e), w') ->
  match e with
  | Some _ => r' = r
  | None =>
      reg_db r' = reg_db r /\ dom (reg_sources r') = dom (reg_db r) /\
      forall id row, reg_db r !! id = Some row ->
        exists s, GetSource r' id = Some s /\ src_ID s = id /\ src_Prefix s = row_prefix row
  end.
Proof.
  intros Hr E. apply rreach_inv in Hr as Hi.
  apply (LoadAll_cases order r w r' e w' Hi) in E as [[-> He]|[(-> & Hdb & Hrows) Hmem]]; [by destruct e|].
  split_and!; auto. apply set_eq. intros id. rewrite !elem_of_dom. split.
  - intros [s Hs]. eauto.
  - intros [row Hrow]. destruct (Hrows id row Hrow) as (s & Hs & _). eauto.
Qed.
End SourceregSpec.
