(* ===== verification/Api.v ===== *)
(** * [internal/api]: the HTTP handlers

  [settings_handlers.go], [policies_handlers.go], [cache_handlers.go],
  [categories_handlers.go], [pipeline_handlers.go], [sources_handlers.go] and the
  handlers of [api.go] that reach a component.  A handler gets the decoded body or
  the decoder's error and returns a status with what the response is made of;
  [None] is a panic.  The writing of headers, logging and the static files are left
  out. *)

From S2P Require Import Prelude Order GoLib Os Netip NetipText Config Duration Settings Plan Exporter Events Watcher Routing.
From S2P Require Import Cache Orchestrator Sourcereg.

Local Open Scope Z_scope.

(** ** Responses *)

Inductive Body :=
| BStatus (m : list (string * string))
| BError (message : string)
| BSettings (config defaults : Config) (overrides : gmap string string)
| BConfigExport (config : Config) (overrides : gmap string string)
| BPolicies (l : list PolicyConfig)
| BPolicy (p : PolicyConfig)
| BReport (r : PipelineReport)
| BRunStatus (s : RunStatus)
| BHistory (l : list PipelineReport)
| BStats (s : Stats_)
| BDeleted (n : Z)
| BPage (code : string) (page perPage total : Z) (domains : list string) (has_more : bool)
| BSnapshot (backend : string) (appliedAt v4 v6 policies : Z)
| BRouterState (s : RouterState)
| BPlans (v4 v6 : Plan) (v4diff v6diff : string) (message : option string)
| BCategories (configured : list (string * Z)) (available : list string)
| BSources (l : list SourceInfo)
| BSource (info : SourceInfo)
| BRefreshed (info : SourceInfo)
| BFile (data : string).

Record Response := MkResponse { rp_code : Z; rp_body : Body }.

Definition jsonOK (b : Body) : Response := MkResponse 200 b.
Definition jsonError (code : Z) (message : string) : Response := MkResponse code (BError message).
Definition status_ok : Response := jsonOK (BStatus [("status", "ok")%string]).

(** ** Handlers without a component *)

Definition handleHealth : Response := status_ok.
Definition handleReady : Response := jsonOK (BStatus [("status", "ready")%string]).
Definition handleVersion (version buildTime : string) : Response :=
  jsonOK (BStatus [("version"%string, version); ("build_time"%string, buildTime)]).

Definition handleCategoriesAdd : Response :=
  jsonError 404 "POST /api/categories is no longer supported; categories are managed via routing policies".
Definition handleCategoriesDelete : Response :=
  jsonError 404 "DELETE /api/categories/{code} is no longer supported; categories are managed via routing policies".

(** ** Settings *)

Section Settings.
Context {K : Type} `{Env K} `{Sqlite K} `{Json} `{Viper}.
Context (getenv : string -> string) (order : gset string -> list string).
Implicit Types (wt : Watcher) (w : World K).

(** A handler that may change the configuration: [None] is a panic. *)
Definition Handled : Type := option (Response * Watcher) * World K.

Definition handleSettingsGet wt : World K -> Response * World K := fun w =>
  match GetAll w with
  | (Ok overrides, w) => (jsonOK (BSettings (sn_Config (Current wt)) Defaults overrides), w)
  | (Err e, w) => (jsonError 500 ("failed to read overrides: " +:+ Error e), w)
  end.

(** The current configuration under the stored overrides, published. *)
Definition reloadConfig wt : World K -> option (option error * Watcher) * World K := fun w =>
  match GetAll w with
  | (Err e, w) => (Some (Some e, wt), w)
  | (Ok overrides, w) =>
      match ApplyOverrides getenv order (sn_Config (Current wt)) overrides with
      | Err e => (Some (Some e, wt), w)
      | Ok cfg => (Publish wt cfg, w)
      end
  end.

Fixpoint set_rows (rows : list (string * string)) : IO K unit :=
  match rows with
  | [] => mret tt
  | (key, value) :: rows' => io_wrap ("failed to set " +:+ key) (Set_ key value);; set_rows rows'
  end.

(** What follows a change of the stored overrides. *)
Definition reload_response wt : World K -> Handled := fun w =>
  match reloadConfig wt w with
  | (None, w) => (None, w)
  | (Some (Some e, wt), w) => (Some (jsonError 500 ("config reload failed: " +:+ Error e), wt), w)
  | (Some (None, wt), w) => (Some (status_ok, wt), w)
  end.

Definition handleSettingsPut (request : res error (gmap string string)) wt : World K -> Handled := fun w =>
  match request with
  | Err e => (Some (jsonError 400 ("invalid JSON: " +:+ Error e), wt), w)
  | Ok overrides =>
      match set_rows (rows_of order overrides) w with
      | (Err e, w) => (Some (jsonError 500 (Error e), wt), w)
      | (Ok _, w) => reload_response wt w
      end
  end.

(** [handleConfigExport]: an error of the database is dropped. *)
Definition handleConfigExport wt : World K -> Response * World K := fun w =>
  let '(r, w) := GetAll w in
  (jsonOK (BConfigExport (sn_Config (Current wt)) (match r with Ok overrides => overrides | Err _ => ∅ end)), w).

(** As [handleSettingsPut] with the [overrides] of the body, and a message. *)
Definition handleConfigImport (request : res error (gmap string string)) wt : World K -> Handled := fun w =>
  match request with
  | Err e => (Some (jsonError 400 ("invalid JSON: " +:+ Error e), wt), w)
  | Ok overrides =>
      match set_rows (rows_of order overrides) w with
      | (Err e, w) => (Some (jsonError 500 (Error e), wt), w)
      | (Ok _, w) =>
          match reloadConfig wt w with
          | (None, w) => (None, w)
          | (Some (Some e, wt), w) => (Some (jsonError 500 ("config reload failed: " +:+ Error e), wt), w)
          | (Some (None, wt), w) =>
              (Some (jsonOK (BStatus [("status", "ok"); ("message", "config imported")]%string), wt), w)
          end
      end
  end.

Definition handleSettingsDelete (key : string) wt : World K -> Handled := fun w =>
  if String.eqb key "" then (Some (jsonError 400 "key is required", wt), w)
  else
    match Delete key w with
    | (Err e, w) => (Some (jsonError 500 ("failed to delete " +:+ key +:+ ": " +:+ Error e), wt), w)
    | (Ok _, w) => reload_response wt w
    end.

(** ** Policies *)

Definition with_policies (cfg : Config) (l : list PolicyConfig) : Config := {|
  cfg_Listen := cfg_Listen cfg; cfg_Source := cfg_Source cfg; cfg_Sources := cfg_Sources cfg;
  cfg_Resolver := cfg_Resolver cfg; cfg_Cache := cfg_Cache cfg; cfg_Aggregation := cfg_Aggregation cfg;
  cfg_Export := cfg_Export cfg;
  cfg_Routing := {| ro_Enabled := ro_Enabled (cfg_Routing cfg); ro_StateDir := ro_StateDir (cfg_Routing cfg);
                    ro_Policies := l |};
  cfg_Scheduler := cfg_Scheduler cfg; cfg_Logging := cfg_Logging cfg; cfg_Metrics := cfg_Metrics cfg |}.

Definition policies_of (cfg : Config) : list PolicyConfig := ro_Policies (cfg_Routing cfg).

(** [strings.EqualFold] on ASCII text. *)
Definition EqualFold (a b : string) : bool := String.eqb (ToLower a) (ToLower b).

Definition handlePoliciesList wt : Response := jsonOK (BPolicies (policies_of (sn_Config (Current wt)))).

Definition handlePolicyGet (name : string) wt : Response :=
  match List.find (fun p => String.eqb (pc_Name p) name) (policies_of (sn_Config (Current wt))) with
  | Some p => jsonOK (BPolicy p)
  | None => jsonError 404 ("policy not found: " +:+ name)
  end.

(** A failure is logged only. *)
Definition persistPolicies (cfg : Config) : World K -> World K := fun w =>
  snd (Set_ "routing.policies" (show_policies (policies_of cfg)) w).

(** What a handler does between its read of the current configuration and its
    publication: a refusal, or the configuration to publish. *)
Definition policy_create (policy : PolicyConfig) (cfg : Config) : Response + Config :=
  if existsb (fun p => EqualFold (pc_Name p) (pc_Name policy)) (policies_of cfg)
  then inl (jsonError 409 ("policy already exists: " +:+ pc_Name policy))
  else inr (with_policies cfg (policies_of cfg ++ [policy])).

(** The first policy of that name, replaced or removed. *)
Fixpoint replace_policy (name : string) (policy : option PolicyConfig) (l : list PolicyConfig)
    : option (list PolicyConfig) :=
  match l with
  | [] => None
  | p :: l' =>
      if String.eqb (pc_Name p) name then Some (match policy with Some q => q :: l' | None => l' end)
      else cons p <$> replace_policy name policy l'
  end.

Definition policy_update (name : string) (policy : PolicyConfig) (cfg : Config) : Response + Config :=
  match replace_policy name (Some policy) (policies_of cfg) with
  | Some l => inr (with_policies cfg l)
  | None => inl (jsonError 404 ("policy not found: " +:+ name))
  end.

Definition policy_delete (name : string) (cfg : Config) : Response + Config :=
  match replace_policy name None (policies_of cfg) with
  | Some l => inr (with_policies cfg l)
  | None => inl (jsonError 404 ("policy not found: " +:+ name))
  end.

(** The publication and the write to the database. *)
Definition policy_commit (cfg : Config) wt : World K -> Handled := fun w =>
  match Publish wt cfg with
  | None => (None, w)
  | Some (Some e, wt) => (Some (jsonError 500 ("failed to update config: " +:+ Error e), wt), w)
  | Some (None, wt) => (Some (status_ok, wt), persistPolicies cfg w)
  end.

Definition policy_change (prepare : Config -> Response + Config) wt : World K -> Handled := fun w =>
  match prepare (sn_Config (Current wt)) with
  | inl r => (Some (r, wt), w)
  | inr cfg => policy_commit cfg wt w
  end.

Definition handlePolicyCreate (request : res error PolicyConfig) wt : World K -> Handled := fun w =>
  match request with
  | Err e => (Some (jsonError 400 "invalid JSON", wt), w)
  | Ok policy => policy_change (policy_create policy) wt w
  end.

Definition handlePolicyUpdate (name : string) (request : res error PolicyConfig) wt : World K -> Handled := fun w =>
  match request with
  | Err e => (Some (jsonError 400 "invalid JSON", wt), w)
  | Ok policy =>
      if negb (String.eqb (pc_Name policy) name) then (Some (jsonError 400 "name mismatch", wt), w)
      else policy_change (policy_update name policy) wt w
  end.

Definition handlePolicyDelete (name : string) wt : World K -> Handled := policy_change (policy_delete name) wt.
End Settings.

(** ** The cache *)

Section CacheHandlers.
Context {K : Type} `{Env K} `{Sqlite K}.

Definition handleCacheStats : World K -> Response * World K := fun w =>
  match Stats w with
  | (Ok stats, w) => (jsonOK (BStats stats), w)
  | (Err e, w) => (jsonError 500 ("failed to get stats: " +:+ Error e), w)
  end.

Definition handleCachePurge (request : res error unit) : Response :=
  match request with
  | Err e => jsonError 400 ("invalid JSON: " +:+ Error e)
  | Ok _ => jsonOK (BStatus [("status", "ok"); ("message", "purge requires cache.DeleteByPattern — not yet implemented")]%string)
  end.

Definition handleCacheVacuum (pragma : string -> Tables -> Z) : World K -> Response * World K := fun w =>
  match Vacuum pragma 0 w with
  | (Ok deleted, w) => (jsonOK (BDeleted deleted), w)
  | (Err e, w) => (jsonError 500 ("vacuum failed: " +:+ Error e), w)
  end.

Definition handleCacheEntries (domain : string) : Response :=
  if String.eqb domain "" then jsonError 400 "domain query parameter is required"
  else jsonError 503 "domain-level lookup not yet implemented".
End CacheHandlers.

(** ** Categories *)

(** [domains[start:end]] of a page: [None] when the bounds make the slice panic. *)
Definition page_slice (domains : list string) (page perPage : Z) : option (list string * bool) :=
  let n := Z.of_nat (length domains) in
  let start := int64_wrap (int64_wrap (page - 1) * perPage) in
  let last := int64_wrap (start + perPage) in
  let more := last <? n in
  if start <? n then
    if start <? 0 then None
    else if n <? last then Some (drop (Z.to_nat start) domains, more)
    else if last <? start then None
    else Some (take (Z.to_nat (last - start)) (drop (Z.to_nat start) domains), more)
  else Some ([], more).

Definition page_of (query : string) : Z :=
  if String.eqb query "" then 1
  else match Sscanf_d query with Some p => if p <? 1 then 1 else p | None => 1 end.
Definition per_page_of (query : string) : Z :=
  if String.eqb query "" then 100
  else match Sscanf_d query with Some n => if (0 <? n) && (n <=? 500) then n else 100 | None => 100 end.

Section Categories.
Context {K St : Type} `{Env K} `{!Source K St} `{!Factories K St} `{ConfigCodec}.
Context (order : gset string -> list string).
Implicit Types (r : DBRegistry St).

Fixpoint configured_categories r (seen : gset string) (cats : list string) : list (string * Z) :=
  match cats with
  | [] => []
  | cat :: cats' =>
      if bool_decide (cat ∈ seen) then configured_categories r seen cats'
      else
        (cat, match GetDomains order r cat with Ok ds => Z.of_nat (length ds) | Err _ => 0 end)
        :: configured_categories r ({[cat]} ∪ seen) cats'
  end.

Definition handleCategoriesList r (wt : Watcher) : Response :=
  jsonOK (BCategories
    (configured_categories r ∅ (List.filter pc_Enabled (policies_of (sn_Config (Current wt))) ≫= pc_Categories))
    (ci_Name <$> ListCategories order r)).

(** The prefixes of a prefix category come as one page. *)
Definition handleCategoryDomains r (code page per_page : string) : option Response :=
  if String.eqb code "" then Some (jsonError 400 "category code is required")
  else
    match GetDomains order r code with
    | Err _ =>
        match GetPrefixes order r code with
        | Ok prefixes =>
            let n := Z.of_nat (length prefixes) in
            Some (jsonOK (BPage code 1 n n (PString <$> prefixes) false))
        | Err _ => Some (jsonError 404 ("category not found: " +:+ code))
        end
    | Ok domains =>
        let perPage := per_page_of per_page in
        '(slice, more) ← page_slice domains (page_of page) perPage;
        Some (jsonOK (BPage code (page_of page) perPage (Z.of_nat (length domains)) slice more))
    end.

(** ** Sources *)

Definition handleSourcesList r : Response := jsonOK (BSources (ListSources order r)).

Definition handleSourceGet r (id : string) : Response :=
  if String.eqb id "" then jsonError 400 "source id is required"
  else match GetSource r id with
       | Some src => jsonOK (BSource (src_Info src))
       | None => jsonError 404 "source not found"
       end.

Definition registry_response (r : (DBRegistry St * option error) * World K) : Response * DBRegistry St * World K :=
  let '((reg, err), w) := r in
  (match err with None => status_ok | Some e => jsonError 500 (Error e) end, reg, w).

Definition handleSourceCreate r (request : res error SrcConfig) : World K -> Response * DBRegistry St * World K := fun w =>
  match request with
  | Err e => (jsonError 400 ("invalid JSON: " +:+ Error e), r, w)
  | Ok cfg =>
      if String.eqb (sg_ID cfg) "" then (jsonError 400 "id is required", r, w)
      else if String.eqb (sg_Prefix cfg) "" then (jsonError 400 "prefix is required", r, w)
      else if String.eqb (sg_Provider cfg) "" then (jsonError 400 "provider is required", r, w)
      else registry_response (AddSource r cfg w)
  end.

Definition handleSourceUpdate r (id : string) (request : res error SrcConfig)
    : World K -> Response * DBRegistry St * World K := fun w =>
  if String.eqb id "" then (jsonError 400 "source id is required", r, w)
  else
    match request with
    | Err e => (jsonError 400 ("invalid JSON: " +:+ Error e), r, w)
    | Ok cfg =>
        registry_response
          (AddSource r (MkSrcConfig id (sg_Provider cfg) (sg_Prefix cfg) (sg_Enabled cfg) (sg_Config cfg)) w)
    end.

Definition handleSourceDelete r (id : string) : World K -> Response * DBRegistry St * World K := fun w =>
  if String.eqb id "" then (jsonError 400 "source id is required", r, w)
  else registry_response (RemoveSource r id w).

(** The source in the map is the object that is loaded. *)
Definition handleSourceRefresh r (id : string) : World K -> Response * DBRegistry St * World K := fun w =>
  if String.eqb id "" then (jsonError 400 "source id is required", r, w)
  else
    match GetSource r id with
    | None => (jsonError 404 "source not found", r, w)
    | Some src =>
        let '((src, err), w) := src_Load src w in
        (match err with None => jsonOK (BRefreshed (src_Info src)) | Some e => jsonError 500 (Error e) end,
         MkRegistry (reg_db r) (<[id := src]> (reg_sources r)), w)
    end.

Definition handleSourceFetchLegacy r : World K -> Response * DBRegistry St * World K := fun w =>
  registry_response (LoadAll order r w).
End Categories.

(** ** The pipeline and the routes *)

Section Pipeline.
Context {K : Type} `{Env K}.

(** The body as far as the decoder got, with its error, which is dropped: an empty body
    gives the defaults.  The error of [Run] is compared with [ErrBusy] itself. *)
Definition is_ErrBusy (e : error) : bool := bool_decide (e = ErrBusy).

Definition handlePipelineRun (ag : Agents K) (addr_order : gset Addr -> list Addr) (name_order : gset string -> list string)
    (request : PipelineRequest * option error) (o : Orchestrator) : World K -> Response * Orchestrator * World K := fun w =>
  match Run ag addr_order name_order (fun _ => None) (fst request) o w with
  | ((o, report, None), w) => (jsonOK (BReport report), o, w)
  | ((o, _, Some e), w) =>
      (if is_ErrBusy e then jsonError 409 "pipeline already running" else jsonError 500 (Error e), o, w)
  end.

Definition handlePipelineStatus (o : Orchestrator) : Response := jsonOK (BRunStatus (Status_ o)).
Definition handlePipelineHistory (o : Orchestrator) : Response := jsonOK (BHistory (History o)).

Definition handlePipelineCancel (o : Orchestrator) : Response :=
  match Cancel o with
  | inl _ => jsonOK (BStatus [("status", "cancelled")%string])
  | inr e =>
      if bool_decide (e = ErrNotRunning) then jsonOK (BStatus [("status", "not running")%string])
      else jsonError 409 (Error e)
  end.

(** The routes of the enabled policies, added up. *)
Context `{StateCodec}.
Fixpoint sum_policies (rtr : CompositeRouter) (policies : list PolicyConfig) (v4 v6 : Z) (last : Z) (applied : bool)
    : IO K (Z * Z * Z * bool) :=
  match policies with
  | [] => mret (v4, v6, last, applied)
  | p :: policies' =>
      if negb (pc_Enabled p) then sum_policies rtr policies' v4 v6 last applied
      else
        state ← SnapshotPolicy rtr (pc_Name p);
        if String.eqb (rs_Backend state) "" || String.eqb (rs_Backend state) "none"
        then sum_policies rtr policies' v4 v6 last applied
        else
          sum_policies rtr policies' (v4 + Z.of_nat (length (rs_V4 state))) (v6 + Z.of_nat (length (rs_V6 state)))
            (Z.max last (rs_AppliedAt state)) true
  end.

(** [routing.New] gives the disabled router: its state is the answer without policies. *)
Definition legacy_snapshot : Response := jsonOK (BRouterState noopRouter.Snapshot).

Definition handleRoutingSnapshot (rtr : CompositeRouter) (wt : Watcher) : IO K Response :=
  let policies := policies_of (sn_Config (Current wt)) in
  if Nat.eqb (length policies) 0
  then mret legacy_snapshot
  else
    '(v4, v6, last, applied) ← sum_policies rtr policies 0 0 0 false;
    mret (jsonOK (BSnapshot (if applied : bool then "policies" else "none") last v4 v6 (Z.of_nat (length policies)))).

Definition ErrDisabled : error := ErrNew "routing: disabled".
Definition routing_error (e : error) : Response :=
  if errors_Is e ErrDisabled then jsonError 503 "routing disabled" else jsonError 500 (Error e).

(** The router the handlers get is [routing.New]'s, the disabled one. *)
Definition handleRoutingDryRun (request : res error (list Prefix * list Prefix)) : Response :=
  match request with
  | Err e => jsonError 400 ("invalid JSON: " +:+ Error e)
  | Ok (v4, v6) =>
      if Nat.eqb (length v4) 0 && Nat.eqb (length v6) 0
      then jsonOK (BPlans (MkPlan FamilyV4 [] []) (MkPlan FamilyV6 [] []) "" "" (Some "no prefixes to test"%string))
      else
        match noopRouter.DryRun v4 FamilyV4 with
        | Err e => routing_error e
        | Ok (v4Plan, v4Diff) =>
            match noopRouter.DryRun v6 FamilyV6 with
            | Err e => routing_error e
            | Ok (v6Plan, v6Diff) => jsonOK (BPlans v4Plan v6Plan v4Diff v6Diff None)
            end
        end
  end.

Definition handleRoutingRollback : Response :=
  match noopRouter.Rollback with Err e => routing_error e | Ok _ => status_ok end.

(** [handleExportDownload]: the file of a policy. *)
Definition handleExportDownload (policy typ : string) (cfg : ExportConfig) : World K -> Response * World K := fun w =>
  if String.eqb policy "" || negb (one_of typ ["ipv4"; "ipv6"]%string)
  then (jsonError 400 "policy and type (ipv4|ipv6) query params required", w)
  else
    let baseDir := if String.eqb (ec_Dir cfg) "" then "/var/lib/d2ip/out"%string else ec_Dir cfg in
    let filename := if String.eqb typ "ipv6" then ec_IPv6File cfg else ec_IPv4File cfg in
    let filename := if String.eqb filename "" then typ +:+ ".txt" else filename in
    match ReadFile (baseDir +:+ "/" +:+ policy +:+ "/" +:+ filename) w with
    | (Ok data, w) => (jsonOK (BFile data), w)
    | (Err e, w) => (jsonError 404 ("export file not found: " +:+ Error e), w)
    end.
End Pipeline.
