(* ===== verification/ApiSpec.v ===== *)
(** * What the handlers do

  The settings handlers over the overrides and the watcher, and a run that is asked
  for while another is going on. *)

From S2P Require Import Prelude Order GoLib Os Netip NetipText Config ConfigSpec Duration Settings SettingsSpec Plan Exporter Events Watcher.
From S2P Require Import Routing Cache CacheSpec Orchestrator Sourcereg Api.

Local Open Scope Z_scope.

(** ** Publication *)

Lemma Publish_cases wt cfg r wt' :
  Publish wt cfg = Some (r, wt') ->
  match r with
  | None => Validate cfg = [] /\ sn_Config (Current wt') = cfg
  | Some _ => wt' = wt
  end.
Proof.
  unfold Publish. destruct (Validate cfg) as [|e errs]; [|by intros [= <- <-]].
  destruct (wt_closed wt); [by intros [= <- <-]|]. cbn.
  destruct (deliver_all _ _ _) as [m|]; cbn; [|done]. destruct (publish_bus _); cbn; [|done]. by intros [= <- <-].
Qed.

Section Settings.
Context {K : Type} `{Env K} `{Sqlite K} `{Json} `{ViperLaws} `{!DecodeLaws}.
Context (getenv : string -> string) (order : gset string -> list string) `{!MapOrder order}.
Implicit Types (wt : Watcher) (w : World K).

Definition kv_of w : gmap string string := tb_kv (db w).

Lemma GetAll_cases w r w' : GetAll w = (r, w') -> db w' = db w /\ forall kv, r = Ok kv -> kv = kv_of w.
Proof. apply wrap_select_cases. Qed.

(** A write to [kv_settings] is executed or changes nothing. *)
Lemma Set_cases key value w r w' :
  Set_ key value w = (r, w') ->
  match r with Ok _ => kv_of w' = <[key := value]> (kv_of w) | Err _ => kv_of w' = kv_of w end.
Proof.
  unfold Set_, io_wrap, kv_of. destruct (autocommit _ _ w) as [[[]|e] w1] eqn:E; intros [= <- <-];
    apply autocommit_cases in E; [by injection E as <-|by rewrite E].
Qed.

Lemma Delete_cases key w r w' :
  Delete key w = (r, w') ->
  match r with Ok _ => kv_of w' = delete key (kv_of w) | Err _ => kv_of w' = kv_of w end.
Proof.
  unfold Delete, io_wrap, kv_of. destruct (autocommit _ _ w) as [[[]|e] w1] eqn:E; intros [= <- <-];
    apply autocommit_cases in E; [by injection E as <-|by rewrite E].
Qed.

Lemma set_rows_cases rows w r w' :
  NoDup rows.*1 -> set_rows rows w = (r, w') ->
  (forall key, key ∉ rows.*1 -> kv_of w' !! key = kv_of w !! key) /\
  (forall key value, r = Ok tt -> (key, value) ∈ rows -> kv_of w' !! key = Some value).
Proof.
  revert w. induction rows as [|[key value] rows IH]; intros w Hnd; cbn [set_rows].
  { intros [= <- <-]. split; [done|]. by intros key value _ ?%elem_of_nil. }
  apply NoDup_cons in Hnd as [Hk Hnd].
  intros [([] & w1 & E1 & E)|(e & E1 & ->)]%io_bind_any; unfold io_wrap in E1;
    destruct (Set_ key value w) as [[[]|e1] w2] eqn:Es; try done; apply Set_cases in Es.
  - injection E1 as <-. destruct (IH _ Hnd E) as [Hout Hin]. split.
    + intros key' [Hne Hnin]%not_elem_of_cons. by rewrite (Hout _ Hnin), Es, lookup_insert_ne.
    + intros key' value' Hr [[= -> ->]|Hi]%elem_of_cons; [cbn in Hk; by rewrite (Hout _ Hk), Es, lookup_insert_eq|by apply Hin].
  - injection E1 as <- <-. split; [|done]. intros key' _. by rewrite Es.
Qed.

Lemma set_rows_map overrides w r w' :
  set_rows (rows_of order overrides) w = (r, w') ->
  (forall key, overrides !! key = None -> kv_of w' !! key = kv_of w !! key) /\
  (r = Ok tt -> kv_of w' = overrides ∪ kv_of w).
Proof.
  intros [Hout Hin]%(set_rows_cases _ _ _ _ (rows_NoDup order overrides)). 
  assert (forall key, overrides !! key = None -> kv_of w' !! key = kv_of w !! key) as Hk.
  { intros key Hn. apply Hout. intros ([k v] & -> & Hi%elem_rows)%list_elem_of_fmap; [cbn in Hn; congruence|done]. }
  split; [exact Hk|]. intros ->. apply map_eq. intros key. rewrite lookup_union.
  destruct (overrides !! key) as [v|] eqn:Ev.
  - rewrite (Hin key v eq_refl) by (apply elem_rows; done). by destruct (kv_of w !! key).
  - rewrite Hk by done. by destruct (kv_of w !! key).
Qed.

(** ** Reloading *)

(** Every stored override is in effect. *)
Definition in_sync (kv : gmap string string) (cfg : Config) : Prop :=
  forall k x, overrides getenv kv k x -> get_field k cfg = x.

Definition replaceable (kv : gmap string string) (cfg : Config) : Prop :=
  forall k x, overrides getenv kv k x -> fits x (get_field k cfg).

Definition unparsable (kv : gmap string string) : Prop :=
  exists key raw e, kv !! key = Some raw /\ applies getenv key /\ coerceKVValue (normalize_key key) raw = Err e.

Lemma in_sync_replaceable kv cfg : in_sync kv cfg -> replaceable kv cfg.
Proof. intros Hs k x Hx. rewrite (Hs k x Hx). destruct x; cbn; (done || lia). Qed.

Lemma reload_cases wt w resp wt' w' :
  clean (kv_of w) -> replaceable (kv_of w) (sn_Config (Current wt)) ->
  reload_response getenv order wt w = (Some (resp, wt'), w') ->
  kv_of w' = kv_of w /\
  ((resp = status_ok /\ ~ unparsable (kv_of w) /\ Validate (sn_Config (Current wt')) = [] /\
    forall k, overridden getenv (kv_of w) (sn_Config (Current wt)) (sn_Config (Current wt')) k) \/
   (rp_code resp = 500 /\ wt' = wt)).
Proof.
  intros Hc Hfit. unfold reload_response, reloadConfig.
  destruct (GetAll w) as [[kv|e] w1] eqn:Eg; apply GetAll_cases in Eg as [Hd Hkv].
  2: { intros [= <- <- <-]. split; [unfold kv_of; by rewrite Hd|]. by right. }
  specialize (Hkv kv eq_refl) as ->.
  pose proof (apply_overrides_fields getenv order (sn_Config (Current wt)) (kv_of w) Hc Hfit) as Ha.
  destruct (ApplyOverrides getenv order _ (kv_of w)) as [c|e].
  2: { intros [= <- <- <-]. split; [unfold kv_of; by rewrite Hd|]. by right. }
  destruct (Publish wt c) as [[[e|] wt1]|] eqn:Ep; [|..|done]; intros [= <- <- <-]; apply Publish_cases in Ep;
    (split; [unfold kv_of; by rewrite Hd|]).
  - right. by split.
  - left. destruct Ha as [Hall Hov], Ep as [Hv ->]. split_and!; try done.
    intros (key & raw & er & Hl & Hap & He). destruct (Hall key raw Hl Hap) as [x Hx]. congruence.
Qed.

(** What an export holds can be imported: the rows of the exporting database go over
    those of the importing one, and the valid configuration they make is published; an
    export that could not read its database holds no rows and still is a success. *)
Theorem config_moves (wtA wtB : Watcher) (wA wB : World K) cfg rows wA' resp wtB' wB' :
  handleConfigExport wtA wA = (jsonOK (BConfigExport cfg rows), wA') ->
  clean (rows ∪ kv_of wB) -> replaceable (rows ∪ kv_of wB) (sn_Config (Current wtB)) ->
  handleConfigImport getenv order (Ok rows) wtB wB = (Some (resp, wtB'), wB') ->
  (rows = kv_of wA \/ rows = ∅) /\
  (rp_code resp = 200 -> kv_of wB' = rows ∪ kv_of wB /\ Validate (sn_Config (Current wtB')) = []) /\
  (rp_code resp <> 200 -> wtB' = wtB).
Proof.
  intros Ex Hc Hfit Im. split.
  { unfold handleConfigExport in Ex. destruct (GetAll wA) as [[kv|e] w1] eqn:Eg; injection Ex as _ <- _; [left|by right].
    by apply GetAll_cases in Eg as [_ Hkv]; apply Hkv. }
  revert Im. unfold handleConfigImport.
  destruct (set_rows (rows_of order rows) wB) as [[[]|e] w1] eqn:Es; apply set_rows_map in Es as [_ Hset]; [|by intros [= <- <- <-]].
  specialize (Hset eq_refl). rewrite <- Hset in *.
  pose proof (reload_cases wtB w1) as Hr. unfold reload_response in Hr.
  destruct (reloadConfig getenv order wtB w1) as [[[[e|] wt1]|] w2] eqn:Er; [| |done]; intros [= <- <- <-].
  - destruct (Hr _ _ _ Hc Hfit eq_refl) as [_ [(? & _)|(_ & ->)]]; [done|by split].
  - destruct (Hr _ _ _ Hc Hfit eq_refl) as [-> [(_ & _ & Hv & _)|(? & _)]]; done.
Qed.

(** A request that is answered with 200 has stored its rows over the old ones and
    published the valid configuration they make; any other answer leaves the
    configuration as it was, and a stored row that does not parse makes every request
    fail. *)
Lemma settings_put_cases overrides wt w resp wt' w' :
  clean (overrides ∪ kv_of w) -> replaceable (overrides ∪ kv_of w) (sn_Config (Current wt)) ->
  handleSettingsPut getenv order (Ok overrides) wt w = (Some (resp, wt'), w') ->
  (rp_code resp = 200 ->
     kv_of w' = overrides ∪ kv_of w /\ Validate (sn_Config (Current wt')) = [] /\
     forall k, overridden getenv (kv_of w') (sn_Config (Current wt)) (sn_Config (Current wt')) k) /\
  (rp_code resp <> 200 -> wt' = wt) /\
  (unparsable (overrides ∪ kv_of w) -> rp_code resp = 500 /\ wt' = wt).
Proof.
  intros Hc Hfit. unfold handleSettingsPut.
  destruct (set_rows (rows_of order overrides) w) as [[[]|e] w1] eqn:Es; apply set_rows_map in Es as [_ Hset].
  2: { intros [= <- <- <-]. by split_and!. }
  specialize (Hset eq_refl). rewrite <- Hset in *. intros E.
  apply reload_cases in E as (-> & [(-> & Hp & Hv & Hov)|[Hcode ->]]); [| |done|done].
  - by split_and!.
  - rewrite Hcode. by split_and!.
Qed.

(** A settings request that is answered with 200 has published a valid configuration
    in which its rows are in force; any other answer leaves the configuration alone.  The
    stored rows decide the next start whatever the answer was: a row that does not parse
    makes the program start without any override; otherwise every row is in force, and
    nothing validates the result, so that values the request was refused for are in
    effect after a restart. *)
Theorem settings_after_restart overrides wt w resp wt' w' opts base :
  (forall kv, kv = overrides ∪ kv_of w ->
     clean kv /\ replaceable kv (sn_Config (Current wt)) /\ replaceable kv base) ->
  handleSettingsPut getenv order (Ok overrides) wt w = (Some (resp, wt'), w') -> kv_of w' = overrides ∪ kv_of w ->
  Load getenv order opts = Ok base ->
  exists c, startup_config getenv order opts (Ok (kv_of w')) = Ok c /\
    (rp_code resp = 200 -> Validate (sn_Config (Current wt')) = [] /\
       forall k, overridden getenv (kv_of w') (sn_Config (Current wt)) (sn_Config (Current wt')) k) /\
    (rp_code resp <> 200 -> wt' = wt) /\
    (unparsable (kv_of w') -> rp_code resp <> 200 /\ c = base) /\
    (~ unparsable (kv_of w') -> forall k, overridden getenv (kv_of w') base c k).
Proof.
  intros Hkv E Hst Hl. destruct (Hkv _ eq_refl) as (Hc & Hfit & Hbase). clear Hkv.
  pose proof (settings_put_cases overrides wt w resp wt' w' Hc Hfit E) as (Hok & Hno & Hun). rewrite Hst in *.
  assert (rp_code resp = 200 -> Validate (sn_Config (Current wt')) = [] /\
    forall k, overridden getenv (overrides ∪ kv_of w) (sn_Config (Current wt)) (sn_Config (Current wt')) k) as Hok' by tauto.
  pose proof (apply_overrides_fields getenv order base _ Hc Hbase) as Ha.
  unfold startup_config. rewrite Hl. cbn [res_bind].
  destruct (ApplyOverrides getenv order base _) as [c|er].
  - destruct Ha as [Hall Hov]. exists c. split_and!; try done.
    intros (key & raw & er & Hr & Hap & He). destruct (Hall key raw Hr Hap). congruence.
  - exists base. split_and!; try done. intros Hu. by rewrite (proj1 (Hun Hu)).
Qed.

(** Deleting an override does not take it back: the configuration that a reload
    starts from already has it, so the answer is 200 and nothing changes until the
    program is started again. *)
Theorem settings_delete_keeps key wt w resp wt' w' :
  clean (kv_of w) -> in_sync (kv_of w) (sn_Config (Current wt)) ->
  handleSettingsDelete getenv order key wt w = (Some (resp, wt'), w') -> rp_code resp = 200 ->
  kv_of w' = delete key (kv_of w) /\ sn_Config (Current wt') = sn_Config (Current wt).
Proof.
  intros Hc Hs. unfold handleSettingsDelete. destruct (String.eqb key ""); [by intros [= <- <- <-]|].
  destruct (Delete key w) as [[[]|e] w1] eqn:Ed; apply Delete_cases in Ed; [|by intros [= <- <- <-]].
  assert (forall k x, overrides getenv (kv_of w1) k x -> overrides getenv (kv_of w) k x) as Hsub.
  { intros k x (key' & raw & Hl & Hr). rewrite Ed in Hl. apply lookup_delete_Some in Hl as [_ Hl]. by exists key', raw. }
  assert (clean (kv_of w1)) as Hc1.
  { rewrite Ed. split.
    - intros k1 k2 [x1 [_ Hl1]%lookup_delete_Some] [x2 [_ Hl2]%lookup_delete_Some]. apply (cl_distinct _ Hc); eauto.
    - intros k1 k [x1 [_ Hl1]%lookup_delete_Some]. apply (cl_leaves _ Hc). eauto. }
  assert (in_sync (kv_of w1) (sn_Config (Current wt))) as Hs1 by (intros k x Hx; by apply Hs, Hsub).
  intros E Hcode. apply reload_cases in E as (-> & [(_ & _ & _ & Hov)|[Hcode' ->]]);
    [| |done|by apply in_sync_replaceable]; (split; [exact Ed|]); [|done].
  apply config_ext. intros k. destruct (Hov k) as [Hset Hkeep].
  destruct (overrides_dec getenv order (kv_of w1) k) as [[x Hx]|Hno]; [|by apply Hkeep].
  by rewrite (Hset x Hx), (Hs1 k x Hx).
Qed.
End Settings.

(** ** Runs *)

(** A run that is asked for while another is going on is an internal error: the error of
    [Run] wraps [ErrBusy], and the handler compares it with [ErrBusy] itself. *)
Lemma busy_run_is_500 {K} `{Env K} (ag : Agents K) addr_order name_order request o (w : World K) :
  or_running o = true ->
  rp_code (fst (fst (handlePipelineRun ag addr_order name_order request o w))) = 500.
Proof. intros Hr. unfold handlePipelineRun, Run, acquire. rewrite Hr. reflexivity. Qed.
