(* ===== verification/PolicyApiSpec.v ===== *)
(** * The policy handlers are a map from names to policies

  The list of policies of the current configuration, read as a map; the requests on
  that map as a specification, which the handlers refine; requests that overlap. *)

From S2P Require Import Prelude Order GoLib Os Netip Config ConfigSpec Duration Settings Plan Events Watcher Cache CacheSpec Sourcereg Api ApiSpec.

Local Open Scope Z_scope.

(** ** The specification *)

Inductive PolicyRequest :=
| RCreate (p : PolicyConfig)
| RUpdate (name : string) (p : PolicyConfig)
| RDelete (name : string).

(** The status of a refusal, or the policies after the request. *)
Definition spec_request (req : PolicyRequest) (m : gmap string PolicyConfig) : Z + gmap string PolicyConfig :=
  match req with
  | RCreate p =>
      if decide (map_Exists (fun name _ => ToLower name = ToLower (pc_Name p)) m) then inl 409
      else inr (<[pc_Name p := p]> m)
  | RUpdate name p =>
      if decide (pc_Name p = name) then
        match m !! name with None => inl 404 | Some _ => inr (<[name := p]> m) end
      else inl 400
  | RDelete name => match m !! name with None => inl 404 | Some _ => inr (delete name m) end
  end.

(** ** The list as a map *)

Fixpoint by_name (l : list PolicyConfig) : gmap string PolicyConfig :=
  match l with [] => ∅ | p :: l' => <[pc_Name p := p]> (by_name l') end.

Lemma by_name_None l name : by_name l !! name = None <-> name ∉ pc_Name <$> l.
Proof.
  induction l as [|p l IH]; cbn; [set_solver|].
  rewrite lookup_insert_None, not_elem_of_cons, IH. naive_solver.
Qed.

Lemma by_name_is_Some l name : is_Some (by_name l !! name) <-> name ∈ pc_Name <$> l.
Proof. rewrite <- not_eq_None_Some, by_name_None. destruct (decide (name ∈ pc_Name <$> l)); tauto. Qed.

Lemma by_name_app l p : pc_Name p ∉ pc_Name <$> l -> by_name (l ++ [p]) = <[pc_Name p := p]> (by_name l).
Proof.
  induction l as [|q l IH]; cbn; [done|]. intros [Hne Hn]%not_elem_of_cons. rewrite (IH Hn). by apply insert_insert_ne.
Qed.

Lemma replace_None name o l : replace_policy name o l = None <-> by_name l !! name = None.
Proof.
  rewrite by_name_None. induction l as [|p l IH]; cbn; [set_solver|]. rewrite not_elem_of_cons.
  destruct (String.eqb_spec (pc_Name p) name) as [->|Hne]; [naive_solver|]. rewrite fmap_None, IH. naive_solver.
Qed.

Lemma replace_update name p l l' :
  pc_Name p = name -> replace_policy name (Some p) l = Some l' ->
  pc_Name <$> l' = pc_Name <$> l /\ by_name l' = <[name := p]> (by_name l).
Proof.
  intros Hp. revert l'. induction l as [|q l IH]; cbn; intros l'; [done|].
  destruct (String.eqb_spec (pc_Name q) name) as [Hq|Hq].
  - intros [= <-]. cbn. rewrite Hp, Hq. split; [done|]. by rewrite insert_insert_eq.
  - intros (l2 & E & ->)%fmap_Some. destruct (IH _ E) as [Hn Hm]. cbn. rewrite Hn, Hm. split; [done|].
    by apply insert_insert_ne.
Qed.

Lemma replace_delete name l l' :
  NoDup (pc_Name <$> l) -> replace_policy name None l = Some l' ->
  NoDup (pc_Name <$> l') /\ by_name l' = delete name (by_name l) /\ pc_Name <$> l' ⊆ pc_Name <$> l.
Proof.
  revert l'. induction l as [|q l IH]; cbn; intros l'; [done|]. intros [Hq Hnd]%NoDup_cons.
  destruct (String.eqb_spec (pc_Name q) name) as [<-|Hne].
  - intros [= <-]. rewrite delete_insert_eq, delete_id by (by apply by_name_None). set_solver.
  - intros (l2 & E & ->)%fmap_Some. destruct (IH _ Hnd E) as (Hn & Hm & Hsub). cbn.
    rewrite Hm, delete_insert_ne by done. split_and!; [|done|set_solver]. apply NoDup_cons. set_solver.
Qed.

Lemma taken_spec p l :
  existsb (fun q => EqualFold (pc_Name q) (pc_Name p)) l = true <->
  map_Exists (fun name _ => ToLower name = ToLower (pc_Name p)) (by_name l).
Proof.
  rewrite existsb_exists. split.
  - intros (q & Hq%list_elem_of_In & E%String.eqb_eq).
    destruct (proj2 (by_name_is_Some l (pc_Name q))) as [q' Hq']; [by apply list_elem_of_fmap_2|]. by exists (pc_Name q), q'.
  - intros (name & q & Hl & E). assert (name ∈ pc_Name <$> l) as (q' & -> & Hq)%list_elem_of_fmap by (apply by_name_is_Some; eauto).
    exists q'. split; [by apply list_elem_of_In|]. by apply String.eqb_eq.
Qed.

Lemma with_policies_of cfg l : policies_of (with_policies cfg l) = l.
Proof. done. Qed.

(** ** The handlers *)

Section Policies.
Context {K : Type} `{Env K} `{Sqlite K} `{Json}.
Implicit Types (wt : Watcher) (w : World K).

Definition serve (req : PolicyRequest) : Watcher -> World K -> Handled :=
  match req with
  | RCreate p => handlePolicyCreate (Ok p)
  | RUpdate name p => handlePolicyUpdate name (Ok p)
  | RDelete name => handlePolicyDelete name
  end.

(** The configuration a request computes from the one it reads. *)
Definition prepared (req : PolicyRequest) (cfg : Config) : Response + Config :=
  match req with
  | RCreate p => policy_create p cfg
  | RUpdate name p => if negb (String.eqb (pc_Name p) name) then inl (jsonError 400 "name mismatch") else policy_update name p cfg
  | RDelete name => policy_delete name cfg
  end.

Lemma serve_prepared req : serve req = policy_change (prepared req).
Proof.
  destruct req as [p|name p|name]; cbn; try done. unfold policy_change, prepared. unfold handlePolicyUpdate.
  destruct (String.eqb (pc_Name p) name); done.
Qed.

Lemma prepared_spec req cfg :
  NoDup (pc_Name <$> policies_of cfg) ->
  match prepared req cfg with
  | inl r => spec_request req (by_name (policies_of cfg)) = inl (rp_code r)
  | inr cfg' => exists l, cfg' = with_policies cfg l /\ NoDup (pc_Name <$> l) /\
                  spec_request req (by_name (policies_of cfg)) = inr (by_name l)
  end.
Proof.
  intros Hnd. set (l := policies_of cfg) in *. destruct req as [p|name p|name]; cbn.
  - unfold policy_create. fold l. pose proof (taken_spec p l) as Ht.
    destruct (existsb _ l); case_decide as Hd; try (exfalso; naive_solver); [done|].
    assert (pc_Name p ∉ pc_Name <$> l) as Hn.
    { intros [q Hq]%by_name_is_Some. apply Hd. by exists (pc_Name p), q. }
    exists (l ++ [p]). rewrite by_name_app, fmap_app by done. split_and!; [done| |done].
    apply NoDup_app. split_and!; [done|set_solver|apply NoDup_singleton].
  - destruct (String.eqb_spec (pc_Name p) name) as [Hp|Hp]; cbn; case_decide; try done.
    unfold policy_update. fold l. destruct (replace_policy name (Some p) l) as [l'|] eqn:E.
    + destruct (by_name l !! name) eqn:El; [|by apply (replace_None name (Some p)) in El; rewrite El in E].
      apply replace_update in E as [Hn Hm]; [|done]. exists l'. by rewrite Hn, Hm.
    + apply replace_None in E. by rewrite E.
  - unfold policy_delete. fold l. destruct (replace_policy name None l) as [l'|] eqn:E.
    + destruct (by_name l !! name) eqn:El; [|by apply (replace_None name None) in El; rewrite El in E].
      apply replace_delete in E as (Hn & <- & _); [|done]. by exists l'.
    + apply replace_None in E. by rewrite E.
Qed.

Lemma policy_commit_cases cfg wt w resp wt' w' :
  policy_commit cfg wt w = (Some (resp, wt'), w') ->
  (rp_code resp = 200 /\ sn_Config (Current wt') = cfg /\ Validate cfg = [] /\
     kv_of w' = match fst (Set_ (K := K) "routing.policies" (show_policies (policies_of cfg)) w) with
                | Ok _ => <["routing.policies"%string := show_policies (policies_of cfg)]> (kv_of w)
                | Err _ => kv_of w end) \/
  (rp_code resp = 500 /\ wt' = wt /\ w' = w /\ (Validate cfg <> [] \/ wt_closed wt = true)).
Proof.
  unfold policy_commit. destruct (Publish wt cfg) as [[[er|] wt1]|] eqn:Ep; [| |done]; intros [= <- <- <-].
  - right. pose proof (Publish_cases _ _ _ _ Ep) as ->. split_and!; try done.
    unfold Publish in Ep. destruct (Validate cfg) as [|]; [|by left]. destruct (wt_closed wt); [by right|]. exfalso.
    cbn in Ep. destruct (deliver_all _ _ _) as [m|]; cbn in Ep; [|done]. destruct (publish_bus _); cbn in Ep; done.
  - left. apply Publish_cases in Ep as [Hv Hs]. split_and!; try done. unfold persistPolicies.
    destruct (Set_ _ _ w) as [[] w1] eqn:Es; by apply Set_cases in Es.
Qed.

(** C15. The policy handlers refine a map from names to policies.  With the names of the
    current policies distinct, a request the map refuses (a name in use up to case, an
    unknown name, a body with another name) gets exactly its status and changes nothing;
    any other is answered with 200 when the policies it makes are published, valid, with
    distinct names and, unless the write failed, stored, the rest of the configuration
    untouched, and with 500 and no change when they are invalid or the watcher is closed. *)
Theorem policy_store_refines req wt w resp wt' w' :
  let cfg := sn_Config (Current wt) in
  NoDup (pc_Name <$> policies_of cfg) -> serve req wt w = (Some (resp, wt'), w') ->
  match spec_request req (by_name (policies_of cfg)) with
  | inl code => rp_code resp = code /\ wt' = wt /\ w' = w
  | inr m =>
      exists l, by_name l = m /\ NoDup (pc_Name <$> l) /\
        ((rp_code resp = 200 /\ Validate (with_policies cfg l) = [] /\ sn_Config (Current wt') = with_policies cfg l /\
            (kv_of w' = <["routing.policies"%string := show_policies l]> (kv_of w) \/ kv_of w' = kv_of w)) \/
         (rp_code resp = 500 /\ (Validate (with_policies cfg l) <> [] \/ wt_closed wt = true) /\ wt' = wt /\ w' = w))
  end.
Proof.
  intros cfg Hnd. rewrite serve_prepared. unfold policy_change. fold cfg. pose proof (prepared_spec req cfg Hnd) as Hp.
  destruct (prepared req cfg) as [r|cfg'].
  { intros [= <- <- <-]. by rewrite Hp. }
  destruct Hp as (l & -> & Hl & ->). intros E. exists l. split_and!; [done..|].
  apply policy_commit_cases in E as [(Hc & Hs & Hv & Hk)|(Hc & -> & -> & Hv)]; [left|right]; [|done].
  rewrite with_policies_of in Hk. split_and!; try done. destruct (fst _); [by left|by right].
Qed.

(** Two requests that read the configuration before either publishes: both succeed and
    the first one's policy is gone. *)
Lemma overlapping_creates wt w p1 p2 cfg1 cfg2 resp1 wt1 w1 resp2 wt2 w2 :
  policy_create p1 (sn_Config (Current wt)) = inr cfg1 -> policy_create p2 (sn_Config (Current wt)) = inr cfg2 ->
  policy_commit cfg1 wt w = (Some (resp1, wt1), w1) -> policy_commit cfg2 wt1 w1 = (Some (resp2, wt2), w2) ->
  rp_code resp1 = 200 -> rp_code resp2 = 200 ->
  policies_of (sn_Config (Current wt1)) = policies_of (sn_Config (Current wt)) ++ [p1] /\
  policies_of (sn_Config (Current wt2)) = policies_of (sn_Config (Current wt)) ++ [p2].
Proof.
  unfold policy_create. intros E1 E2 C1 C2 R1 R2.
  destruct (existsb _ _) in E1; [done|]. destruct (existsb _ _) in E2; [done|]. injection E1 as <-. injection E2 as <-.
  apply policy_commit_cases in C1 as [(_ & -> & _)|(? & _)]; [|congruence].
  apply policy_commit_cases in C2 as [(_ & -> & _)|(? & _)]; [|congruence]. done.
Qed.
End Policies.
