(* ===== verification/CacheApiSpec.v ===== *)
(** * The vacuum button and the pages of a category

  [Vacuum] against the abstract cache, what it means that the handler asks for the
  records older than now, and the slices of a paged list. *)

From S2P Require Import Prelude Order GoLib Os Netip NetipText Cidr Float64 Config Duration DurationSpec Events Watcher Cache CacheSpec Sourcereg Api.

Local Open Scope Z_scope.

(** ** Vacuum *)

(** The records updated before [threshold] are dropped; outcomes stay. *)
Definition entry_vacuum (threshold : Z) (e : Entry) : Entry :=
  MkEntry (en_status e) (en_last e) (filter (fun kv => ~ rv_updated kv.2 < threshold) (en_recs e)).
Definition spec_vacuum (threshold : Z) (a : gmap string Entry) : gmap string Entry := entry_vacuum threshold <$> a.

Lemma refines_vacuum threshold t a :
  refines t a ->
  refines (set_records t (filter (fun kv => ~ rv_updated kv.2 < threshold) (tb_records t))) (spec_vacuum threshold a).
Proof.
  intros Hr. split; cbn [set_records tb_domains tb_records].
  - intros name. pose proof (rf_dom _ _ Hr name) as Hd. unfold spec_vacuum. rewrite lookup_fmap.
    destruct (tb_domains t !! name) as [r|], (a !! name) as [e|]; try done. destruct Hd as (H1 & H2 & H3).
    split; [done|]. split; [done|]. intros ip typ. cbn. apply option_eq. intros v.
    rewrite !map_lookup_filter_Some, H3. done.
  - apply (rf_ids _ _ Hr).
  - intros id ip typ v [Hv _]%map_lookup_filter_Some. by apply (rf_fk _ _ Hr) in Hv.
Qed.

(** What counts as stale does not depend on the records. *)
Lemma vacuum_stale threshold a now ttl ftl name :
  spec_stale (spec_vacuum threshold a) now ttl ftl name = spec_stale a now ttl ftl name.
Proof. unfold spec_stale, spec_vacuum. rewrite lookup_fmap. by destruct (a !! name). Qed.

Lemma vacuum_has threshold a name v4 addr :
  (forall n e k v, a !! n = Some e -> en_recs e !! k = Some v -> rv_updated v < threshold) ->
  ~ spec_has (spec_vacuum threshold a) name v4 addr.
Proof.
  intros Hold (e & ip & typ & v & Ha & Hk & _). unfold spec_vacuum in Ha. rewrite lookup_fmap in Ha.
  apply fmap_Some in Ha as (e0 & Ha & ->). apply map_lookup_filter_Some in Hk as [Hk Hn]. cbn in Hn.
  apply Hn. by eapply Hold.
Qed.

Section Vacuum.
Context {K : Type} `{Env K} `{Sqlite K}.
Context (order : gset string -> list string) (rec_order : gset RecordKey -> list RecordKey).
Context `{!MapOrder order, !MapOrder rec_order} (pragma : string -> Tables -> Z).
Implicit Types (w : World K).

Lemma Vacuum_cases older a w deleted w' :
  let threshold := Unix (clock (w_calls w) - older) in
  refines (db w) a -> Vacuum pragma older w = (Ok deleted, w') ->
  refines (db w') (spec_vacuum threshold a) /\
  deleted = Z.of_nat (size (filter (fun kv : RecordKey * RecordVal => rv_updated kv.2 < threshold) (tb_records (db w)))).
Proof.
  intros threshold Hr E. unfold Vacuum in E. apply io_bind_ok in E as (now & w0 & [= <- <-] & E).
  cbv zeta in E. apply io_bind_ok in E as (t & w1 & [= <- <-] & E).
  change (db (tick w)) with (db w) in E.
  apply io_bind_ok in E as ([] & w2 & E1 & E). unfold io_wrap at 1 in E1.
  destruct (autocommit _ _ _) as [[[]|e] w3] eqn:Ea in E1; [|done]. injection E1 as ->. apply autocommit_cases in Ea.
  apply io_bind_ok in E as (freelist & w3 & E2 & E). apply wrap_select_cases in E2 as [H2 _].
  apply io_bind_ok in E as (pages & w4 & E3 & E). apply wrap_select_cases in E3 as [H3 _].
  apply io_bind_ok in E as ([] & w5 & E4 & E). injection E as <- <-.
  assert (db w5 = db w4) as H4.
  { destruct (worthwhile _ _); [|by injection E4 as <-]. unfold db. f_equal.
    eapply files_only_wrap; [apply files_only_syscall|exact E4]. }
  rewrite H4, H3, H2. injection Ea as <-. split; [|done]. by apply refines_vacuum.
Qed.

(** The vacuum button asks for the records older than this very moment: when it
    answers, every record stored before is gone and no domain has an address, while the
    outcomes stay, so that a domain that was fresh is not resolved again before its time
    has passed. *)
Theorem vacuum_empties a w resp w1 :
  refines (db w) a -> (forall k v, tb_records (db w) !! k = Some v -> rv_updated v < Unix (clock (w_calls w))) ->
  handleCacheVacuum pragma w = (resp, w1) -> rp_code resp = 200 ->
  rp_body resp = BDeleted (Z.of_nat (size (tb_records (db w)))) /\
  (forall domains v4 v6 w2, SnapshotForDomains rec_order domains w1 = (Ok (v4, v6), w2) -> v4 = [] /\ v6 = []) /\
  (forall domains ttl ftl l w2, NeedsRefresh order domains ttl ftl w1 = (Ok l, w2) ->
     forall name, name ∈ l <-> name ∈ domains /\ spec_stale a (Unix (clock (w_calls w1))) ttl ftl name = true).
Proof.
  intros Hr Hold. unfold handleCacheVacuum. destruct (Vacuum pragma 0 w) as [[deleted|e] w'] eqn:E; intros [= <- <-]; [|done].
  intros _. eapply Vacuum_cases in E as [Hr' ->]; [|exact Hr]. rewrite Z.sub_0_r in *.
  split_and!.
  - cbn. rewrite map_filter_id; [done|]. intros k v Hv. by apply (Hold k).
  - intros domains v4 v6 w2 Es. eapply SnapshotForDomains_cases in Es as [_ Hl]; [|done|exact Hr'].
    assert (forall n e k v, a !! n = Some e -> en_recs e !! k = Some v -> rv_updated v < Unix (clock (w_calls w))) as Ho.
    { intros n e [ip typ] v Ha Hk. pose proof (rf_dom _ _ Hr n) as Hd. rewrite Ha in Hd.
      destruct (tb_domains (db w) !! n) as [r|]; [|done]. destruct Hd as (_ & _ & Hd). rewrite <- Hd in Hk. by eapply Hold. }
    split; apply elem_of_nil_inv; intros addr Hin; destruct (Hl v4 v6 eq_refl addr) as [H4 H6];
      [apply H4 in Hin as (n & _ & Hh)|apply H6 in Hin as (n & _ & Hh)]; by apply vacuum_has in Hh.
  - intros domains ttl ftl l w2 En name. eapply NeedsRefresh_cases in En as [_ Hl]; [|done|exact Hr'].
    destruct (Hl l eq_refl) as (_ & _ & Hn). by rewrite Hn, vacuum_stale.
Qed.
End Vacuum.

(** ** Pages *)

Lemma page_of_least q : 1 <= page_of q.
Proof.
  unfold page_of. destruct (String.eqb q ""); [lia|]. destruct (Sscanf_d q) as [p|]; [|lia]. destruct (Z.ltb_spec p 1); lia.
Qed.

Lemma per_page_of_range q : 1 <= per_page_of q <= 500.
Proof.
  unfold per_page_of. destruct (String.eqb q ""); [lia|]. destruct (Sscanf_d q) as [n|]; [|lia].
  destruct (Z.ltb_spec 0 n), (Z.leb_spec n 500); cbn; lia.
Qed.

Lemma page_of_Itoa n : 1 <= n < 2 ^ 63 -> page_of (Itoa n) = n.
Proof.
  intros Hn. unfold page_of. pose proof (Sscanf_Itoa n "" ltac:(lia) I) as Hs. rewrite str_app_nil_r in Hs.
  destruct (String.eqb_spec (Itoa n) "") as [E|_]; [by rewrite E in Hs|]. rewrite Hs.
  destruct (Z.ltb_spec n 1); lia.
Qed.

Lemma page_slice_spec domains page n :
  1 <= page -> 1 <= n -> page * n < 2 ^ 63 ->
  page_slice domains page n =
  Some (take (Z.to_nat n) (drop (Z.to_nat ((page - 1) * n)) domains), page * n <? Z.of_nat (length domains)).
Proof.
  intros Hp Hn Ho. unfold page_slice. rewrite (wrap_s_id 64 (page - 1)) by nia.
  rewrite (wrap_s_id 64 ((page - 1) * n)) by nia. rewrite wrap_s_id by nia.
  replace ((page - 1) * n + n) with (page * n) by ring.
  destruct (Z.ltb_spec ((page - 1) * n) (Z.of_nat (length domains))) as [Hs|Hs].
  - destruct (Z.ltb_spec ((page - 1) * n) 0); [nia|]. destruct (Z.ltb_spec (Z.of_nat (length domains)) (page * n)) as [Hl|Hl].
    + do 2 f_equal. rewrite take_ge; [done|]. rewrite length_drop. lia.
    + destruct (Z.ltb_spec (page * n) ((page - 1) * n)); [nia|]. do 4 f_equal. lia.
  - do 2 f_equal. rewrite drop_ge by lia. by rewrite take_nil.
Qed.

(** The first [m] pages of [n]. *)
Definition first_pages {A} (m n : nat) (l : list A) : list A := mjoin ((fun i => take n (drop (i * n) l)) <$> seq 0 m).

Lemma first_pages_take {A} m n (l : list A) : first_pages m n l = take (m * n) l.
Proof.
  unfold first_pages. induction m as [|m IH]; [done|].
  rewrite seq_S, fmap_app, join_app, IH. cbn. rewrite app_nil_r.
  rewrite <- (take_drop (m * n) (take (n + m * n) l)), take_take, skipn_firstn_comm. f_equal; [f_equal; lia|f_equal; lia].
Qed.

Section Pages.
Context {K St : Type} `{Env K} `{!Source K St} `{!Factories K St} `{ConfigCodec}.
Context (order : gset string -> list string).

(** A category is paged without loss: whatever [per_page] says, the answers to
    [page=1], ..., [page=m] are the consecutive slices of its domains that together are
    the first [m] times [per_page] ones, and [has_more] says if there are others. *)
Theorem pages_cover (r : DBRegistry St) code per_page domains m :
  code <> ""%string -> GetDomains order r code = Ok domains -> (0 < m)%nat ->
  let n := per_page_of per_page in
  Z.of_nat m * n < 2 ^ 63 ->
  exists slices,
    (forall i, (i < m)%nat -> exists slice, slices !! i = Some slice /\
       handleCategoryDomains order r code (Itoa (Z.of_nat i + 1)) per_page =
       Some (jsonOK (BPage code (Z.of_nat i + 1) n (Z.of_nat (length domains)) slice
                       ((Z.of_nat i + 1) * n <? Z.of_nat (length domains))))) /\
    mjoin slices = take (m * Z.to_nat n) domains /\
    (Z.of_nat m * n <? Z.of_nat (length domains) = false -> mjoin slices = domains).
Proof.
  intros Hc Hd Hm n Ho. pose proof (per_page_of_range per_page) as Hn. fold n in Hn.
  exists ((fun i => take (Z.to_nat n) (drop (i * Z.to_nat n) domains)) <$> seq 0 m).
  pose proof (first_pages_take m (Z.to_nat n) domains) as Ht. unfold first_pages in Ht. rewrite Ht. split_and!.
  - intros i Hi. eexists. split.
    { rewrite list_lookup_fmap, lookup_seq_lt by done. reflexivity. }
    unfold handleCategoryDomains. rewrite (proj2 (String.eqb_neq _ _) Hc), Hd, page_of_Itoa by nia. fold n.
    rewrite page_slice_spec by nia. cbn. do 6 f_equal. lia.
  - done.
  - intros Hl%Z.ltb_ge. apply take_ge. nia.
Qed.
End Pages.

(** A page number whose first index overflows makes the slice panic. *)
Lemma page_overflow_panics domains : (0 < length domains)%nat -> page_slice domains (2 ^ 62) 4 = None.
Proof.
  intros Hl. unfold page_slice. assert (int64_wrap (int64_wrap (2 ^ 62 - 1) * 4) = -4) as -> by reflexivity.
  cbv zeta. destruct (Z.ltb_spec (-4) (Z.of_nat (length domains))); [done|lia].
Qed.
