(* ===== verification/Plaintext.v ===== *)
(** * [internal/sourcereg/providers/plaintext]: lists in a file

  [plaintext.go]: construction from the configuration map, loading, the
  accessors; an instance of the registry's [Source] interface. *)

From S2P Require Import Prelude GoLib Os Netip NetipText Config Sourcereg.

(** ** Data *)

Record PlainConfig := MkPlainConfig { pt_Type : string; pt_File : string }.

(** A nil slice and an empty one are the same list. *)
Record Provider := MkProvider {
  pv_id : string; pv_prefix : string; pv_config : PlainConfig; pv_domains : list string;
  pv_prefixes : list Prefix; pv_loadedAt : option Z; pv_lastErr : string }.

(** [v, ok := cfg[key].(string)], the zero value when it is not one. *)
Definition cfg_string (cfg : gmap string any) (key : string) : string :=
  match cfg !! key with Some (AStr s) => s | _ => "" end.

Definition plain_config (cfg : gmap string any) : res error PlainConfig :=
  let t := cfg_string cfg "type" in
  let f := cfg_string cfg "file" in
  let t := if String.eqb t "" then "domains"%string else t in
  if negb (String.eqb t "domains") && negb (String.eqb t "ips")
  then Err (ErrNew "plaintext: type must be 'domains' or 'ips'")
  else if String.eqb f "" then Err (ErrNew "plaintext: file is required")
  else Ok (MkPlainConfig t f).

Definition NewProvider (id prefix : string) (cfg : gmap string any) : res error Provider :=
  match plain_config cfg with
  | Err e => Err e
  | Ok c => Ok (MkProvider id prefix c [] [] None "")
  end.

Definition IsDomainSource (p : Provider) : bool := String.eqb (pt_Type (pv_config p)) "domains".
Definition IsPrefixSource (p : Provider) : bool := String.eqb (pt_Type (pv_config p)) "ips".

Definition default_category (p : Provider) : string := pv_prefix p +:+ ":" +:+ "default".
Definition Categories (p : Provider) : list string := [default_category p].
(** [Enabled] is the constant [true]. *)
Definition PlaintextInfo (p : Provider) : SourceInfo :=
  MkSourceInfo (pv_id p) "plaintext" (pv_prefix p) true (Categories p) (pv_loadedAt p) (pv_lastErr p).

(** ** [Load] *)

(** One line of the file: what it adds to the domains or to the prefixes. *)
Definition content_line (raw : string) : option string :=
  let line := TrimSpace raw in
  if String.eqb line "" || HasPrefix line "#" then None else Some line.

Definition line_prefix (line : string) : option Prefix :=
  match ParsePrefix line with
  | Some p => Some p
  | None =>
      match ParseAddr line with
      | Some a => Some (PrefixFrom a (if Is4 a then 32 else 128)%Z)
      | None => None
      end
  end.

(** The entries of a text: domains and prefixes, one of them empty. *)
Definition entries (is_domains : bool) (lines : list string) : list string * list Prefix :=
  let content := omap content_line lines in
  if is_domains then (content, []) else ([], omap line_prefix content).

Section Load.
Context {K : Type} `{Env K}.

Definition failed (p : Provider) (ds : list string) (ps : list Prefix) (e : error) : Provider :=
  MkProvider (pv_id p) (pv_prefix p) (pv_config p) ds ps None (Error e).

(** Reading the open file: a failing read has delivered what the environment
    chooses. *)
Definition read_opened (content : string) (w : World K) : string * option error * World K :=
  let n := w_calls w in
  match fault n with
  | Some e => (default "" (torn n (Some content) ""), Some (ErrNew e), tick w)
  | None => (content, None, tick w)
  end.

Definition Load (p : Provider) (w : World K) : (Provider * option error) * World K :=
  match ReadFile (pt_File (pv_config p)) w with
  | (Err e, w) =>
      ((failed p (pv_domains p) (pv_prefixes p) e, Some (ErrWrap "plaintext: open" e)), w)
  | (Ok content, w) =>
      let '(text, err, w) := read_opened content w in
      let '(lines, too_long) := scan_lines (Split text (ascii_of_nat 10)) in
      let '(ds, ps) := entries (IsDomainSource p) lines in
      match (if too_long then Some ErrTooLong else err) with
      | Some e => ((failed p ds ps e, Some (ErrWrap "plaintext: scan" e)), w)
      | None =>
          let now := clock (w_calls w) in
          ((MkProvider (pv_id p) (pv_prefix p) (pv_config p) ds ps (Some now) "", None), tick w)
      end
  end.
End Load.

(** ** Accessors *)

Definition get_entries {A} (p : Provider) (category : string) (l : list A) : res error (list A) :=
  if negb (String.eqb category (default_category p)) then Err (ErrNew "plaintext: unknown category")
  else match l with [] => Err (ErrNew "plaintext: not loaded") | _ => Ok l end.

Definition GetDomains (p : Provider) (category : string) : res error (list string) :=
  get_entries p category (pv_domains p).
Definition GetPrefixes (p : Provider) (category : string) : res error (list Prefix) :=
  get_entries p category (pv_prefixes p).

Lemma Load_same {K} `{Env K} (p : Provider) (w : World K) :
  let p' := fst (fst (Load p w)) in
  pv_id p' = pv_id p /\ pv_prefix p' = pv_prefix p /\ IsDomainSource p' = IsDomainSource p.
Proof.
  unfold Load. destruct (ReadFile _ w) as [[content|e] w1]; [|done].
  destruct (read_opened content w1) as [[text err] w2].
  destruct (scan_lines _) as [lines bad]. destruct (entries _ lines) as [ds ps].
  by destruct (if bad then _ else _).
Qed.

#[export, refine] Instance plaintext_source {K} `{Env K} : Source K Provider := {|
  src_ID := pv_id; src_Prefix := pv_prefix; src_IsDomainSource := IsDomainSource;
  src_IsPrefixSource := IsPrefixSource; src_Categories := Categories;
  src_Info := PlaintextInfo; src_Load := Load; src_GetDomains := GetDomains;
  src_GetPrefixes := GetPrefixes
|}.
Proof.
  - intros s c Hc. apply list_elem_of_singleton in Hc as ->. by eexists.
  - apply Load_same.
Defined.

(** A registry of plaintext sources only: the other factories are not registered. *)
Definition create_plaintext {K} (cfg : SrcConfig) (w : World K) : res error Provider * World K :=
  ((if String.eqb (sg_Provider cfg) "plaintext" then NewProvider (sg_ID cfg) (sg_Prefix cfg) (sg_Config cfg)
    else Err (ErrNew "sourcereg: unknown provider")), w).

Definition is_ok {E A} (r : res E A) : bool := match r with Ok _ => true | Err _ => false end.

Lemma cfg_string_texts c c' key : texts <$> c = texts <$> c' -> cfg_string c key = cfg_string c' key.
Proof.
  intros E. assert ((texts <$> c) !! key = (texts <$> c') !! key) as Ek by by rewrite E.
  rewrite !lookup_fmap in Ek. unfold cfg_string.
  destruct (c !! key) as [[]|], (c' !! key) as [[]|]; cbn in Ek; simplify_eq; done.
Qed.

Lemma plain_config_texts c c' : texts <$> c = texts <$> c' -> plain_config c = plain_config c'.
Proof. intros E. unfold plain_config. by rewrite !(cfg_string_texts c c' _ E). Qed.

#[export, refine] Instance plaintext_factory {K} `{Env K} : Factories K Provider := {|
  createSource := create_plaintext;
  creatable cfg := is_ok (fst (create_plaintext cfg (MkWorld ∅ tt 0)))
|}.
Proof.
  - intros cfg w s w'. unfold create_plaintext, NewProvider. intros [= E <-]. rewrite E.
    split; [done|]. destruct (String.eqb _ _); [|done]. destruct (plain_config _); [|done].
    by injection E as <-.
  - intros cfg w e w'. unfold create_plaintext. intros [= E <-]. cbn. by rewrite E.
  - intros cfg c E. unfold create_plaintext, NewProvider. cbn. by rewrite (plain_config_texts _ _ E).
Defined.
