(* ===== verification/PlaintextSpec.v ===== *)
(** * Plaintext sources, alone and in the registry

  What a plaintext file yields, the files of the exporter among them, and that a
  registry serves an added source whether or not it is enabled. *)

From S2P Require Import Prelude GoLib Os Netip NetipText Config Plan.
From S2P Require Import Exporter Sourcereg SourceregSpec Machine Plaintext.

Section PlaintextSpec.
Context {K : Type} `{Env K}.
Implicit Types (w : World K) (p : Provider).

(** Loading a text file without faults. *)
Lemma Load_text p lines w :
  fault (w_calls w) = None -> fault (S (w_calls w)) = None ->
  Forall plain_line lines -> w_files w !! pt_File (pv_config p) = Some (lines_text lines) ->
  exists now w', Load p w =
    ((MkProvider (pv_id p) (pv_prefix p) (pv_config p) (fst (entries (IsDomainSource p) lines))
        (snd (entries (IsDomainSource p) lines)) (Some now) "", None), w').
Proof.
  intros Hf Hf' Hl Hfile. unfold Load. rewrite ReadFile_nofault, Hfile by done.
  unfold read_opened. cbn [w_calls tick]. rewrite Hf', scan_lines_text by done.
  destruct (entries _ lines) as [ds ps]. by eexists _, _.
Qed.

(** An entry that survives trimming and is no comment. *)
Definition entry_ok (d : string) : Prop := word d = true /\ HasPrefix d "#" = false /\ plain_line d.

Lemma content_lines ds : Forall entry_ok ds -> omap content_line ds = ds.
Proof.
  induction 1 as [|d ds (Hw & Hh & _) _ IH]; [done|]. cbn [omap list_omap]. rewrite IH.
  unfold content_line. rewrite TrimSpace_word by done. rewrite Hh.
  unfold word in Hw. apply andb_true_iff in Hw as [_ Hne]. apply negb_true_iff in Hne. by rewrite Hne.
Qed.

Lemma no_hash s : str_forallb (fun c => negb (Ascii.eqb "#" c)) s = true -> HasPrefix s "#" = false.
Proof. destruct s as [|c s]; [done|]. cbn. intros [Hc _]%andb_true_iff. by destruct c as [[] [] [] [] [] [] [] []]. Qed.

Lemma PString_entry q : prefix_wf q -> entry_ok (PString q).
Proof.
  intros Hq. split; [by apply PString_word|]. split; [|by apply PString_line].
  apply no_hash, PString_chars; [done| |done..]. by intros [[] [] [] [] [] [] [] []].
Qed.

Lemma prefix_lines ps : Forall prefix_wf ps -> omap line_prefix (PString <$> ps) = ps.
Proof.
  induction 1 as [|q ps Hq _ IH]; [done|]. cbn [fmap list_fmap omap list_omap] in *. rewrite IH.
  unfold line_prefix. by rewrite ParsePrefix_PString.
Qed.

Lemma render_lines ps : render ps = lines_text (PString <$> ps).
Proof. unfold render, concat_lines, lines_text. induction ps as [|q ps IH]; [done|]. cbn. rewrite IH. by rewrite str_app_assoc. Qed.

Lemma Forall_line ds : Forall entry_ok ds -> Forall plain_line ds.
Proof. intros Hd. eapply Forall_impl; [exact Hd|]. by intros d (_ & _ & ?). Qed.

(** C33. What the exporter writes is a source again: a prefix source that loads an
    exported file serves exactly the exported prefixes, in order; an empty export
    counts as "not loaded". *)
Theorem export_is_source p ps w :
  pt_Type (pv_config p) = "ips"%string -> Forall prefix_wf ps ->
  fault (w_calls w) = None -> fault (S (w_calls w)) = None ->
  w_files w !! pt_File (pv_config p) = Some (render ps) ->
  let '((p', e), _) := Load p w in
  e = None /\
  GetPrefixes p' (default_category p') =
    match ps with [] => Err (ErrNew "plaintext: not loaded") | _ => Ok ps end.
Proof.
  intros Ht Hps Hf Hf' Hfile. rewrite render_lines in Hfile.
  assert (Forall entry_ok (PString <$> ps)) as He.
  { apply Forall_fmap. eapply Forall_impl; [exact Hps|]. exact PString_entry. }
  destruct (Load_text p (PString <$> ps) w Hf Hf' (Forall_line _ He) Hfile) as (now & w' & ->).
  split; [done|]. unfold GetPrefixes, get_entries, default_category. cbn [pv_prefix pv_prefixes].
  rewrite String.eqb_refl. cbn [negb].
  unfold entries, IsDomainSource. rewrite Ht. cbn [String.eqb Ascii.eqb Bool.eqb snd].
  rewrite content_lines, prefix_lines by done. by destruct ps.
Qed.

Context `{ConfigCodec}.

Lemma create_plaintext_ok cfg w s w' :
  create_plaintext cfg w = (Ok s, w') ->
  w' = w /\ exists c, plain_config (sg_Config cfg) = Ok c /\
    s = MkProvider (sg_ID cfg) (sg_Prefix cfg) c [] [] None "".
Proof.
  unfold create_plaintext, NewProvider. destruct (String.eqb _ _); [|done].
  destruct (plain_config _) as [c|e]; [|done]. intros [= <- <-]. eauto.
Qed.

(** An added domain source is served at once: when its file lists domains, one
    per line, the registry answers with exactly these domains for the source's
    category and resolves it as a domain category, and does so whether the source
    was added as enabled or as disabled. *)
Theorem added_source_served order `{!MapOrder order} r w0 cfg w r' w' ds :
  rreach (St := Provider) order r w0 ->
  (forall n, fault n = None) ->
  cfg_string (sg_Config cfg) "type" = "domains"%string ->
  w_files w !! cfg_string (sg_Config cfg) "file" = Some (lines_text ds) ->
  Forall entry_ok ds -> ds <> [] ->
  AddSource r cfg w = ((r', None), w') ->
  let cat := sg_Prefix cfg +:+ ":" +:+ "default" in
  Sourcereg.GetDomains order r' cat = Ok ds /\
  ResolveCategory order r' cat = Some (sg_ID cfg, "domain"%string).
Proof.
  intros Hr Hnf Hty Hfile Hds Hne Hadd cat. pose proof (rreach_inv _ _ _ Hr) as Hi.
  assert (rinv r') as Hi' by by eapply rinv_add.
  assert (exists s, reg_sources r' !! sg_ID cfg = Some s /\ pv_id s = sg_ID cfg /\ pv_prefix s = sg_Prefix cfg /\
            pv_domains s = ds /\ IsDomainSource s = true) as (s & Hs & Hid & Hp & Hd & Hk).
  { unfold AddSource in Hadd. destruct (check_source cfg); [done|]. cbn [createSource plaintext_factory] in Hadd.
    destruct (create_plaintext cfg w) as [[s|e] w1] eqn:Ec; [|done].
    apply create_plaintext_ok in Ec as (-> & c & Hc & ->).
    destruct (marshal_config _); [|done]. unfold db_exec, syscall in Hadd. rewrite Hnf in Hadd.
    destruct (upsert_row _ _ _); [|done]. unfold load_enabled in Hadd. cbn [src_Info PlaintextInfo in_Enabled src_Load plaintext_source] in Hadd.
    assert (c = MkPlainConfig "domains" (cfg_string (sg_Config cfg) "file")) as ->.
    { unfold plain_config in Hc. rewrite Hty in Hc. cbn in Hc. destruct (String.eqb _ _); [done|]. by injection Hc as <-. }
    set (p0 := MkProvider _ _ _ _ _ _ _) in Hadd.
    destruct (Load_text p0 ds (tick w) (Hnf _) (Hnf _) (Forall_line _ Hds) Hfile) as (now & w2 & El).
    rewrite El in Hadd. injection Hadd as <- <-. cbn [reg_sources]. rewrite lookup_insert_eq.
    eexists. split; [reflexivity|]. cbn. by rewrite content_lines. }
  assert (findSourceForCategory order r' cat = Some s) as Hfind.
  { apply findSource_spec; [done|done|]. exists (sg_ID cfg). split; [done|].
    cbn. unfold Categories, default_category. rewrite Hp. set_solver. }
  unfold Sourcereg.GetDomains, ResolveCategory. rewrite Hfind. cbn [src_IsDomainSource src_GetDomains src_ID plaintext_source].
  rewrite Hk, Hid. split; [|done]. unfold GetDomains, get_entries, default_category.
  rewrite Hp, String.eqb_refl, Hd. cbn [negb]. by destruct ds.
Qed.
End PlaintextSpec.

(** ** A concrete registry *)

Definition text_of (v : any) : option string := match v with AStr s => Some s | _ => None end.

(** A codec of the configurations made of texts. *)
#[export, refine] Instance text_codec : ConfigCodec := {|
  marshal_config c :=
    let m := omap text_of c in
    if decide (dom m = dom c) then Some (string_of_pos (encode m)) else None;
  unmarshal_config b := (fun m : gmap string string => AStr <$> m) <$> decode (pos_of_string b)
|}.
Proof.
  intros c b. cbv zeta. destruct (decide _) as [Hd|]; [|done]. intros [= <-].
  rewrite pos_of_string_of_pos, decode_encode. eexists. split; [reflexivity|].
  apply map_eq. intros k. rewrite !lookup_fmap, lookup_omap.
  destruct (c !! k) as [v|] eqn:Hk; [|done]. cbn.
  assert (k ∈ dom (omap text_of c)) as Hin.
  { rewrite Hd. by apply elem_of_dom_2 in Hk. }
  apply elem_of_dom in Hin as [s Hs]. rewrite lookup_omap, Hk in Hs. cbn in Hs. rewrite Hs.
  by destruct v; cbn in Hs; simplify_eq.
Defined.

Definition list_file (name content : string) : World Kernel := MkWorld {[name := content]} (MkKernel ∅ ∅) 0.

Definition corp : SrcConfig :=
  MkSrcConfig "corp" "plaintext" "corp" false {["type"%string := AStr "domains"; "file"%string := AStr "/f"]}.
Definition corp_world : World Kernel := list_file "/f" (lines_text ["a.example"; "b.example"]%string).
Definition corp_added : DBRegistry Provider * World Kernel :=
  let '((r, _), w) := AddSource NewDBRegistry corp corp_world in (r, w).

Lemma corp_add : AddSource NewDBRegistry corp corp_world = ((fst corp_added, None), snd corp_added).
Proof. vm_compute. reflexivity. Qed.

Lemma added_source_served_witness :
  Sourcereg.GetDomains (K := Kernel) elements (fst corp_added) "corp:default" = Ok ["a.example"; "b.example"]%string.
Proof.
  apply (added_source_served (K := Kernel) elements NewDBRegistry corp_world corp corp_world
           (fst corp_added) (snd corp_added) ["a.example"; "b.example"]%string).
  - constructor.
  - done.
  - reflexivity.
  - reflexivity.
  - repeat constructor.
  - done.
  - exact corp_add.
Defined.

Definition nets : Provider := MkProvider "nets" "nets" (MkPlainConfig "ips" "/n") [] [] None "".

Lemma export_is_source_witness :
  GetPrefixes (fst (fst (Load nets (list_file "/n" (render (demo4 ++ demo6)))))) "nets:default" = Ok (demo4 ++ demo6).
Proof.
  pose proof (export_is_source nets (demo4 ++ demo6) (list_file "/n" (render (demo4 ++ demo6)))) as Hs.
  destruct (Load nets (list_file "/n" (render (demo4 ++ demo6)))) as [[p' e] w'] eqn:El.
  cbn [fst]. destruct Hs as [_ Hg]; [reflexivity|by_decision|reflexivity|reflexivity|reflexivity|].
  assert (default_category p' = "nets:default"%string) as Hc.
  { pose proof (Load_same nets (list_file "/n" (render (demo4 ++ demo6)))) as Hp. rewrite El in Hp.
    destruct Hp as (_ & Hp & _). unfold default_category. cbn [fst] in Hp. by rewrite Hp. }
  by rewrite <- Hc.
Defined.

(** The registry's other claims, on the registry that holds [corp]. *)
Lemma corp_reach : rreach (K := Kernel) elements (fst corp_added) (snd corp_added).
Proof.
  apply (rreach_step elements NewDBRegistry corp_world (RAdd corp)); [constructor|].
  cbn [ract]. by rewrite corp_add.
Qed.


Lemma category_owner_witness :
  exists s, findSourceForCategory (K := Kernel) elements (fst corp_added) "corp:default" = Some s /\ pv_id s = "corp"%string.
Proof.
  destruct (category_owner (K := Kernel) elements elements (fst corp_added) (snd corp_added) "corp:default" corp_reach)
    as (_ & _ & Hf).
  destruct (reg_sources (fst corp_added) !! "corp"%string) as [s|] eqn:Hs; [|by vm_compute in Hs].
  exists s. split.
  - apply (Hf "corp"%string s Hs). vm_compute in Hs. injection Hs as <-. apply list_elem_of_singleton. reflexivity.
  - vm_compute in Hs. by injection Hs as <-.
Defined.

Lemma AddSource_spec_witness :
  exists row, reg_db (fst corp_added) = {["corp"%string := row]} /\ row_enabled row = 0%Z.
Proof.
  destruct (AddSource_spec NewDBRegistry corp corp_world (fst corp_added) None (snd corp_added) corp_add)
    as ((row & Hdb & _ & He) & _).
  exists row. split; [exact Hdb|exact He].
Defined.

Definition corp_reloaded := LoadAll (K := Kernel) elements (CloseRegistry (fst corp_added)) (snd corp_added).

Lemma LoadAll_restores_witness : dom (reg_sources (fst (fst corp_reloaded))) = {["corp"%string]}.
Proof.
  assert (rreach (K := Kernel) elements (CloseRegistry (fst corp_added)) (snd corp_added)) as Hr.
  { by apply (rreach_step elements (fst corp_added) (snd corp_added) RClose); [apply corp_reach|]. }
  assert (corp_reloaded = ((fst (fst corp_reloaded), None), snd corp_reloaded)) as E by (vm_compute; reflexivity).
  destruct (LoadAll_restores elements _ _ _ _ _ _ Hr E) as (_ & Hd & _).
  rewrite Hd. vm_compute. reflexivity.
Defined.
