(* ===== verification/Store.v ===== *)
(** * [internal/source]: the local copy of a remote file

  [store.go]: [HTTPStore], its conditional fetch into a temporary file, the
  fallback to the cached copy and the metadata sidecar.  The HTTP client, the
  digest and the JSON of the metadata are interfaces. *)

From S2P Require Import Prelude GoLib Os Netip Config Exporter.

Local Open Scope Z_scope.

(** ** Data and interfaces *)

(** [FetchedAt] is [None] for the zero time. *)
Record Version := MkVersion {
  vs_SHA256 : string; vs_Size : Z; vs_FetchedAt : option Z; vs_ETag : string; vs_LastModified : string }.
Definition zeroVersion : Version := MkVersion "" 0 None "" "".

(** A response: its status, the bytes its body delivers and the error that ends
    it early, if any, and the two headers. *)
Record Response := MkResponse {
  hr_Status : Z; hr_Body : string; hr_BodyErr : option error; hr_ETag : string; hr_LastModified : string }.

Class Http (K : Type) := {
  valid_url : string -> bool;
  (** GET with [If-None-Match] and [If-Modified-Since], empty when not set *)
  http_get : string -> string -> string -> K -> res error Response * K
}.

Class VersionCodec := {
  marshal_version : Version -> string;
  unmarshal_version : string -> option Version
}.

Record HTTPStore := MkStore { hs_url : string; hs_cachePath : string; hs_timeout : Z; hs_current : Version }.

Definition with_current (s : HTTPStore) (v : Version) : HTTPStore :=
  MkStore (hs_url s) (hs_cachePath s) (hs_timeout s) v.

Definition meta_path (s : HTTPStore) : string := hs_cachePath s +:+ ".meta.json".
Definition temp_path (s : HTTPStore) : string := hs_cachePath s +:+ ".tmp".

Section Store.
Context {K : Type} `{Env K} `{Http K} `{Digest} `{VersionCodec}.
Local Notation IO := (IO K).

(** [os.Stat]. *)
Definition Stat (path : string) : IO unit :=
  syscall;; io_fun (fun w => match w_files w !! path with Some _ => (Ok tt, w) | None => (Err ErrNotExist, w) end).

(** [os.Create]. *)
Definition Create (path : string) : IO unit :=
  syscall;; io_fun (fun w => (Ok tt, set_file path (Some ""%string) w)).

(** ** Metadata *)

(** [None] is a panic: the log line slices the first 16 bytes of the digest. *)
Definition loadMetadata (s : HTTPStore) (w : World K) : option (HTTPStore * option error) * World K :=
  match ReadFile (meta_path s) w with
  | (Err e, w) => (Some (s, Some e), w)
  | (Ok data, w) =>
      match unmarshal_version data with
      | None => (Some (s, Some (ErrNew "json")), w)
      | Some v =>
          if Nat.ltb (String.length (vs_SHA256 v)) 16 then (None, w) else (Some (with_current s v, None), w)
      end
  end.

Definition saveMetadata (s : HTTPStore) : IO unit := WriteFile (meta_path s) (marshal_version (hs_current s)).

Definition NewHTTPStore (url cachePath : string) (timeout : Z) (w : World K)
    : option (res error HTTPStore) * World K :=
  if String.eqb url "" then (Some (Err (ErrNew "source: url cannot be empty")), w)
  else if String.eqb cachePath "" then (Some (Err (ErrNew "source: cachePath cannot be empty")), w)
  else match loadMetadata (MkStore url cachePath timeout zeroVersion) w with
       | (Some (s, _), w) => (Some (Ok s), w)
       | (None, w) => (None, w)
       end.

(** ** Fetching *)

Definition fallback (s : HTTPStore) (fetchErr : error) : IO (HTTPStore * string * Version) :=
  st ← io_try (Stat (hs_cachePath s));
  match st with
  | Ok _ => mret (s, hs_cachePath s, hs_current s)
  | Err _ => io_err fetchErr
  end.

(** The number of bytes copied; the file and the digest get the same bytes. *)
Definition downloadToFile (resp : Response) (path : string) : IO Z :=
  MkdirAll path;;
  Create path;;
  AppendFile path (hr_Body resp);;
  match hr_BodyErr resp with
  | Some e => io_err e
  | None => Sync path;; mret (Z.of_nat (String.length (hr_Body resp)))
  end.

Definition GetUrl (url etag since : string) : IO Response := fun w =>
  let '(r, k) := http_get url etag since (w_kern w) in (r, MkWorld (w_files w) k (S (w_calls w))).

(** A fetched body under its temporary name becomes the cached file. *)
Definition install (s : HTTPStore) (resp : Response) (size : Z) : IO (HTTPStore * string * Version) :=
  r ← io_try (Rename (temp_path s) (hs_cachePath s));
  match r with
  | Err e =>
      _ ← io_try (Remove (temp_path s));
      fallback s (ErrWrap "source: atomic rename failed" e)
  | Ok _ =>
      now ← Now;
      let v := MkVersion (sha256_hex (hr_Body resp)) size (Some now) (hr_ETag resp) (hr_LastModified resp) in
      let s := with_current s v in
      _ ← io_try (saveMetadata s);
      mret (s, hs_cachePath s, v)
  end.

Definition fetchLocked (s : HTTPStore) : IO (HTTPStore * string * Version) :=
  if negb (valid_url (hs_url s)) then fallback s (ErrNew "source: create request") else
  r ← io_try (GetUrl (hs_url s) (vs_ETag (hs_current s)) (vs_LastModified (hs_current s)));
  match r with
  | Err e => fallback s (ErrWrap "source: http request" e)
  | Ok resp =>
      if hr_Status resp =? 304 then
        st ← io_try (Stat (hs_cachePath s));
        match st with
        | Ok _ => mret (s, hs_cachePath s, hs_current s)
        | Err _ => io_err (ErrNew "source: 304 response but no local file")
        end
      else if negb (hr_Status resp =? 200) then fallback s (ErrNew "source: http status")
      else
        d ← io_try (downloadToFile resp (temp_path s));
        match d with
        | Err e =>
            _ ← io_try (Remove (temp_path s));
            fallback s (ErrWrap "source: download failed" e)
        | Ok size => install s resp size
        end
  end.

(** Whether the copy is younger than [maxAge]; the clock is read only when there
    is a copy. *)
Definition is_fresh (s : HTTPStore) (maxAge : Z) : IO bool :=
  match vs_FetchedAt (hs_current s) with
  | None => mret false
  | Some t => now ← Now; mret (Z.max (- 2 ^ 63) (Z.min (2 ^ 63 - 1) (now - t)) <? maxAge)
  end.

Definition Get (s : HTTPStore) (maxAge : Z) : IO (HTTPStore * string * Version) :=
  if maxAge =? 0 then
    st ← io_try (Stat (hs_cachePath s));
    match st with
    | Err e => io_err (ErrWrap "source: no cached file available" e)
    | Ok _ => mret (s, hs_cachePath s, hs_current s)
    end
  else
    fresh ← is_fresh s maxAge;
    if fresh : bool then
      st ← io_try (Stat (hs_cachePath s));
      match st with
      | Ok _ => mret (s, hs_cachePath s, hs_current s)
      | Err _ => fetchLocked s
      end
    else fetchLocked s.

Definition ForceRefresh (s : HTTPStore) : IO (HTTPStore * string * Version) := fetchLocked s.
Definition StoreInfo (s : HTTPStore) : Version := hs_current s.
End Store.
