(* ===== verification/Providers.v ===== *)
(** * [internal/sourcereg/providers]: what the providers share

  Reading a configuration map, the files of the v2fly releases and the map from
  countries to prefixes of the sources of prefixes. *)

From S2P Require Import Prelude GoLib Os Netip NetipText Config Duration Exporter Store Sourcereg Plaintext.

Local Open Scope Z_scope.

(** ** Prefixes of countries *)

(** [prefixes, ok := p.prefixes[country]] of a loaded provider. *)
Definition get_country (loadedAt : option Z) (prefix : string) (m : gmap string (list Prefix)) (category : string)
    : res error (list Prefix) :=
  match loadedAt with
  | None => Err (ErrNew "not loaded")
  | Some _ =>
      let expectedPrefix := prefix +:+ ":" in
      if negb (HasPrefix category expectedPrefix) then Err (ErrNew "unknown category")
      else match m !! TrimPrefix category expectedPrefix with
           | Some prefixes => Ok prefixes
           | None => Err (ErrNew "unknown country")
           end
  end.

(** [p.prefixes[country] = append(p.prefixes[country], prefix)] *)
Definition append_country (m : gmap string (list Prefix)) (country : string) (p : Prefix) : gmap string (list Prefix) :=
  <[country := default [] (m !! country) ++ [p]]> m.

(** [cfg[key].([]any)], the strings of it. *)
Definition cfg_strings (cfg : gmap string any) (key : string) : list string :=
  match cfg !! key with
  | Some (AList l) => omap (fun v => match v with AStr s => Some s | _ => None end) l
  | _ => []
  end.

(** [netip.AddrFromSlice] *)
Definition AddrFromSlice (bs : list Z) : option Addr :=
  if Nat.eqb (length bs) 4 then Some (AddrFrom4 bs)
  else if Nat.eqb (length bs) 16 then Some (AddrFrom16 bs) else None.

(** ** Files of a release *)

(** [v, ok := cfg[key].(string)], a default when it is empty. *)
Definition cfg_default (cfg : gmap string any) (key dflt : string) : string :=
  if String.eqb (cfg_string cfg key) "" then dflt else cfg_string cfg key.

(** The refresh interval and the store of the configuration; [None] is the panic of
    [NewHTTPStore]. *)
Definition dat_store {K} `{Env K} `{VersionCodec} (name defaultURL defaultPath : string) (cfg : gmap string any) (w : World K)
    : option (res error (Z * HTTPStore)) * World K :=
  match ParseDuration (cfg_default cfg "refresh_interval" "24h") with
  | None => (Some (Err (ErrNew (name +:+ ": invalid refresh_interval"))), w)
  | Some refresh =>
      match ParseDuration (cfg_default cfg "http_timeout" "30s") with
      | None => (Some (Err (ErrNew (name +:+ ": invalid http_timeout"))), w)
      | Some httpTimeout =>
          match NewHTTPStore (cfg_default cfg "url" defaultURL) (cfg_default cfg "cache_path" defaultPath) httpTimeout w with
          | (None, w) => (None, w)
          | (Some (Err e), w) => (Some (Err (ErrWrap (name +:+ ": create HTTPStore") e)), w)
          | (Some (Ok store), w) => (Some (Ok (refresh, store)), w)
          end
      end
  end.
