(* ===== verification/Ipverse.v ===== *)
(** * [internal/sourcereg/providers/ipverse]: address blocks of countries

  [ipverse.go]: one zone file for each country, fetched on every load; an instance of
  the registry's [Source] interface.  The time-out of the client is left out. *)

From S2P Require Import Prelude GoLib Os Netip NetipText Config Exporter Store Sourcereg Plaintext Providers.

Local Open Scope Z_scope.

Record Ipverse := MkIpverse {
  iv_id : string; iv_prefix : string; iv_BaseURL : string; iv_Countries : list string;
  iv_prefixes : gmap string (list Prefix); iv_loadedAt : option Z; iv_lastErr : string }.

Definition NewIpverse (id prefix : string) (cfg : gmap string any) : res error Ipverse :=
  let baseURL := cfg_string cfg "base_url" in
  let countries := cfg_strings cfg "countries" in
  let baseURL := if String.eqb baseURL "" then "https://ipverse.net/ipblocks/data/countries/{country}.zone"%string
                 else baseURL in
  if Nat.eqb (length countries) 0 then Err (ErrNew "ipverse: countries is required")
  else Ok (MkIpverse id prefix baseURL countries ∅ None "").

Definition IpverseCategories (p : Ipverse) : list string := (fun c => iv_prefix p +:+ ":" +:+ c) <$> iv_Countries p.

Definition IpverseInfo (p : Ipverse) : SourceInfo :=
  MkSourceInfo (iv_id p) "ipverse" (iv_prefix p) true (IpverseCategories p) (iv_loadedAt p) (iv_lastErr p).

Section Ipverse.
Context {K : Type} `{Env K} `{Http K}.

(** The scanner over a body that may end early. *)
Definition parsePrefixes (body : string) (bodyErr : option error) : res error (list Prefix) :=
  let '(lines, too_long) := scan_lines (Split body (ascii_of_nat 10)) in
  match (if too_long : bool then Some ErrTooLong else bodyErr) with
  | Some e => Err e
  | None => Ok (omap line_prefix (omap content_line lines))
  end.

Definition fetchCountry (url : string) : IO K (list Prefix) :=
  if negb (valid_url url) then io_err (ErrNew "invalid URL")
  else
    resp ← GetUrl url "" "";
    if negb (hr_Status resp =? 200) then io_err (ErrNew ("HTTP " +:+ Itoa (hr_Status resp)))
    else match parsePrefixes (hr_Body resp) (hr_BodyErr resp) with Ok ps => mret ps | Err e => io_err e end.

(** The loop over the countries: the map it leaves and the failure that ends it. *)
Fixpoint fetch_countries (baseURL : string) (countries : list string) (m : gmap string (list Prefix)) (w : World K)
    : gmap string (list Prefix) * option (string * error) * World K :=
  match countries with
  | [] => (m, None, w)
  | country :: countries' =>
      match fetchCountry (ReplaceAll baseURL "{country}" country) w with
      | (Err e, w) => (m, Some (country, e), w)
      | (Ok prefixes, w) => fetch_countries baseURL countries' (<[country := prefixes]> m) w
      end
  end.

Definition IpverseLoad (p : Ipverse) (w : World K) : (Ipverse * option error) * World K :=
  let p m t e := MkIpverse (iv_id p) (iv_prefix p) (iv_BaseURL p) (iv_Countries p) m t e in
  match fetch_countries (iv_BaseURL (p ∅ None ""%string)) (iv_Countries (p ∅ None ""%string)) ∅ w with
  | (m, Some (country, e), w) => ((p m None (Error e), Some (ErrWrap ("ipverse: fetch " +:+ country) e)), w)
  | (m, None, w) => ((p m (Some (clock (w_calls w))) ""%string, None), tick w)
  end.

Definition IpversePrefixes (p : Ipverse) : string -> res error (list Prefix) :=
  get_country (iv_loadedAt p) (iv_prefix p) (iv_prefixes p).

Lemma IpverseLoad_same (p : Ipverse) (w : World K) :
  let p' := fst (fst (IpverseLoad p w)) in iv_id p' = iv_id p /\ iv_prefix p' = iv_prefix p /\ iv_Countries p' = iv_Countries p.
Proof. unfold IpverseLoad. by destruct (fetch_countries _ _ _ _) as [[m [[c e]|]] w1]. Qed.

#[export, refine] Instance ipverse_source : Source K Ipverse := {|
  src_ID := iv_id; src_Prefix := iv_prefix; src_IsDomainSource _ := false; src_IsPrefixSource _ := true;
  src_Categories := IpverseCategories; src_Info := IpverseInfo; src_Load := IpverseLoad;
  src_GetDomains _ _ := Err (ErrNew "sourcereg: source does not provide domains"); src_GetPrefixes := IpversePrefixes
|}.
Proof.
  - intros s c (n & -> & _)%list_elem_of_fmap. by exists n.
  - intros s w. pose proof (IpverseLoad_same s w) as (? & ? & _). by split_and!.
Defined.
End Ipverse.
