(* ===== verification/Geoip.v ===== *)
(** * [internal/sourcereg/providers/v2flygeoip]: the geoip release

  [v2flygeoip.go]: the prefixes of every country of a downloaded file, an instance of
  the registry's [Source] interface.  The protobuf decoder is an interface; the parsed
  refresh interval is a field.  The order in which the map of countries is enumerated is
  a parameter. *)

From S2P Require Import Prelude GoLib Os Netip NetipText Config Exporter Store Sourcereg Providers.

Local Open Scope Z_scope.

(** ** The decoded file (generated code in [dlcpb]) *)

Record CIDR := MkCIDR { ci_Ip : list Z; ci_Prefix : Z }.
Record GeoIP := MkGeoIP { gi_CountryCode : string; gi_Cidr : list CIDR }.

(** [proto.Unmarshal] into a [GeoIPList]. *)
Class GeoIPCodec := { unmarshal_geoip : string -> option (list GeoIP) }.

Record Geoip := MkGeoip {
  gp_id : string; gp_prefix : string; gp_refresh : Z; gp_store : HTTPStore;
  gp_prefixes : gmap string (list Prefix); gp_loadedAt : option Z; gp_lastErr : string }.

(** [c] is never nil in a decoded list. *)
Definition cidrToPrefix (c : CIDR) : option Prefix :=
  if Nat.eqb (length (ci_Ip c)) 0 then None
  else addr ← AddrFromSlice (ci_Ip c); Some (PrefixFrom addr (ci_Prefix c)).

(** The entries of one country, appended. *)
Definition add_geoip (m : gmap string (list Prefix)) (entry : GeoIP) : gmap string (list Prefix) :=
  let country := ToLower (gi_CountryCode entry) in
  if String.eqb country "" then m else foldl (fun m p => append_country m country p) m (omap cidrToPrefix (gi_Cidr entry)).

Section Geoip.
Context {K : Type} `{Env K} `{Http K} `{Digest} `{VersionCodec} `{GeoIPCodec}.
Context (order : gset string -> list string) `{!MapOrder order}.

Definition NewGeoip (id prefix : string) (cfg : gmap string any) (w : World K) : option (res error Geoip) * World K :=
  match dat_store "v2flygeoip" "https://github.com/v2fly/geoip/releases/latest/download/geoip.dat"
          "/var/lib/d2ip/geoip.dat" cfg w with
  | (None, w) => (None, w)
  | (Some (Err e), w) => (Some (Err e), w)
  | (Some (Ok (refresh, store)), w) => (Some (Ok (MkGeoip id prefix refresh store ∅ None "")), w)
  end.

Definition GeoipCategories (p : Geoip) : list string :=
  (fun country => gp_prefix p +:+ ":" +:+ country) <$> order (dom (gp_prefixes p)).

Definition GeoipInfo (p : Geoip) : SourceInfo :=
  MkSourceInfo (gp_id p) "v2flygeoip" (gp_prefix p) true (GeoipCategories p) (gp_loadedAt p) (gp_lastErr p).

Definition geoip_with (p : Geoip) (store : HTTPStore) (m : gmap string (list Prefix)) (t : option Z) (lastErr : string) : Geoip :=
  MkGeoip (gp_id p) (gp_prefix p) (gp_refresh p) store m t lastErr.

(** [loadFromData]: the provider after it and its error. *)
Definition loadFromData (p : Geoip) (data : string) (w : World K) : (Geoip * option error) * World K :=
  match unmarshal_geoip data with
  | None =>
      let e := ErrWrap "v2flygeoip: unmarshal" (ErrNew "proto") in
      ((geoip_with p (gp_store p) ∅ None "", Some e), w)
  | Some entries =>
      ((geoip_with p (gp_store p) (foldl add_geoip ∅ entries) (Some (clock (w_calls w))) "", None), tick w)
  end.

Definition GeoipLoad (p : Geoip) (w : World K) : (Geoip * option error) * World K :=
  match Get (gp_store p) (gp_refresh p) w with
  | (Err e, w) => ((geoip_with p (gp_store p) ∅ None (Error e), Some (ErrWrap "v2flygeoip: fetch failed" e)), w)
  | (Ok (store, path, _), w) =>
      match ReadFile path w with
      | (Err e, w) => ((geoip_with p store ∅ None (Error e), Some (ErrWrap "v2flygeoip: read file" e)), w)
      | (Ok data, w) =>
          match loadFromData (geoip_with p store ∅ None "") data w with
          | ((p, Some e), w) => ((geoip_with p store (gp_prefixes p) (gp_loadedAt p) (Error e), Some e), w)
          | ((p, None), w) => ((p, None), w)
          end
      end
  end.

Definition GeoipPrefixes (p : Geoip) : string -> res error (list Prefix) :=
  get_country (gp_loadedAt p) (gp_prefix p) (gp_prefixes p).

Lemma GeoipLoad_same (p : Geoip) (w : World K) :
  let p' := fst (fst (GeoipLoad p w)) in gp_id p' = gp_id p /\ gp_prefix p' = gp_prefix p.
Proof.
  unfold GeoipLoad, loadFromData. destruct (Get _ _ w) as [[[[st path] v]|e] w1]; [|done].
  destruct (ReadFile path w1) as [[data|e] w2]; [|done]. by destruct (unmarshal_geoip data).
Qed.

#[export, refine] Instance geoip_source : Source K Geoip := {|
  src_ID := gp_id; src_Prefix := gp_prefix; src_IsDomainSource _ := false; src_IsPrefixSource _ := true;
  src_Categories := GeoipCategories; src_Info := GeoipInfo; src_Load := GeoipLoad;
  src_GetDomains _ _ := Err (ErrNew "sourcereg: source does not provide domains"); src_GetPrefixes := GeoipPrefixes
|}.
Proof.
  - intros s c (n & -> & _)%list_elem_of_fmap. by exists n.
  - intros s w. pose proof (GeoipLoad_same s w) as (? & ?). by split_and!.
Defined.
End Geoip.
