(* ===== verification/Mmdb.v ===== *)
(** * [internal/sourcereg/providers/mmdb]: a MaxMind database

  [mmdb.go]: the networks of a database file, given or downloaded, under the country
  of their record; an instance of the registry's [Source] interface.  The reader
  ([oschwald/maxminddb-golang]) is an interface: the networks it walks over, and what
  decoding a record makes of the variable it is decoded into.  The order in which the
  map of countries is enumerated is a parameter. *)

From S2P Require Import Prelude GoLib Os Netip NetipText Config Exporter Store Sourcereg Plaintext Providers.

Local Open Scope Z_scope.

(** ** Data and interfaces *)

(** [net.IPNet] *)
Record IPNet := MkIPNet { in_IP : list Z; in_Mask : list Z }.

(** [maxminddb.Open] and [Networks]: each step gives a network or nil, or an error,
    and the record that was (partly) decoded, and the walk ends with an error or without;
    the temporary name is one that does not exist. *)
Class MmdbReader := {
  record_t : Type;
  open_mmdb : string -> option (list (option (option IPNet) * record_t) * option error);
  decode_iso : record_t -> string -> string;
  mmdb_temp : gmap string string -> string;
  mmdb_temp_fresh files : files !! mmdb_temp files = None
}.

Record MmdbConfig := MkMmdbConfig { mc_File : string; mc_URL : string; mc_Countries : list string }.

(** [mm_reader] is the file the open reader was made from. *)
Record Mmdb := MkMmdb {
  mm_id : string; mm_prefix : string; mm_config : MmdbConfig; mm_prefixes : gmap string (list Prefix);
  mm_loadedAt : option Z; mm_lastErr : string; mm_reader : option string }.

Definition NewMmdb (id prefix : string) (cfg : gmap string any) : res error Mmdb :=
  let c := MkMmdbConfig (cfg_string cfg "file") (cfg_string cfg "url") (cfg_strings cfg "countries") in
  if String.eqb (mc_File c) "" && String.eqb (mc_URL c) ""
  then Err (ErrNew "mmdb: either file or url is required")
  else Ok (MkMmdb id prefix c ∅ None "" None).

(** ** Networks *)

(** The leading ones of a byte; [None] when ones follow a zero. *)
Definition leading_ones (v : Z) : option nat :=
  List.find (fun n => v =? 256 - 2 ^ (8 - Z.of_nat n)) (seq 0 9).

(** [IPMask.Size] of the standard library, [(0, 0)] when the mask is not canonical. *)
Fixpoint simpleMaskLength (m : list Z) : option nat :=
  match m with
  | [] => Some 0%nat
  | v :: m' =>
      if v =? 255 then Nat.add 8 <$> simpleMaskLength m'
      else n ← leading_ones v; if forallb (Z.eqb 0) m' then Some n else None
  end.

Definition MaskSize (m : list Z) : Z * Z :=
  match simpleMaskLength m with Some n => (Z.of_nat n, 8 * Z.of_nat (length m)) | None => (0, 0) end.

Definition netipPrefixFromIPNet (ipNet : option IPNet) : option Prefix :=
  n ← ipNet;
  let '(ones, bits) := MaskSize (in_Mask n) in
  if (ones =? 0) && (bits =? 0) then None
  else addr ← AddrFromSlice (in_IP n); Some (PrefixFrom addr ones).

(** The check of the whitelist, which an empty one passes, and the append. *)
Definition add_network (whitelist : list string) (prefix : Prefix) (country : string) (m : gmap string (list Prefix))
    : gmap string (list Prefix) :=
  if String.eqb country "" then m
  else if Nat.ltb 0 (length whitelist) && negb (one_of country whitelist) then m
  else append_country m country prefix.

(** ** Loading from an iterator *)

(** [extractCountry] *)
Definition any_field (v : any) (key : string) : option any :=
  match v with
  | AMap l => snd <$> List.find (fun kv => String.eqb (fst kv) key) l
  | _ => None
  end.
Definition extractCountry (record : any) : string :=
  match (country ← any_field record "country"; any_field country "iso_code") with
  | Some (AStr iso) => iso
  | _ => ""
  end.

Definition mmdb_with (p : Mmdb) (m : gmap string (list Prefix)) (t : option Z) (lastErr : string) (reader : option string) : Mmdb :=
  MkMmdb (mm_id p) (mm_prefix p) (mm_config p) m t lastErr reader.

Definition iterate (whitelist : list string) (m : gmap string (list Prefix)) (item : option IPNet * any)
    : gmap string (list Prefix) :=
  match netipPrefixFromIPNet (fst item) with
  | None => m
  | Some prefix => add_network whitelist prefix (extractCountry (snd item)) m
  end.

Section Mmdb.
Context {K : Type} `{Env K} `{Http K} `{MmdbReader}.
Context (order : gset string -> list string) `{!MapOrder order}.

Definition loadFromIterator (p : Mmdb) (items : list (option IPNet * any)) (w : World K) : (Mmdb * option error) * World K :=
  ((mmdb_with p (foldl (iterate (mc_Countries (mm_config p))) ∅ items) (Some (clock (w_calls w))) "" (mm_reader p), None), tick w).

(** ** Loading *)

(** One turn of the loop: the variable the record is decoded into outlives it. *)
Definition network_step (whitelist : list string) (acc : gmap string (list Prefix) * string)
    (item : option (option IPNet) * record_t) : gmap string (list Prefix) * string :=
  let '(m, record) := acc in
  let record := decode_iso (snd item) record in
  match fst item with
  | None => (m, record)
  | Some ipNet =>
      match netipPrefixFromIPNet ipNet with
      | None => (m, record)
      | Some prefix => (add_network whitelist prefix record m, record)
      end
  end.

Definition CreateMmdbTemp : IO K string := fun w =>
  match syscall w with
  | (Ok _, w) => let name := mmdb_temp (w_files w) in (Ok name, set_file name (Some ""%string) w)
  | (Err e, w) => (Err e, w)
  end.

Definition downloadToTemp (url : string) : IO K string :=
  if negb (valid_url url) then io_err (ErrNew "invalid URL")
  else
    resp ← GetUrl url "" "";
    if negb (hr_Status resp =? 200) then io_err (ErrNew ("HTTP " +:+ Itoa (hr_Status resp)))
    else
      name ← CreateMmdbTemp;
      copied ← io_try (AppendFile name (hr_Body resp);;
                       match hr_BodyErr resp with Some e => io_err e | None => mret tt end);
      match copied with
      | Err e => _ ← io_try (Remove name); io_err e
      | Ok _ => mret name
      end.

(** The file to open, and the temporary file to remove at the end. *)
Definition mmdb_path (c : MmdbConfig) : IO K (string * option string) :=
  if String.eqb (mc_File c) "" && negb (String.eqb (mc_URL c) "")
  then path ← downloadToTemp (mc_URL c); mret (path, Some path)
  else mret (mc_File c, None).

(** [maxminddb.Open]: the content of the file, if it is a database. *)
Definition Open_mmdb (path : string) : IO K string :=
  data ← ReadFile path;
  match open_mmdb data with Some _ => mret data | None => io_err (ErrNew "error opening database: invalid MaxMind DB file") end.

(** The walk over the database. *)
Definition load_networks (p : Mmdb) (data : string) (w : World K) : (Mmdb * option error) * World K :=
  let '(items, walkErr) := default ([], None) (open_mmdb data) in
  let m := fst (foldl (network_step (mc_Countries (mm_config p))) (∅, ""%string) items) in
  match walkErr with
  | Some e => ((mmdb_with p m None (Error e) (Some data), Some (ErrWrap "mmdb: iterate" e)), w)
  | None => ((mmdb_with p m (Some (clock (w_calls w))) "" (Some data), None), tick w)
  end.

Definition MmdbLoad (p : Mmdb) (w : World K) : (Mmdb * option error) * World K :=
  match mmdb_path (mm_config p) w with
  | (Err e, w) => ((mmdb_with p ∅ None (Error e) (mm_reader p), Some (ErrWrap "mmdb: download" e)), w)
  | (Ok (path, tmp), w) =>
      let '(r, w) :=
        match Open_mmdb path w with
        | (Err e, w) => ((mmdb_with p ∅ None (Error e) (mm_reader p), Some (ErrWrap "mmdb: open" e)), w)
        | (Ok data, w) => load_networks p data w
        end in
      (r, match tmp with Some name => snd (Remove name w) | None => w end)
  end.

Definition MmdbCategories (p : Mmdb) : list string :=
  (fun country => mm_prefix p +:+ ":" +:+ country) <$> order (dom (mm_prefixes p)).

Definition MmdbInfo (p : Mmdb) : SourceInfo :=
  MkSourceInfo (mm_id p) "mmdb" (mm_prefix p) true (MmdbCategories p) (mm_loadedAt p) (mm_lastErr p).

Definition MmdbPrefixes (p : Mmdb) : string -> res error (list Prefix) :=
  get_country (mm_loadedAt p) (mm_prefix p) (mm_prefixes p).

Lemma MmdbLoad_same (p : Mmdb) (w : World K) :
  let p' := fst (fst (MmdbLoad p w)) in mm_id p' = mm_id p /\ mm_prefix p' = mm_prefix p.
Proof.
  unfold MmdbLoad, load_networks. destruct (mmdb_path _ w) as [[[path tmp]|e] w1]; [|done].
  destruct (Open_mmdb path w1) as [[data|e] w2]; [|done]. by destruct (default _ _) as [items [e|]].
Qed.

#[export, refine] Instance mmdb_source : Source K Mmdb := {|
  src_ID := mm_id; src_Prefix := mm_prefix; src_IsDomainSource _ := false; src_IsPrefixSource _ := true;
  src_Categories := MmdbCategories; src_Info := MmdbInfo; src_Load := MmdbLoad;
  src_GetDomains _ _ := Err (ErrNew "sourcereg: source does not provide domains"); src_GetPrefixes := MmdbPrefixes
|}.
Proof.
  - intros s c (n & -> & _)%list_elem_of_fmap. by exists n.
  - intros s w. pose proof (MmdbLoad_same s w) as (? & ?). by split_and!.
Defined.
End Mmdb.
