(* ===== verification/RwMutex.v ===== *)
(** * The lock of a source

  Every provider guards its fields with a [sync.RWMutex].  This file has the mutex as
  its documentation gives it (a call of [Lock] that waits keeps new readers out) and the
  lock operations of the providers' methods, as programs of goroutines that interleave. *)

From S2P Require Import Prelude.

(** ** Goroutines and the mutex *)

(** [Lock] is two steps: keeping others out, and having waited for the readers. *)
Inductive Act := ARLock | ARUnlock | AAnnounce | AAcquire | AUnlock.

#[export] Instance Act_eq_dec : EqDecision Act.
Proof. solve_decision. Defined.

(** [rw_writer]: a call of [Lock] waits or holds. *)
Record RW := MkRW { rw_readers : nat; rw_writer : bool }.

Definition rw_act (a : Act) (m : RW) : option RW :=
  match a with
  | ARLock => if rw_writer m then None else Some (MkRW (S (rw_readers m)) false)
  | ARUnlock => match rw_readers m with S n => Some (MkRW n (rw_writer m)) | O => None end
  | AAnnounce => if rw_writer m then None else Some (MkRW (rw_readers m) true)
  | AAcquire => if Nat.eqb (rw_readers m) 0 then Some m else None
  | AUnlock => Some (MkRW (rw_readers m) false)
  end.

(** The mutex and what every goroutine has left to do. *)
Record Locks := MkLocks { lk_rw : RW; lk_threads : list (list Act) }.

Inductive lstep : Locks -> Locks -> Prop :=
| lstep_act m m' ts i a prog :
    ts !! i = Some (a :: prog) -> rw_act a m = Some m' ->
    lstep (MkLocks m ts) (MkLocks m' (<[i := prog]> ts)).

Definition unlocked (ts : list (list Act)) : Locks := MkLocks (MkRW 0 false) ts.
Definition finished (s : Locks) : Prop := Forall (fun prog => prog = []) (lk_threads s).

(** ** The methods *)

Definition reading : list Act := [ARLock; ARUnlock].
Definition writing : list Act := [AAnnounce; AAcquire; AUnlock].

(** Categories, GetDomains, GetPrefixes and Info read, Load writes.  The plaintext and
    geosite providers take the lock once in a method. *)
Inductive Method := MRead | MInfo | MLoad.

Definition method_locks (m : Method) : list Act :=
  match m with MRead => reading | MInfo => reading | MLoad => writing end.

(** [Info] of the ipverse, geoip and mmdb providers calls [Categories] with the lock held. *)
Definition nested_info : list Act := [ARLock; ARLock; ARUnlock; ARUnlock].
Definition nested_method_locks (m : Method) : list Act :=
  match m with MRead => reading | MInfo => nested_info | MLoad => writing end.

(** A goroutine that calls methods one after the other. *)
Definition calls (locks : Method -> list Act) (ms : list Method) : list Act := ms ≫= locks.
