(* ===== verification/RwMutexSpec.v ===== *)
(** * Lock discipline

  Methods that take the lock once always return, whatever calls run at the same time;
  a method that takes it for reading a second time can wait for ever for a writer that
  waits for it. *)

From S2P Require Import Prelude RwMutex.
From stdpp Require Import relations.

(** ** Phases *)

(** Where a goroutine is in the methods that take the lock once. *)
Inductive Phase := PIdle | PReading | PWaiting | PWriting.

Inductive in_phase : Phase -> list Act -> Prop :=
| ph_idle ms : in_phase PIdle (calls method_locks ms)
| ph_reading ms : in_phase PReading (ARUnlock :: calls method_locks ms)
| ph_waiting ms : in_phase PWaiting (AAcquire :: AUnlock :: calls method_locks ms)
| ph_writing ms : in_phase PWriting (AUnlock :: calls method_locks ms).

Definition reads (p : Phase) : nat := match p with PReading => 1 | _ => 0 end.
Definition writes (p : Phase) : nat := match p with PWaiting | PWriting => 1 | _ => 0 end.
Definition holds (p : Phase) : nat := match p with PWriting => 1 | _ => 0 end.

(** The mutex counts the phases; a writer that holds it is alone. *)
Definition locks_inv (s : Locks) : Prop :=
  exists phs, Forall2 in_phase phs (lk_threads s) /\
    rw_readers (lk_rw s) = sum_list_with reads phs /\
    (if rw_writer (lk_rw s) then 1 else 0) = sum_list_with writes phs /\
    (0 < sum_list_with holds phs -> rw_readers (lk_rw s) = 0).

Lemma sum_insert {A} (f : A -> nat) l i x y :
  l !! i = Some x -> sum_list_with f (<[i := y]> l) + f x = sum_list_with f l + f y.
Proof.
  revert i. induction l as [|z l IH]; intros [|i] Hi; [done..| |]; cbn [list_lookup lookup] in Hi.
  - injection Hi as ->. cbn. lia.
  - apply IH in Hi. change (f z + sum_list_with f (<[i := y]> l) + f x = f z + sum_list_with f l + f y). lia.
Qed.

Lemma sum_pos {A} (f : A -> nat) l : 0 < sum_list_with f l -> exists i x, l !! i = Some x /\ 0 < f x.
Proof.
  induction l as [|z l IH]; cbn; [lia|]. destruct (decide (0 < f z)); [by exists 0, z|].
  intros Hs. destruct IH as (i & x & Hi & Hx); [lia|]. by exists (S i), x.
Qed.

Lemma sum_ge {A} (f : A -> nat) l i x : l !! i = Some x -> f x <= sum_list_with f l.
Proof. revert i. induction l as [|z l IH]; intros [|i]; cbn; try done; [intros [= ->]; lia|]. intros E%IH. lia. Qed.

Lemma lock_inv_init mss : locks_inv (unlocked (calls method_locks <$> mss)).
Proof.
  exists ((fun _ => PIdle) <$> mss). cbn. split_and!.
  - induction mss; constructor; [constructor|done].
  - by induction mss.
  - by induction mss.
  - done.
Qed.

(** One goroutine moves from a phase to another. *)
Lemma inv_move phs ts i ph prog ph' prog' m m' :
  Forall2 in_phase phs ts -> phs !! i = Some ph -> in_phase ph' prog' ->
  rw_readers m = sum_list_with reads phs -> (if rw_writer m then 1 else 0) = sum_list_with writes phs ->
  rw_readers m' + reads ph = rw_readers m + reads ph' ->
  (if rw_writer m' then 1 else 0) + writes ph = (if rw_writer m then 1 else 0) + writes ph' ->
  (0 < sum_list_with holds (<[i := ph']> phs) -> rw_readers m' = 0) ->
  ts !! i = Some prog -> locks_inv (MkLocks m' (<[i := prog']> ts)).
Proof.
  intros Hall Hi Hp Hr Hw Er Ew Hh _. exists (<[i := ph']> phs). cbn [lk_rw lk_threads].
  pose proof (sum_insert reads phs i ph ph' Hi). pose proof (sum_insert writes phs i ph ph' Hi).
  split_and!; [by apply Forall2_insert|lia|lia|done].
Qed.

Lemma lock_inv_step s s' : locks_inv s -> lstep s s' -> locks_inv s'.
Proof.
  intros (phs & Hall & Hr & Hw & Hh) Hs. destruct Hs as [m m' ts i a prog Hi Ha]. cbn [lk_rw lk_threads] in *.
  destruct (Forall2_lookup_r _ _ _ _ _ Hall Hi) as (ph & Hph & Hin).
  pose proof (sum_ge holds phs i ph Hph) as Hge. pose proof (sum_ge writes phs i ph Hph) as Hgw.
  pose proof (fun y => sum_insert holds phs i ph y Hph) as Hhi.
  assert (exists ph', in_phase ph' prog /\ rw_readers m' + reads ph = rw_readers m + reads ph' /\
    (if rw_writer m' then 1 else 0) + writes ph = (if rw_writer m then 1 else 0) + writes ph' /\
    (0 < sum_list_with holds (<[i := ph']> phs) -> rw_readers m' = 0)) as (ph' & Hp' & Er & Ew & Hh').
  2: { by eapply inv_move. }
  inversion Hin as [ms Eph E|ms Eph E|ms Eph E|ms Eph E]; subst ph; cbn [reads writes holds] in *.
  - destruct ms as [|[] ms]; try done; injection E as <- <-; cbn in Ha; destruct (rw_writer m); try done; injection Ha as <-.
    1,2: exists PReading; (split; [apply (ph_reading ms)|]); cbn; specialize (Hhi PReading); cbn in Hhi; (split_and!; [lia|lia|]);
      intros Hpos; exfalso; destruct (sum_pos holds phs) as (j & x & Hj & Hx); [lia|];
      pose proof (sum_ge writes phs j x Hj); destruct x; cbn in *; lia.
    exists PWaiting. split; [apply (ph_waiting ms)|]. cbn. specialize (Hhi PWaiting). cbn in Hhi. split_and!; [lia|lia|].
    intros Hpos. apply Hh. lia.
  - subst a prog. cbn in Ha. destruct (rw_readers m) as [|n] eqn:En; [done|]. injection Ha as <-.
    exists PIdle. split; [constructor|]. cbn. specialize (Hhi PIdle). cbn in Hhi. split_and!; [lia|lia|]. intros Hpos. lia.
  - subst a prog. cbn in Ha. destruct (Nat.eqb_spec (rw_readers m) 0) as [E0|]; [|done]. injection Ha as <-.
    exists PWriting. split; [constructor|]. cbn. split_and!; [lia|lia|done].
  - subst a prog. cbn in Ha. injection Ha as <-.
    exists PIdle. split; [constructor|]. cbn. specialize (Hhi PIdle). cbn in Hhi.
    assert (rw_readers m = 0) by (apply Hh; lia).
    destruct (rw_writer m); split_and!; lia.
Qed.

Lemma inv_reach mss s : rtc lstep (unlocked (calls method_locks <$> mss)) s -> locks_inv s.
Proof.
  apply (rtc_ind_r locks_inv); [apply lock_inv_init|]. intros s1 s2 _ Hs Hi. by eapply lock_inv_step.
Qed.

(** Somebody can always go on. *)
Lemma inv_progress s : locks_inv s -> finished s \/ exists s', lstep s s'.
Proof.
  intros (phs & Hall & Hr & Hw & Hh). destruct s as [m ts]. cbn [lk_rw lk_threads] in *.
  assert (forall i ph a prog m', phs !! i = Some ph -> ts !! i = Some (a :: prog) -> rw_act a m = Some m' ->
    exists s', lstep (MkLocks m ts) s') as Hgo by (intros; eexists; by econstructor).
  destruct (decide (0 < sum_list_with reads phs)) as [(i & ph & Hi & Hp)%sum_pos|Hr0].
  { destruct (Forall2_lookup_l _ _ _ _ _ Hall Hi) as (prog & Ht & Hin). destruct ph; cbn in Hp; try lia. inversion Hin; subst.
    destruct (rw_readers m) as [|n] eqn:En.
    - pose proof (sum_ge reads phs i PReading Hi). cbn in *. lia.
    - right. eapply Hgo; [exact Hi|done|]. cbn. by rewrite En. }
  assert (rw_readers m = 0) as E0 by lia.
  destruct (decide (0 < sum_list_with writes phs)) as [(i & ph & Hi & Hp)%sum_pos|Hw0].
  { destruct (Forall2_lookup_l _ _ _ _ _ Hall Hi) as (prog & Ht & Hin). right.
    destruct ph; cbn in Hp; try lia; inversion Hin; subst; eapply Hgo; [exact Hi|done| |exact Hi|done|done].
    cbn. by rewrite E0. }
  assert (rw_writer m = false) as Ew by (destruct (rw_writer m); [lia|done]).
  destruct (decide (Forall (fun prog => prog = []) ts)) as [|Hn%not_Forall_Exists]; [by left| |apply _]. right.
  apply Exists_exists in Hn as (prog & (i & Ht)%list_elem_of_lookup & Hne).
  destruct (Forall2_lookup_r _ _ _ _ _ Hall Ht) as (ph & Hi & Hin).
  pose proof (sum_ge reads phs i ph Hi). pose proof (sum_ge writes phs i ph Hi).
  inversion Hin as [ms| | |]; subst; cbn in *; try lia.
  destruct ms as [|[] ms]; [done|..]; (eapply Hgo; [exact Hi|exact Ht|]); cbn; by rewrite Ew.
Qed.

(** What is left to do. *)
Definition left_over (s : Locks) : nat := sum_list_with length (lk_threads s).

Lemma step_left s s' : lstep s s' -> left_over s = S (left_over s').
Proof.
  intros [m m' ts i a prog Hi _]. unfold left_over. cbn [lk_threads].
  pose proof (sum_insert length ts i (a :: prog) prog Hi) as E. cbn in E. lia.
Qed.

Lemma steps_left n s s' : nsteps lstep n s s' -> left_over s = n + left_over s'.
Proof. induction 1 as [s|n s1 s2 s3 Hs _ IH]; [done|]. apply step_left in Hs. lia. Qed.

Lemma left_none s : left_over s = 0 -> finished s.
Proof.
  unfold left_over, finished. induction (lk_threads s) as [|prog ts IH]; cbn; [constructor|].
  intros E. constructor; [apply nil_length_inv; lia|apply IH; lia].
Qed.

(** ** Claims *)

(** C40. With methods that take the lock once, any number of goroutines and any calls:
    no execution is longer than the number of lock operations, it only stops once every
    call has returned, and while a [Load] holds the lock nobody else does. *)
Theorem locks_terminate mss n s :
  nsteps lstep n (unlocked (calls method_locks <$> mss)) s ->
  n + left_over s = left_over (unlocked (calls method_locks <$> mss)) /\
  ((forall s', ~ lstep s s') <-> finished s) /\
  exists phs, Forall2 in_phase phs (lk_threads s) /\
    (forall i, phs !! i = Some PWriting -> forall j ph, phs !! j = Some ph -> j <> i -> ph <> PReading /\ ph <> PWriting).
Proof.
  intros Hn. pose proof (steps_left _ _ _ Hn) as Hl. apply rtc_nsteps_2, inv_reach in Hn as Hi. split; [lia|]. split.
  - split.
    + intros Hno. destruct (inv_progress s Hi) as [|[s' Hs]]; [done|by apply Hno in Hs].
    + intros Hf s' Hs. apply step_left in Hs.
      assert (left_over s = 0) as E; [|lia].
      unfold left_over. induction Hf as [|prog ts -> _ IH]; [done|exact IH].
  - destruct Hi as (phs & Hall & Hr & Hw & Hh). exists phs. split; [done|]. intros i Hi j ph Hj Hne.
    pose proof (sum_ge holds phs i PWriting Hi) as H1. cbn in H1. specialize (Hh ltac:(lia)).
    split; intros ->.
    + pose proof (sum_ge reads phs j PReading Hj) as H2. cbn in H2. lia.
    + pose proof (sum_insert writes phs i PWriting PIdle Hi) as E1. cbn in E1.
      pose proof (sum_ge writes (<[i := PIdle]> phs) j PWriting) as H2.
      rewrite list_lookup_insert_ne in H2 by done. specialize (H2 Hj). cbn in H2. destruct (rw_writer _); lia.
Qed.

(** The [Info] of the ipverse, geoip and mmdb sources takes the read lock a second
    time with the lock held: when a [Load] comes in between both wait for ever, and every
    other goroutine that has calls to make waits with them. *)
Theorem nested_info_deadlocks others :
  let start := unlocked (calls nested_method_locks [MInfo] :: calls nested_method_locks [MLoad] ::
                         (calls nested_method_locks <$> others)) in
  exists s, rtc lstep start s /\ (forall s', ~ lstep s s') /\
    lk_threads s = [ARLock; ARUnlock; ARUnlock] :: [AAcquire; AUnlock] :: (calls nested_method_locks <$> others).
Proof.
  cbv zeta. eexists (MkLocks (MkRW 1 true) _). split_and!; [| |reflexivity].
  - eapply rtc_l; [by apply (lstep_act _ (MkRW 1 false) _ 0 ARLock)|].
    eapply rtc_l; [by apply (lstep_act _ (MkRW 1 true) _ 1 AAnnounce)|]. reflexivity.
  - intros s' Hs. inversion Hs as [m m' ts i a prog Hi Ha]; subst. destruct i as [|[|i]].
    + injection Hi as <- <-. done.
    + injection Hi as <- <-. done.
    + change ((calls nested_method_locks <$> others) !! i = Some (a :: prog)) in Hi. rewrite list_lookup_fmap in Hi. apply fmap_Some in Hi as (ms & _ & E).
      destruct ms as [|[] ms]; try done; injection E as -> ->; done.
Qed.

(** A reader and a loader. *)
Lemma locks_terminate_witness :
  exists s, nsteps lstep 3 (unlocked (calls method_locks <$> [[MInfo]; [MLoad]])) s /\ left_over s = 2 /\ ~ finished s.
Proof.
  exists (MkLocks (MkRW 0 true) [[]; [AAcquire; AUnlock]]).
  assert (nsteps lstep 3 (unlocked (calls method_locks <$> [[MInfo]; [MLoad]]))
            (MkLocks (MkRW 0 true) [[]; [AAcquire; AUnlock]])) as Hn.
  { eapply nsteps_l; [by apply (lstep_act _ (MkRW 1 false) _ 0 ARLock)|].
    eapply nsteps_l; [by apply (lstep_act _ (MkRW 0 false) _ 0 ARUnlock)|].
    eapply nsteps_l; [by apply (lstep_act _ (MkRW 0 true) _ 1 AAnnounce)|]. constructor. }
  destruct (locks_terminate [[MInfo]; [MLoad]] 3 _ Hn) as (Hl & Hf & _).
  split; [exact Hn|]. split; [vm_compute; reflexivity|]. intros Hfin. apply (proj2 Hf Hfin (MkLocks (MkRW 0 true) [[]; [AUnlock]])).
  exact (lstep_act (MkRW 0 true) (MkRW 0 true) [[]; [AAcquire; AUnlock]] 1 AAcquire [AUnlock] eq_refl eq_refl).
Defined.
