(* ===== verification/ProvidersSpec.v ===== *)
(** * What the sources of prefixes serve

  After a successful load a source serves for each country exactly the prefixes its data
  has for it; after a failed one it serves nothing, whatever it served before. *)

From S2P Require Import Prelude GoLib Os Netip NetipText Config Exporter Store Sourcereg Plaintext Providers Ipverse Geoip Mmdb.

Local Open Scope Z_scope.

(** ** The map of countries *)

Lemma get_country_known t prefix m country ps :
  m !! country = Some ps -> get_country (Some t) prefix m (prefix +:+ ":" +:+ country) = Ok ps.
Proof. intros Hm. unfold get_country. rewrite <- str_app_assoc, prefix_app, TrimPrefix_app, Hm. done. Qed.

Lemma get_country_unknown t prefix m country :
  m !! country = None -> exists e, get_country t prefix m (prefix +:+ ":" +:+ country) = Err e.
Proof.
  intros Hm. unfold get_country. destruct t; [|eauto]. rewrite <- str_app_assoc, prefix_app, TrimPrefix_app, Hm. eauto.
Qed.

Lemma get_country_unloaded prefix m category : get_country None prefix m category = Err (ErrNew "not loaded").
Proof. done. Qed.

Lemma append_country_lookup m country p c :
  append_country m country p !! c =
  if decide (c = country) then Some (default [] (m !! c) ++ [p]) else m !! c.
Proof. unfold append_country. case_decide; subst; [by rewrite lookup_insert_eq|by rewrite lookup_insert_ne]. Qed.

(** A list of countries with a prefix, appended in order. *)
Lemma append_all_lookup (l : list (string * Prefix)) m c :
  foldl (fun m x => append_country m x.1 x.2) m l !! c =
  match (List.filter (fun x => String.eqb x.1 c) l).*2, m !! c with
  | [], r => r
  | ps, r => Some (default [] r ++ ps)
  end.
Proof.
  revert m. induction l as [|[country p] l IH]; intros m; cbn [foldl]; [done|].
  rewrite IH, append_country_lookup. cbn [List.filter fst snd].
  destruct (String.eqb_spec country c) as [->|Hne]; [rewrite decide_True by done|by rewrite decide_False by congruence].
  cbn [fmap list_fmap snd]. destruct ((List.filter _ l).*2) as [|q qs]; cbn; [done|]. by rewrite <- app_assoc.
Qed.

(** ** ipverse *)

Section IpverseSpec.
Context {K : Type} `{Env K} `{Http K}.

(** [prefixes] are what a zone file fetched at some moment has. *)
Definition fetched (baseURL country : string) (prefixes : list Prefix) : Prop :=
  exists w w', fetchCountry (ReplaceAll baseURL "{country}" country) w = (Ok prefixes, w').

Lemma fetch_countries_spec baseURL countries m w m' r w' :
  fetch_countries baseURL countries m w = (m', r, w') ->
  (forall c ps, m !! c = Some ps -> fetched baseURL c ps) ->
  (forall c ps, m' !! c = Some ps -> fetched baseURL c ps) /\
  (r = None -> dom m' = list_to_set countries ∪ dom m).
Proof.
  revert m w. induction countries as [|c cs IH]; intros m w; cbn [fetch_countries].
  { intros [= <- <- <-] Hm. split; [done|]. intros _. set_solver. }
  destruct (fetchCountry _ w) as [[ps|e] w1] eqn:Ef; [|by intros [= <- <- <-]].
  intros E Hm. apply IH in E as [Hm' Hd].
  - split; [done|]. intros Hr. rewrite (Hd Hr), dom_insert_L. set_solver.
  - intros c' ps'. destruct (decide (c' = c)) as [->|Hne]; [rewrite lookup_insert_eq; intros [= <-]; by exists w, w1|].
    rewrite lookup_insert_ne by done. apply Hm.
Qed.

(** After a load without an error every configured country is served with what a
    fetch of its zone file gave; after one with an error, which one failing country is
    enough for, every category is refused, whatever the source served before. *)
Theorem ipverse_serves (p : Ipverse) (w : World K) p' err w' :
  IpverseLoad p w = ((p', err), w') ->
  IpverseCategories p' = IpverseCategories p /\
  match err with
  | None => forall country, country ∈ iv_Countries p ->
      exists ps, IpversePrefixes p' (iv_prefix p +:+ ":" +:+ country) = Ok ps /\ fetched (iv_BaseURL p) country ps
  | Some _ => forall category, exists e, IpversePrefixes p' category = Err e
  end.
Proof.
  unfold IpverseLoad. cbn [iv_BaseURL iv_Countries]. destruct (fetch_countries _ _ _ _) as [[m [[c e]|]] w1] eqn:Ef; intros [= <- <- <-].
  - split; [done|]. intros category. eexists. apply get_country_unloaded.
  - split; [done|]. apply fetch_countries_spec in Ef as [Hm Hd]; [|by intros ? ? ?%lookup_empty_Some].
    intros country Hc. destruct (m !! country) as [ps|] eqn:El.
    + exists ps. split; [by apply get_country_known|by apply Hm].
    + apply not_elem_of_dom in El. rewrite (Hd eq_refl) in El. set_solver.
Qed.
End IpverseSpec.

(** ** geoip *)

(** The prefixes a list of entries has for a country, in order. *)
Definition geoip_of (entries : list GeoIP) (country : string) : list Prefix :=
  entries ≫= fun entry => if String.eqb (ToLower (gi_CountryCode entry)) country then omap cidrToPrefix (gi_Cidr entry) else [].

Definition pairs_of (entry : GeoIP) : list (string * Prefix) :=
  if String.eqb (ToLower (gi_CountryCode entry)) "" then []
  else pair (ToLower (gi_CountryCode entry)) <$> omap cidrToPrefix (gi_Cidr entry).

Lemma add_geoip_pairs m entry : add_geoip m entry = foldl (fun m x => append_country m x.1 x.2) m (pairs_of entry).
Proof.
  unfold add_geoip, pairs_of. destruct (String.eqb _ ""); [done|]. generalize (omap cidrToPrefix (gi_Cidr entry)) as ps.
  intros ps. revert m. induction ps as [|p ps IH]; intros m; cbn; [done|]. apply IH.
Qed.

Lemma add_geoip_all entries m :
  foldl add_geoip m entries = foldl (fun m x => append_country m x.1 x.2) m (entries ≫= pairs_of).
Proof. revert m. induction entries as [|e es IH]; intros m; [done|]. cbn. by rewrite foldl_app, <- add_geoip_pairs, IH. Qed.

Lemma filter_pairs entries country :
  country <> ""%string ->
  (List.filter (fun x => String.eqb x.1 country) (entries ≫= pairs_of)).*2 = geoip_of entries country.
Proof.
  intros Hne. unfold geoip_of. induction entries as [|e es IH]; [done|].
  cbn [mbind list_bind]. rewrite List.filter_app, fmap_app, IH. f_equal. clear IH. unfold pairs_of.
  set (cc := ToLower (gi_CountryCode e)). generalize (omap cidrToPrefix (gi_Cidr e)) as ps. intros ps.
  destruct (String.eqb_spec cc "") as [->|_]; [by destruct (String.eqb_spec "" country) as [<-|]|].
  induction ps as [|p ps IH]; [by destruct (String.eqb cc country)|]. cbn. destruct (String.eqb cc country); cbn; by rewrite IH.
Qed.

Section GeoipSpec.
Context {K : Type} `{Env K} `{Http K} `{Digest} `{VersionCodec} `{GeoIPCodec}.

(** After a load without an error the source serves for each country exactly the
    prefixes that the entries of the file have for it, in their order and with the codes
    in lower case, and no country without one; after a load with an error it refuses
    every category. *)
Theorem geoip_serves (p : Geoip) (w : World K) p' err w' :
  GeoipLoad p w = ((p', err), w') ->
  match err with
  | None => exists path data entries, w_files w' !! path = Some data /\ unmarshal_geoip data = Some entries /\
      forall country, country <> ""%string ->
        let answer := GeoipPrefixes p' (gp_prefix p +:+ ":" +:+ country) in
        match geoip_of entries country with
        | [] => exists e, answer = Err e
        | ps => answer = Ok ps
        end
  | Some _ => forall category, exists e, GeoipPrefixes p' category = Err e
  end.
Proof.
  unfold GeoipLoad, loadFromData. destruct (Get _ _ w) as [[[[st path] v]|e] w1]; [|intros [= <- <- <-]; eauto using get_country_unloaded].
  destruct (ReadFile path w1) as [[data|e] w2] eqn:Er; [|intros [= <- <- <-]; eauto using get_country_unloaded].
  destruct (unmarshal_geoip data) as [entries|] eqn:Eu; [|intros [= <- <- <-]; eauto using get_country_unloaded].
  intros [= <- <- <-]. apply ReadFile_ok in Er as [Hd ->]. exists path, data, entries. split_and!; [done|done|].
  intros country Hne. cbv zeta. unfold GeoipPrefixes. cbn [gp_loadedAt gp_prefix gp_prefixes geoip_with].
  pose proof (append_all_lookup (entries ≫= pairs_of) ∅ country) as Hl. rewrite <- add_geoip_all, filter_pairs, lookup_empty in Hl by done.
  destruct (geoip_of entries country) as [|q qs]; [by apply get_country_unknown|by apply get_country_known].
Qed.
End GeoipSpec.

Lemma PrefixFrom_long a b : BitLen a < b -> PIsValid (PrefixFrom a b) = false.
Proof.
  intros Hl. unfold PIsValid, PrefixFrom. cbn [p_bits1]. rewrite (proj2 (Z.leb_gt b (BitLen a)) Hl). by rewrite andb_false_r.
Qed.

(** A length that no address has is kept, as a prefix that is not one. *)
Lemma cidr_invalid_kept ip len p :
  cidrToPrefix (MkCIDR ip len) = Some p -> 128 < len -> PIsValid p = false.
Proof.
  unfold cidrToPrefix. cbn. destruct (Nat.eqb (length ip) 0); [done|]. unfold AddrFromSlice.
  destruct (Nat.eqb (length ip) 4); [|destruct (Nat.eqb (length ip) 16); [|done]]; cbn; intros [= <-] Hl;
    apply PrefixFrom_long; cbn; lia.
Qed.

(** ** mmdb *)

(** The walk as a specification: each network under the country decoding its record
    leaves in the variable. *)
Fixpoint walked `{MmdbReader} (record : string) (items : list (option (option IPNet) * record_t)) : list (string * Prefix) :=
  match items with
  | [] => []
  | (step, data) :: items' =>
      let record := decode_iso data record in
      match step ≫= netipPrefixFromIPNet with
      | None => walked record items'
      | Some prefix => (record, prefix) :: walked record items'
      end
  end.

Definition listed (whitelist : list string) (country : string) : bool :=
  negb (String.eqb country "") && (Nat.eqb (length whitelist) 0 || one_of country whitelist).

Lemma add_network_listed whitelist prefix country m :
  add_network whitelist prefix country m = if listed whitelist country then append_country m country prefix else m.
Proof.
  unfold add_network, listed. destruct (String.eqb country ""); [done|]. cbn.
  destruct whitelist as [|x l]; [done|]. cbn [length Nat.ltb Nat.leb Nat.eqb]. by destruct (one_of _ _).
Qed.

Lemma network_steps `{MmdbReader} whitelist items m record :
  fst (foldl (network_step whitelist) (m, record) items) =
  foldl (fun m x => append_country m x.1 x.2) m (List.filter (fun x => listed whitelist x.1) (walked record items)).
Proof.
  revert m record. induction items as [|[[ipNet|] data] items IH]; intros m record; [done| |apply IH].
  cbn [foldl network_step walked fst snd mbind option_bind]. destruct (netipPrefixFromIPNet ipNet) as [prefix|]; [|apply IH].
  rewrite IH, add_network_listed. cbn [List.filter fst]. by destruct (listed whitelist _).
Qed.

(** The pairs of one country, when the country passes the whitelist. *)
Lemma filter_listed whitelist country (l : list (string * Prefix)) :
  listed whitelist country = true ->
  List.filter (fun x => String.eqb x.1 country) (List.filter (fun x => listed whitelist x.1) l) =
  List.filter (fun x => String.eqb x.1 country) l.
Proof.
  intros Hc. induction l as [|[c p] l IH]; [done|]. cbn [List.filter fst].
  destruct (listed whitelist c) eqn:Hl; cbn [List.filter fst]; [by destruct (String.eqb c country); rewrite IH|].
  destruct (String.eqb_spec c country) as [->|]; [congruence|done].
Qed.

Section MmdbSpec.
Context {K : Type} `{Env K} `{Http K} `{MmdbReader}.


(** A network whose record leaves the variable alone counts for the country of the one
    before it. *)
Lemma mmdb_stale_country record ipNet1 data1 ipNet2 data2 p1 p2 items :
  netipPrefixFromIPNet ipNet1 = Some p1 -> netipPrefixFromIPNet ipNet2 = Some p2 ->
  (forall iso, decode_iso data2 iso = iso) ->
  exists rest, walked record ((Some ipNet1, data1) :: (Some ipNet2, data2) :: items) =
    (decode_iso data1 record, p1) :: (decode_iso data1 record, p2) :: rest.
Proof. intros H1' H2' Hd. cbn [walked mbind option_bind]. rewrite H1', H2', Hd. eauto. Qed.
End MmdbSpec.
