(* ===== verification/ProvidersDemo.v ===== *)
(** * Runs of the sources of prefixes

  The theorems on the sources applied to concrete files, and a second load that fails. *)

From S2P Require Import Prelude GoLib Os Netip NetipText Config Routing Machine Exporter Store Sourcereg Plaintext Providers Ipverse Geoip Mmdb ProvidersSpec ExporterSpec.

Local Open Scope Z_scope.

Definition zone_line : string := "10.0.0.0/8" +:+ String (ascii_of_nat 10) "".
Definition zone_comment : string := "#x" +:+ String (ascii_of_nat 10) "".

(** A server with the zone of one country, and the release of [geoip]. *)
#[local] Instance zones : Http Kernel := {|
  valid_url _ := true;
  http_get url _ _ k :=
    (if String.eqb url "http://z/ru.zone" then Ok (MkResponse 200 (zone_line +:+ zone_comment) None "" "")
     else if String.eqb url "http://z/geoip.dat" then Ok (MkResponse 200 "geoip" None "" "")
     else Ok (MkResponse 404 "" None "" ""), k)
|}.

#[local] Instance zone_versions : VersionCodec := {|
  marshal_version _ := "{}"%string; unmarshal_version _ := Some zeroVersion
|}.

#[local] Instance zone_geoip : GeoIPCodec := {|
  unmarshal_geoip s :=
    if String.eqb s "geoip" then Some [MkGeoIP "RU" [MkCIDR [10; 0; 0; 0] 8; MkCIDR [] 8]; MkGeoIP "" [MkCIDR [11; 0; 0; 0] 8]]
    else None
|}.

(** Three networks; decoding the second record leaves the variable alone. *)
#[local, refine] Instance zone_mmdb : MmdbReader := {|
  record_t := option string;
  open_mmdb s :=
    if String.eqb s "mmdb"
    then Some ([(Some (Some (MkIPNet [10; 0; 0; 0] [255; 0; 0; 0])), Some "RU"%string);
                (Some (Some (MkIPNet [11; 0; 0; 0] [255; 0; 0; 0])), None);
                (Some (Some (MkIPNet [12; 0; 0; 0] [255; 0; 0; 0])), Some "FR"%string)], None)
    else None;
  decode_iso r iso := default iso r;
  mmdb_temp files := temp_name files "" "mmdb"
|}.
Proof. intros files. apply temp_fresh. Defined.

Definition net10 : Prefix := PrefixFrom (Addr4 (10 * 2 ^ 24)) 8.
Definition net11 : Prefix := PrefixFrom (Addr4 (11 * 2 ^ 24)) 8.

(** ** ipverse *)

Definition zone_source (countries : list string) : Ipverse := MkIpverse "z" "ipverse" "http://z/{country}.zone" countries ∅ None "".

Lemma ipverse_serves_witness :
  let loaded := fst (fst (IpverseLoad (zone_source ["ru"%string]) start)) in
  IpverseCategories loaded = ["ipverse:ru"%string] /\
  (exists ps, IpversePrefixes loaded "ipverse:ru" = Ok ps /\ fetched (K := Kernel) "http://z/{country}.zone" "ru" ps) /\
  IpversePrefixes loaded "ipverse:ru" = Ok [net10].
Proof.
  cbv zeta. destruct (IpverseLoad (zone_source ["ru"%string]) start) as [[p' err] w'] eqn:E. cbn [fst].
  destruct (ipverse_serves (zone_source ["ru"%string]) start p' err w' E) as [Hc Hs].
  vm_compute in E. injection E as <- <- <-. split; [exact Hc|]. split; [|vm_compute; reflexivity].
  apply (Hs "ru"%string). by apply list_elem_of_singleton.
Defined.

(** A second country whose zone is missing takes the first one away. *)
Example one_country_fails :
  let loaded := fst (fst (IpverseLoad (zone_source ["ru"; "xx"]%string) start)) in
  IpversePrefixes loaded "ipverse:ru" = Err (ErrNew "not loaded").
Proof. reflexivity. Qed.

(** ** geoip *)

Definition zone_store : HTTPStore := MkStore "http://z/geoip.dat" "/c/geoip.dat" 0 zeroVersion.
Definition geoip_demo : Geoip := MkGeoip "g" "geoip" (3600 * 10 ^ 9) zone_store ∅ None "".

Lemma geoip_serves_witness :
  let loaded := fst (fst (GeoipLoad geoip_demo start)) in
  GeoipPrefixes loaded "geoip:ru" = Ok [net10].
Proof.
  cbv zeta. destruct (GeoipLoad geoip_demo start) as [[p' err] w'] eqn:E. cbn [fst].
  pose proof (geoip_serves geoip_demo start p' err w' E) as Hs.
  vm_compute in E. injection E as <- <- <-. destruct Hs as (path & data & entries & Hd & Hu & Hs).
  assert (entries = [MkGeoIP "RU" [MkCIDR [10; 0; 0; 0] 8; MkCIDR [] 8]; MkGeoIP "" [MkCIDR [11; 0; 0; 0] 8]]) as ->.
  { unfold unmarshal_geoip, zone_geoip in Hu. destruct (String.eqb data "geoip"); [by injection Hu|done]. }
  exact (Hs "ru"%string ltac:(done)).
Defined.

(** ** mmdb *)

Definition mmdb_demo : Mmdb := MkMmdb "m" "mmdb" (MkMmdbConfig "/d.mmdb" "" ["RU"%string]) ∅ None "" None.
Definition with_database : World Kernel := MkWorld {["/d.mmdb"%string := "mmdb"%string]} (MkKernel ∅ ∅) 0.


(** The country as the configuration of the other sources writes it is not served. *)
Example mmdb_upper_case :
  MmdbPrefixes (fst (fst (MmdbLoad mmdb_demo with_database))) "mmdb:ru" = Err (ErrNew "unknown country").
Proof. reflexivity. Qed.
