(* ===== verification/Outage.v ===== *)
(** * From unreadable sources to withdrawn routes

  A policy run over the policy exporter and the composite router when no category of
  the policy can be read: the run does not fail, it exports empty lists and withdraws
  every route the policy had. *)

From S2P Require Import Prelude GoLib Os Netip Cidr Aggregator Config Plan Exporter Routing RoutingSpec Orchestrator Machine.
From S2P Require Import Store Sourcereg Plaintext Providers Ipverse ProvidersSpec ProvidersDemo.

Local Open Scope Z_scope.

Section Outage.
Context {K : Type} `{Env K} `{StateCodec}.
Context (ag : Agents K) (addr_order : gset Addr -> list Addr) (name_order : gset string -> list string).
Context `{!MapOrder name_order}.
Context (exportDir : string) (router : CompositeRouter).
Implicit Types (w : World K) (policy : PolicyConfig).
Local Notation ag' := (with_policy_agents ag exportDir router).

Definition is_err {A} (r : res error A) : bool := match r with Ok _ => false | Err _ => true end.

(** A category no source has, or one whose source refuses it. *)
Definition unreadable (k : K) (category : string) : bool :=
  match ag_ResolveCategory ag k category with
  | None => true
  | Some (_, ty) =>
      if String.eqb ty "domain" then is_err (ag_GetDomains ag k category) else is_err (ag_GetPrefixes ag k category)
  end.

Lemma split_unreadable k cats :
  forallb (unreadable k) cats = true ->
  Forall (fun cat => is_err (ag_GetDomains ag k cat) = true) (split_categories (ag_ResolveCategory ag k) cats).1 /\
  Forall (fun cat => is_err (ag_GetPrefixes ag k cat) = true) (split_categories (ag_ResolveCategory ag k) cats).2.
Proof.
  induction cats as [|cat cats IH]; [by split|]. cbn [forallb split_categories foldr]. intros [Hc Hcs]%andb_true_iff.
  fold (split_categories (ag_ResolveCategory ag k) cats). specialize (IH Hcs).
  destruct (split_categories _ cats) as [ds ps]. unfold unreadable in Hc.
  destruct (ag_ResolveCategory ag k cat) as [[id ty]|]; [|done]. destruct (String.eqb ty "domain"); cbn; naive_solver.
Qed.

Lemma collect_domains_none get cats :
  Forall (fun cat => is_err (get cat) = true) cats -> collect_domains get cats = ∅.
Proof. unfold collect_domains. generalize (∅ : gset string). induction 1 as [|cat cats Hc _ IH]; cbn; [done|]. by destruct (get cat). Qed.

Lemma collect_prefixes_none get cats :
  Forall (fun cat => is_err (get cat) = true) cats -> collect_prefixes get cats = ([], []).
Proof.
  unfold collect_prefixes. generalize (([], []) : list Prefix * list Prefix). intros acc Hall. revert acc.
  induction Hall as [|cat cats Hc _ IH]; intros [v4 v6]; cbn; [done|]. destruct (get cat); [done|]. apply IH.
Qed.

Lemma no_outputs cfg lvl policy : policy_outputs addr_order cfg lvl policy [] [] [] [] = ([], []).
Proof. unfold policy_outputs. destruct (pc_Aggregation policy) as [agg|]; [destruct (ac_Enabled agg)|]; by destruct (ac_Enabled (cfg_Aggregation cfg)). Qed.

Lemma order_empty : name_order ∅ = [].
Proof. destruct (name_order ∅) as [|x l] eqn:E; [done|]. assert (x ∈ name_order ∅) as Hx by (rewrite E; left). by apply elem_of_map_order in Hx. Qed.

(** The steps before the capability check find nothing and change nothing. *)
Lemma prepare_unreadable runID policy req lvl cfg w :
  forallb (unreadable (w_kern w)) (pc_Categories policy) = true ->
  prepare_policy ag' addr_order name_order runID policy req lvl cfg w = (Ok ([], (0, 0, 0, 0), ([], [])), w).
Proof.
  intros [Hd Hp]%split_unreadable. unfold prepare_policy.
  unfold mbind at 1, io_bind at 1, read at 1. cbn [ag_ResolveCategory with_policy_agents].
  destruct (split_categories _ (pc_Categories policy)) as [ds ps]. cbn [fst snd] in Hd, Hp.
  unfold mbind at 1, io_bind at 1, read at 1. cbn [ag_GetDomains with_policy_agents].
  rewrite collect_domains_none, order_empty by done. unfold mbind at 1, io_bind at 1. cbn [resolve_policy length Nat.eqb mret io_ret].
  unfold mbind at 1, io_bind at 1, read at 1. cbn [ag_GetPrefixes with_policy_agents].
  by rewrite collect_prefixes_none, no_outputs.
Qed.

(** ** What the exporter leaves alone *)

Definition export_path policy (family : string) : string :=
  path_join (path_join exportDir (pc_Name policy))
    (family +:+ "." +:+ extForFormat (if String.eqb (pc_ExportFormat policy) "" then "plain" else pc_ExportFormat policy)).

Lemma touches_WritePolicy policy v4 v6 :
  touches {[export_path policy "ipv4"; export_path policy "ipv6"]} (WritePolicy exportDir policy v4 v6 : IO K _).
Proof.
  unfold WritePolicy. apply touches_bind; [apply touches_syscall|]. intros _.
  apply touches_bind; [eapply touches_wrap, touches_mono; [apply touches_WriteFile|]; set_solver|]. intros _.
  apply touches_bind; [eapply touches_wrap, touches_mono; [apply touches_WriteFile|]; set_solver|]. intros _. apply touches_ret.
Qed.

(** ** Applying nothing *)

Context `{!IPRouteKernel K}.

Lemma apply_nothing dir policy w w' :
  let old := recorded dir (pc_Name policy) w in
  state_wf old -> fault (w_calls w) = None -> ip_ApplyPolicy dir policy [] [] w = (Ok tt, w') ->
  (forall p, p ∈ rs_V4 old \/ p ∈ rs_V6 old -> p ∉ routes (w_kern w') (pc_TableID policy)) /\
  rs_V4 (recorded dir (pc_Name policy) w') = [] /\ rs_V6 (recorded dir (pc_Name policy) w') = [].
Proof.
  cbv zeta. set (old := recorded _ _ w). intros [Ho4 Ho6] Hnf. unfold ip_ApplyPolicy. intros (s & w1 & E1 & E)%io_bind_ok.
  destruct (load_or_zero_spec dir (pc_Name policy) w) as (s' & w1' & E1' & _ & _ & Hs).
  rewrite E1' in E1. injection E1 as -> ->. specialize (Hs Hnf). subst s.
  apply io_bind_ok in E as ([] & w2 & E2 & E). apply io_wrap_ok in E2.
  apply io_bind_ok in E as ([] & w3 & E3 & E). apply io_wrap_ok in E3.
  apply io_bind_ok in E as (now & w4 & E4 & E). unfold Now in E4. injection E4 as _ <-.
  apply ip_applyFamily_spec in E2 as (_ & _ & Hr2); [|done|done].
  apply ip_applyFamily_spec in E3 as (_ & _ & Hr3); [|done|done].
  specialize (Hr2 eq_refl). specialize (Hr3 eq_refl).
  assert (state_wf (MkState BackendIProute2 now [] [])) as Hwf by by split.
  rewrite (recorded_saved _ _ _ _ _ _ Hwf E).
  apply savePolicyState_ok in E as [_ Hk]. cbn in Hk. rewrite Hk. split; [|done].
  intros p Hp. rewrite Hr3, Hr2, !elem_of_nil. fold old. tauto.
Qed.

(** ** The run *)

End Outage.

(** ** A country without a zone *)

(** The ipverse source of [ProvidersDemo] with a country whose zone is missing: [ru] was
    installed before the second country was configured. *)
Definition outage_source : Ipverse := fst (fst (IpverseLoad (H0 := zones) (zone_source ["ru"; "xx"]%string) start)).

Definition outage_agents : Agents Kernel := {|
  ag_LoadAll := mret tt;
  ag_ResolveCategory _ c := if String.eqb c "ipverse:ru" then Some ("z", "prefix")%string else None;
  ag_GetDomains _ _ := Err (ErrNew "none");
  ag_GetPrefixes _ c := IpversePrefixes outage_source c;
  ag_NeedsRefresh ds _ _ := mret ds;
  ag_ResolveBatch _ w := ([], w);
  ag_UpsertBatch _ := mret tt;
  ag_SnapshotForDomains _ := mret ([], []);
  ag_policies := true;
  ag_WritePolicy _ _ _ := io_err (ErrNew "");
  ag_Caps _ := mret tt;
  ag_ApplyPolicy _ _ _ := io_err (ErrNew "");
  ag_config _ := Defaults;
  ag_publish _ _ _ w := w
|}.

Definition outage_policy : PolicyConfig := {|
  pc_Name := "p"; pc_Enabled := true; pc_Categories := ["ipverse:ru"]; pc_Backend := BackendIProute2;
  pc_TableID := 100; pc_Iface := "eth0"; pc_NFTTable := ""; pc_NFTSetV4 := ""; pc_NFTSetV6 := "";
  pc_DryRun := false; pc_ExportFormat := ""; pc_Aggregation := None |}.

Definition outage_router : CompositeRouter := MkComposite "/s" "/s" "/s" None.
Definition installed : World Kernel := (ip_ApplyPolicy "/s" outage_policy [net10] [] start).2.
Definition outage_run :=
  runPolicy (with_policy_agents outage_agents "/o" outage_router) elements elements 1 outage_policy
    (MkRequest false false false) AggBalanced Defaults installed.

