(* ===== verification/ApiDemo.v ===== *)
(** * The handlers at concrete inputs *)

From S2P Require Import Prelude Order GoLib Os Netip Machine Plaintext PlaintextSpec Config ConfigSpec Duration Settings SettingsSpec SettingsDemo Plan Events Watcher.
From S2P Require Import Routing Cache CacheSpec Sourcereg Api ApiSpec PolicyApiSpec CacheApiSpec.

Local Open Scope Z_scope.

#[local] Existing Instance no_json.
#[local] Existing Instance demo_viper.
#[local] Existing Instance demo_laws.
#[local] Existing Instance demo_decodes.
#[local] Instance api_env : Env Tables := demo_env None.

(** ** Settings *)

Definition qps_kv : gmap string string := {["resolver.qps"%string := "500"%string]}.
Definition no_environ (name : string) : string := "".
Definition demo_watcher : Watcher := NewWatcher Defaults 1 None.
Definition qps_put := handleSettingsPut (K := Tables) no_environ elements (Ok qps_kv) demo_watcher start.

Lemma qps_key key raw : qps_kv !! key = Some raw -> key = "resolver.qps"%string /\ raw = "500"%string.
Proof. unfold qps_kv. by intros [<- <-]%lookup_singleton_Some. Qed.

Lemma one_key_clean raw : clean {["resolver.qps"%string := raw]}.
Proof.
  split.
  - by intros k1 k2 [x1 [<- _]%lookup_singleton_Some] [x2 [<- _]%lookup_singleton_Some].
  - intros key k [x [<- _]%lookup_singleton_Some]. apply (keys_unrelated KQPS).
Qed.

Lemma qps_overrides k x : overrides no_environ qps_kv k x -> k = KQPS /\ x = VInt 500.
Proof.
  intros (key & raw & [-> ->]%qps_key & Hk & _ & Hx). apply (key_name_inj KQPS) in Hk as <-. split; [done|].
  vm_compute in Hx. by injection Hx as <-.
Qed.

(** A request for [resolver.qps] 0 is refused; after a restart it is in force. *)
Definition zero_kv : gmap string string := {["resolver.qps"%string := "0"%string]}.
Definition demo_options : LoadOptions := MkLoadOptions "d2ip.yaml" [] ∅.

Lemma zero_overrides {J : Json} k x : overrides (H := J) no_environ zero_kv k x -> x = VInt 0.
Proof.
  intros (key & raw & Hl & Hk & _ & Hx). unfold zero_kv in Hl. apply lookup_singleton_Some in Hl as [<- <-].
  rewrite <- Hk in Hx. vm_compute in Hx. by injection Hx as <-.
Qed.

Lemma zero_is_qps {J : Json} : overrides (H := J) no_environ zero_kv KQPS (VInt 0).
Proof. exists "resolver.qps"%string, "0"%string. repeat split; (reflexivity || vm_compute; discriminate). Qed.

Lemma zero_parses {J : Json} : ~ unparsable (H1 := J) no_environ zero_kv.
Proof.
  intros (key & raw & er & Hl & _ & He). unfold zero_kv in Hl. apply lookup_singleton_Some in Hl as [<- <-].
  vm_compute in He. discriminate He.
Qed.

Lemma settings_after_restart_witness :
  exists resp w' c,
    handleSettingsPut (K := Tables) no_environ elements (Ok zero_kv) demo_watcher start = (Some (resp, demo_watcher), w') /\
    rp_code resp = 500 /\ startup_config no_environ elements demo_options (Ok (kv_of w')) = Ok c /\
    get_field KQPS c = VInt 0 /\ Validate c <> [].
Proof.
  destruct (handleSettingsPut (K := Tables) no_environ elements (Ok zero_kv) demo_watcher start) as [[[resp wt']|] w'] eqn:E;
    [|vm_compute in E; discriminate E].
  assert (rp_code resp = 500) as Hcode by (vm_compute in E; injection E as <- _ _; reflexivity).
  assert (kv_of w' = zero_kv) as Hst by (vm_compute in E; injection E as _ _ <-; reflexivity).
  assert (zero_kv ∪ kv_of start = zero_kv) as Hu by apply map_union_empty.
  destruct (Load no_environ elements demo_options) as [base|e] eqn:El; [|vm_compute in El; discriminate El].
  destruct (settings_after_restart (K := Tables) no_environ elements zero_kv demo_watcher start resp wt' w' demo_options base)
    as (c & Hs & _ & Hwt & Hun & Hov); [|exact E|by rewrite Hst, Hu|exact El|].
  - intros kv ->. rewrite Hu. split; [exact (one_key_clean "0")|]. by split; intros k x ->%zero_overrides.
  - rewrite Hst in Hs, Hov. assert (wt' = demo_watcher) as -> by (apply Hwt; rewrite Hcode; discriminate).
    exists resp, w', c. split; [reflexivity|]. split; [exact Hcode|]. rewrite Hst. split; [exact Hs|].
    assert (get_field KQPS c = VInt 0) as Hq.
    { apply (proj1 (Hov zero_parses KQPS)), zero_is_qps. }
    split; [exact Hq|]. vm_compute in Hs. injection Hs as <-. vm_compute. discriminate.
Defined.

(** The override is deleted and the configuration still has it. *)
Lemma settings_delete_keeps_witness :
  exists wt w wt' w', qps_put = (Some (status_ok, wt), w) /\
    handleSettingsDelete no_environ elements "resolver.qps" wt w = (Some (status_ok, wt'), w') /\
    kv_of w' = ∅ /\ get_field KQPS (sn_Config (Current wt')) = VInt 500.
Proof.
  destruct qps_put as [[[resp wt]|] w] eqn:E; [|vm_compute in E; discriminate E].
  assert (resp = status_ok) as -> by (vm_compute in E; injection E as <- _ _; reflexivity).
  assert (kv_of w = qps_kv) as Hkv by (vm_compute in E; injection E as _ <-; reflexivity).
  assert (get_field KQPS (sn_Config (Current wt)) = VInt 500) as Hq by (vm_compute in E; injection E as <- _; reflexivity).
  destruct (handleSettingsDelete no_environ elements "resolver.qps" wt w) as [[[resp wt']|] w'] eqn:Ed;
    [|vm_compute in E; injection E as <- <-; vm_compute in Ed; discriminate Ed].
  assert (resp = status_ok) as ->.
  { vm_compute in E. injection E as <- <-. vm_compute in Ed. injection Ed as <- _ _. reflexivity. }
  exists wt, w, wt', w'. split; [reflexivity|]. split; [exact Ed|].
  destruct (settings_delete_keeps (K := Tables) no_environ elements "resolver.qps" wt w status_ok wt' w')
    as [Hd Hc]; [by rewrite Hkv; exact (one_key_clean "500")| |exact Ed|reflexivity|].
  - intros k x. rewrite Hkv. by intros [-> ->]%qps_overrides.
  - rewrite Hd, Hc, Hkv. split; [reflexivity|exact Hq].
Defined.

(** ** Policies *)

Definition demo_policy : PolicyConfig := {|
  pc_Name := "corp"; pc_Enabled := false; pc_Categories := []; pc_Backend := BackendNone; pc_TableID := 0;
  pc_Iface := ""; pc_NFTTable := ""; pc_NFTSetV4 := ""; pc_NFTSetV6 := ""; pc_DryRun := false;
  pc_ExportFormat := ""; pc_Aggregation := None |}.

Lemma policy_store_refines_witness :
  exists wt' w', serve (RCreate demo_policy) demo_watcher start = (Some (status_ok, wt'), w') /\
    by_name (policies_of (sn_Config (Current wt'))) = {["corp"%string := demo_policy]}.
Proof.
  destruct (serve (K := Tables) (RCreate demo_policy) demo_watcher start) as [[[resp wt']|] w'] eqn:E;
    [|vm_compute in E; discriminate E].
  assert (resp = status_ok) as -> by (vm_compute in E; injection E as <- _ _; reflexivity).
  exists wt', w'. split; [reflexivity|].
  pose proof (policy_store_refines (K := Tables) (RCreate demo_policy) demo_watcher start status_ok wt' w'
                (NoDup_nil_2 (A := string)) E) as Hs.
  cbn in Hs. rewrite decide_False in Hs by (intros (n & p & Hl & _); discriminate Hl).
  destruct Hs as (l & Hm & _ & [(_ & _ & Hc & _)|(Hc & _)]); [|discriminate Hc]. rewrite Hc. exact Hm.
Defined.

(** ** The vacuum button *)

Definition no_pragma (name : string) (t : Tables) : Z := 0.
Definition vacuumed : World Tables := snd (handleCacheVacuum no_pragma stored).

Lemma vacuum_empties_witness :
  fst (handleCacheVacuum no_pragma stored) = jsonOK (BDeleted 2) /\
  (forall v4 v6 w2, SnapshotForDomains elements ["a.example"%string] vacuumed = (Ok (v4, v6), w2) -> v4 = [] /\ v6 = []).
Proof.
  split; [vm_compute; reflexivity|]. intros v4 v6 w2.
  destruct (handleCacheVacuum no_pragma stored) as [resp w1] eqn:E.
  assert (vacuumed = w1) as -> by (unfold vacuumed; rewrite E; reflexivity).
  assert (resp = jsonOK (BDeleted 2)) as -> by (vm_compute in E; injection E as <- _; reflexivity).
  destruct (vacuum_empties (K := Tables) elements elements no_pragma (spec_upsert ∅ demo_results) stored
              (jsonOK (BDeleted 2)) w1) as (_ & Hs & _); [| |exact E|reflexivity|apply Hs].
  - apply (UpsertBatch_cases (K := Tables) demo_results start (Ok tt) stored ∅); [exact refines_empty|vm_compute; reflexivity].
  - assert (map_Forall (fun k v => rv_updated v < Unix (clock (w_calls stored))) (tb_records (db stored))) as Hall.
    { apply (bool_decide_unpack _). vm_compute. exact I. }
    exact Hall.
Defined.

(** ** The pages of a category *)

Lemma pages_cover_witness :
  exists slices, slices !! 1%nat = Some ["b.example"%string] /\
    mjoin slices = ["a.example"; "b.example"]%string /\
    handleCategoryDomains (K := Kernel) elements (fst corp_added) "corp:default" (Itoa 2) "1" =
      Some (jsonOK (BPage "corp:default" 2 1 2 ["b.example"%string] false)).
Proof.
  destruct (pages_cover (K := Kernel) elements (fst corp_added) "corp:default" "1" ["a.example"; "b.example"]%string 2)
    as (slices & Hp & _ & Hall); [discriminate|vm_compute; reflexivity|lia|vm_compute; reflexivity|].
  specialize (Hall eq_refl). destruct (Hp 1%nat ltac:(lia)) as (s & Hs & Hr).
  assert (s = ["b.example"%string]) as -> by (vm_compute in Hr; injection Hr as <-; reflexivity).
  exists slices. split; [exact Hs|]. split; [exact Hall|exact Hr].
Defined.
