(* ===== verification/StoreSpec.v ===== *)
(** * What a fetch leaves behind

  The cached file is replaced by a complete download or not touched, and while a
  copy exists no network failure makes [Get] fail. *)

From S2P Require Import Prelude GoLib Os Netip Config Exporter ExporterSpec Store.

Local Open Scope Z_scope.

Section StoreSpec.
Context {K : Type} `{Env K} `{Http K} `{Digest} `{VersionCodec}.
Implicit Types (s : HTTPStore) (w : World K).

Lemma app_neq (s t : string) : t <> "" -> s <> s +:+ t.
Proof. intros Ht E. apply (f_equal String.length) in E. rewrite str_length_app in E. destruct t; [done|]. cbn in E. lia. Qed.

Lemma cache_neq_temp s : hs_cachePath s <> temp_path s.
Proof. by apply app_neq. Qed.
Lemma cache_neq_meta s : hs_cachePath s <> meta_path s.
Proof. by apply app_neq. Qed.

(** ** Frames *)

Lemma Stat_spec path w r w' :
  Stat path w = (r, w') ->
  w_files w' = w_files w /\ (r = Ok tt -> is_Some (w_files w !! path)) /\
  (fault (w_calls w) = None -> is_Some (w_files w !! path) -> r = Ok tt).
Proof.
  unfold Stat, mbind, io_bind, syscall, io_fun. destruct (fault (w_calls w)) as [e|] eqn:Hf; cbn.
  - by intros [= <- <-].
  - destruct (w_files w !! path) as [c|] eqn:Hc; intros [= <- <-]; (split; [done|]); split; eauto; try done.
Qed.

Lemma touches_Create path : touches {[path]} (Create path : IO K unit).
Proof.
  unfold Create. apply touches_bind; [apply (touches_mono ∅); [apply touches_syscall|set_solver]|].
  intros _ w r w'. unfold io_fun. intros [= <- <-] p Hp. rewrite lookup_set_file.
  destruct (decide (path = p)); [set_solver|done].
Qed.

Lemma touches_download resp path : touches {[path]} (downloadToFile resp path : IO K Z).
Proof.
  unfold downloadToFile.
  apply touches_bind; [apply (touches_mono ∅); [apply touches_syscall|set_solver]|]. intros _.
  apply touches_bind; [apply touches_Create|]. intros _.
  apply touches_bind; [apply touches_AppendFile|]. intros _.
  destruct (hr_BodyErr resp); [apply touches_err|].
  apply touches_bind; [apply (touches_mono ∅); [apply touches_syscall|set_solver]|]. intros _. apply touches_ret.
Qed.

(** A completed download is the whole body. *)
Lemma download_ok resp path w n w' :
  downloadToFile resp path w = (Ok n, w') ->
  hr_BodyErr resp = None /\ n = Z.of_nat (String.length (hr_Body resp)) /\
  w_files w' !! path = Some (hr_Body resp).
Proof.
  unfold downloadToFile. intros (u1 & w1 & _ & E)%io_bind_ok.
  apply io_bind_ok in E as (u2 & w2 & Ec & E). apply io_bind_ok in E as (u3 & w3 & Ea & E).
  assert (w_files w2 !! path = Some ""%string) as Hempty.
  { unfold Create in Ec. apply io_bind_ok in Ec as (u & w1' & _ & Ec). unfold io_fun in Ec.
    injection Ec as _ <-. by rewrite lookup_set_file, decide_True. }
  apply (AppendFile_ok _ _ _ _ _ _ Hempty) in Ea.
  destruct (hr_BodyErr resp); [done|]. apply io_bind_ok in E as (u4 & w4 & Es & E).
  apply io_ret_ok in E as [<- <-]. split_and!; [done|done|].
  unfold Sync, syscall in Es. destruct (fault _); [done|]. injection Es as _ <-. exact Ea.
Qed.

Lemma fallback_spec s e w r w' :
  fallback s e w = (r, w') ->
  w_files w' = w_files w /\
  (r = Err e \/ (r = Ok (s, hs_cachePath s, hs_current s) /\ is_Some (w_files w !! hs_cachePath s))) /\
  (fault (w_calls w) = None -> is_Some (w_files w !! hs_cachePath s) -> r = Ok (s, hs_cachePath s, hs_current s)).
Proof.
  unfold fallback. destruct (Stat (hs_cachePath s) w) as [st w1] eqn:Es.
  unfold mbind, io_bind, io_try. rewrite Es. apply Stat_spec in Es as (Hf & Hok & Hex).
  destruct st as [[]|e']; intros [= <- <-]; split_and!; auto.
  intros Hft Hs. specialize (Hex Hft Hs). done.
Qed.

(** ** The three outcomes of a fetch *)

(** Nothing but the store's own files changes. *)
Definition own_files s : gset string := {[hs_cachePath s; temp_path s; meta_path s]}.

Definition outcome (s : HTTPStore) (w : World K) (r : res error (HTTPStore * string * Version)) (w' : World K) : Prop :=
  w_files w' !! hs_cachePath s = w_files w !! hs_cachePath s /\
  ((exists e, r = Err e) \/
   (r = Ok (s, hs_cachePath s, hs_current s) /\ is_Some (w_files w' !! hs_cachePath s))).

Definition fetched (s : HTTPStore) (resp : Response) (r : res error (HTTPStore * string * Version)) (w' : World K) : Prop :=
  hr_Status resp = 200 /\ hr_BodyErr resp = None /\
  w_files w' !! hs_cachePath s = Some (hr_Body resp) /\
  exists v, r = Ok (with_current s v, hs_cachePath s, v) /\ vs_SHA256 v = sha256_hex (hr_Body resp) /\
    vs_Size v = Z.of_nat (String.length (hr_Body resp)) /\ vs_ETag v = hr_ETag resp.

Lemma fallback_outcome s e w r w' : fallback s e w = (r, w') -> outcome s w r w'.
Proof.
  intros E. apply fallback_spec in E as (Hf & Hr & _). unfold outcome. rewrite Hf. split; [done|].
  destruct Hr as [->|[-> Hs]]; eauto.
Qed.

Lemma outcome_frame s w1 w r w' :
  w_files w !! hs_cachePath s = w_files w1 !! hs_cachePath s -> outcome s w r w' -> outcome s w1 r w'.
Proof. intros Hf [Ho Hr]. split; [congruence|done]. Qed.

Lemma cleanup_fallback s e w r w' :
  (_ ← io_try (Remove (temp_path s)); fallback s e) w = (r, w') -> outcome s w r w'.
Proof.
  unfold mbind, io_bind, io_try. destruct (Remove (temp_path s) w) as [x w1] eqn:Er. intros E.
  apply fallback_outcome in E. eapply outcome_frame; [|exact E].
  apply (touches_Remove (temp_path s) w x w1 Er). pose proof (cache_neq_temp s). set_solver.
Qed.

Lemma install_spec s resp size w r w' :
  hr_Status resp = 200 -> hr_BodyErr resp = None -> size = Z.of_nat (String.length (hr_Body resp)) ->
  w_files w !! temp_path s = Some (hr_Body resp) ->
  install s resp size w = (r, w') -> outcome s w r w' \/ fetched s resp r w'.
Proof.
  intros Hst Hbe -> Htmp. unfold install.
  destruct (Rename (temp_path s) (hs_cachePath s) w) as [x w1] eqn:Er.
  rewrite (io_try_run _ _ _ _ Er). cbn [fst snd].
  pose proof (Rename_cases _ _ _ _ _ Er (not_eq_sym (cache_neq_temp s))) as Hc.
  destruct x as [[]|e].
  - unfold mbind at 1, io_bind at 1. cbn [Now]. set (v := MkVersion _ _ _ _ _).
    destruct (saveMetadata (with_current s v) (tick w1)) as [y w2] eqn:Es.
    rewrite (io_try_run _ _ _ _ Es). intros [= <- <-]. right. split_and!; auto.
    + cbn [fst snd]. rewrite (touches_WriteFile _ _ _ _ _ Es (hs_cachePath s)); [by rewrite <- Htmp|].
      pose proof (cache_neq_meta s). unfold meta_path in *. cbn. set_solver.
    + by exists v.
  - intros E. left. eapply outcome_frame; [|eapply cleanup_fallback, E]. by rewrite Hc.
Qed.

Lemma fetch_cases s w r w' :
  fetchLocked s w = (r, w') ->
  outcome s w r w' \/
  exists resp, fst (http_get (hs_url s) (vs_ETag (hs_current s)) (vs_LastModified (hs_current s)) (w_kern w)) = Ok resp /\
    fetched s resp r w'.
Proof.
  unfold fetchLocked. case_if; [intros E; left; by eapply fallback_outcome|].
  destruct (http_get _ _ _ (w_kern w)) as [x k] eqn:Eh.
  assert (GetUrl (hs_url s) (vs_ETag (hs_current s)) (vs_LastModified (hs_current s)) w
          = (x, MkWorld (w_files w) k (S (w_calls w)))) as Eg by (unfold GetUrl; by rewrite Eh).
  rewrite (io_try_run _ _ _ _ Eg). cbn [fst snd]. set (w1 := MkWorld _ k _).
  destruct x as [resp|e]; [|intros E; left; exact (outcome_frame _ w _ _ _ eq_refl (fallback_outcome _ _ w1 _ _ E))].
  destruct (Z.eqb_spec (hr_Status resp) 304) as [_|_].
  { destruct (Stat (hs_cachePath s) w1) as [st w2] eqn:Es. rewrite (io_try_run _ _ _ _ Es). cbn [fst snd].
    apply Stat_spec in Es as (Hf & Hok & _). unfold w1 in *.
    destruct st as [[]|e]; intros [= <- <-]; left; (split; [by rewrite Hf|]); [right|left; eauto].
    split; [done|]. rewrite Hf. by apply Hok. }
  destruct (Z.eqb_spec (hr_Status resp) 200) as [H200|_]; cbn [negb].
  2: { intros E. left. exact (outcome_frame _ w _ _ _ eq_refl (fallback_outcome _ _ w1 _ _ E)). }
  destruct (downloadToFile resp (temp_path s) w1) as [d w2] eqn:Ed. rewrite (io_try_run _ _ _ _ Ed). cbn [fst snd].
  assert (w_files w2 !! hs_cachePath s = w_files w !! hs_cachePath s) as Hsame.
  { apply (touches_download resp (temp_path s) w1 d w2 Ed). pose proof (cache_neq_temp s). set_solver. }
  destruct d as [size|e].
  - apply download_ok in Ed as (Hbe & Hsz & Htmp). intros E.
    destruct (install_spec s resp size w2 r w' H200 Hbe Hsz Htmp E) as [Ho|Hf].
    + left. eapply outcome_frame; [exact Hsame|exact Ho].
    + right. by exists resp.
  - intros E. left. eapply outcome_frame; [exact Hsame|]. by eapply cleanup_fallback.
Qed.

(** C35. A fetch is atomic: whatever the server sends and whatever system call
    fails, the cached file keeps its content or becomes the whole body of a
    complete 200 response, whose digest, size and ETag are then the recorded
    ones; and a path is only returned when the file exists. *)
Theorem fetch_atomic s w r w' :
  fetchLocked s w = (r, w') ->
  (w_files w' !! hs_cachePath s = w_files w !! hs_cachePath s \/
   exists resp v,
     fst (http_get (hs_url s) (vs_ETag (hs_current s)) (vs_LastModified (hs_current s)) (w_kern w)) = Ok resp /\
     hr_Status resp = 200 /\ hr_BodyErr resp = None /\
     w_files w' !! hs_cachePath s = Some (hr_Body resp) /\
     r = Ok (with_current s v, hs_cachePath s, v) /\ vs_SHA256 v = sha256_hex (hr_Body resp) /\
     vs_Size v = Z.of_nat (String.length (hr_Body resp)) /\ vs_ETag v = hr_ETag resp) /\
  (forall s' path v, r = Ok (s', path, v) ->
     path = hs_cachePath s /\ hs_current s' = v /\ is_Some (w_files w' !! path)).
Proof.
  intros E. apply fetch_cases in E as [[Hf Hr]|(resp & Hget & Hst & Hbe & Hfile & v & -> & Hv)].
  - split; [by left|]. intros s' path v ->. destruct Hr as [[e He]|[Hok Hs]]; [done|].
    injection Hok as -> -> ->. done.
  - split; [right; by exists resp, v|]. intros s' path v' [= <- <- <-]. split_and!; eauto.
Qed.

(** ** Availability *)

Lemma fallback_available s e w :
  (forall n, fault n = None) -> is_Some (w_files w !! hs_cachePath s) ->
  exists x w', fallback s e w = (Ok x, w').
Proof.
  intros Hnf Hs. destruct (fallback s e w) as [r w'] eqn:E.
  pose proof (fallback_spec _ _ _ _ _ E) as (_ & _ & Hok). rewrite Hok by auto. eauto.
Qed.

Lemma cleanup_available s e w :
  (forall n, fault n = None) -> is_Some (w_files w !! hs_cachePath s) ->
  exists x w', (_ ← io_try (Remove (temp_path s)); fallback s e) w = (Ok x, w').
Proof.
  intros Hnf Hs. destruct (Remove (temp_path s) w) as [y w1] eqn:Er.
  rewrite (io_try_run _ (fun _ => fallback s e) _ _ Er). apply fallback_available; [done|]. cbn [snd].
  rewrite (touches_Remove _ _ _ _ Er (hs_cachePath s)); [done|]. pose proof (cache_neq_temp s). set_solver.
Qed.

Lemma Stat_available path w :
  (forall n, fault n = None) -> is_Some (w_files w !! path) -> Stat path w = (Ok tt, snd (Stat path w)).
Proof.
  intros Hnf Hs. destruct (Stat path w) as [r w'] eqn:E. apply Stat_spec in E as (_ & _ & Hok). cbn.
  by rewrite Hok.
Qed.

Lemma fetch_available s w :
  (forall n, fault n = None) -> is_Some (w_files w !! hs_cachePath s) ->
  exists x w', fetchLocked s w = (Ok x, w').
Proof.
  intros Hnf Hs. unfold fetchLocked. case_if; [by apply fallback_available|].
  destruct (http_get (hs_url s) (vs_ETag (hs_current s)) (vs_LastModified (hs_current s)) (w_kern w)) as [x k] eqn:Eh.
  assert (GetUrl (hs_url s) (vs_ETag (hs_current s)) (vs_LastModified (hs_current s)) w
          = (x, MkWorld (w_files w) k (S (w_calls w)))) as Eg by (unfold GetUrl; by rewrite Eh).
  rewrite (io_try_run _ _ _ _ Eg). cbn [fst snd]. set (w1 := MkWorld _ k _).
  destruct x as [resp|e]; [|by apply fallback_available].
  case_if.
  { rewrite (io_try_run _ _ _ _ (Stat_available (hs_cachePath s) w1 Hnf Hs)). cbn [fst snd]. by eexists _, _. }
  case_if; [by apply fallback_available|].
  destruct (downloadToFile resp (temp_path s) w1) as [d w2] eqn:Ed. rewrite (io_try_run _ _ _ _ Ed). cbn [fst snd].
  assert (is_Some (w_files w2 !! hs_cachePath s)) as Hs2.
  { rewrite (touches_download resp (temp_path s) w1 d w2 Ed); [done|]. pose proof (cache_neq_temp s). set_solver. }
  destruct d as [size|e]; [|by apply cleanup_available].
  unfold install. destruct (Rename (temp_path s) (hs_cachePath s) w2) as [x w3] eqn:Er.
  rewrite (io_try_run _ _ _ _ Er). cbn [fst snd]. destruct x as [[]|e].
  - unfold mbind at 1, io_bind at 1. cbn [Now]. set (v := MkVersion _ _ _ _ _).
    destruct (saveMetadata (with_current s v) (tick w3)) as [y w4] eqn:Es.
    rewrite (io_try_run _ _ _ _ Es). by eexists _, _.
  - apply cleanup_available; [done|].
    by rewrite (Rename_cases _ _ _ _ _ Er (not_eq_sym (cache_neq_temp s))).
Qed.

Lemma is_fresh_spec s maxAge w :
  exists b w1, is_fresh s maxAge w = (Ok b, w1) /\ w_files w1 = w_files w.
Proof. unfold is_fresh. destruct (vs_FetchedAt (hs_current s)); by eexists _, _. Qed.

(** C36. While a copy exists the store never fails: with a working file system,
    [Get] returns a path at every maximum age and [ForceRefresh] too, whatever the
    network does (no connection, any status, a truncated body). *)
Theorem store_available s maxAge w :
  (forall n, fault n = None) -> is_Some (w_files w !! hs_cachePath s) ->
  (exists s' v w', Get s maxAge w = (Ok (s', hs_cachePath s, v), w')) /\
  (exists s' v w', ForceRefresh s w = (Ok (s', hs_cachePath s, v), w')).
Proof.
  intros Hnf Hs.
  assert (forall w, is_Some (w_files w !! hs_cachePath s) ->
    exists s' v w', fetchLocked s w = (Ok (s', hs_cachePath s, v), w')) as Hfetch.
  { intros w1 Hs1. destruct (fetch_available s w1 Hnf Hs1) as ([[s' p] v] & w' & E).
    exists s', v, w'. rewrite E. pose proof (fetch_cases _ _ _ _ E) as [[_ [[e He]|[Hok _]]]|(resp & _ & _ & _ & _ & v' & Hok & _)];
      [done|by injection Hok as -> -> ->|by injection Hok as -> -> ->]. }
  split; [|by apply Hfetch]. unfold Get. case_if.
  { rewrite (io_try_run _ _ _ _ (Stat_available (hs_cachePath s) w Hnf Hs)). by eexists _, _, _. }
  destruct (is_fresh_spec s maxAge w) as (b & w1 & Ef & Hf). unfold mbind at 1, io_bind at 1. rewrite Ef.
  destruct b; [|by apply Hfetch; rewrite Hf].
  rewrite <- Hf in Hs. rewrite (io_try_run _ _ _ _ (Stat_available (hs_cachePath s) w1 Hnf Hs)). by eexists _, _, _.
Qed.

Lemma fetch_path s w st path v w' : fetchLocked s w = (Ok (st, path, v), w') -> path = hs_cachePath s.
Proof.
  intros E. apply fetch_cases in E as [[_ [[e He]|[Hok _]]]|(resp & _ & _ & _ & _ & v' & Hok & _)];
    [done|by injection Hok|by injection Hok].
Qed.

(** The path the store answers with is its own. *)
Lemma Get_path s maxAge w st path v w' : Get s maxAge w = (Ok (st, path, v), w') -> path = hs_cachePath s.
Proof.
  unfold Get. case_if.
  { destruct (Stat (hs_cachePath s) w) as [x w1] eqn:E. rewrite (io_try_run _ _ _ _ E). cbn [fst snd].
    destruct x; [|done]. by intros [= _ <- _ _]. }
  destruct (is_fresh_spec s maxAge w) as (b & w1 & Ef & _). unfold mbind at 1, io_bind at 1. rewrite Ef.
  destruct b; [|apply fetch_path].
  destruct (Stat (hs_cachePath s) w1) as [x w2] eqn:E. rewrite (io_try_run _ _ _ _ E). cbn [fst snd].
  destruct x; [by intros [= _ <- _ _]|apply fetch_path].
Qed.

(** A sidecar whose digest has fewer than 16 characters (one written by hand,
    or for the zero version) makes the constructor panic: its log line slices the
    first 16 bytes. *)
Theorem metadata_short_digest url cachePath timeout w data v :
  url <> ""%string -> cachePath <> ""%string -> fault (w_calls w) = None ->
  w_files w !! (cachePath +:+ ".meta.json") = Some data -> unmarshal_version data = Some v ->
  (String.length (vs_SHA256 v) < 16)%nat ->
  fst (NewHTTPStore url cachePath timeout w) = None.
Proof.
  intros Hu Hc Hf Hfile Hdec Hlen. unfold NewHTTPStore.
  apply String.eqb_neq in Hu, Hc. rewrite Hu, Hc. unfold loadMetadata, meta_path. cbn [hs_cachePath].
  rewrite ReadFile_nofault, Hfile, Hdec by done. apply Nat.ltb_lt in Hlen. by rewrite Hlen.
Qed.
End StoreSpec.
