(* ===== verification/Upload.v ===== *)
(** * [internal/api/sources_handlers.go]: uploads

  The handler that saves a list under [/tmp/d2ip-uploads].  The parsed form is its
  input: an error, or the name of the file, its bytes and what ended them.  Random file
  names are an interface. *)

From S2P Require Import Prelude GoLib Os Exporter ExporterSpec Store StoreSpec Api.

(** [uuid.NewString] *)
Class Uuid := { new_uuid : nat -> string }.

Record Upload := MkUpload { up_Filename : string; up_Data : string; up_DataErr : option error }.

Definition upload_dir : string := "/tmp/d2ip-uploads".

Section Upload.
Context {K : Type} `{Env K} `{Uuid}.

(** [io.Copy] into the created file. *)
Definition copy_upload (path : string) (file : Upload) : IO K unit :=
  AppendFile path (up_Data file);;
  match up_DataErr file with Some e => io_err e | None => mret tt end.

Definition handleSourceUpload (form : res error unit) (file : res error Upload) : World K -> Response * World K := fun w =>
  match form, file with
  | Err e, _ => (jsonError 400 ("parse form: " +:+ Error e), w)
  | _, Err e => (jsonError 400 ("get file: " +:+ Error e), w)
  | Ok _, Ok file =>
      if negb (HasSuffix (ToLower (up_Filename file)) ".txt") then (jsonError 400 "only .txt files allowed", w)
      else
        match MkdirAll upload_dir w with
        | (Err e, w) => (jsonError 500 ("mkdir: " +:+ Error e), w)
        | (Ok _, w) =>
            let path := path_join upload_dir (new_uuid (w_calls w) +:+ ".txt") in
            match Create path w with
            | (Err e, w) => (jsonError 500 ("create file: " +:+ Error e), w)
            | (Ok _, w) =>
                match copy_upload path file w with
                | (Err e, w) => (jsonError 500 ("copy: " +:+ Error e), snd (Remove path w))
                | (Ok _, w) => (jsonOK (BStatus [("path"%string, path)]), w)
                end
            end
        end
  end.

Lemma upload_frame path file : touches {[path]} (Create path;; copy_upload path file : IO K unit).
Proof.
  apply touches_bind; [apply touches_Create|]. intros _. unfold copy_upload.
  apply touches_bind; [apply touches_AppendFile|]. intros _. destruct (up_DataErr file); auto with d2ip.
Qed.

Lemma upload_complete path file (w : World K) u w' :
  (Create path;; copy_upload path file : IO K unit) w = (Ok u, w') ->
  w_files w' !! path = Some (up_Data file) /\ up_DataErr file = None.
Proof.
  unfold Create, copy_upload, AppendFile, syscall. io_unfold.
  destruct (fault (w_calls w)); [done|]. cbn.
  destruct (fault (S (w_calls w))); [done|]. destruct (up_DataErr file); [done|].
  intros [= _ <-]. rewrite !lookup_set_file, !decide_True by done. cbn [default].
  by rewrite lookup_partial_alter_eq.
Qed.

(** A list is saved whole, under a fresh name of the upload directory, when the answer is
    200; whatever the answer, no other file changes. *)
Lemma upload_saved form file (w : World K) resp w' :
  handleSourceUpload form file w = (resp, w') ->
  let path := path_join upload_dir (new_uuid (S (w_calls w)) +:+ ".txt") in
  (forall q, q <> path -> w_files w' !! q = w_files w !! q) /\
  (rp_code resp = 200%Z -> exists f, file = Ok f /\ rp_body resp = BStatus [("path"%string, path)] /\
     w_files w' !! path = Some (up_Data f) /\ up_DataErr f = None).
Proof.
  intros E path. revert E. unfold handleSourceUpload.
  destruct form as [|e]; [|by intros [= <- <-]]. destruct file as [f|e]; [|by intros [= <- <-]].
  destruct (HasSuffix _ _); [|by intros [= <- <-]]. cbn [negb].
  destruct (MkdirAll upload_dir w) as [r w1] eqn:E1.
  assert (w1 = tick w) as -> by (by injection E1 as _ <-).
  destruct r as [u|e]; [|by intros [= <- <-]]. cbn [w_calls tick]. fold path.
  pose proof (upload_frame path f (tick w)) as Hf. pose proof (upload_complete path f (tick w)) as Hc.
  unfold mbind, io_bind in Hf, Hc.
  destruct (Create path (tick w)) as [[u2|e] w2] eqn:E2.
  2: { intros [= <- <-]. split; [|done]. intros q Hq. rewrite (Hf _ _ eq_refl); [done|set_solver]. }
  destruct (copy_upload path f w2) as [[u3|e] w3] eqn:E3; intros [= <- <-].
  - split; [|intros _; destruct (Hc _ _ eq_refl); by exists f].
    intros q Hq. rewrite (Hf _ _ eq_refl); [done|set_solver].
  - split; [|done]. intros q Hq. destruct (Remove path w3) as [r4 w4] eqn:E4.
    rewrite (touches_Remove _ _ _ _ E4) by set_solver. rewrite (Hf _ _ eq_refl); [done|set_solver].
Qed.
End Upload.
