(* ===== verification/Server.v ===== *)
(** * The running server

  [internal/api/api.go]: the server with its components and the routes of [Handler], each
  with the checks its handler makes for a missing component.  A server and the objects it
  shares with the orchestrator are one state: the watcher with the event bus, the registry,
  the orchestrator and the world.  A run of the pipeline works on the same objects: the
  orchestrator's agents are operations on a kernel that holds them ([System]).  The event
  stream is in [EventStream], the static pages in [Assets], what [/metrics] prints is left
  out; requests are handled one after the other. *)

From S2P Require Import Prelude Order GoLib Os Netip NetipText Config Duration Settings Plan Exporter ExporterSpec Events EventStream.
From S2P Require Import Watcher Routing Cache Orchestrator Scheduler Sourcereg Store Api Upload.

Local Open Scope Z_scope.

(** ** The kernel of a run *)

Record System (K St : Type) := MkSystem { sy_kern : K; sy_watcher : Watcher; sy_registry : DBRegistry St }.
Arguments MkSystem {K St}. Arguments sy_kern {K St}. Arguments sy_watcher {K St}. Arguments sy_registry {K St}.

Definition with_kern {K St} (k : K) (s : System K St) : System K St := MkSystem k (sy_watcher s) (sy_registry s).
Definition with_registry {K St} (r : DBRegistry St) (s : System K St) : System K St :=
  MkSystem (sy_kern s) (sy_watcher s) r.

#[export] Instance system_env {K St} `{Env K} : Env (System K St) := {|
  fault := fault; torn := torn; clock := clock;
  exec argv stdin s :=
    let '(e, out, err, k) := exec argv stdin (sy_kern s) in (e, out, err, with_kern k s);
  look_path bin s := look_path bin (sy_kern s)
|}.

Section Lift.
Context {K St : Type}.

Definition down (w : World (System K St)) : World K := MkWorld (w_files w) (sy_kern (w_kern w)) (w_calls w).
Definition up (s : System K St) (w : World K) : World (System K St) :=
  MkWorld (w_files w) (with_kern (w_kern w) s) (w_calls w).

(** An operation of a component that has the kernel [K]. *)
Definition lift {A} (m : IO K A) : IO (System K St) A := fun w =>
  let '(r, w') := m (down w) in (r, up (w_kern w) w').

(** Publication on the bus of the watcher; a panic there is excluded below. *)
Definition publish_event (topic eventType : string) (data : any) (w : World (System K St)) : World (System K St) :=
  let wt := sy_watcher (w_kern w) in
  match wt_eventBus wt with
  | None => w
  | Some bus =>
      match Events.Publish bus topic (MkEvent topic eventType data) with
      | Some bus => MkWorld (w_files w)
                      (MkSystem (sy_kern (w_kern w)) (set_chans wt (wt_chans wt) (Some bus)) (sy_registry (w_kern w)))
                      (w_calls w)
      | None => w
      end
  end.
End Lift.

(** ** The agents of [main] *)

Section Agents.
Context {K St : Type} `{Env K} `{Sqlite K} `{!Source K St} `{!Factories K St} `{ConfigCodec} `{Digest} `{TempNames} `{StateCodec}.
Context (order : gset string -> list string) (rec_order : gset RecordKey -> list RecordKey).
(** the resolver, which [Pool] models *)
Context (batch : list string -> World K -> list ResolveResult * World K).

Definition registry_load : IO (System K St) unit := fun w =>
  let '((r, e), w') := LoadAll order (sy_registry (w_kern w)) (down w) in
  (match e with None => Ok tt | Some e => Err e end, up (with_registry r (w_kern w)) w').

Definition system_agents (exportDir : string) (router : CompositeRouter) : Agents (System K St) :=
  MkAgents registry_load
    (fun s => ResolveCategory order (sy_registry s))
    (fun s => GetDomains order (sy_registry s))
    (fun s => GetPrefixes order (sy_registry s))
    (fun ds ttl failedTTL => lift (NeedsRefresh order ds ttl failedTTL))
    (fun ds w => let '(l, w') := batch ds (down w) in (l, up (w_kern w) w'))
    (fun results => lift (UpsertBatch results))
    (fun ds => lift (SnapshotForDomains rec_order ds))
    true
    (fun policy v4 v6 => lift (WritePolicy exportDir policy v4 v6))
    (fun policy => lift (Caps router policy))
    (fun policy v4 v6 => lift (ApplyPolicy router policy v4 v6))
    (fun s => sn_Config (Current (sy_watcher s)))
    publish_event.
End Agents.

(** ** The server *)

(** Whether a component was passed to [New]; [SetPolicyRouter] gives the router. *)
Record Server := MkServer {
  sv_orch : bool; sv_router : bool; sv_policyRtr : option CompositeRouter; sv_cfgWatcher : bool; sv_kvStore : bool;
  sv_dlProvider : bool; sv_sourceStore : bool; sv_cacheAgent : bool; sv_eventBus : bool; sv_registry : bool;
  sv_version : string; sv_buildTime : string }.

Definition NewServer (orch router cfgWatcher kvStore dlProvider sourceStore cacheAgent eventBus registry : bool) : Server :=
  MkServer orch router None cfgWatcher kvStore dlProvider sourceStore cacheAgent eventBus registry "" "".

Definition SetVersion (sv : Server) (version buildTime : string) : Server :=
  MkServer (sv_orch sv) (sv_router sv) (sv_policyRtr sv) (sv_cfgWatcher sv) (sv_kvStore sv) (sv_dlProvider sv)
    (sv_sourceStore sv) (sv_cacheAgent sv) (sv_eventBus sv) (sv_registry sv) version buildTime.

Definition SetPolicyRouter (sv : Server) (r : CompositeRouter) : Server :=
  MkServer (sv_orch sv) (sv_router sv) (Some r) (sv_cfgWatcher sv) (sv_kvStore sv) (sv_dlProvider sv)
    (sv_sourceStore sv) (sv_cacheAgent sv) (sv_eventBus sv) (sv_registry sv) (sv_version sv) (sv_buildTime sv).

(** The objects the server and the orchestrator point to. *)
Record State (K St : Type) := MkState {
  ss_watcher : Watcher; ss_registry : DBRegistry St; ss_orch : Orchestrator; ss_world : World K }.
Arguments MkState {K St}. Arguments ss_watcher {K St}. Arguments ss_registry {K St}.
Arguments ss_orch {K St}. Arguments ss_world {K St}.

(** ** Requests *)

(** A request that was routed, with its parameters and the decoded body or the error of
    its decoder. *)
Inductive Request :=
| GetHealthz | GetReadyz | GetVersion
| PostPipelineRun (body : PipelineRequest * option error) | GetPipelineStatus | GetPipelineHistory | PostPipelineCancel
| PostRoutingDryRun (body : res error (list Prefix * list Prefix)) | PostRoutingRollback | GetRoutingSnapshot
| GetSettings | PutSettings (body : res error (gmap string string)) | DeleteSettings (key : string)
| GetCategories | GetCategoryDomains (code page per_page : string)
| GetCacheStats | PostCachePurge (body : res error unit) | PostCacheVacuum | GetCacheEntries (domain : string)
| GetSources | PostSources (body : res error SrcConfig) | GetSource_ (id : string)
| PutSource (id : string) (body : res error SrcConfig) | DeleteSource (id : string) | PostSourceRefresh (id : string)
| PostSourceUpload (form : res error unit) (file : res error Upload)
| GetSourceInfo | PostSourceFetch
| GetExportDownload (policy typ : string)
| GetConfigExport | PostConfigImport (body : res error (gmap string string))
| GetPolicies | GetPolicy (name : string) | PostPolicies (body : res error PolicyConfig)
| PutPolicy (name : string) (body : res error PolicyConfig) | DeletePolicy (name : string).

(** The routes of [GET]. *)
Definition is_get (req : Request) : bool :=
  match req with
  | GetHealthz | GetReadyz | GetVersion | GetPipelineStatus | GetPipelineHistory | GetRoutingSnapshot
  | GetSettings | GetCategories | GetCategoryDomains _ _ _ | GetCacheStats | GetCacheEntries _
  | GetSources | GetSource_ _ | GetSourceInfo | GetExportDownload _ _ | GetConfigExport
  | GetPolicies | GetPolicy _ => true
  | _ => false
  end.

(** ** What a handler is given *)

Section Serve.
Context {K St : Type}.
Implicit Types (s : State K St).

(** [None] is a panic, which the server's middleware turns into a 500. *)
Definition Serve : Type := State K St -> option Response * State K St.

Definition set_world (w : World K) s : State K St := MkState (ss_watcher s) (ss_registry s) (ss_orch s) w.

Definition answer (r : Response) : Serve := fun s => (Some r, s).
Definition panic : Serve := fun s => (None, s).

(** [if s.component == nil { ... return }]. *)
Definition require (present : bool) (otherwise : Response) (h : Serve) : Serve :=
  if present then h else answer otherwise.
(** A method of a component that is not checked for. *)
Definition deref (present : bool) (h : Serve) : Serve := if present then h else panic.
(** [if bad { s.jsonError(...); return }], before the component is looked at. *)
Definition refuse (bad : option Response) (h : Serve) : Serve :=
  match bad with Some r => answer r | None => h end.
Definition bad_body {A} (prefix : string) (body : res error A) : option Response :=
  match body with Ok _ => None | Err e => Some (jsonError 400 (prefix +:+ Error e)) end.
Definition empty_param (param message : string) : option Response :=
  if String.eqb param "" then Some (jsonError 400 message) else None.

Definition on_watcher (h : Watcher -> Response) : Serve := fun s => (Some (h (ss_watcher s)), s).
Definition on_orch (h : Orchestrator -> Response) : Serve := fun s => (Some (h (ss_orch s)), s).
Definition on_registry (h : DBRegistry St -> Response) : Serve := fun s => (Some (h (ss_registry s)), s).
Definition on_world (h : Watcher -> World K -> Response * World K) : Serve := fun s =>
  let '(r, w) := h (ss_watcher s) (ss_world s) in (Some r, set_world w s).
Definition on_io (h : Watcher -> IO K Response) : Serve := fun s =>
  match h (ss_watcher s) (ss_world s) with
  | (Ok r, w) => (Some r, set_world w s)
  | (Err _, w) => (None, set_world w s)
  end.
Definition on_config (h : Watcher -> World K -> option (Response * Watcher) * World K) : Serve := fun s =>
  match h (ss_watcher s) (ss_world s) with
  | (Some (r, wt), w) => (Some r, MkState wt (ss_registry s) (ss_orch s) w)
  | (None, w) => (None, set_world w s)
  end.
Definition on_sources (h : DBRegistry St -> World K -> Response * DBRegistry St * World K) : Serve := fun s =>
  let '(r, reg, w) := h (ss_registry s) (ss_world s) in (Some r, MkState (ss_watcher s) reg (ss_orch s) w).

(** The state as the orchestrator sees it, and back. *)
Definition embed s : World (System K St) :=
  let w := ss_world s in MkWorld (w_files w) (MkSystem (w_kern w) (ss_watcher s) (ss_registry s)) (w_calls w).
Definition project (o : Orchestrator) (w : World (System K St)) : State K St :=
  MkState (sy_watcher (w_kern w)) (sy_registry (w_kern w)) o (down w).

(** Without a store [persistPolicies] writes nothing, and these handlers write nothing
    else. *)
Definition if_stored (present : bool) (h : Watcher -> World K -> option (Response * Watcher) * World K)
    : Watcher -> World K -> option (Response * Watcher) * World K := fun wt w =>
  if present then h wt w else (fst (h wt w), w).
End Serve.
Arguments Serve : clear implicits.

Definition no_kvStore : Response := jsonError 500 "kvStore not initialized".
Definition no_registry : Response := jsonError 503 "registry unavailable".
Definition no_cache : Response := jsonError 503 "cache unavailable".
Definition no_orch : Response := jsonError 503 "orchestrator not initialized".

(** ** The routes *)

(** What [main] builds once: the server, and the directory and router of its
    orchestrator. *)
Record Deployment := MkDeployment { dp_server : Server; dp_exportDir : string; dp_policyRtr : CompositeRouter }.

Section Routes.
Context {K St : Type} `{Env K} `{Sqlite K} `{!Source K St} `{!Factories K St} `{ConfigCodec} `{Digest} `{TempNames}.
Context `{StateCodec} `{Json} `{Viper} `{Uuid}.
Context (getenv : string -> string) (order : gset string -> list string) (rec_order : gset RecordKey -> list RecordKey).
Context (addr_order : gset Addr -> list Addr).
Context (batch : list string -> World K -> list ResolveResult * World K) (pragma : string -> Tables -> Z).
Implicit Types (d : Deployment) (sv : Server).

(** [Run] on the shared objects. *)
Definition run_pipeline d (body : PipelineRequest * option error) : Serve K St := fun s =>
  let ag := system_agents order rec_order batch (dp_exportDir d) (dp_policyRtr d) in
  let '(r, o, w) := handlePipelineRun ag addr_order order body (ss_orch s) (embed s) in (Some r, project o w).

Definition serve_pipeline d (req : Request) : option (Serve K St) :=
  let sv := dp_server d in
  match req with
  | PostPipelineRun body => Some (require (sv_orch sv) no_orch (run_pipeline d body))
  | GetPipelineStatus => Some (require (sv_orch sv) no_orch (on_orch handlePipelineStatus))
  | GetPipelineHistory => Some (require (sv_orch sv) (jsonOK (BHistory [])) (on_orch handlePipelineHistory))
  | PostPipelineCancel =>
      Some (require (sv_orch sv) (jsonError 503 "orchestrator unavailable") (on_orch handlePipelineCancel))
  | _ => None
  end.

(** The legacy router is only asked when there are prefixes. *)
Definition serve_routing sv (req : Request) : option (Serve K St) :=
  match req with
  | PostRoutingDryRun body =>
      Some (match body with
            | Ok (_ :: _, _) | Ok (_, _ :: _) => deref (sv_router sv) (answer (handleRoutingDryRun body))
            | _ => answer (handleRoutingDryRun body)
            end)
  | PostRoutingRollback => Some (deref (sv_router sv) (answer handleRoutingRollback))
  | GetRoutingSnapshot =>
      Some (deref (sv_cfgWatcher sv) (fun s =>
        match policies_of (sn_Config (Current (ss_watcher s))), sv_policyRtr sv with
        | _ :: _, Some rtr => on_io (handleRoutingSnapshot rtr) s
        | _, _ => deref (sv_router sv) (answer legacy_snapshot) s
        end))
  | _ => None
  end.

Definition serve_settings sv (req : Request) : option (Serve K St) :=
  match req with
  | GetSettings => Some (require (sv_kvStore sv) no_kvStore (deref (sv_cfgWatcher sv) (on_world handleSettingsGet)))
  | PutSettings body =>
      Some (refuse (bad_body "invalid JSON: " body) (require (sv_kvStore sv) no_kvStore
        (deref (sv_cfgWatcher sv) (on_config (handleSettingsPut getenv order body)))))
  | DeleteSettings key =>
      Some (refuse (empty_param key "key is required") (require (sv_kvStore sv) no_kvStore
        (deref (sv_cfgWatcher sv) (on_config (handleSettingsDelete getenv order key)))))
  | GetConfigExport => Some (deref (sv_cfgWatcher sv) (deref (sv_kvStore sv) (on_world handleConfigExport)))
  | PostConfigImport body =>
      Some (refuse (bad_body "invalid JSON: " body) (require (sv_kvStore sv) no_kvStore
        (deref (sv_cfgWatcher sv) (on_config (handleConfigImport getenv order body)))))
  | _ => None
  end.

Definition serve_policies sv (req : Request) : option (Serve K St) :=
  match req with
  | GetPolicies => Some (deref (sv_cfgWatcher sv) (on_watcher handlePoliciesList))
  | GetPolicy name => Some (deref (sv_cfgWatcher sv) (on_watcher (handlePolicyGet name)))
  | PostPolicies body =>
      Some (refuse (match body with Ok _ => None | Err _ => Some (jsonError 400 "invalid JSON") end)
        (deref (sv_cfgWatcher sv) (on_config (if_stored (sv_kvStore sv) (handlePolicyCreate body)))))
  | PutPolicy name body =>
      Some (refuse (match body with
                    | Err _ => Some (jsonError 400 "invalid JSON")
                    | Ok p => if String.eqb (pc_Name p) name then None else Some (jsonError 400 "name mismatch")
                    end)
        (deref (sv_cfgWatcher sv) (on_config (if_stored (sv_kvStore sv) (handlePolicyUpdate name body)))))
  | DeletePolicy name =>
      Some (deref (sv_cfgWatcher sv) (on_config (if_stored (sv_kvStore sv) (handlePolicyDelete name))))
  | _ => None
  end.

Definition serve_cache sv (req : Request) : option (Serve K St) :=
  match req with
  | GetCacheStats => Some (require (sv_cacheAgent sv) no_cache (on_world (fun _ => handleCacheStats)))
  | PostCachePurge body => Some (require (sv_cacheAgent sv) no_cache (answer (handleCachePurge body)))
  | PostCacheVacuum => Some (require (sv_cacheAgent sv) no_cache (on_world (fun _ => handleCacheVacuum pragma)))
  | GetCacheEntries domain => Some (require (sv_cacheAgent sv) no_cache (answer (handleCacheEntries domain)))
  | _ => None
  end.

(** Without a watcher no category counts as configured. *)
Definition categories_page sv : Serve K St := fun s =>
  on_registry (fun r =>
    if sv_cfgWatcher sv then handleCategoriesList order r (ss_watcher s)
    else jsonOK (BCategories [] (ci_Name <$> ListCategories order r))) s.

Definition serve_sources sv (req : Request) : option (Serve K St) :=
  let sources := require (sv_registry sv) (jsonOK (BSources [])) (on_registry (handleSourcesList order)) in
  let with_id id h := refuse (empty_param id "source id is required") (require (sv_registry sv) no_registry h) in
  match req with
  | GetCategories => Some (require (sv_registry sv) (jsonOK (BCategories [] [])) (categories_page sv))
  | GetCategoryDomains code page per_page =>
      Some (refuse (empty_param code "category code is required") (require (sv_registry sv) no_registry (fun s =>
        (handleCategoryDomains order (ss_registry s) code page per_page, s))))
  | GetSources | GetSourceInfo => Some sources
  | PostSources body =>
      Some (require (sv_registry sv) no_registry (on_sources (fun r => handleSourceCreate r body)))
  | GetSource_ id => Some (with_id id (on_registry (fun r => handleSourceGet r id)))
  | PutSource id body => Some (with_id id (on_sources (fun r => handleSourceUpdate r id body)))
  | DeleteSource id => Some (with_id id (on_sources (fun r => handleSourceDelete r id)))
  | PostSourceRefresh id => Some (with_id id (on_sources (fun r => handleSourceRefresh r id)))
  | PostSourceFetch => Some (require (sv_registry sv) no_registry (on_sources (handleSourceFetchLegacy order)))
  | PostSourceUpload form file => Some (on_world (fun _ => handleSourceUpload form file))
  | _ => None
  end.

Definition serve d (req : Request) : Serve K St :=
  let sv := dp_server d in
  let routes := [serve_pipeline d req; serve_routing sv req; serve_settings sv req; serve_policies sv req;
                 serve_cache sv req; serve_sources sv req] in
  match req with
  | GetHealthz => answer handleHealth
  | GetReadyz => answer handleReady
  | GetVersion => answer (handleVersion (sv_version sv) (sv_buildTime sv))
  | GetExportDownload policy typ =>
      (** the parameters are looked at first *)
      if String.eqb policy "" || negb (one_of typ ["ipv4"; "ipv6"]%string)
      then on_world (fun wt => handleExportDownload policy typ (cfg_Export (sn_Config (Current wt))))
      else deref (sv_cfgWatcher sv)
             (on_world (fun wt => handleExportDownload policy typ (cfg_Export (sn_Config (Current wt)))))
  | _ => fold_right (fun route rest => match route with Some h => h | None => rest end) panic routes
  end.

(** ** Executions *)

(** What happens to a server between requests: a run that the scheduler starts, which
    [Stop] may cancel, clients of the event stream that come, read and go. *)
Definition scheduled_run d (ctx : Ctx) (s : State K St) : State K St :=
  let ag := system_agents order rec_order batch (dp_exportDir d) (dp_policyRtr d) in
  let '(o, w) := runPipeline ag addr_order order ctx (ss_orch s) (embed s) in project o w.

Definition set_bus (b : Bus) (s : State K St) : State K St :=
  let wt := ss_watcher s in
  MkState (set_chans wt (wt_chans wt) (Some b)) (ss_registry s) (ss_orch s) (ss_world s).

Inductive server_step d : State K St -> State K St -> Prop :=
| sstep_request s req : server_step d s (snd (serve d req s))
| sstep_scheduled s ctx : server_step d s (scheduled_run d ctx s)
| sstep_connect s b :
    wt_eventBus (ss_watcher s) = Some b -> server_step d s (set_bus (fst (Events.Subscribe b stream_topics)) s)
| sstep_disconnect s b b' ch :
    wt_eventBus (ss_watcher s) = Some b -> (exists t, ch ∈ topic_subs b t) -> Events.Unsubscribe b ch = Some b' ->
    server_step d s (set_bus b' s)
| sstep_read s b ch ev buf closed :
    wt_eventBus (ss_watcher s) = Some b -> b_chans b !! ch = Some (MkChan (ev :: buf) closed) ->
    server_step d s (set_bus (MkBus (b_subs b) (<[ch := MkChan buf closed]> (b_chans b)) (b_next b)) s).

(** A configuration can be published fewer than [2^64] times. *)
Inductive server_reach d (s0 : State K St) : State K St -> Prop :=
| sreach_init : server_reach d s0 s0
| sreach_step s s' :
    server_reach d s0 s -> wt_version (ss_watcher s) < 2 ^ 64 - 1 -> server_step d s s' -> server_reach d s0 s'.
End Routes.
