(* ===== verification/ServerSpec.v ===== *)
(** * What a running server guarantees

  The invariant of the objects a server shares with its orchestrator, kept by every
  request, scheduled run and client of the event stream; no request panics but one; what
  [GET] requests leave alone; what a server without some component answers; and a policy
  that was created is part of the next run. *)

From S2P Require Import Prelude Order GoLib Os Netip NetipText Config ConfigSpec Duration Settings Scheduler Plan Exporter ExporterSpec Events EventsSpec EventStream.
From S2P Require Import Watcher WatcherSpec Routing Cache CacheSpec Orchestrator OrchestratorSpec Sourcereg SourceregSpec Store Api ApiSpec CacheApiSpec Upload Server.

Local Open Scope Z_scope.

Section ServerSpec.
Context {K St : Type} `{Env K} `{Sqlite K} `{!Source K St} `{!Factories K St} `{ConfigCodec} `{Digest} `{TempNames}.
Context `{StateCodec} `{Json} `{Viper} `{Uuid}.
Context (getenv : string -> string) (order : gset string -> list string) (rec_order : gset RecordKey -> list RecordKey).
Context (addr_order : gset Addr -> list Addr).
Context (batch : list string -> World K -> list ResolveResult * World K) (pragma : string -> Tables -> Z).
Implicit Types (s : State K St) (h : Serve K St).
Local Notation serve := (serve (K := K) (St := St) getenv order rec_order addr_order batch pragma).

(** ** The invariant *)

Record sinv s : Prop := {
  sv_watch : winv (ss_watcher s);
  sv_reg : rinv (ss_registry s);
  sv_free : or_running (ss_orch s) = false;
  sv_hist : (length (or_history (ss_orch s)) <= 10)%nat
}.

(** What a run keeps of the objects it shares. *)
Definition kept (w w' : World (System K St)) : Prop :=
  (winv (sy_watcher (w_kern w)) -> winv (sy_watcher (w_kern w'))) /\
  (rinv (sy_registry (w_kern w)) -> rinv (sy_registry (w_kern w'))) /\
  wt_current (sy_watcher (w_kern w')) = wt_current (sy_watcher (w_kern w)).

#[local] Instance kept_preorder : PreOrder kept.
Proof. split; [done|]. intros w1 w2 w3 (? & ? & ?) (? & ? & ?). split; [auto|]. split; [auto|congruence]. Qed.

Lemma kept_lift {A} (m : IO K A) : respects kept (lift m).
Proof. intros w r w'. unfold lift. destruct (m (down w)) as [x w1]. intros [= <- <-]. by split_and!. Qed.

Lemma publish_event_bus topic ev data w :
  winv (sy_watcher (w_kern w)) -> exists b, bus_ok b /\
  sy_watcher (w_kern (publish_event (K := K) (St := St) topic ev data w)) =
    set_chans (sy_watcher (w_kern w)) (wt_chans (sy_watcher (w_kern w))) b.
Proof.
  intros Hi. pose proof (wi_bus _ Hi) as Hb. unfold publish_event.
  destruct (wt_eventBus (sy_watcher (w_kern w))) as [bus|] eqn:E.
  2: { exists None. split; [done|]. rewrite <- E. by destruct (sy_watcher (w_kern w)). }
  destruct (bus_inv_publish bus topic (MkEvent topic ev data) (Hb bus eq_refl)) as (bus' & -> & Hi').
  exists (Some bus'). split; [|done]. by intros ? [= <-].
Qed.

Lemma kept_publish topic ev data w : kept w (publish_event topic ev data w).
Proof.
  split_and!.
  - intros Hi. destruct (publish_event_bus topic ev data w Hi) as (b & Hb & ->). by apply winv_bus.
  - unfold publish_event. destruct (wt_eventBus _); [|done]. by destruct (Events.Publish _ _ _).
  - unfold publish_event. destruct (wt_eventBus _); [|done]. by destruct (Events.Publish _ _ _).
Qed.

Lemma kept_load : respects kept (registry_load order).
Proof.
  intros w r w'. unfold registry_load. destruct (LoadAll order (sy_registry (w_kern w)) (down w)) as [[reg e] w1] eqn:E.
  intros [= <- <-]. split_and!; [done| |done]. cbn. intros Hi. by eapply rinv_load.
Qed.

Lemma system_agents_kept dir rtr : agents_respect (system_agents order rec_order batch dir rtr) kept.
Proof.
  constructor; intros; try apply kept_lift; [by split_and!|apply kept_load| |apply kept_publish].
  cbn [ag_ResolveBatch system_agents]. destruct (batch ds (down w)) as [l w1]. by split_and!.
Qed.

(** ** Handlers that return *)

(** [h] answers, keeps the invariant, and publishes at most once. *)
Definition good h : Prop := forall s, sinv s -> wt_version (ss_watcher s) < 2 ^ 64 - 1 ->
  exists r s', h s = (Some r, s') /\ sinv s'.

Lemma good_answer r : good (answer r).
Proof. intros s Hi _. by exists r, s. Qed.
Lemma good_require b r h : good h -> good (require b r h).
Proof. intros Hh. destruct b; [done|apply good_answer]. Qed.
Lemma good_deref b h : b = true -> good h -> good (deref b h).
Proof. by intros ->. Qed.
Lemma good_refuse r h : good h -> good (refuse r h).
Proof. intros Hh. destruct r; [apply good_answer|done]. Qed.
Lemma good_on_watcher f : good (on_watcher f).
Proof. intros s Hi _. by eexists _, s. Qed.
Lemma good_on_orch f : good (on_orch f).
Proof. intros s Hi _. by eexists _, s. Qed.
Lemma good_on_registry f : good (on_registry f).
Proof. intros s Hi _. by eexists _, s. Qed.

Lemma sinv_world s w : sinv s -> sinv (set_world w s).
Proof. by intros []; constructor. Qed.

Lemma good_on_world f : good (on_world f).
Proof.
  intros s Hi _. unfold on_world. destruct (f (ss_watcher s) (ss_world s)) as [r w]. eexists _, _.
  split; [done|by apply sinv_world].
Qed.

Lemma good_on_io f : (forall wt w, exists r w', f wt w = (Ok r, w')) -> good (on_io f).
Proof.
  intros Hf s Hi _. unfold on_io. destruct (Hf (ss_watcher s) (ss_world s)) as (r & w & ->).
  eexists _, _. split; [done|by apply sinv_world].
Qed.

Definition watcher_good (f : Watcher -> World K -> option (Response * Watcher) * World K) : Prop :=
  forall wt w, winv wt -> wt_version wt < 2 ^ 64 - 1 -> exists r wt' w', f wt w = (Some (r, wt'), w') /\ winv wt'.

Lemma good_on_config f : watcher_good f -> good (on_config f).
Proof.
  intros Hf s [Hw Hr Hf' Hh] Hv. unfold on_config. destruct (Hf _ (ss_world s) Hw Hv) as (r & wt & w & -> & Hw').
  eexists _, _. split; [done|by constructor].
Qed.

Lemma good_on_sources f :
  (forall r w, rinv r -> rinv (snd (fst (f r w)))) -> good (on_sources f).
Proof.
  intros Hf s [Hw Hr Hf' Hh] Hv. unfold on_sources. specialize (Hf _ (ss_world s) Hr).
  destruct (f (ss_registry s) (ss_world s)) as [[r reg] w]. eexists _, _. split; [done|by constructor].
Qed.

(** ** The handlers of the configuration *)

Lemma reload_good : watcher_good (reload_response getenv order).
Proof.
  intros wt w Hi Hv. unfold reload_response, reloadConfig.
  destruct (GetAll w) as [[kv|e] w1]; [|by eexists _, _, _].
  destruct (ApplyOverrides getenv order _ kv) as [cfg|e]; [|by eexists _, _, _].
  destruct (Publish_total wt cfg Hi Hv) as (e & wt' & -> & Hi' & _). by destruct e; eexists _, _, _.
Qed.

Lemma settings_put_good body : watcher_good (handleSettingsPut getenv order body).
Proof.
  intros wt w Hi Hv. unfold handleSettingsPut. destruct body as [kv|e]; [|by eexists _, _, _].
  destruct (set_rows _ w) as [[u|e] w1]; [by apply reload_good|by eexists _, _, _].
Qed.

Lemma settings_delete_good key : watcher_good (handleSettingsDelete getenv order key).
Proof.
  intros wt w Hi Hv. unfold handleSettingsDelete. case_if; [by eexists _, _, _|].
  destruct (Delete key w) as [[u|e] w1]; [by apply reload_good|by eexists _, _, _].
Qed.

Lemma config_import_good body : watcher_good (handleConfigImport getenv order body).
Proof.
  intros wt w Hi Hv. unfold handleConfigImport. destruct body as [kv|e]; [|by eexists _, _, _].
  destruct (set_rows _ w) as [[u|e] w1]; [|by eexists _, _, _].
  destruct (reload_good wt w1 Hi Hv) as (r & wt' & w' & E & Hi'). unfold reload_response in E.
  destruct (reloadConfig getenv order wt w1) as [[[[e|] wt2]|] w2]; [..|done]; injection E as <- <- <-; by eexists _, _, _.
Qed.

Lemma policy_change_good f : watcher_good (policy_change f).
Proof.
  intros wt w Hi Hv. unfold policy_change. destruct (f _) as [r|cfg]; [by eexists _, _, _|]. unfold policy_commit.
  destruct (Publish_total wt cfg Hi Hv) as (e & wt' & -> & Hi' & _). by destruct e; eexists _, _, _.
Qed.

Lemma policy_create_good body : watcher_good (handlePolicyCreate body).
Proof. destruct body as [p|e]; [apply policy_change_good|]. intros wt w Hi _. by eexists _, _, _. Qed.

Lemma policy_update_good name body : watcher_good (handlePolicyUpdate name body).
Proof.
  destruct body as [p|e]; [|intros wt w Hi _; by eexists _, _, _].
  intros wt w Hi Hv. cbn. case_if; [by eexists _, _, _|]. by apply policy_change_good.
Qed.

Lemma stored_good b f : watcher_good f -> watcher_good (if_stored b f).
Proof.
  intros Hf wt w Hi Hv. unfold if_stored. destruct (Hf wt w Hi Hv) as (r & wt' & w' & -> & Hi').
  destruct b; cbn; by eexists _, _, _.
Qed.
(** ** The handlers of the sources *)

Lemma registry_response_inv x :
  rinv (fst (fst x)) -> rinv (snd (fst (registry_response (K := K) (St := St) x))).
Proof. by destruct x as [[reg e] w]. Qed.

Lemma add_source_inv r cfg w : rinv r -> rinv (snd (fst (registry_response (AddSource r cfg w)))).
Proof.
  intros Hi. apply registry_response_inv. destruct (AddSource r cfg w) as [[reg e] w1] eqn:E. by eapply rinv_add.
Qed.

Lemma source_create_inv r body w : rinv r -> rinv (snd (fst (handleSourceCreate (K := K) (St := St) r body w))).
Proof.
  intros Hi. unfold handleSourceCreate. destruct body as [cfg|e]; [|done]. do 3 (case_if; [done|]). by apply add_source_inv.
Qed.

Lemma source_update_inv r id body w : rinv r -> rinv (snd (fst (handleSourceUpdate (K := K) (St := St) r id body w))).
Proof. intros Hi. unfold handleSourceUpdate. case_if; [done|]. destruct body as [cfg|e]; [|done]. by apply add_source_inv. Qed.

Lemma source_delete_inv r id w : rinv r -> rinv (snd (fst (handleSourceDelete (K := K) (St := St) r id w))).
Proof.
  intros Hi. unfold handleSourceDelete. case_if; [done|]. apply registry_response_inv.
  destruct (RemoveSource r id w) as [[reg e] w1] eqn:E. by eapply rinv_remove.
Qed.

Lemma source_refresh_inv r id w : rinv r -> rinv (snd (fst (handleSourceRefresh (K := K) (St := St) r id w))).
Proof.
  intros Hi. unfold handleSourceRefresh. case_if; [done|]. destruct (GetSource r id) as [src|] eqn:Es; [|done].
  pose proof (rinv_reload r id src w Hi Es) as Hr. by destruct (src_Load src w) as [[src' e] w1].
Qed.

Lemma source_fetch_inv r w : rinv r -> rinv (snd (fst (handleSourceFetchLegacy (K := K) (St := St) order r w))).
Proof.
  intros Hi. apply registry_response_inv. destruct (LoadAll order r w) as [[reg e] w1] eqn:E. by eapply rinv_load.
Qed.

(** ** The routes *)

(** A run on the shared objects, by whomever it is started. *)
Lemma pipeline_run_inv dir rtr ctx req s o rep err w :
  sinv s ->
  Run (system_agents order rec_order batch dir rtr) addr_order order ctx req (ss_orch s) (embed s) = ((o, rep, err), w) ->
  sinv (project o w).
Proof.
  intros [Hw Hr Hf Hh] E. apply (Run_respects _ addr_order order kept (system_agents_kept _ _)) in E as [(Kw & Kr & _) Ho].
  destruct (Ho Hf Hh) as [Hf' Hh']. constructor; auto.
Qed.

Lemma run_pipeline_good d body : good (run_pipeline order rec_order addr_order batch d body).
Proof.
  intros s Hi _. unfold run_pipeline, handlePipelineRun.
  destruct (Run _ _ _ _ _ _ _) as [[[o rep] err] w] eqn:E. apply pipeline_run_inv in E; [|done].
  by destruct err as [e|]; eexists _, _.
Qed.

Lemma scheduled_run_inv d ctx s : sinv s -> sinv (scheduled_run order rec_order addr_order batch d ctx s).
Proof.
  intros Hi. unfold scheduled_run, runPipeline. destruct (Run _ _ _ _ _ _ _) as [[[o rep] err] w] eqn:E. by eapply pipeline_run_inv.
Qed.

Lemma snapshot_ok rtr name w : exists x w', SnapshotPolicy (K := K) rtr name w = (Ok x, w').
Proof.
  unfold SnapshotPolicy, load_or_zero. destruct (loadPolicyState (cr_stateDir rtr) name w) as [x w1] eqn:E.
  rewrite (io_try_run _ _ _ _ E). by eexists _, _.
Qed.

Lemma sum_policies_ok rtr policies : forall v4 v6 last applied (w : World K),
  exists x w', sum_policies rtr policies v4 v6 last applied w = (Ok x, w').
Proof.
  induction policies as [|p l IH]; intros *; cbn [sum_policies]; [by eexists _, _|].
  case_if; [apply IH|]. unfold mbind, io_bind. destruct (snapshot_ok rtr (pc_Name p) w) as (x & w1 & ->).
  case_if; apply IH.
Qed.

Lemma routing_snapshot_ok rtr wt (w : World K) : exists r w', handleRoutingSnapshot rtr wt w = (Ok r, w').
Proof.
  unfold handleRoutingSnapshot. case_if; [by eexists _, _|]. unfold mbind, io_bind.
  destruct (sum_policies_ok rtr (policies_of (sn_Config (Current wt))) 0 0 0 false w) as ([[[v4 v6] last] ap] & w1 & ->).
  by eexists _, _.
Qed.

(** The page a request asks for can be addressed with machine integers. *)
Definition page_fits (req : Request) : Prop :=
  match req with
  | GetCategoryDomains _ page per_page => page_of page * per_page_of per_page < 2 ^ 63
  | _ => True
  end.

Lemma category_page_ok (r : DBRegistry St) code page per_page :
  page_fits (GetCategoryDomains code page per_page) ->
  exists resp, handleCategoryDomains (K := K) order r code page per_page = Some resp.
Proof.
  intros Hp. unfold handleCategoryDomains. case_if; [eauto|].
  destruct (GetDomains order r code) as [ds|e]; [|destruct (GetPrefixes order r code); eauto].
  pose proof (page_of_least page). pose proof (per_page_of_range per_page).
  rewrite page_slice_spec by (done || lia). cbn. eauto.
Qed.

(** The components whose absence is not checked for. *)
Definition wired (sv : Server) : Prop := sv_router sv = true /\ sv_cfgWatcher sv = true /\ sv_kvStore sv = true.

Ltac good_walk :=
  repeat first [ apply good_require | apply good_answer | apply good_refuse | (apply good_deref; [done|])
               | apply good_on_watcher | apply good_on_orch | apply good_on_registry | apply good_on_world
               | apply good_on_config | apply good_on_sources | apply stored_good ].

Lemma serve_pipeline_good d req h : serve_pipeline order rec_order addr_order batch d req = Some h -> good h.
Proof. destruct req; intros [= <-]; good_walk. apply run_pipeline_good. Qed.

Lemma serve_routing_good sv req h : wired sv -> serve_routing sv req = Some h -> good h.
Proof.
  intros (Hr & Hc & Hk). destruct req; intros [= <-]; [|good_walk|].
  - destruct body as [[[|] [|]]|]; good_walk.
  - apply good_deref; [done|]. intros s Hi Hv.
    destruct (policies_of _) as [|p l]; [|destruct (sv_policyRtr sv) as [rtr|]].
    + revert s Hi Hv. change (good (deref (sv_router sv) (answer legacy_snapshot))). good_walk.
    + revert s Hi Hv. change (good (on_io (handleRoutingSnapshot rtr))). apply good_on_io, routing_snapshot_ok.
    + revert s Hi Hv. change (good (deref (sv_router sv) (answer legacy_snapshot))). good_walk.
Qed.

Lemma serve_settings_good sv req h : wired sv -> serve_settings getenv order sv req = Some h -> good h.
Proof.
  intros (Hr & Hc & Hk). destruct req; intros [= <-]; good_walk;
    [apply settings_put_good|apply settings_delete_good|apply config_import_good].
Qed.

Lemma serve_policies_good sv req h : wired sv -> serve_policies sv req = Some h -> good h.
Proof.
  intros (Hr & Hc & Hk). destruct req; intros [= <-]; good_walk;
    [apply policy_create_good|apply policy_update_good|apply policy_change_good].
Qed.

Lemma serve_cache_good sv req h : serve_cache pragma sv req = Some h -> good h.
Proof. destruct req; intros [= <-]; good_walk. Qed.

Lemma serve_sources_good sv req h : page_fits req -> serve_sources order sv req = Some h -> good h.
Proof.
  intros Hp. destruct req; intros [= <-]; good_walk.
  - intros s Hi _. unfold categories_page. by eexists _, _.
  - intros s Hi _. destruct (category_page_ok (ss_registry s) code page per_page Hp) as [resp ->]. by exists resp, s.
  - intros r w. apply source_create_inv.
  - intros r w. apply source_update_inv.
  - intros r w. apply source_delete_inv.
  - intros r w. apply source_refresh_inv.
  - intros r w. apply source_fetch_inv.
Qed.

(** Every request has a route. *)
Lemma serve_good d req : wired (dp_server d) -> page_fits req -> good (serve d req).
Proof.
  intros Hd Hp. pose proof Hd as (_ & Hc & _).
  pose proof (serve_pipeline_good d req) as G1. pose proof (fun h => serve_routing_good (dp_server d) req h Hd) as G2.
  pose proof (fun h => serve_settings_good (dp_server d) req h Hd) as G3.
  pose proof (fun h => serve_policies_good (dp_server d) req h Hd) as G4.
  pose proof (serve_cache_good (dp_server d) req) as G5. pose proof (fun h => serve_sources_good (dp_server d) req h Hp) as G6.
  destruct req; try (by apply G1); try (by apply G2); try (by apply G3); try (by apply G4); try (by apply G5);
    try (by apply G6); cbn [Server.serve]; try (case_if); good_walk.
Qed.

(** A panic of the page handler changes nothing. *)
Lemma category_page_state d code page per_page s : snd (serve d (GetCategoryDomains code page per_page) s) = s.
Proof. cbn. unfold refuse, require, answer. destruct (empty_param _ _); [done|]. by destruct (sv_registry _). Qed.

Lemma serve_inv d req s :
  wired (dp_server d) -> sinv s -> wt_version (ss_watcher s) < 2 ^ 64 - 1 -> sinv (snd (serve d req s)).
Proof.
  intros Hd Hi Hv. assert (page_fits req \/ exists code page per_page, req = GetCategoryDomains code page per_page) as [Hp|(?&?&?&->)]
    by (destruct req; first [right; by eexists _, _, _|by left]).
  - destruct (serve_good d req Hd Hp s Hi Hv) as (r & s' & -> & Hi'). done.
  - by rewrite category_page_state.
Qed.

(** ** Between the requests *)

Lemma sinv_bus s b : sinv s -> bus_inv (MkSys b []) -> sinv (set_bus b s).
Proof.
  intros [Hw Hr Hf Hh] Hb. constructor; cbn [set_bus ss_watcher ss_registry ss_orch]; auto. apply winv_bus; [done|].
  by intros ? [= <-].
Qed.

Lemma server_step_inv d s s' :
  wired (dp_server d) -> sinv s -> wt_version (ss_watcher s) < 2 ^ 64 - 1 ->
  server_step getenv order rec_order addr_order batch pragma d s s' -> sinv s'.
Proof.
  intros Hd Hi Hv Hs.
  assert (forall b l b', wt_eventBus (ss_watcher s) = Some b -> polite (MkSys b []) l ->
    act (MkSys b []) l = Some (MkSys b' []) -> sinv (set_bus b' s)) as Hbus.
  { intros b l b' Hb Hp Ha. apply sinv_bus; [done|].
    destruct (act_polite (MkSys b []) l (wi_bus _ (sv_watch _ Hi) b Hb) Hp) as (x & Hx & Hi'). by rewrite Hx in Ha; injection Ha as ->. }
  destruct Hs as [s req|s ctx|s b Hb|s b b' ch Hb Ht Hu|s b ch ev buf closed Hb Hc].
  - by apply serve_inv.
  - by apply scheduled_run_inv.
  - apply (Hbus b (LSubscribe stream_topics)); [done|apply stream_topics_nodup|done].
  - apply (Hbus b (LUnsubscribe ch)); [done|by split|]. cbn. by rewrite Hu.
  - apply (Hbus b (LReceive ch)); [done..|]. cbn. by rewrite Hc.
Qed.
(** ** Reading *)

Definition reading h : Prop := forall s r s', h s = (r, s') ->
  ss_watcher s' = ss_watcher s /\ ss_registry s' = ss_registry s /\ ss_orch s' = ss_orch s /\ same_state (ss_world s) (ss_world s').

Lemma reading_id h : (forall s, snd (h s) = s) -> reading h.
Proof. intros Hh s r s' E. pose proof (Hh s) as Hs. rewrite E in Hs. cbn in Hs. by subst. Qed.
Lemma reading_require b r h : reading h -> reading (require b r h).
Proof. intros Hh. destruct b; [done|by apply reading_id]. Qed.
Lemma reading_deref b h : reading h -> reading (deref b h).
Proof. intros Hh. destruct b; [done|by apply reading_id]. Qed.
Lemma reading_refuse r h : reading h -> reading (refuse r h).
Proof. intros Hh. destruct r; [by apply reading_id|done]. Qed.
Lemma reading_world f : (forall wt w, same_state w (snd (f wt w))) -> reading (on_world f).
Proof.
  intros Hf s r s'. unfold on_world. specialize (Hf (ss_watcher s) (ss_world s)).
  destruct (f (ss_watcher s) (ss_world s)) as [x w]. intros [= _ <-]. by split_and!.
Qed.
Lemma reading_io f : (forall wt, reads_only (f wt)) -> reading (on_io f).
Proof.
  intros Hf s r s'. unfold on_io. specialize (Hf (ss_watcher s) (ss_world s)).
  destruct (f (ss_watcher s) (ss_world s)) as [[x|e] w]; specialize (Hf _ _ eq_refl); intros [= _ <-]; by split_and!.
Qed.

Lemma reads_select {A} n (f : Tables -> A) : reads_only (select n f : IO K A).
Proof.
  unfold reads_only, select, query. respects_walk ltac:(first [apply reads_syscall|by intros w r w' [= <- <-]]).
Qed.

Lemma reads_Stats : reads_only (Stats : IO K Stats_).
Proof. unfold Stats, count_domains, count_records. respects_walk ltac:(apply reads_select). Qed.

Lemma reads_GetAll : reads_only (GetAll : IO K _).
Proof. apply respects_wrap, reads_select. Qed.

Lemma reads_snapshot rtr name : reads_only (SnapshotPolicy (K := K) rtr name).
Proof.
  unfold SnapshotPolicy, load_or_zero, loadPolicyState. respects_walk ltac:(first [apply reads_ReadFile | apply reads_syscall]).
Qed.

Lemma reads_sum_policies rtr policies : forall v4 v6 last applied,
  reads_only (sum_policies (K := K) rtr policies v4 v6 last applied).
Proof.
  induction policies as [|p l IH]; intros *; cbn [sum_policies]; [apply respects_ret, _|].
  respects_walk ltac:(first [apply IH | apply reads_snapshot]).
Qed.

Lemma reads_routing_snapshot rtr wt : reads_only (handleRoutingSnapshot (K := K) rtr wt).
Proof. unfold handleRoutingSnapshot. respects_walk ltac:(apply reads_sum_policies). Qed.

Lemma download_reads policy typ cfg (w : World K) : same_state w (snd (handleExportDownload policy typ cfg w)).
Proof.
  unfold handleExportDownload. case_if; [done|]. cbv zeta.
  set (path := ec_Dir cfg). destruct (ReadFile _ w) as [[data|e] w1] eqn:E; cbn [snd]; by eapply reads_ReadFile.
Qed.

Lemma stats_reads (w : World K) : same_state w (snd (handleCacheStats w)).
Proof. unfold handleCacheStats. destruct (Stats w) as [[x|e] w1] eqn:E; by eapply reads_Stats. Qed.

Lemma settings_get_reads wt (w : World K) : same_state w (snd (handleSettingsGet wt w)).
Proof. unfold handleSettingsGet. destruct (GetAll w) as [[x|e] w1] eqn:E; by eapply reads_GetAll. Qed.

Lemma config_export_reads wt (w : World K) : same_state w (snd (handleConfigExport wt w)).
Proof. unfold handleConfigExport. destruct (GetAll w) as [[x|e] w1] eqn:E; by eapply reads_GetAll. Qed.

Ltac reading_walk :=
  repeat first [ apply reading_require | apply reading_deref | apply reading_refuse | (apply reading_world; intros ? ?)
               | (apply reading_id; intros ?; done) | (apply reading_io; intros ?) ].

(** C13. A [GET] request leaves the configuration with its subscribers, the sources, the
    orchestrator, every file, every table and the kernel as they were, whatever
    components the server has and whatever fails: only system calls are counted. *)
Theorem get_requests_read d req s r s' :
  is_get req = true -> serve d req s = (r, s') ->
  ss_watcher s' = ss_watcher s /\ ss_registry s' = ss_registry s /\ ss_orch s' = ss_orch s /\
  same_state (ss_world s) (ss_world s').
Proof.
  intros Hg. revert s r s'. change (reading (serve d req)).
  destruct req; try discriminate Hg; cbn [Server.serve fold_right serve_pipeline serve_routing serve_settings
    serve_policies serve_cache serve_sources]; try case_if; reading_walk.
  all: try first [apply download_reads | apply settings_get_reads | apply config_export_reads | apply stats_reads].
  - intros s r s'. destruct (policies_of _) as [|p l]; [|destruct (sv_policyRtr (dp_server d)) as [rtr|]]; revert s r s'.
    + change (reading (deref (sv_router (dp_server d)) (answer legacy_snapshot))). reading_walk.
    + change (reading (on_io (handleRoutingSnapshot rtr))). apply reading_io. intros wt. apply reads_routing_snapshot.
    + change (reading (deref (sv_router (dp_server d)) (answer legacy_snapshot))). reading_walk.
Qed.
(** ** Claims *)

(** The objects as [main] makes them. *)
Definition started (cfg : Config) (r : DBRegistry St) (w : World K) : State K St :=
  MkState (NewWatcher cfg 1 (Some NewBus)) r NewOrchestrator w.

Lemma started_inv cfg r w : Validate cfg = [] -> rinv r -> sinv (started cfg r w).
Proof.
  intros Hv Hr. constructor; cbn; [|done|done|lia]. apply winv_new; [done|]. intros ? [= <-]. apply bus_inv_init.
Qed.

Lemma server_reach_inv d cfg r w s :
  wired (dp_server d) -> Validate cfg = [] -> rinv r ->
  server_reach getenv order rec_order addr_order batch pragma d (started cfg r w) s -> sinv s.
Proof. intros Hd Hc Hr. induction 1 as [|s s' _ IH Hv Hs]; [by apply started_inv|]. by eapply server_step_inv. Qed.


(** The requests of a component. *)
Definition for_sources (req : Request) : bool :=
  match req with
  | GetCategories | GetCategoryDomains _ _ _ | GetSources | PostSources _ | GetSource_ _ | PutSource _ _ | DeleteSource _
  | PostSourceRefresh _ | GetSourceInfo | PostSourceFetch => true
  | _ => false
  end.
Definition for_pipeline (req : Request) : bool :=
  match req with PostPipelineRun _ | GetPipelineStatus | GetPipelineHistory | PostPipelineCancel => true | _ => false end.
Definition for_cache (req : Request) : bool :=
  match req with GetCacheStats | PostCachePurge _ | PostCacheVacuum | GetCacheEntries _ => true | _ => false end.
Definition for_store (req : Request) : bool :=
  match req with GetSettings | PutSettings _ | DeleteSettings _ | PostConfigImport _ => true | _ => false end.

(** Without a component its requests change nothing and are refused: the cache's, the
    registry's and the orchestrator's with 503 or an empty list, the settings with 500, or
    with 400 where the request is looked at first; but the export of the configuration
    panics where there is no store. *)
Theorem missing_components d req s :
  let sv := dp_server d in
  (sv_registry sv = false -> for_sources req = true -> exists resp, serve d req s = (Some resp, s) /\
     (rp_code resp = 503 \/ rp_code resp = 400 \/ resp = jsonOK (BSources []) \/ resp = jsonOK (BCategories [] []))) /\
  (sv_orch sv = false -> for_pipeline req = true -> exists resp, serve d req s = (Some resp, s) /\
     (rp_code resp = 503 \/ req = GetPipelineHistory /\ resp = jsonOK (BHistory []))) /\
  (sv_cacheAgent sv = false -> for_cache req = true -> serve d req s = (Some no_cache, s)) /\
  (sv_kvStore sv = false -> for_store req = true -> exists resp, serve d req s = (Some resp, s) /\
     (resp = no_kvStore \/ rp_code resp = 400)) /\
  (sv_kvStore sv = false -> serve d GetConfigExport s = (None, s)).
Proof.
  intros sv. split_and!; intros Hs; try (intros Hr; destruct req; try discriminate Hr);
    cbn [Server.serve fold_right serve_pipeline serve_settings serve_cache serve_sources];
    fold sv; rewrite Hs; cbn [require deref]; try done.
  all: try match goal with |- context [empty_param ?x ?m] => unfold empty_param; destruct (String.eqb x "") end.
  all: try (destruct body as [x|e]; [|eexists; split; [reflexivity|by auto]]).
  all: try by eexists; split; [reflexivity|auto].
  by destruct (sv_cfgWatcher sv).
Qed.

(** The configuration and the rows after a policy was created. *)
Lemma policy_created d p s resp s1 :
  sv_cfgWatcher (dp_server d) = true ->
  serve d (PostPolicies (Ok p)) s = (Some resp, s1) -> rp_code resp = 200 ->
  existsb (fun q => EqualFold (pc_Name q) (pc_Name p)) (policies_of (sn_Config (Current (ss_watcher s)))) = false /\
  ss_orch s1 = ss_orch s /\
  policies_of (sn_Config (Current (ss_watcher s1))) = policies_of (sn_Config (Current (ss_watcher s))) ++ [p] /\
  (kv_of (ss_world s1) = kv_of (ss_world s) \/
   kv_of (ss_world s1) =
     <["routing.policies"%string := show_policies (policies_of (sn_Config (Current (ss_watcher s1))))]> (kv_of (ss_world s))).
Proof.
  intros Hc. cbn [Server.serve fold_right serve_pipeline serve_routing serve_settings serve_policies refuse].
  rewrite Hc. cbn [deref]. unfold on_config, if_stored. cbn [handlePolicyCreate]. unfold policy_change, policy_create.
  destruct (existsb _ _); [by destruct (sv_kvStore _); intros [= <- _]|].
  unfold policy_commit. destruct (Publish (ss_watcher s) _) as [[[e|] wt]|] eqn:Epub.
  - by destruct (sv_kvStore _); intros [= <- _].
  - apply Publish_cases in Epub as [_ Hcfg].
    destruct (sv_kvStore _); cbn [fst]; intros [= _ <-] _; cbn [ss_watcher ss_orch ss_world]; rewrite Hcfg;
      (split_and!; [done..|]); [|by left].
    unfold persistPolicies. destruct (Set_ _ _ (ss_world s)) as [r w1] eqn:Es. apply Set_cases in Es. cbn [snd].
    by destruct r; [right|left].
  - by destruct (sv_kvStore _).
Qed.

Lemma find_created (p : PolicyConfig) l :
  existsb (fun q => EqualFold (pc_Name q) (pc_Name p)) l = false ->
  List.find (fun q => String.eqb (pc_Name q) (pc_Name p)) (l ++ [p]) = Some p.
Proof.
  induction l as [|q l IH]; cbn; [by rewrite String.eqb_refl|].
  intros [Hq Hl]%orb_false_iff. destruct (String.eqb_spec (pc_Name q) (pc_Name p)) as [E|_]; [|by apply IH].
  unfold EqualFold in Hq. by rewrite E, String.eqb_refl in Hq.
Qed.

(** A run that is answered with its report, on the configuration in force. *)
Lemma run_pipeline_report d body s rep s2 :
  or_running (ss_orch s) = false ->
  run_pipeline order rec_order addr_order batch d body s = (Some (jsonOK (BReport rep)), s2) ->
  pr_Name <$> re_Policies rep = enabled_names (sn_Config (Current (ss_watcher s))) /\
  st_Report (Status_ (ss_orch s2)) = Some rep /\ last (History (ss_orch s2)) = Some rep.
Proof.
  intros Hf. unfold run_pipeline, handlePipelineRun. set (ag := system_agents _ _ _ _ _).
  pose proof (Run_fresh ag addr_order order (fun _ => None) (fst body) (ss_orch s) (embed s) Hf)
    as (re & err & w2 & w3 & o1 & -> & _ & _ & _ & _ & _ & Hn).
  destruct err as [e|]; [by case_if|]. intros [= -> <-]. destruct (Hn eq_refl) as [_ Hn']. clear Hn.
  destruct (Hn' eq_refl) as (w4 & El & Hnames). split_and!; [|done|by apply last_snoc]. rewrite Hnames. f_equal.
  apply (ar_load _ _ (system_agents_kept (dp_exportDir d) (dp_policyRtr d))) in El as (_ & _ & Hcur).
  change (sn_Config (Current (sy_watcher (w_kern w4))) = sn_Config (Current (ss_watcher s))). unfold Current. rewrite Hcur. f_equal.
  apply (kept_publish "pipeline" "pipeline.start" (AMap [("run_id"%string, AInt (int64_wrap (or_runCounter (ss_orch s) + 1)))]) (embed s)).
Qed.

(** C9. A policy that was created (200) is what [GET] shows under its name and, when it is
    enabled, is part of the run that is asked for next, if it succeeds: the report has one
    entry per enabled policy of the configuration in force, in order, and is the last of
    the history and the reported status. *)
Theorem created_policy_runs d p body s resp s1 rep s2 :
  sinv s -> sv_cfgWatcher (dp_server d) = true -> sv_orch (dp_server d) = true ->
  serve d (PostPolicies (Ok p)) s = (Some resp, s1) -> rp_code resp = 200 ->
  serve d (PostPipelineRun body) s1 = (Some (jsonOK (BReport rep)), s2) ->
  serve d (GetPolicy (pc_Name p)) s1 = (Some (jsonOK (BPolicy p)), s1) /\
  pr_Name <$> re_Policies rep = enabled_names (sn_Config (Current (ss_watcher s1))) /\
  (pc_Enabled p = true -> pc_Name p ∈ pr_Name <$> re_Policies rep) /\
  st_Report (Status_ (ss_orch s2)) = Some rep /\ last (History (ss_orch s2)) = Some rep.
Proof.
  intros [_ _ Hf _] Hc Ho Ep Hcode. apply policy_created in Ep as (Hex & Horch & Hpol & _); [|done|done].
  cbn [Server.serve fold_right serve_pipeline serve_routing serve_settings serve_policies]. rewrite Hc, Ho. cbn [deref require].
  intros Er. apply run_pipeline_report in Er as (Hnames & Hst & Hhi); [|by rewrite Horch].
  split_and!; [|done| |done|done].
  - unfold on_watcher, handlePolicyGet. by rewrite Hpol, find_created.
  - intros He. rewrite Hnames. unfold enabled_names. change (ro_Policies (cfg_Routing ?c)) with (policies_of c).
    rewrite Hpol, List.filter_app, fmap_app. cbn [List.filter]. rewrite He. set_solver.
Qed.
End ServerSpec.
