(* ===== verification/Download.v ===== *)
(** * Exports and their download

  [WritePolicy] of [internal/exporter/policy_exporter.go] and [handleExportDownload] of
  [internal/api/api.go], one after the other: they build the name of the file in
  different ways. *)

From S2P Require Import Prelude GoLib Os Netip NetipText Config Exporter ExporterSpec Machine Api.

Local Open Scope Z_scope.

(** The format a policy is exported in. *)
Definition export_format (policy : PolicyConfig) : string :=
  if String.eqb (pc_ExportFormat policy) "" then "plain" else pc_ExportFormat policy.

Definition export_file (dir : string) (policy : PolicyConfig) (name : string) : string :=
  path_join (path_join dir (pc_Name policy)) name.

Lemma app_inj_l (p s t : string) : p +:+ s = p +:+ t -> s = t.
Proof. induction p as [|c p IH]; [done|]. rewrite !str_app_cons. by intros [= ->%IH]. Qed.

Lemma export_file_inj dir policy n1 n2 : export_file dir policy n1 = export_file dir policy n2 -> n1 = n2.
Proof. unfold export_file, path_join. intros E. by do 2 apply app_inj_l in E. Qed.

Section Download.
Context {K : Type} `{Env K}.

Lemma WriteFile_ok path data (w : World K) u w' :
  WriteFile path data w = (Ok u, w') -> forall q, w_files w' !! q = if decide (path = q) then Some data else w_files w !! q.
Proof.
  unfold WriteFile. destruct (fault (w_calls w)); [done|]. intros [= _ <-] q. by rewrite lookup_set_file.
Qed.

Definition family_data (policy : PolicyConfig) (v4 v6 : list Prefix) (typ : string) : string :=
  let f := if String.eqb typ "ipv4" then "v4"%string else "v6"%string in
  formatPrefixesForPolicy (export_format policy) (pc_Name policy) (if String.eqb typ "ipv4" then v4 else v6) f.

(** What an export writes, by the name of the file. *)
Lemma WritePolicy_files dir policy v4 v6 (w : World K) rep w' typ :
  WritePolicy dir policy v4 v6 w = (Ok rep, w') -> typ = "ipv4"%string \/ typ = "ipv6"%string ->
  w_files w' !! export_file dir policy (typ +:+ ".txt") =
    if String.eqb (extForFormat (export_format policy)) "txt" then Some (family_data policy v4 v6 typ)
    else w_files w !! export_file dir policy (typ +:+ ".txt").
Proof.
  unfold WritePolicy. fold (export_format policy). intros (u1 & w1 & E1 & E)%io_bind_ok Ht.
  apply io_bind_ok in E as (u2 & w2 & E2%io_wrap_ok & E). apply io_bind_ok in E as (u3 & w3 & E3%io_wrap_ok & E).
  injection E as _ <-. injection E1 as _ <-. set (ext := extForFormat _) in *.
  fold (export_file dir policy ("ipv4." +:+ ext)) in E2. fold (export_file dir policy ("ipv6." +:+ ext)) in E3.
  rewrite (WriteFile_ok _ _ _ _ _ E3), (WriteFile_ok _ _ _ _ _ E2).
  assert (forall p, export_file dir policy (p +:+ ext) = export_file dir policy (p +:+ "txt") <-> ext = "txt"%string) as Hext.
  { intros p. split; [|by intros ->]. intros ->%export_file_inj%app_inj_l. done. }
  assert (forall e e', export_file dir policy ("ipv6." +:+ e) <> export_file dir policy ("ipv4." +:+ e')) as Hne.
  { by intros e e' ?%export_file_inj. }
  destruct Ht as [-> | ->]; cbn [family_data].
  - rewrite (decide_False _ _ (Hne _ "txt"%string)). destruct (String.eqb_spec ext "txt") as [->|Hx].
    + by rewrite decide_True.
    + rewrite decide_False; [done|]. intros Hc. by apply Hx, (Hext "ipv4."%string).
  - destruct (String.eqb_spec ext "txt") as [->|Hx].
    + by rewrite decide_True.
    + rewrite decide_False; [|intros Hc; by apply Hx, (Hext "ipv6."%string)].
      rewrite decide_False; [done|]. intros Hc. by apply (Hne "txt"%string ext).
Qed.

End Download.

(** ** A policy whose format changes *)

Definition changed_policy (format : string) : PolicyConfig :=
  Build_PolicyConfig "p" true [] BackendNone 0 "" "" "" "" false format None.

Definition plain_export : World Kernel := (WritePolicy "/out" (changed_policy "") demo4 demo6 start).2.
Definition json_export : World Kernel := (WritePolicy "/out" (changed_policy "json") [] [] plain_export).2.

