(* ===== verification/Assets.v ===== *)
(** * [internal/api/api.go]: the web interface

  The handler of [/*] and [serveEmbeddedFile].  The embedded tree is a map from valid
  names (without a leading slash) to files and directories; the decoder of
  [compress/gzip] is an interface.  [http.Error] keeps the headers that were set. *)

From S2P Require Import Prelude GoLib.

Local Open Scope Z_scope.

(** ** Data *)

Inductive Entry := EFile (data : string) | EDir.

Record HttpAnswer := MkAnswer { ha_code : Z; ha_headers : gmap string string; ha_body : string }.

(** [gzip.NewReader] and the bytes that reading gives up to the end or an error. *)
Class Gunzip := { gunzip : string -> option string }.

Definition mime_type (name : string) : string :=
  if HasSuffix name ".css" then "text/css; charset=utf-8"
  else if HasSuffix name ".js" then "application/javascript"
  else if HasSuffix name ".html" then "text/html; charset=utf-8"
  else "application/octet-stream".

(** The headers set before the file is opened. *)
Definition asset_headers (name : string) : gmap string string :=
  let h := <["Content-Type" := mime_type name]> ∅ in
  if String.eqb name "index.html" then
    <["Cache-Control" := "no-cache, no-store, must-revalidate"]>
      (<["Pragma" := "no-cache"]> (<["Expires" := "0"]> h))
  else if StrContains name "." then <["Cache-Control" := "public, max-age=31536000, immutable"]> h
  else h.

(** [http.Error] *)
Definition httpError (headers : gmap string string) (message : string) (code : Z) : HttpAnswer :=
  MkAnswer code
    (<["Content-Type" := "text/plain; charset=utf-8"]> (<["X-Content-Type-Options" := "nosniff"]>
      (delete "Content-Length" headers)))
    (message +:+ String (ascii_of_nat 10) "").

Section Assets.
Context `{Gunzip}.
Context (files : gmap string Entry).

(** The content and size of an entry; reading a directory fails. *)
Definition entry_data (e : Entry) : string := match e with EFile data => data | EDir => "" end.

Definition serveEmbeddedFile (name acceptEncoding : string) : HttpAnswer :=
  let h := asset_headers name in
  match files !! name with
  | None => httpError h "not found" 404
  | Some e =>
      if StrContains acceptEncoding "gzip" then
        MkAnswer 200
          (<["Content-Encoding" := "gzip"]> (<["Vary" := "Accept-Encoding"]>
            (<["Content-Length" := Itoa (Z.of_nat (String.length (entry_data e)))]> h)))
          (entry_data e)
      else
        match e with
        | EDir => httpError h "decompression error" 500
        | EFile data =>
            match gunzip data with
            | None => httpError h "decompression error" 500
            | Some text => MkAnswer 200 h text
            end
        end
  end.

(** The handler of every path without a route. *)
Definition handleWeb (path acceptEncoding : string) : HttpAnswer :=
  if String.eqb path "/" then serveEmbeddedFile "index.html" acceptEncoding
  else
    let name := TrimPrefix path "/web/" in
    serveEmbeddedFile (if String.eqb name "" then "index.html" else name) acceptEncoding.

(** The names of an embedded tree. *)
Definition valid_names : Prop := forall name, is_Some (files !! name) -> HasPrefix name "/" = false.

Lemma cache_header name code h :
  asset_headers name !! "Cache-Control"%string = h ->
  ha_headers (httpError (asset_headers name) "not found" code) !! "Cache-Control"%string = h.
Proof.
  intros Hh. cbn [httpError ha_headers]. rewrite !lookup_insert_ne, lookup_delete_ne by done. done.
Qed.

(** What a browser gets for a path: the entry of the path after [/web/], or the page for
    [/] and [/web/], the same text with and without compression; a missing asset and every
    other path of the root are answered with 404, and caches keep that answer for a year
    when the name has a dot. *)
Theorem web_serves path name data text :
  valid_names -> gunzip data = Some text ->
  (path = "/" \/ path = "/web/" -> files !! "index.html"%string = Some (EFile data) ->
     ha_body (handleWeb path "gzip") = data /\ ha_body (handleWeb path "") = text /\
     ha_headers (handleWeb path "") !! "Cache-Control"%string = Some "no-cache, no-store, must-revalidate"%string) /\
  (path = "/web/" +:+ name -> name <> ""%string -> files !! name = Some (EFile data) ->
     ha_body (handleWeb path "gzip") = data /\ ha_body (handleWeb path "") = text /\
     ha_code (handleWeb path "gzip") = 200 /\ ha_code (handleWeb path "") = 200) /\
  (path <> "/"%string -> HasPrefix path "/" = true -> HasPrefix path "/web/" = false ->
     ha_code (handleWeb path "") = 404 /\ ha_code (handleWeb path "gzip") = 404).
Proof.
  intros Hv Hg. split_and!.
  - intros Hp Hi.
    assert (forall enc, handleWeb path enc = serveEmbeddedFile "index.html" enc) as Hw.
    { intros enc. unfold handleWeb. destruct Hp as [-> | ->]; reflexivity. }
    rewrite !Hw. unfold serveEmbeddedFile. rewrite Hi. cbn [entry_data]. rewrite Hg. done.
  - intros -> Hn Hf.
    assert (forall enc, handleWeb ("/web/" +:+ name) enc = serveEmbeddedFile name enc) as Hw.
    { intros enc. unfold handleWeb. rewrite TrimPrefix_app, (proj2 (String.eqb_neq _ _) Hn). done. }
    rewrite !Hw. unfold serveEmbeddedFile. rewrite Hf. cbn [entry_data]. rewrite Hg. done.
  - intros Hp Hs Hw.
    assert (forall enc, ha_code (handleWeb path enc) = 404) as H404; [|by rewrite !H404].
    intros enc. unfold handleWeb. rewrite (proj2 (String.eqb_neq _ _) Hp).
    unfold TrimPrefix. rewrite Hw. destruct (String.eqb_spec path ""); [by subst|].
    unfold serveEmbeddedFile. destruct (files !! path) eqn:Ef; [|done].
    rewrite (Hv path ltac:(eauto)) in Hs. done.
Qed.

(** The answer for a missing name keeps the cache header of an asset. *)
Theorem missing_asset_cached name enc :
  files !! name = None -> name <> "index.html"%string -> StrContains name "." = true ->
  let a := serveEmbeddedFile name enc in
  ha_code a = 404 /\ ha_headers a !! "Cache-Control"%string = Some "public, max-age=31536000, immutable"%string.
Proof.
  intros Hf Hn Hd. cbv zeta. unfold serveEmbeddedFile. rewrite Hf. split; [done|]. apply cache_header.
  unfold asset_headers. rewrite (proj2 (String.eqb_neq _ _) Hn), Hd. done.
Qed.
End Assets.

(** ** A tree *)

Definition demo_tree : gmap string Entry :=
  {["index.html"%string := EFile "Zpage"; "assets"%string := EDir; "assets/a.b.js"%string := EFile "Zcode"]}.

Definition demo_gunzip : Gunzip := {| gunzip s := if HasPrefix s "Z" then Some (TrimPrefix s "Z") else None |}.

Example web_index : ha_body (handleWeb (H := demo_gunzip) demo_tree "/" "") = "page"%string.
Proof. reflexivity. Qed.
Example web_asset : ha_body (handleWeb (H := demo_gunzip) demo_tree "/web/assets/a.b.js" "br, gzip") = "Zcode"%string.
Proof. reflexivity. Qed.
Example web_directory : ha_code (handleWeb (H := demo_gunzip) demo_tree "/web/assets" "") = 500.
Proof. reflexivity. Qed.
