(* ===== verification/Domainlist.v ===== *)
(** * [internal/domainlist]: the domain lists of dlc.dat

  [types.go], [normalize.go] and [parser.go].  The protobuf decoder and the IDNA
  profile are interfaces; [strings.ToLower] acts on ASCII letters. *)

From S2P Require Import Prelude Order GoLib Os Config.

(** ** The decoded file (generated code in [dlcpb]) *)

Inductive DomainType := Domain_Plain | Domain_Regex | Domain_RootDomain | Domain_Full | Domain_Other (n : Z).

Inductive AttrValue := BoolValue (b : bool) | IntValue (n : Z).
Record Attribute := MkAttr { at_Key : string; at_Value : option AttrValue }.
Record Domain := MkDomain { dm_Type : DomainType; dm_Value : string; dm_Attribute : list Attribute }.
Record GeoSite := MkGeoSite { gs_CountryCode : string; gs_Domain : list Domain }.

(** [proto.Unmarshal] on a list of sites, and [idnaProfile.ToASCII]. *)
Class ListCodec := { unmarshal_list : string -> option (list GeoSite) }.
Class Idna := { ToASCII : string -> option string }.

(** ** Rules *)

Inductive RuleType := RuleFull | RuleRootDomain | RulePlain | RuleRegex.

#[export] Instance RuleType_eq_dec : EqDecision RuleType.
Proof. solve_decision. Defined.

Definition rule_number (t : RuleType) : Z :=
  match t with RuleFull => 0 | RuleRootDomain => 1 | RulePlain => 2 | RuleRegex => 3 end.

Definition IsResolvable (t : RuleType) : bool :=
  match t with RuleFull | RuleRootDomain => true | _ => false end.

Record Rule := MkRule { ru_Type : RuleType; ru_Value : string; ru_Attrs : gmap string AttrValue; ru_Cat : string }.
Record CategorySelector := MkSel { cs_Code : string; cs_Attrs : list string }.

(** ** Normalisation and attributes *)

Section Domainlist.
Context `{Idna}.

Definition normalizeDomain (domain : string) : string :=
  let domain := TrimSuffix (ToLower domain) "." in
  match ToASCII domain with Some punycode => punycode | None => domain end.

(** The map of the attributes with a typed value: a later one replaces an earlier
    one of the same key. *)
Definition add_attr (m : gmap string AttrValue) (a : Attribute) : gmap string AttrValue :=
  match at_Value a with Some v => <[at_Key a := v]> m | None => m end.
Definition attr_map (l : list Attribute) : gmap string AttrValue := foldl add_attr ∅ l.

Definition truthy (v : AttrValue) : bool :=
  match v with BoolValue b => b | IntValue n => negb (Z.eqb n 0) end.

Definition matchesAttrs (domain : Domain) (requiredAttrs : list string) : bool :=
  let attrs := attr_map (dm_Attribute domain) in
  forallb (fun key => match attrs !! key with Some v => truthy v | None => false end) requiredAttrs.

Definition rule_type (t : DomainType) : RuleType :=
  match t with
  | Domain_Full => RuleFull
  | Domain_RootDomain => RuleRootDomain
  | Domain_Plain => RulePlain
  | Domain_Regex => RuleRegex
  | Domain_Other _ => RuleFull
  end.

Definition convertDomain (domain : Domain) (category : string) : Rule :=
  let ruleType := rule_type (dm_Type domain) in
  MkRule ruleType
    (if IsResolvable ruleType then normalizeDomain (dm_Value domain) else dm_Value domain)
    (attr_map (dm_Attribute domain)) category.

(** [fmt.Sprintf("%d:%s", rule.Type, rule.Value)]. *)
Definition rule_key (r : Rule) : string := Itoa (rule_number (ru_Type r)) +:+ ":" +:+ ru_Value r.

Fixpoint dedup_rules (seen : gset string) (rules : list Rule) : list Rule :=
  match rules with
  | [] => []
  | r :: rules' =>
      if bool_decide (rule_key r ∈ seen) then dedup_rules seen rules'
      else r :: dedup_rules ({[rule_key r]} ∪ seen) rules'
  end.

Definition deduplicate (rules : list Rule) : list Rule := dedup_rules ∅ rules.

(** ** The provider *)

Definition ListProvider : Type := gmap string GeoSite.

Definition build_categories (entries : list GeoSite) : ListProvider :=
  foldl (fun m site => <[ToLower (gs_CountryCode site) := site]> m) ∅ entries.

(** [Load] on the provider [p]: it keeps its categories when it fails. *)
Definition LoadList {K} `{Env K} `{ListCodec} (p : ListProvider) (dlcPath : string) (w : World K)
    : (ListProvider * option error) * World K :=
  match ReadFile dlcPath w with
  | (Err e, w) => ((p, Some (ErrWrap "domainlist: read file" e)), w)
  | (Ok data, w) =>
      match unmarshal_list data with
      | None => ((p, Some (ErrNew "domainlist: unmarshal protobuf")), w)
      | Some entries => ((build_categories entries, None), w)
      end
  end.

(** [sort.Strings] of the keys, in whatever order the map gives them. *)
Definition ListCategories_ (order : gset string -> list string) (p : ListProvider) : list string :=
  go_sort string_less (order (dom p)).

Definition category_code (code : string) : string := TrimPrefix (ToLower code) "geosite:".

Definition select_rules (site : GeoSite) (code : string) (attrs : list string) : list Rule :=
  (fun d => convertDomain d code) <$> List.filter (fun d => matchesAttrs d attrs) (gs_Domain site).

Fixpoint select_all (p : ListProvider) (selectors : list CategorySelector) : res error (list Rule) :=
  match selectors with
  | [] => Ok []
  | sel :: selectors' =>
      let code := category_code (cs_Code sel) in
      match p !! code with
      | None => Err (ErrNew ("domainlist: unknown category " +:+ cs_Code sel))
      | Some site =>
          match select_all p selectors' with
          | Ok rules => Ok (select_rules site code (cs_Attrs sel) ++ rules)
          | Err e => Err e
          end
      end
  end.

Definition Select (p : ListProvider) (selectors : list CategorySelector) : res error (list Rule) :=
  match select_all p selectors with
  | Ok allRules => Ok (deduplicate allRules)
  | Err e => Err e
  end.
End Domainlist.
