(* ===== verification/DomainlistSpec.v ===== *)
(** * Selection from the domain lists *)

From S2P Require Import Prelude Order GoLib Os Config Domainlist.
From Stdlib Require Import Sorting.Sorted.

Section DomainlistSpec.
Context `{Idna}.

(** What identifies a rule. *)
Definition rule_id (r : Rule) : RuleType * string := (ru_Type r, ru_Value r).

Lemma rule_key_inj r r' : rule_key r = rule_key r' -> rule_id r = rule_id r'.
Proof.
  unfold rule_key, rule_id. destruct (ru_Type r), (ru_Type r'); cbn [rule_number];
    change (Itoa 0) with "0"%string; change (Itoa 1) with "1"%string;
    change (Itoa 2) with "2"%string; change (Itoa 3) with "3"%string; intros E; rewrite !str_app_cons in E; (discriminate E || (injection E as E; by f_equal)).
Qed.

Lemma rule_key_id r r' : rule_id r = rule_id r' -> rule_key r = rule_key r'.
Proof. unfold rule_key, rule_id. by intros [= -> ->]. Qed.

Lemma dedup_rules_spec seen rules :
  NoDup (rule_id <$> dedup_rules seen rules) /\ sublist (dedup_rules seen rules) rules /\
  (forall r, r ∈ dedup_rules seen rules -> rule_key r ∉ seen) /\
  (forall r, r ∈ rules -> rule_key r ∉ seen ->
     exists r', r' ∈ dedup_rules seen rules /\ rule_id r' = rule_id r).
Proof.
  revert seen. induction rules as [|r rules IH]; intros seen; cbn [dedup_rules].
  { split_and!; [constructor|constructor|..]; set_solver. }
  case_bool_decide as Hs.
  - destruct (IH seen) as (Hn & Hsub & Hk & Hall). split_and!; auto; [by constructor|].
    intros r' [->|Hr']%elem_of_cons Hns; [done|auto].
  - destruct (IH ({[rule_key r]} ∪ seen)) as (Hn & Hsub & Hk & Hall). split_and!.
    + cbn [fmap list_fmap]. constructor; [|done].
      intros (r' & Hid & Hr')%list_elem_of_fmap. apply Hk in Hr'.
      rewrite (rule_key_id r' r) in Hr' by done. apply not_elem_of_union in Hr' as [Hr' _].
      by apply not_elem_of_singleton in Hr'.
    + by constructor.
    + intros r' [->|Hr']%elem_of_cons; [done|]. apply Hk in Hr'. by apply not_elem_of_union in Hr' as [_ ?].
    + intros r' [->|Hr']%elem_of_cons Hns; [exists r; auto using list_elem_of_here|].
      destruct (decide (rule_key r' = rule_key r)) as [E|Hne].
      * exists r. split; [apply list_elem_of_here|]. symmetry. by apply rule_key_inj.
      * destruct (Hall r' Hr') as (r'' & ? & ?); [by rewrite not_elem_of_union, not_elem_of_singleton|].
        exists r''. auto using list_elem_of_further.
Qed.

Lemma select_all_elem p sels rules :
  select_all p sels = Ok rules ->
  forall r, r ∈ rules <-> exists sel site d, sel ∈ sels /\ p !! category_code (cs_Code sel) = Some site /\
    d ∈ gs_Domain site /\ matchesAttrs d (cs_Attrs sel) = true /\
    r = convertDomain d (category_code (cs_Code sel)).
Proof.
  revert rules. induction sels as [|sel sels IH]; intros rules; cbn [select_all].
  { intros [= <-] r. split; [by intros ?%elem_of_nil|]. by intros (sel & _ & _ & ?%elem_of_nil & _). }
  destruct (p !! _) as [site|] eqn:Hp; [|done].
  destruct (select_all p sels) as [rules'|e]; [|done]. intros [= <-] r.
  rewrite elem_of_app, (IH rules' eq_refl). unfold select_rules. rewrite list_elem_of_fmap. split.
  - intros [(d & -> & Hd)|(sel' & site' & d & ? & ?)].
    + rewrite list_elem_of_In, filter_In, <- list_elem_of_In in Hd. exists sel, site, d.
      split_and!; try apply Hd; auto using list_elem_of_here.
    + exists sel', site', d. destruct_and!. split_and!; auto using list_elem_of_further.
  - intros (sel' & site' & d & [->|Hs]%elem_of_cons & Hsite & Hd & Hm & ->).
    + left. exists d. split; [done|]. rewrite list_elem_of_In, filter_In, <- list_elem_of_In. naive_solver.
    + right. exists sel', site', d. done.
Qed.

Lemma select_all_err p sels :
  (exists e, select_all p sels = Err e) <-> exists sel, sel ∈ sels /\ p !! category_code (cs_Code sel) = None.
Proof.
  induction sels as [|sel sels IH]; cbn [select_all].
  { split; [intros [e He]; done|]. by intros (sel & ?%elem_of_nil & _). }
  destruct (p !! category_code (cs_Code sel)) as [site|] eqn:Hp.
  - destruct (select_all p sels) as [rules|e] eqn:Es.
    + split; [intros [e He]; done|]. intros (s & [->|Hs]%elem_of_cons & Hn); [congruence|].
      destruct (proj2 IH) as [e He]; [eauto|done].
    + split; [|eauto]. intros _. destruct (proj1 IH) as (s & Hs & Hn); [eauto|]. exists s. auto using list_elem_of_further.
  - split; [|eauto]. intros _. exists sel. auto using list_elem_of_here.
Qed.

(** C34. [Select] returns, for each type and value that some domain of a selected
    category with the required attributes converts to, one rule, the first in the
    order of the selectors and of the file; it fails exactly when a selector
    names an unknown category. *)
Theorem Select_spec p sels :
  match Select p sels with
  | Err _ => exists sel, sel ∈ sels /\ p !! category_code (cs_Code sel) = None
  | Ok rules =>
      (forall sel, sel ∈ sels -> is_Some (p !! category_code (cs_Code sel))) /\
      NoDup (rule_id <$> rules) /\
      (exists all, select_all p sels = Ok all /\ sublist rules all) /\
      forall id, id ∈ rule_id <$> rules <->
        exists sel site d, sel ∈ sels /\ p !! category_code (cs_Code sel) = Some site /\
          d ∈ gs_Domain site /\ matchesAttrs d (cs_Attrs sel) = true /\
          id = rule_id (convertDomain d (category_code (cs_Code sel)))
  end.
Proof.
  unfold Select. pose proof (select_all_err p sels) as Herr. pose proof (select_all_elem p sels) as Hel.
  destruct (select_all p sels) as [all|e]; [|apply Herr; eauto].
  specialize (Hel all eq_refl). destruct (dedup_rules_spec ∅ all) as (Hn & Hsub & _ & Hall).
  split; [|split_and!; eauto].
  - intros sel Hs. destruct (p !! _) eqn:Hp; [eauto|]. destruct (proj2 Herr) as [e He]; [eauto|done].
  - intros id. rewrite list_elem_of_fmap. split.
    + intros (r & -> & Hr). apply (sublist_subseteq _ _ Hsub) in Hr. apply Hel in Hr as (sel & site & d & ? & ? & ? & ? & ->).
      exists sel, site, d. done.
    + intros (sel & site & d & Hs & Hp & Hd & Hm & ->).
      destruct (Hall (convertDomain d (category_code (cs_Code sel)))) as (r & Hr & Hid); [|set_solver|eauto].
      apply Hel. by exists sel, site, d.
Qed.

(** ** Attributes *)

(** The value of the last typed attribute with a key. *)
Definition last_value (l : list Attribute) (key : string) : option AttrValue :=
  last (omap (fun a => if String.eqb (at_Key a) key then at_Value a else None) l).

Lemma attr_map_lookup l : forall (m : gmap string AttrValue) key,
  foldl add_attr m l !! key =
  match last_value l key with Some v => Some v | None => m !! key end.
Proof.
  induction l as [|a l IH] using rev_ind; intros m key; [done|].
  rewrite foldl_app. cbn [foldl]. unfold last_value, add_attr at 1. rewrite omap_app, last_app. cbn [omap list_omap].
  destruct (String.eqb_spec (at_Key a) key) as [<-|Hne]; destruct (at_Value a) as [v|]; cbn [last app].
  - by rewrite lookup_insert_eq.
  - apply IH.
  - rewrite lookup_insert_ne by done. apply IH.
  - apply IH.
Qed.

(** An attribute filter is a conjunction over the required keys, each decided
    by the last typed attribute of that name, which must be true or nonzero. *)
Theorem matchesAttrs_spec d required :
  matchesAttrs d required = true <->
  forall key, key ∈ required ->
    match last_value (dm_Attribute d) key with
    | Some (BoolValue b) => b = true
    | Some (IntValue n) => n <> 0%Z
    | None => False
    end.
Proof.
  unfold matchesAttrs. rewrite forallb_forall. split; intros Ha key Hk.
  - specialize (Ha key (proj1 (list_elem_of_In _ _) Hk)). unfold attr_map in Ha. rewrite attr_map_lookup in Ha.
    destruct (last_value _ key) as [[b|n]|]; cbn in Ha; [done| |].
    + apply negb_true_iff, Z.eqb_neq in Ha. done.
    + by rewrite lookup_empty in Ha.
  - specialize (Ha key (proj2 (list_elem_of_In _ _) Hk)). unfold attr_map. rewrite attr_map_lookup.
    destruct (last_value _ key) as [[b|n]|]; cbn; [done| |done].
    by apply negb_true_iff, Z.eqb_neq.
Qed.

(** [Categories] lists the codes of the file once each, in increasing order,
    whatever the enumeration of the map. *)
Theorem Categories_sorted order1 order2 `{!MapOrder order1, !MapOrder order2} (p : ListProvider) :
  ListCategories_ order1 p = ListCategories_ order2 p /\
  StronglySorted (not_less string_less) (ListCategories_ order1 p) /\
  NoDup (ListCategories_ order1 p) /\
  forall code, code ∈ ListCategories_ order1 p <-> is_Some (p !! code).
Proof.
  assert (forall x y, string_less x y = cmp_less String.compare x y) as Hl by by intros x y.
  split_and!.
  - apply (go_sort_unique String.compare); [done| |].
    + intros x y _ _ E. by apply String.compare_eq_iff.
    + by rewrite (map_order_perm (map_order := order1) (dom p)), (map_order_perm (map_order := order2) (dom p)).
  - apply (go_sort_ordered String.compare), Hl.
  - unfold ListCategories_. rewrite go_sort_perm, (map_order_perm (dom p)). apply NoDup_elements.
  - intros code. unfold ListCategories_. rewrite elem_of_go_sort, elem_of_map_order by done. apply elem_of_dom.
Qed.
End DomainlistSpec.
