(* ===== verification/Geosite.v ===== *)
(** * [internal/sourcereg/providers/v2flygeosite]: domain lists as a source

  [v2flygeosite.go]: a source over the file store and the domain lists, an
  instance of the registry's [Source] interface.  The parsed refresh interval is
  a field: [New] refuses a configuration it cannot parse. *)

From S2P Require Import Prelude GoLib Os Netip Config Exporter Store Domainlist Sourcereg Providers.

Record Geosite := MkGeosite {
  ge_id : string; ge_prefix : string; ge_refresh : Z; ge_store : HTTPStore;
  ge_dl : option ListProvider; ge_loadedAt : option Z; ge_lastErr : string }.

Section Geosite.
Context {K : Type} `{Env K} `{Http K} `{Digest} `{VersionCodec} `{ListCodec} `{Idna}.

Definition NewGeosite (id prefix : string) (cfg : gmap string any) (w : World K) : option (res error Geosite) * World K :=
  match dat_store "v2flygeosite" "https://github.com/v2fly/domain-list-community/releases/latest/download/dlc.dat"
          "/var/lib/d2ip/dlc.dat" cfg w with
  | (None, w) => (None, w)
  | (Some (Err e), w) => (Some (Err e), w)
  | (Some (Ok (refresh, store)), w) => (Some (Ok (MkGeosite id prefix refresh store None None "")), w)
  end.

(** ** [Load] *)

Definition load_failed (p : Geosite) (store : HTTPStore) (e : error) : Geosite :=
  MkGeosite (ge_id p) (ge_prefix p) (ge_refresh p) store (ge_dl p) None (Error e).

Definition GeositeLoad (p : Geosite) (w : World K) : (Geosite * option error) * World K :=
  match Get (ge_store p) (ge_refresh p) w with
  | (Err e, w) => ((load_failed p (ge_store p) e, Some (ErrWrap "v2flygeosite: fetch failed" e)), w)
  | (Ok (store, path, _), w) =>
      match LoadList ∅ path w with
      | ((_, Some e), w) => ((load_failed p store e, Some (ErrWrap "v2flygeosite: load domainlist" e)), w)
      | ((tempDL, None), w) =>
          let now := clock (w_calls w) in
          ((MkGeosite (ge_id p) (ge_prefix p) (ge_refresh p) store (Some tempDL) (Some now) "", None), tick w)
      end
  end.

(** ** Queries *)

Definition GeositeCategories (p : Geosite) : list string :=
  match ge_dl p with
  | None => []
  | Some dl => (fun c => ge_prefix p +:+ ":" +:+ c) <$> ListCategories_ elements dl
  end.

Definition GeositeInfo (p : Geosite) : SourceInfo :=
  MkSourceInfo (ge_id p) "v2flygeosite" (ge_prefix p) true (GeositeCategories p) (ge_loadedAt p) (ge_lastErr p).

Definition resolvable_values (rules : list Rule) : list string :=
  ru_Value <$> List.filter (fun r => IsResolvable (ru_Type r) && negb (String.eqb (ru_Value r) "")) rules.

Definition GeositeDomains (p : Geosite) (category : string) : res error (list string) :=
  match ge_dl p with
  | None => Err (ErrNew "v2flygeosite: provider not loaded")
  | Some dl =>
      let expectedPrefix := ge_prefix p +:+ ":" in
      if negb (HasPrefix category expectedPrefix) then Err (ErrNew "v2flygeosite: unknown category")
      else
        let code := TrimPrefix (TrimPrefix category expectedPrefix) "geosite:" in
        match Select dl [MkSel code []] with
        | Err e => Err (ErrWrap "v2flygeosite: select" e)
        | Ok rules => Ok (resolvable_values rules)
        end
  end.

Lemma GeositeLoad_same (p : Geosite) (w : World K) :
  let p' := fst (fst (GeositeLoad p w)) in ge_id p' = ge_id p /\ ge_prefix p' = ge_prefix p /\ true = true.
Proof.
  unfold GeositeLoad. destruct (Get _ _ w) as [[[[st path] v]|e] w1]; [|done].
  by destruct (LoadList _ _ w1) as [[dl [e|]] w2].
Qed.

#[export, refine] Instance geosite_source : Source K Geosite := {|
  src_ID := ge_id; src_Prefix := ge_prefix; src_IsDomainSource _ := true;
  src_IsPrefixSource _ := false; src_Categories := GeositeCategories; src_Info := GeositeInfo;
  src_Load := GeositeLoad; src_GetDomains := GeositeDomains;
  src_GetPrefixes _ _ := Err (ErrNew "sourcereg: source does not provide prefixes")
|}.
Proof.
  - intros s c. cbn. unfold GeositeCategories. destruct (ge_dl s); [|by intros ?%elem_of_nil].
    intros (n & -> & _)%list_elem_of_fmap. by exists n.
  - apply GeositeLoad_same.
Defined.
End Geosite.
