(* ===== verification/GeositeSpec.v ===== *)
(** * What a geosite source serves *)

From S2P Require Import Prelude GoLib Os Netip Config Exporter Store StoreSpec Domainlist DomainlistSpec.
From S2P Require Import Sourcereg Geosite Machine ExporterSpec.

(** ** Codes *)

Lemma lower_idem c : lower (lower c) = lower c.
Proof. by destruct c as [[] [] [] [] [] [] [] []]. Qed.

Lemma ToLower_idem s : ToLower (ToLower s) = ToLower s.
Proof. unfold ToLower. induction s as [|c s IH]; cbn; [done|]. by rewrite lower_idem, IH. Qed.

Lemma build_keys entries : forall (m : ListProvider) code,
  (forall c, is_Some (m !! c) -> ToLower c = c) ->
  is_Some (foldl (fun (m : ListProvider) site => <[ToLower (gs_CountryCode site) := site]> m) m entries !! code) ->
  ToLower code = code.
Proof.
  induction entries as [|site entries IH]; intros m code Hm; cbn [foldl]; [apply Hm|].
  apply IH. intros c [x Hx]. apply lookup_insert_Some in Hx as [[<- _]|[_ Hx]]; [apply ToLower_idem|].
  apply Hm. eauto.
Qed.

Lemma build_categories_lower entries code :
  is_Some (build_categories entries !! code) -> ToLower code = code.
Proof. apply build_keys. intros c [x Hx]. by apply lookup_empty_Some in Hx. Qed.

Section GeositeSpec.
Context {K : Type} `{Env K} `{Http K} `{Digest} `{VersionCodec} `{ListCodec} `{Idna}.
Implicit Types (p : Geosite) (w : World K).

(** The domains a category stands for: the normalised values of its full and root
    domains. *)
Definition resolves_to (site : GeoSite) (d : string) : Prop :=
  exists dom, dom ∈ gs_Domain site /\ IsResolvable (rule_type (dm_Type dom)) = true /\
    d = normalizeDomain (dm_Value dom) /\ d <> ""%string.

Lemma resolvable_elem rules d :
  d ∈ resolvable_values rules <-> exists r, r ∈ rules /\ IsResolvable (ru_Type r) = true /\ ru_Value r = d /\ d <> ""%string.
Proof.
  unfold resolvable_values. rewrite list_elem_of_fmap. split.
  - intros (r & -> & Hr). rewrite list_elem_of_In, filter_In, <- list_elem_of_In in Hr.
    destruct Hr as [Hr Hb]. apply andb_true_iff in Hb as [Hi Hn]. exists r. split_and!; auto.
    intros E. by rewrite E in Hn.
  - intros (r & Hr & Hi & <- & Hne). exists r. split; [done|].
    rewrite list_elem_of_In, filter_In, <- list_elem_of_In. split; [done|].
    apply String.eqb_neq in Hne. by rewrite Hi, Hne.
Qed.

(** The answer for a code the list knows. *)
Lemma GeositeDomains_known p dl code site :
  ge_dl p = Some dl -> dl !! code = Some site -> ToLower code = code -> HasPrefix code "geosite:" = false ->
  exists ds, GeositeDomains p (ge_prefix p +:+ ":" +:+ code) = Ok ds /\
    forall d, d ∈ ds <-> resolves_to site d.
Proof.
  intros Hdl Hsite Hlow Hnp. unfold GeositeDomains. rewrite Hdl, <- str_app_assoc, prefix_app, TrimPrefix_app.
  cbn [negb]. assert (TrimPrefix code "geosite:" = code) as -> by (unfold TrimPrefix; by rewrite Hnp).
  assert (category_code code = code) as Hc by (unfold category_code, TrimPrefix; by rewrite Hlow, Hnp).
  unfold Select. cbn [select_all cs_Code cs_Attrs]. rewrite Hc, Hsite, app_nil_r.
  eexists. split; [done|]. intros d. rewrite resolvable_elem. unfold deduplicate.
  destruct (dedup_rules_spec ∅ (select_rules site code [])) as (_ & Hsub & _ & Hall).
  assert (forall r, r ∈ select_rules site code [] <-> exists dom, r = convertDomain dom code /\ dom ∈ gs_Domain site) as Hsel.
  { intros r. unfold select_rules. rewrite list_elem_of_fmap. split; intros (dom & -> & Hd); exists dom; (split; [done|]);
      rewrite list_elem_of_In, ?filter_In, <- ?list_elem_of_In in *; [apply Hd|split; [done|]; by cbn]. }
  split.
  - intros (r & Hr & Hi & Hv & Hne). apply (sublist_subseteq _ _ Hsub) in Hr. apply Hsel in Hr as (dom & -> & Hd).
    exists dom. cbn in Hi, Hv. rewrite Hi in Hv. split_and!; auto.
  - intros (dom & Hd & Hi & -> & Hne). destruct (Hall (convertDomain dom code)) as (r & Hr & Hid).
    { apply Hsel. eauto. } { set_solver. }
    exists r. unfold rule_id in Hid. cbn [convertDomain ru_Type ru_Value] in Hid. rewrite Hi in Hid.
    injection Hid as Ht Hv. rewrite Ht, Hv. done.
Qed.

(** After a successful load, the categories listed are those of the cached
    file, and each category not itself named [geosite:...] serves exactly the
    normalised values of its full and root domains; after a failed one the list
    is as before. *)
Theorem geosite_serves p w p' e w' :
  GeositeLoad p w = ((p', e), w') ->
  match e with
  | Some _ => ge_dl p' = ge_dl p
  | None =>
      exists content entries,
        w_files w' !! hs_cachePath (ge_store p) = Some content /\ unmarshal_list content = Some entries /\
        (forall code, ge_prefix p +:+ ":" +:+ code ∈ GeositeCategories p' <-> is_Some (build_categories entries !! code)) /\
        forall code site, build_categories entries !! code = Some site -> HasPrefix code "geosite:" = false ->
          exists ds, src_GetDomains (K := K) p' (ge_prefix p +:+ ":" +:+ code) = Ok ds /\
            forall d, d ∈ ds <-> resolves_to site d
  end.
Proof.
  unfold GeositeLoad. destruct (Get (ge_store p) (ge_refresh p) w) as [[[[st path] v]|err] w1] eqn:Eg;
    [|by intros [= <- <- <-]].
  assert (path = hs_cachePath (ge_store p)) as -> by (by eapply Get_path).
  unfold LoadList. destruct (ReadFile _ w1) as [[content|err] w2] eqn:Er; [|by intros [= <- <- <-]].
  destruct (unmarshal_list content) as [entries|] eqn:Eu; [|by intros [= <- <- <-]].
  intros [= <- <- <-]. exists content, entries. cbn [w_files tick].
  apply ReadFile_ok in Er as [Hc ->]. split; [done|]. split; [done|]. split.
  - intros code. unfold GeositeCategories. cbn [ge_dl ge_prefix]. rewrite list_elem_of_fmap. split.
    + intros (c & E & Hc'). apply elem_of_go_sort, elem_of_elements, elem_of_dom in Hc'.
      rewrite <- !str_app_assoc in E. apply (f_equal (fun s => TrimPrefix s (ge_prefix p +:+ ":"))) in E.
      rewrite !TrimPrefix_app in E. by subst.
    + intros Hs. exists code. split; [done|]. by apply elem_of_go_sort, elem_of_elements, elem_of_dom.
  - intros code site Hs Hnp. cbn [src_GetDomains geosite_source].
    apply (GeositeDomains_known (MkGeosite _ (ge_prefix p) _ _ (Some (build_categories entries)) _ _) _ code site eq_refl Hs); [|done].
    eapply build_categories_lower. eauto.
Qed.
End GeositeSpec.

(** ** A concrete server and file *)

Definition demo_site : GeoSite := MkGeoSite "RU"
  [MkDomain Domain_Full "Ya.RU." []; MkDomain Domain_RootDomain "mail.ru" []; MkDomain Domain_Plain "kw" []].

#[export] Instance demo_http : Http Kernel := {|
  valid_url _ := true;
  http_get _ _ _ k := (Ok (MkResponse 200 "dlc" None "etag" ""), k)
|}.
#[export] Instance demo_versions : VersionCodec := {|
  marshal_version _ := "{}"%string; unmarshal_version _ := Some zeroVersion
|}.
#[export] Instance demo_list : ListCodec := {|
  unmarshal_list s := if String.eqb s "dlc" then Some [demo_site] else None
|}.
#[export] Instance demo_idna : Idna := {| ToASCII s := Some s |}.

Definition demo_store : HTTPStore := MkStore "http://h/dlc.dat" "/c/dlc.dat" 0 zeroVersion.
Definition cached (files : gmap string string) : World Kernel := MkWorld files (MkKernel ∅ ∅) 0.

Lemma fetch_atomic_witness :
  is_Some (w_files (snd (fetchLocked demo_store (cached ∅))) !! "/c/dlc.dat"%string).
Proof.
  destruct (fetchLocked demo_store (cached ∅)) as [r w'] eqn:E. cbn [snd].
  destruct (fetch_atomic demo_store (cached ∅) r w' E) as [_ Hok].
  vm_compute in E. injection E as <- <-. eapply Hok. reflexivity.
Defined.

Lemma store_available_witness :
  exists s' v w', Get demo_store (24 * Hour) (cached {["/c/dlc.dat"%string := "old"%string]}) = (Ok (s', "/c/dlc.dat"%string, v), w').
Proof.
  apply (store_available demo_store (24 * Hour) (cached {["/c/dlc.dat"%string := "old"%string]})); [done|].
  exists "old"%string. reflexivity.
Defined.

Lemma metadata_short_digest_witness :
  fst (NewHTTPStore "http://h" "/c/dlc.dat" 0 (cached {["/c/dlc.dat.meta.json"%string := "{}"%string]})) = None.
Proof. by apply (metadata_short_digest "http://h" "/c/dlc.dat" 0 _ "{}" zeroVersion); vm_compute; try lia. Defined.

Lemma Categories_sorted_witness :
  ListCategories_ elements (build_categories [demo_site]) = ["ru"]%string /\
  NoDup (ListCategories_ elements (build_categories [demo_site])).
Proof.
  split; [reflexivity|]. apply (Categories_sorted elements elements (build_categories [demo_site])).
Defined.

Definition demo_geosite : Geosite := MkGeosite "g" "geosite" Hour demo_store None None "".
Definition demo_loaded : Geosite := fst (fst (GeositeLoad demo_geosite (cached ∅))).

Lemma geosite_serves_witness :
  GeositeCategories demo_loaded = ["geosite:ru"]%string /\
  exists ds, src_GetDomains (K := Kernel) demo_loaded "geosite:ru" = Ok ds /\ forall d, d ∈ ds <-> resolves_to demo_site d.
Proof.
  split; [vm_compute; reflexivity|].
  destruct (GeositeLoad demo_geosite (cached ∅)) as [[p' e] w'] eqn:E.
  assert (demo_loaded = p') as -> by (unfold demo_loaded; by rewrite E).
  pose proof (geosite_serves demo_geosite (cached ∅) p' e w' E) as Hs.
  assert (e = None) as -> by (vm_compute in E; by injection E).
  destruct Hs as (content & entries & Hc & Hu & _ & Hserve).
  assert (entries = [demo_site]) as ->.
  { assert (content = "dlc"%string) as -> by (vm_compute in E; injection E as <- <-; by vm_compute in Hc; injection Hc).
    vm_compute in Hu. by injection Hu. }
  apply (Hserve "ru"%string demo_site); reflexivity.
Defined.
