(* ===== verification/Cmd.v ===== *)
(** * [cmd/d2ip]: the commands

  [main.go]: [dump], [resolve] and [export], which compose the components without the
  pipeline, and the part of [serve] that fills the registry ([Serve] has the rest).  A
  command is given its parsed flags; what it prints is its result.  The resolver's batch
  is a parameter ([Pool] models it), and so are the files of the migrations. *)

From S2P Require Import Prelude Order GoLib Os Netip NetipText Cidr Aggregator Config Exporter Cache Migrate Resolver Store Domainlist Sourcereg Orchestrator.

Local Open Scope Z_scope.

(** ** How a command ends *)

Inductive Outcome (A : Type) := Returned (a : A) | Exited (code : Z) | Panicked.
Arguments Returned {A}. Arguments Exited {A}. Arguments Panicked {A}.

Definition Command (K A : Type) : Type := World K -> Outcome A * World K.

Definition cmd_ret {K A} (a : A) : Command K A := fun w => (Returned a, w).
Definition cmd_bind {K A B} (m : Command K A) (f : A -> Command K B) : Command K B := fun w =>
  match m w with
  | (Returned a, w) => f a w
  | (Exited code, w) => (Exited code, w)
  | (Panicked, w) => (Panicked, w)
  end.
Notation "'let!' x := m 'in' f" := (cmd_bind m (fun x => f)) (at level 200, x pattern, right associativity).

(** [if err != nil { log.Fatal()... }] *)
Definition must {K A} (m : IO K A) : Command K A := fun w =>
  match m w with (Ok a, w) => (Returned a, w) | (Err _, w) => (Exited 1, w) end.
Definition must_ok {K A} (r : res error A) : Command K A := fun w =>
  (match r with Ok a => Returned a | Err _ => Exited 1 end, w).

(** ** Flags *)

Record SourceFlags := MkSourceFlags { sf_URL : string; sf_CachePath : string; sf_MaxAge : Z }.
Definition default_source : SourceFlags := MkSourceFlags dlc_url "/tmp/d2ip-dlc.dat" (24 * Hour).

Record DumpFlags := MkDumpFlags { df_Source : SourceFlags; df_Categories : list string; df_List : bool }.

Record ResolveFlags := MkResolveFlags {
  rf_Source : SourceFlags; rf_Categories : list string; rf_DB : string; rf_Upstream : string;
  rf_Concurrency : Z; rf_QPS : Z }.

Record ExportFlags := MkExportFlags { ef_DB : string; ef_Output : string; ef_Agg : string }.
Definition default_export : ExportFlags := MkExportFlags "./d2ip.db" "./out" "off".

(** ** What the commands print *)

Definition rule_type_name (t : RuleType) : string :=
  match t with RuleFull => "full" | RuleRootDomain => "root" | RulePlain => "plain" | RuleRegex => "regex" end.

Definition tab : string := String (ascii_of_nat 9) "".

Definition rule_line (r : Rule) : string :=
  ru_Cat r +:+ tab +:+ rule_type_name (ru_Type r) +:+ tab +:+ ru_Value r
  +:+ (if IsResolvable (ru_Type r) then "" else " [UNRESOLVABLE]").

Definition dump_lines (rules : list Rule) (categories : list string) : list string :=
  ("# d2ip dump - " +:+ Itoa (Z.of_nat (length rules)) +:+ " rules from "
   +:+ Itoa (Z.of_nat (length categories)) +:+ " categories")
  :: (rule_line <$> rules).

Definition list_lines (cats : list string) : list string :=
  ("# Available categories (" +:+ Itoa (Z.of_nat (length cats)) +:+ " total)")
  :: ((fun cat => "  - " +:+ cat) <$> cats).

Record ResolveSummary := MkResolveSummary {
  su_Total : Z; su_Valid : Z; su_Failed : Z; su_NXDomain : Z; su_Duration : Z }.

(** ** The domain list *)

Section Lists.
Context {K : Type} `{Env K} `{Http K} `{Digest} `{VersionCodec} `{ListCodec} `{Idna}.

(** The log line slices the first 16 bytes of the digest. *)
Definition log_version (v : Version) : Command K unit := fun w =>
  (if Nat.ltb (String.length (vs_SHA256 v)) 16 then Panicked else Returned tt, w).

(** The store, the file and the provider of [dump] and [resolve]. *)
Definition open_list (flags : SourceFlags) : Command K ListProvider :=
  let! store := (fun w => match NewHTTPStore (sf_URL flags) (sf_CachePath flags) (30 * Second) w with
                          | (None, w) => (Panicked, w)
                          | (Some (Err _), w) => (Exited 1, w)
                          | (Some (Ok store), w) => (Returned store, w)
                          end) in
  let! (_, dlcPath, version) := must (Get store (sf_MaxAge flags)) in
  let! _ := log_version version in
  fun w => match LoadList ∅ dlcPath w with
           | ((_, Some _), w) => (Exited 1, w)
           | ((provider, None), w) => (Returned provider, w)
           end.

Definition selectors (categories : list string) : list CategorySelector := (fun cat => MkSel cat []) <$> categories.

Definition dumpCmd (order : gset string -> list string) (flags : DumpFlags) : Command K (list string) :=
  let! provider := open_list (df_Source flags) in
  if df_List flags then cmd_ret (list_lines (ListCategories_ order provider))
  else if Nat.eqb (length (df_Categories flags)) 0 then fun w => (Exited 1, w)
  else
    let! rules := must_ok (Select provider (selectors (df_Categories flags))) in
    cmd_ret (dump_lines rules (df_Categories flags)).

(** ** [resolve] *)

Context `{Sqlite K} `{SchemaDb K}.
Context (fs : gmap string (option string)).
Context (batch : ResolverCfg -> list string -> World K -> list ResolveResult * World K).

(** The results of the channel: every thousandth empties the buffer into the database;
    an error is only logged. *)
Definition store_batch (results : list ResolveResult) (w : World K) : World K := snd (UpsertBatch results w).

Fixpoint store_results (results buffer : list ResolveResult) (w : World K) : World K :=
  match results with
  | [] => if Nat.ltb 0 (length buffer) then store_batch buffer w else w
  | r :: results' =>
      let buffer := buffer ++ [r] in
      if Nat.leb 1000 (length buffer) then store_results results' [] (store_batch buffer w)
      else store_results results' buffer w
  end.

Definition count_status (s : Status) (results : list ResolveResult) : Z :=
  Z.of_nat (length (List.filter (fun r => bool_decide (rr_Status r = s)) results)).

Definition resolver_flags (flags : ResolveFlags) : ResolverCfg :=
  let d := DefaultConfig in
  MkResolverCfg (rf_Upstream flags) (rs_Network d) (rf_Concurrency flags) (rf_QPS flags) (rs_Timeout d)
    (rs_Retries d) (rs_BackoffBase d) (rs_BackoffMax d) (rs_FollowCNAME d) (rs_MaxCNAMEChain d).

Definition resolvable_domains (rules : list Rule) : list string :=
  ru_Value <$> List.filter (fun r => IsResolvable (ru_Type r)) rules.

Definition resolve_and_store (cfg : ResolverCfg) (domains : list string) : Command K (list ResolveResult) := fun w =>
  let '(results, w) := batch cfg domains w in (Returned results, store_results results [] w).

(** [None]: there was nothing to resolve. *)
Definition resolveCmd (flags : ResolveFlags) : Command K (option ResolveSummary) :=
  let! provider := open_list (rf_Source flags) in
  let! rules := must_ok (Select provider (selectors (rf_Categories flags))) in
  let domains := resolvable_domains rules in
  if Nat.eqb (length domains) 0 then cmd_ret None
  else
    let! cfg := must_ok (NewResolver (resolver_flags flags)) in
    let! _ := must (Open fs (rf_DB flags)) in
    let! start := must Now in
    let! results := resolve_and_store cfg domains in
    let! duration := must (since start) in
    cmd_ret (Some (MkResolveSummary (Z.of_nat (length domains)) (count_status StatusValid results)
                     (count_status StatusFailed results) (count_status StatusNXDomain results) duration)).

(** ** [export] *)

Context `{TempNames}.

Definition export_level (agg : string) : option Aggressiveness :=
  if String.eqb agg "off" then Some AggOff
  else if String.eqb agg "conservative" then Some AggConservative
  else if String.eqb agg "balanced" then Some AggBalanced
  else if String.eqb agg "aggressive" then Some AggAggressive
  else None.

(** [context.Background()] is never done. *)
Definition background : Ctx := fun _ => None.

Definition exportCmd (order : gset Addr -> list Addr) (flags : ExportFlags) : Command K ExportReport :=
  let! _ := must (Open fs (ef_DB flags)) in
  let! (ipv4Addrs, ipv6Addrs) := must Snapshot in
  match export_level (ef_Agg flags) with
  | None => fun w => (Exited 1, w)
  | Some level =>
      let v4Prefixes := AggregateV4 order ipv4Addrs level 16 in
      let v6Prefixes := AggregateV6 order ipv6Addrs level 32 in
      let! dir := must (New (ef_Output flags)) in
      must (Write dir background v4Prefixes v6Prefixes)
  end.
End Lists.

(** ** The start of [serve] *)

Section Serve.
Context {K St : Type} `{Env K} `{!Source K St} `{!Factories K St} `{ConfigCodec}.

Definition seed_config (src : SourceItemConfig) : SrcConfig :=
  MkSrcConfig (si_ID src) (si_Provider src) (si_Prefix src) (si_Enabled src) (list_to_map (si_Config src)).

(** The sources of the configuration are added over the rows of the database; errors
    are only logged. *)
Fixpoint seed_sources (sources : list SourceItemConfig) (r : DBRegistry St) (w : World K) : DBRegistry St * World K :=
  match sources with
  | [] => (r, w)
  | src :: sources' => let '((r, _), w) := AddSource r (seed_config src) w in seed_sources sources' r w
  end.

Definition start_registry (order : gset string -> list string) (cfg : Config) (rows : gmap string Row) (w : World K)
    : DBRegistry St * World K :=
  let '(r, w) := seed_sources (cfg_Sources cfg) (MkRegistry rows ∅) w in
  let '((r, _), w) := LoadAll order r w in (r, w).
End Serve.
