(* ===== verification/CmdSpec.v ===== *)
(** * What the commands guarantee

  [resolve] stores what the resolver delivers for the domains it selects; [export] after
  it writes files that contain exactly those IPv4 addresses at the conservative level,
  and more than those by default; without its metadata a cached domain list makes the
  commands panic once the list cannot be fetched.  The start of [serve] keeps the
  registry's invariant. *)

From S2P Require Import Prelude Order GoLib Os Netip NetipText Cidr CidrSpec Aggregator Config Exporter ExporterSpec Cache CacheSpec Migrate Resolver Store Domainlist Sourcereg SourceregSpec Orchestrator OrchestratorSpec Cmd.

Local Open Scope Z_scope.

(** ** Commands *)

Lemma cmd_bind_ok {K A B} (m : Command K A) (f : A -> Command K B) w b w' :
  cmd_bind m f w = (Returned b, w') <-> exists a w1, m w = (Returned a, w1) /\ f a w1 = (Returned b, w').
Proof. unfold cmd_bind. destruct (m w) as [[a|c|] w1]; naive_solver. Qed.

Lemma must_returned {K A} (m : IO K A) w a w' : must m w = (Returned a, w') -> m w = (Ok a, w').
Proof. unfold must. by destruct (m w) as [[x|e] w1]; intros [= -> ->]. Qed.

Lemma must_ok_returned {K A} (r : res error A) (w : World K) a w' : must_ok r w = (Returned a, w') -> r = Ok a /\ w' = w.
Proof. unfold must_ok. by destruct r; intros [= -> ->]. Qed.

(** ** The whole cache *)

Section Snapshot.
Context {K : Type} `{Env K} `{Sqlite K}.
Implicit Types (w : World K).

Lemma snapshotFamily_cases typ w r w' a :
  refines (db w) a -> snapshotFamily typ w = (r, w') ->
  db w' = db w /\ forall l, r = Ok l -> forall addr, addr ∈ l <-> exists name, spec_rec a name typ addr.
Proof.
  intros Hr E. unfold snapshotFamily in E.
  apply io_bind_any in E as [(rows & w1 & E1 & E)|(e & E1 & ->)]; apply wrap_select_cases in E1 as [Hd Hl]; [|done].
  apply io_ret_ok in E as [= <- <-] || (injection E as <- <-). specialize (Hl _ eq_refl) as ->. split; [done|].
  intros l [= <-] addr. rewrite elem_of_go_sort, list_elem_of_omap. setoid_rewrite elem_of_go_sort.
  setoid_rewrite elem_of_elements. setoid_rewrite elem_of_map. setoid_rewrite elem_of_valid_keys. split.
  - intros (ip & ([[id ip'] typ'] & Hip & v & Hv & Hs & Ht) & Hp). cbn in Hip, Ht. subst ip'.
    apply String.eqb_eq in Ht as ->. destruct (rf_fk _ _ Hr _ _ _ _ Hv) as (name & row & Hn & <-).
    destruct (rf_some _ _ _ _ Hr Hn) as (e & He & _ & _ & Hrec). exists name, e, ip, v. by rewrite <- Hrec.
  - intros (name & e & ip & v & He & Hv & Hs & Hp). exists ip. split; [|done].
    pose proof (rf_dom _ _ Hr name) as Hd'. rewrite He in Hd'. destruct (tb_domains (db w) !! name) as [row|]; [|done].
    destruct Hd' as (_ & _ & Hrec). exists (dr_id row, ip, typ). split; [done|]. exists v. rewrite Hrec. cbn.
    by rewrite String.eqb_refl.
Qed.

Lemma Snapshot_ok w v4 v6 w' a :
  refines (db w) a -> Snapshot w = (Ok (v4, v6), w') ->
  db w' = db w /\ forall addr, (addr ∈ v4 <-> exists name, spec_rec a name "A" addr) /\
    (addr ∈ v6 <-> exists name, spec_rec a name "AAAA" addr).
Proof.
  intros Hr (l4 & w1 & E4 & E)%io_bind_ok. apply io_wrap_ok in E4.
  apply io_bind_ok in E as (l6 & w2 & E6 & E). apply io_wrap_ok in E6. injection E as <- <- <-.
  eapply snapshotFamily_cases in E4 as [Hd4 H4]; [|exact Hr]. rewrite <- Hd4 in Hr.
  eapply snapshotFamily_cases in E6 as [Hd6 H6]; [|exact Hr]. split; [congruence|]. eauto.
Qed.
End Snapshot.

(** ** Files *)

Section Files.
Context {K : Type} `{Env K} `{Digest} `{TempNames}.
Implicit Types (w : World K).

Lemma writeFamily_frame dir ctx family path ps w r w' q :
  writeFamily dir ctx family path ps w = (r, w') ->
  q <> path -> q <> path +:+ ".sha256" -> HasSuffix q ".tmp" = false -> HasSuffix path ".tmp" = false ->
  w_files w' !! q = w_files w !! q.
Proof.
  intros E Hq1 Hq2 Hq3 Hp. unfold writeFamily in E.
  assert (forall w r w1, ctx_check ctx w = (r, w1) -> w_files w1 = w_files w) as Hctx.
  { intros w0 r0 w1. unfold ctx_check. by destruct (ctx _); intros [= _ <-]. }
  apply io_bind_any in E as [(? & w1 & E1 & E)|(e & E1 & ->)]; apply Hctx in E1; [|by rewrite E1]. rewrite <- E1. clear E1.
  apply io_bind_any in E as [(tmp & w2 & E2 & E)|(e & E2 & ->)];
    destruct (write_temp_spec _ _ _ _ _ _ E2) as (tmp' & Hsuf & Hother & Hok).
  2: { apply Hother. intros ->. congruence. }
  destruct (Hok tmp eq_refl) as [-> Htmp]. rewrite <- Hother by (intros ->; congruence).
  apply io_bind_any in E as [(prev & w3 & E3 & E)|(e & E3 & ->)].
  2: { unfold io_try in E3. by destruct (ReadFile _ w2). }
  assert (w_files w3 = w_files w2) as Hw3.
  { apply map_eq. intros y. by apply (touches_try ∅ _ (touches_ReadFile ∅ (path +:+ ".sha256")) _ _ _ E3). }
  rewrite <- Hw3. rewrite <- Hw3 in Htmp.
  apply io_bind_any in E as [(? & w4 & E4 & E)|(e & E4 & ->)];
    destruct (publish_spec _ _ _ _ _ _ _ _ E4 Htmp ltac:(intros ->; congruence)) as (_ & _ & Hoth);
    [|apply Hoth; [intros ->; congruence|done]].
  rewrite <- Hoth by (done || (intros ->; congruence)).
  apply io_bind_any in E as [(? & w5 & E5 & E)|(e & E5 & ->)].
  - injection E as _ <-. apply io_wrap_ok in E5. apply (touches_WriteFile _ _ _ _ _ E5). by rewrite elem_of_singleton.
  - apply (touches_wrap _ _ _ (touches_WriteFile _ _) _ _ _ E5). by rewrite elem_of_singleton.
Qed.

(** Without a sidecar the file is written. *)
Lemma writeFamily_fresh dir ctx family path ps w d changed w' :
  HasSuffix path ".tmp" = false -> w_files w !! (path +:+ ".sha256") = None -> sha256_hex (render ps) <> ""%string ->
  writeFamily dir ctx family path ps w = (Ok (d, changed), w') -> w_files w' !! path = Some (render ps).
Proof.
  intros Hp Hsha Hne E. destruct (writeFamily_spec _ _ _ _ _ _ _ _ Hp E) as (_ & Hok).
  destruct (Hok _ _ eq_refl) as (_ & _ & ->). clear Hok.
  unfold writeFamily in E. apply io_bind_ok in E as (? & w1 & E1 & E).
  assert (w_files w1 = w_files w) as Hw1.
  { unfold ctx_check in E1. destruct (ctx (w_calls w)); [done|]. by injection E1 as _ <-. }
  apply io_bind_ok in E as (tmp & w2 & E2 & E).
  destruct (write_temp_spec _ _ _ _ _ _ E2) as (tmp' & Hsuf & Hother & _).
  apply io_bind_ok in E as (prev & w3 & E3 & E). apply io_try_ok in E3.
  apply io_bind_ok in E as (? & w4 & _ & E). apply io_bind_ok in E as (? & w5 & _ & E). injection E as _ <- _.
  assert (match prev with Ok b => b | Err _ => ""%string end = ""%string) as ->.
  { destruct prev as [b|]; [|done]. apply ReadFile_ok in E3 as [Hb _].
    rewrite Hother, Hw1, Hsha in Hb by (apply tmp_not; [done|apply sha_not_tmp]). done. }
  by destruct (String.eqb_spec (sha256_hex (render ps)) "").
Qed.

Lemma Write_fresh dir ctx v4 v6 w rep w' :
  (forall s, sha256_hex s <> ""%string) ->
  w_files w !! path_join dir "ipv4.txt.sha256" = None -> w_files w !! path_join dir "ipv6.txt.sha256" = None ->
  Write dir ctx v4 v6 w = (Ok rep, w') ->
  w_files w' !! path_join dir "ipv4.txt" = Some (render v4) /\ w_files w' !! path_join dir "ipv6.txt" = Some (render v6).
Proof.
  intros Hd H4 H6. unfold Write. set (p4 := path_join dir "ipv4.txt"). set (p6 := path_join dir "ipv6.txt").
  assert (p4 +:+ ".sha256" = path_join dir "ipv4.txt.sha256") as E4s by (unfold p4, path_join; by rewrite !str_app_assoc).
  assert (p6 +:+ ".sha256" = path_join dir "ipv6.txt.sha256") as E6s by (unfold p6, path_join; by rewrite !str_app_assoc).
  assert (forall x y, x <> y -> path_join dir x <> path_join dir y) as Hne.
  { intros x y Hxy E. apply Hxy. unfold path_join in E. by do 2 apply (inj (String.append _)) in E. }
  assert (forall x, HasSuffix x ".tmp" = false -> (4 <= String.length x)%nat -> HasSuffix (path_join dir x) ".tmp" = false) as Hsuf.
  { intros x Hx Hl. unfold path_join. by rewrite <- str_app_assoc, HasSuffix_app. }
  intros ([d4 c4] & w1 & E1 & E)%io_bind_ok. apply io_wrap_ok in E1.
  apply io_bind_ok in E as ([d6 c6] & w2 & E2 & E). apply io_wrap_ok in E2. injection E as _ <-. fold p4 in E1. fold p6 in E2.
  assert (HasSuffix p4 ".tmp" = false) as Hs4 by (apply Hsuf; [done|cbn; lia]).
  assert (HasSuffix p6 ".tmp" = false) as Hs6 by (apply Hsuf; [done|cbn; lia]).
  split.
  - rewrite (writeFamily_frame _ _ _ _ _ _ _ _ p4 E2); [|by apply Hne|rewrite E6s; by apply Hne|done|done].
    eapply (writeFamily_fresh dir ctx "ipv4"); [done|by rewrite E4s|apply Hd|exact E1].
  - eapply (writeFamily_fresh dir ctx "ipv6"); [done| |apply Hd|exact E2]. rewrite E6s.
    rewrite (writeFamily_frame _ _ _ _ _ _ _ _ (path_join dir "ipv6.txt.sha256") E1); [done|by apply Hne|rewrite E4s; by apply Hne| |done].
    apply Hsuf; [done|cbn; lia].
Qed.
End Files.

(** ** What leaves the tables alone *)

Section Keeps.
Context {K : Type} `{Env K} `{Sqlite K}.

(** The tables are left alone. *)
Definition same_db (w w' : World K) : Prop := db w' = db w.
#[global] Instance same_db_preorder : PreOrder same_db.
Proof. split; [done|]. intros w1 w2 w3. unfold same_db. congruence. Qed.

Definition keeps_db {A} (m : IO K A) : Prop := forall w r w', m w = (r, w') -> db w' = db w.

Lemma keeps_files {A} (m : IO K A) : files_only m -> keeps_db m.
Proof. intros Hm w r w' E. unfold db. by rewrite (Hm _ _ _ E). Qed.
Lemma keeps_bind {A B} (m : IO K A) (f : A -> IO K B) : keeps_db m -> (forall a, keeps_db (f a)) -> keeps_db (m ≫= f).
Proof. apply (respects_bind same_db). Qed.
Lemma keeps_wrap {A} msg (m : IO K A) : keeps_db m -> keeps_db (io_wrap msg m).
Proof. apply (respects_wrap same_db). Qed.
Lemma keeps_try {A} (m : IO K A) : keeps_db m -> keeps_db (io_try m).
Proof. apply (respects_try same_db). Qed.
Lemma keeps_ret {A} (a : A) : keeps_db (mret a : IO K A).
Proof. apply (respects_ret same_db). Qed.
Lemma keeps_err {A} e : keeps_db (io_err e : IO K A).
Proof. apply (respects_err same_db). Qed.
Lemma keeps_syscall : keeps_db (syscall : IO K unit).
Proof. by apply (respects_syscall same_db). Qed.
End Keeps.

#[local] Hint Resolve keeps_bind keeps_wrap keeps_try keeps_ret keeps_err keeps_syscall : keeps.

(** Walk over a computation whose leaves are known. *)
Ltac keeps_walk :=
  repeat first [ progress intros | apply keeps_bind | apply keeps_wrap | apply keeps_try | apply keeps_ret
               | apply keeps_err | apply keeps_syscall | case_match | case_if
               | by apply keeps_files; auto with d2ip ].

Section Commands.
Context {K : Type} `{Env K} `{Http K} `{Digest} `{VersionCodec} `{ListCodec} `{Idna} `{Sqlite K} `{SchemaDb K} `{TempNames}.
Context (fs : gmap string (option string)).
Context (batch : ResolverCfg -> list string -> World K -> list ResolveResult * World K).
(** Neither fetching a file nor a migration writes to the tables; and what
    [batch_results_ok] shows of the pool. *)
Context (http_db : forall url etag since k, db_get (snd (http_get url etag since k)) = db_get k).
Context (script_db : forall body k k', script body k = Some k' -> db_get k' = db_get k).
Context (version_db : forall v k, db_get (add_version v k) = db_get k).
Context (batch_ok : forall cfg ds w, Forall result_ok (fst (batch cfg ds w)) /\
  Forall (fun r => rr_Status r <> StatusUnknown) (fst (batch cfg ds w)) /\
  rr_Domain <$> fst (batch cfg ds w) ≡ₚ ds /\ db (snd (batch cfg ds w)) = db w).
Implicit Types (w : World K).

Lemma keeps_applyMigration ver name body : keeps_db (applyMigration ver name body : IO K unit).
Proof.
  intros w r w' E. unfold applyMigration in E.
  apply io_bind_any in E as [([] & w1 & E1 & E)|(e & E1 & ->)]; apply (keeps_wrap _ _ keeps_syscall) in E1; [|done].
  rewrite <- E1. clear E1. unfold mbind at 1, io_bind at 1, io_fun at 1 in E.
  apply io_bind_any in E as [(k & w2 & E2 & E)|(e & E2 & ->)].
  2: { eapply (keeps_wrap ("exec " +:+ name)); [|exact E2]. apply keeps_bind; [apply keeps_syscall|]. intros _.
       destruct (script body _); [apply keeps_ret|apply keeps_err]. }
  apply io_wrap_ok, io_bind_ok in E2 as ([] & w3 & E2 & E3). apply keeps_syscall in E2.
  destruct (script body (w_kern w1)) as [k'|] eqn:Es; [|done]. injection E3 as <- <-. apply script_db in Es.
  apply io_bind_any in E as [(t & w4 & E4 & E)|(e & E4 & ->)]; [|done]. unfold Now in E4. injection E4 as _ <-.
  apply io_bind_any in E as [([] & w5 & E5 & E)|(e & E5 & ->)]; apply (keeps_wrap _ _ keeps_syscall) in E5; [|by rewrite E5, <- E2].
  apply io_bind_any in E as [([] & w6 & E6 & E)|(e & E6 & ->)]; apply (keeps_wrap _ _ keeps_syscall) in E6; [|by rewrite E6, E5, <- E2].
  injection E as _ <-. unfold db. cbn [w_kern]. by rewrite version_db, Es.
Qed.

Lemma keeps_migrate_files current names : keeps_db (migrate_files fs current names : IO K unit).
Proof.
  induction names as [|name names IH]; cbn [migrate_files]; [apply keeps_ret|].
  destruct (parseMigrationVersion name) as [ver|]; [|exact IH]. case_if; [exact IH|].
  destruct (fs !! name) as [[body|]|]; [|apply keeps_err..]. apply keeps_bind; [apply keeps_applyMigration|by intros _].
Qed.

Lemma keeps_Open path : keeps_db (Open fs path : IO K string).
Proof.
  unfold Open. case_if; [apply keeps_err|].
  apply keeps_bind; [apply keeps_wrap, keeps_syscall|]. intros _.
  apply keeps_bind; [apply keeps_wrap|intros _; apply keeps_bind; [apply keeps_wrap|intros _; apply keeps_ret]].
  - unfold applyPragmas. apply keeps_bind; [case_if; keeps_walk|]. intros _.
    generalize ["PRAGMA synchronous=NORMAL"; "PRAGMA foreign_keys=ON"; "PRAGMA busy_timeout=5000"; "PRAGMA temp_store=MEMORY"]%string.
    intros stmts. induction stmts as [|s stmts IH]; cbn [pragmas]; keeps_walk. exact IH.
  - unfold migrate. apply keeps_bind; [keeps_walk|]. intros _. apply keeps_bind; [|intros; apply keeps_migrate_files].
    unfold currentSchemaVersion. apply keeps_wrap, keeps_bind; [keeps_walk|]. intros _. by intros w r w' [= <- <-].
Qed.

(** ** The list *)

Lemma keeps_GetUrl url etag since : keeps_db (GetUrl url etag since : IO K _).
Proof.
  intros w r w'. unfold GetUrl. pose proof (http_db url etag since (w_kern w)) as Hd.
  destruct (http_get url etag since (w_kern w)) as [x k]. by intros [= <- <-].
Qed.

Lemma files_only_AppendFile path data : files_only (AppendFile path data : IO K unit).
Proof. intros w r w'. unfold AppendFile. by destruct (fault _); intros [= <- <-]. Qed.

Lemma files_only_Stat path : files_only (Stat path : IO K unit).
Proof. apply files_only_bind; [apply files_only_syscall|]. intros _. apply files_only_fun. intros w. by destruct (w_files w !! path). Qed.

Lemma files_only_Create path : files_only (Create path : IO K unit).
Proof. apply files_only_bind; [apply files_only_syscall|]. intros _. by apply files_only_fun. Qed.

Lemma files_only_ren old new : files_only (Rename old new : IO K unit).
Proof. apply files_only_Rename. Qed.

#[local] Hint Resolve files_only_AppendFile files_only_Stat files_only_Create files_only_syscall files_only_Now
  files_only_ReadFile files_only_WriteFile files_only_Remove files_only_ren : keeps.
Ltac keeps_leaf :=
  repeat first [ progress intros | solve [apply keeps_files; eauto 2 with keeps] | apply keeps_ret | apply keeps_err
               | apply keeps_bind | apply keeps_try | apply keeps_wrap | case_match | case_if ].

Lemma keeps_fallback s e : keeps_db (fallback s e : IO K _).
Proof. unfold fallback. keeps_leaf. Qed.

Lemma keeps_download resp path : keeps_db (downloadToFile resp path : IO K Z).
Proof. unfold downloadToFile, MkdirAll, Sync. keeps_leaf. Qed.

Lemma keeps_install s resp size : keeps_db (install s resp size : IO K _).
Proof. unfold install, saveMetadata. keeps_leaf; by apply keeps_fallback. Qed.

Lemma keeps_fetch s : keeps_db (fetchLocked s : IO K _).
Proof.
  unfold fetchLocked. case_if; [apply keeps_fallback|]. apply keeps_bind; [apply keeps_try, keeps_GetUrl|]. intros [resp|e]; [|apply keeps_fallback].
  case_if; [keeps_leaf|]. case_if; [apply keeps_fallback|]. apply keeps_bind; [apply keeps_try, keeps_download|].
  intros [size|e]; [apply keeps_install|]. keeps_leaf.
Qed.

Lemma keeps_Get s maxAge : keeps_db (Get s maxAge : IO K _).
Proof.
  unfold Get. case_if; [keeps_leaf|]. apply keeps_bind.
  { unfold is_fresh. keeps_leaf. }
  intros fresh. destruct fresh; [|apply keeps_fetch]. apply keeps_bind; [keeps_leaf|]. intros [|]; [apply keeps_ret|apply keeps_fetch].
Qed.

Lemma open_list_db flags w provider w' : open_list flags w = (Returned provider, w') -> db w' = db w.
Proof.
  unfold open_list. intros (store & w1 & E1 & E)%cmd_bind_ok.
  assert (db w1 = db w) as <-.
  { unfold NewHTTPStore, loadMetadata in E1. destruct (String.eqb _ ""); [done|]. destruct (String.eqb _ ""); [done|].
    destruct (ReadFile _ w) as [rd w2] eqn:Er. apply (keeps_files _ (files_only_ReadFile _)) in Er. rewrite <- Er.
    destruct rd as [data|e]; [|by injection E1 as _ <-]. destruct (unmarshal_version data) as [v|]; [|by injection E1 as _ <-].
    destruct (Nat.ltb _ 16); [done|]. by injection E1 as _ <-. }
  apply cmd_bind_ok in E as ([[store' path] v] & w2 & E2 & E). apply must_returned, keeps_Get in E2. rewrite <- E2.
  apply cmd_bind_ok in E as ([] & w3 & E3 & E). unfold log_version in E3. destruct (Nat.ltb _ 16); [done|]. injection E3 as <-.
  unfold LoadList in E. destruct (ReadFile path w2) as [rd w4] eqn:Er. apply (keeps_files _ (files_only_ReadFile _)) in Er. rewrite <- Er.
  destruct rd as [data|e]; [|done]. destruct (unmarshal_list data); [|done]. by injection E as _ <-.
Qed.

(** ** [resolve] *)

(** Flushing the buffer every thousand results stores them all. *)
Lemma store_results_spec results buffer w a :
  (forall i, fault i = None) -> 5000 <= max_params -> refines (db w) a ->
  refines (db (store_results results buffer w)) (spec_upsert a (buffer ++ results)).
Proof.
  intros Hf Hp. revert buffer w a. induction results as [|r results IH]; intros buffer w a Hr; cbn [store_results].
  - rewrite app_nil_r. destruct (Nat.ltb_spec 0 (length buffer)) as [Hl|Hl].
    + destruct (upsert_runs buffer a w Hf Hp Hr) as (w' & E & Hr'). unfold store_batch. by rewrite E.
    + by rewrite (nil_length_inv buffer) by lia.
  - replace (buffer ++ r :: results) with ((buffer ++ [r]) ++ results) by by rewrite <- app_assoc.
    destruct (Nat.leb 1000 (length (buffer ++ [r]))).
    + destruct (upsert_runs (buffer ++ [r]) a w Hf Hp Hr) as (w' & E & Hr'). unfold store_batch. rewrite E. cbn [snd].
      unfold spec_upsert at 1. rewrite foldl_app. apply (IH [] w' _ Hr').
    + by apply IH.
Qed.

Lemma counts_sum results :
  Forall (fun r => rr_Status r <> StatusUnknown) results ->
  count_status StatusValid results + count_status StatusFailed results + count_status StatusNXDomain results =
  Z.of_nat (length results).
Proof.
  unfold count_status. induction 1 as [|r rs Hr _ IH]; [done|]. cbn [List.filter length].
  destruct (rr_Status r); cbn [bool_decide decide_rel Status_eq_dec]; try done; repeat (case_bool_decide; try done); cbn [length]; lia.
Qed.

Lemma resolveCmd_ok flags w su w' a :
  (forall i, fault i = None) -> 5000 <= max_params -> refines (db w) a ->
  resolveCmd fs batch flags w = (Returned (Some su), w') ->
  exists provider w1 rules cfg wb results,
    open_list (rf_Source flags) w = (Returned provider, w1) /\
    Select provider (selectors (rf_Categories flags)) = Ok rules /\
    results = fst (batch cfg (resolvable_domains rules) wb) /\
    Forall result_ok results /\ rr_Domain <$> results ≡ₚ resolvable_domains rules /\
    refines (db w') (spec_upsert a results) /\
    su_Total su = Z.of_nat (length results) /\ su_Valid su + su_Failed su + su_NXDomain su = su_Total su.
Proof.
  intros Hf Hp Hr (provider & w1 & E1 & E)%cmd_bind_ok. pose proof (open_list_db _ _ _ _ E1) as Hd1.
  apply cmd_bind_ok in E as (rules & w2 & [Hs ->]%must_ok_returned & E). cbv zeta in E.
  destruct (Nat.eqb (length (resolvable_domains rules)) 0); [done|].
  apply cmd_bind_ok in E as (cfg & w2 & [Hc ->]%must_ok_returned & E).
  apply cmd_bind_ok in E as (h & w2 & E2%must_returned%keeps_Open & E).
  apply cmd_bind_ok in E as (t & w3 & E3%must_returned & E). unfold Now in E3. injection E3 as _ <-.
  apply cmd_bind_ok in E as (results & w4 & E4 & E). apply cmd_bind_ok in E as (d & w5 & E5%must_returned & E).
  unfold since, Now, mbind, io_bind, mret, io_ret in E5. injection E5 as _ <-. injection E as <- <-.
  unfold resolve_and_store in E4. destruct (batch_ok cfg (resolvable_domains rules) (tick w2)) as (Hok & Hu & Hd & Hb).
  destruct (batch cfg (resolvable_domains rules) (tick w2)) as [l w6] eqn:Eb. injection E4 as <- <-. cbn [fst snd] in *.
  exists provider, w1, rules, cfg, (tick w2), l. rewrite Eb. split_and!; try done.
  - rewrite <- Hd1, <- E2 in Hr. change (db (tick ?x)) with (db x) in Hb |- *. rewrite <- Hb in Hr.
    by apply (store_results_spec l [] w6 a).
  - cbn. apply (f_equal Z.of_nat). rewrite <- (length_fmap rr_Domain). by rewrite Hd.
  - cbn. rewrite counts_sum by done. apply (f_equal Z.of_nat). rewrite <- (length_fmap rr_Domain l). by rewrite Hd.
Qed.

(** ** [export] *)

Context (order : gset Addr -> list Addr) `{!MapOrder order}.

Definition fresh_output (dir : string) w : Prop :=
  w_files w !! path_join dir "ipv4.txt.sha256" = None /\ w_files w !! path_join dir "ipv6.txt.sha256" = None.
Definition exported (dir : string) w (ps4 ps6 : list Prefix) : Prop :=
  w_files w !! path_join dir "ipv4.txt" = Some (render ps4) /\ w_files w !! path_join dir "ipv6.txt" = Some (render ps6).

Lemma touches_Open path : touches ∅ (Open fs path : IO K string).
Proof.
  unfold Open. case_if; [apply touches_err|]. apply touches_bind; [auto with d2ip|]. intros _.
  apply touches_bind; [apply touches_wrap|intros _; apply touches_bind; [apply touches_wrap|intros _; apply touches_ret]].
  - unfold applyPragmas. apply touches_bind; [case_if; auto with d2ip|]. intros _.
    generalize ["PRAGMA synchronous=NORMAL"; "PRAGMA foreign_keys=ON"; "PRAGMA busy_timeout=5000"; "PRAGMA temp_store=MEMORY"]%string.
    intros stmts. induction stmts as [|s stmts IH]; cbn [pragmas]; [apply touches_ret|].
    apply touches_bind; [auto with d2ip|by intros _].
  - unfold migrate. apply touches_bind; [auto with d2ip|]. intros _. apply touches_bind.
    { apply touches_wrap, touches_bind; [auto with d2ip|]. intros _. by intros w r w' [= <- <-]. }
    intros current. induction (migration_files fs) as [|name names IH]; cbn [migrate_files]; [apply touches_ret|].
    destruct (parseMigrationVersion name) as [ver|]; [|exact IH]. case_if; [exact IH|].
    destruct (fs !! name) as [[body|]|]; [|apply touches_err..]. apply touches_bind; [|by intros _].
    unfold applyMigration. apply touches_bind; [auto with d2ip|]. intros _. apply touches_bind; [by intros ? ? ? [= <- <-]|]. intros k.
    apply touches_bind; [|intros ?; repeat (apply touches_bind; [auto with d2ip|intros ?])].
    + apply touches_wrap, touches_bind; [auto with d2ip|]. intros _. destruct (script body _); auto with d2ip.
    + by intros w r w' [= <- <-].
Qed.

Lemma touches_select {A} n (f : Tables -> A) : touches ∅ (select n f : IO K A).
Proof.
  unfold select, query. apply touches_bind; [by intros ? ? ? [= <- <-]|]. intros t.
  apply touches_bind; [apply touches_syscall|]. intros _. case_if; [apply touches_err|apply touches_ret].
Qed.

Lemma touches_family typ : touches ∅ (snapshotFamily typ : IO K _).
Proof. apply touches_bind; [apply touches_wrap, touches_select|intros ?; apply touches_ret]. Qed.

Lemma touches_Snapshot : touches ∅ (Snapshot : IO K _).
Proof.
  apply touches_bind; [apply touches_wrap, touches_family|]. intros v4.
  apply touches_bind; [apply touches_wrap, touches_family|]. intros v6. apply touches_ret.
Qed.

Lemma length_omap_le {A B} (f : A -> option B) l : (length (omap f l) <= length l)%nat.
Proof. induction l as [|x l IH]; cbn; [done|]. destruct (f x); cbn; lia. Qed.

(** A family has no more addresses than there are records. *)
Lemma family_size typ w l w' : snapshotFamily typ w = (Ok l, w') -> (length l <= size (tb_records (db w)))%nat.
Proof.
  unfold snapshotFamily. intros (rows & w1 & E1 & E)%io_bind_ok. injection E as <- _.
  apply wrap_select_cases in E1 as [_ Hl]. rewrite (Hl _ eq_refl), go_sort_perm.
  etransitivity; [apply length_omap_le|]. rewrite go_sort_perm. set (keys := valid_keys _ _).
  transitivity (length ((fun k : RecordKey => k.1.2) <$> elements keys)).
  - apply submseteq_length, NoDup_submseteq; [apply NoDup_elements|]. intros ip.
    rewrite elem_of_elements, elem_of_map, list_elem_of_fmap. setoid_rewrite elem_of_elements. done.
  - rewrite length_fmap. change (size keys <= size (tb_records (db w)))%nat. unfold keys, valid_keys.
    rewrite size_dom. apply map_size_filter.
Qed.

(** What a successful export writes. *)
Lemma exportCmd_ok flags w rep w' a :
  (forall s, sha256_hex s <> ""%string) -> refines (db w) a -> fresh_output (ef_Output flags) w ->
  exportCmd fs order flags w = (Returned rep, w') ->
  exists level v4 v6, export_level (ef_Agg flags) = Some level /\
    (forall addr, (addr ∈ v4 <-> exists name, spec_rec a name "A" addr) /\
                  (addr ∈ v6 <-> exists name, spec_rec a name "AAAA" addr)) /\
    (length v4 <= size (tb_records (db w)))%nat /\
    exported (ef_Output flags) w' (AggregateV4 order v4 level 16) (AggregateV6 order v6 level 32).
Proof.
  intros Hd Hr [H4' H6'] (h & w1 & E1%must_returned & E)%cmd_bind_ok. pose proof (keeps_Open _ _ _ _ E1) as Hd1.
  apply cmd_bind_ok in E as ([v4 v6] & w2 & E2%must_returned & E). rewrite <- Hd1 in Hr.
  destruct (Snapshot_ok _ _ _ _ _ Hr E2) as [_ Hs].
  destruct (export_level (ef_Agg flags)) as [level|]; [|done]. cbv zeta in E.
  apply cmd_bind_ok in E as (dir & w3 & E3%must_returned & E%must_returned).
  unfold New in E3. apply io_bind_ok in E3 as ([] & w4 & E3 & E4). injection E4 as <- <-.
  exists level, v4, v6. split; [done|]. split; [exact Hs|]. split.
  { unfold Snapshot in E2. apply io_bind_ok in E2 as (l4 & w5 & E5%io_wrap_ok & E2).
    apply io_bind_ok in E2 as (l6 & w6 & _ & E2). injection E2 as <- <- _. rewrite <- Hd1. by eapply family_size. }
  assert (forall p, w_files w4 !! p = w_files w !! p) as Hfiles.
  { intros p. rewrite (touches_wrap ∅ _ _ (touches_syscall ∅) _ _ _ E3) by apply not_elem_of_empty.
    rewrite (touches_Snapshot _ _ _ E2) by apply not_elem_of_empty. by rewrite (touches_Open _ _ _ _ E1) by apply not_elem_of_empty. }
  eapply Write_fresh; [done|by rewrite Hfiles..|exact E].
Qed.

(** ** Claims *)

Lemma stored_answers results typ addr :
  Forall result_ok results ->
  (exists name, spec_rec (spec_upsert ∅ results) name typ addr) <->
  exists r, r ∈ results /\ rr_Status r = StatusValid /\ answers r typ addr.
Proof.
  intros Hok. setoid_rewrite (spec_rec_upsert ∅ results _ typ addr Hok). split.
  - intros (name & [(e & ip & v & He & _)|(r & Hr & _ & Hv & Ha)]); [by rewrite lookup_empty in He|by exists r].
  - intros (r & Hr & Hv & Ha). exists (rr_Domain r). right. by exists r.
Qed.

Lemma answers_wf results r typ addr :
  Forall result_ok results -> r ∈ results -> answers r typ addr -> IsValid addr = true /\ addr_wf addr.
Proof.
  intros Hok Hr Ha. destruct (proj1 (Forall_forall _ _) Hok r Hr) as [Hw _]. apply (proj1 (Forall_forall _ _) Hw).
  apply elem_of_app. destruct Ha as [[_ Ha]|[_ Ha]]; auto.
Qed.


(** By default, with [-agg off], an export is not the list of the stored addresses:
    any two IPv4 addresses of the cache in the same /16 come out as one prefix that
    contains both, with every address between them. *)
Theorem export_off_merges ef w rep w' a x y nx ny :
  (forall s, sha256_hex s <> ""%string) -> refines (db w) a -> fresh_output (ef_Output ef) w ->
  ef_Agg ef = "off"%string -> Z.of_nat (size (tb_records (db w))) < 2 ^ 53 ->
  (forall name typ addr, spec_rec a name typ addr -> addr_wf addr) ->
  spec_rec a nx "A" (Addr4 x) -> spec_rec a ny "A" (Addr4 y) -> x <> y -> x / 2 ^ 16 = y / 2 ^ 16 ->
  exportCmd fs order ef w = (Returned rep, w') ->
  exists ps4 ps6 p, exported (ef_Output ef) w' ps4 ps6 /\ p ∈ ps4 /\
    Contains p (Addr4 x) = true /\ Contains p (Addr4 y) = true.
Proof.
  intros Hd Hr Hfresh Hagg Hsize Hwf Hx Hy Hne H16 E.
  destruct (exportCmd_ok _ _ _ _ _ Hd Hr Hfresh E) as (level & v4 & v6 & El & Hsnap & Hlen & Hex).
  rewrite Hagg in El. injection El as <-.
  assert (inputs_ok v4) as Hok by (apply Forall_forall; intros addr [name Ha]%Hsnap _; by eapply Hwf).
  destruct (aggoff_merges_all_v4 order v4 16 16 x y) as (p & Hp & Hcx & Hcy); try done; try lia.
  - apply Hsnap. by exists nx.
  - apply Hsnap. by exists ny.
  - by exists (AggregateV4 order v4 AggOff 16), (AggregateV6 order v6 AggOff 32), p.
Qed.

(** Without a copy that is known to be fresh, a failing fetch serves the cached file. *)
Lemma Get_offline s maxAge content w :
  (forall i, fault i = None) -> maxAge <> 0 -> vs_FetchedAt (hs_current s) = None ->
  w_files w !! hs_cachePath s = Some content ->
  (forall url etag since k, exists e k', http_get url etag since k = (Err e, k')) ->
  exists w', Get s maxAge w = (Ok (s, hs_cachePath s, hs_current s), w').
Proof.
  intros Hf Hm Hfetched Hfile Hnet. unfold Get, is_fresh. destruct (Z.eqb_spec maxAge 0); [done|]. rewrite Hfetched.
  unfold mbind at 1, io_bind at 1, mret, io_ret.
  assert (forall e w1, w_files w1 = w_files w -> exists w', fallback s e w1 = (Ok (s, hs_cachePath s, hs_current s), w')) as Hfb.
  { intros e w1 Hw. unfold fallback, Stat, mbind, io_bind, io_try, syscall, io_fun. rewrite Hf. cbn [tick w_files]. rewrite Hw, Hfile.
    by eexists. }
  unfold fetchLocked. destruct (negb (valid_url (hs_url s))); [by apply Hfb|].
  unfold GetUrl, mbind, io_bind, io_try. destruct (Hnet (hs_url s) (vs_ETag (hs_current s)) (vs_LastModified (hs_current s)) (w_kern w)) as (e & k' & ->).
  by apply Hfb.
Qed.

(** A domain list that is cached without its metadata (a crash between the two
    writes, a copied file, or a sidecar that could not be written) is not enough to work
    offline: when the fetch fails, the commands that read it panic on the log line that
    shortens the digest, although the store served the file. *)
Theorem list_without_metadata_panics order' df rf content w :
  (forall i, fault i = None) -> df_Source df = rf_Source rf ->
  let flags := df_Source df in
  sf_URL flags <> ""%string -> sf_CachePath flags <> ""%string -> sf_MaxAge flags <> 0 ->
  w_files w !! sf_CachePath flags = Some content -> w_files w !! (sf_CachePath flags +:+ ".meta.json") = None ->
  (forall url etag since k, exists e k', http_get url etag since k = (Err e, k')) ->
  fst (dumpCmd order' df w) = Panicked /\ fst (resolveCmd fs batch rf w) = Panicked.
Proof.
  cbv zeta. intros Hf Hrf Hu Hc Hm Hfile Hmeta Hnet.
  cut (fst (open_list (df_Source df) w) = Panicked).
  { intros E. unfold dumpCmd, resolveCmd, cmd_bind. rewrite <- Hrf. destruct (open_list _ w) as [o w']. cbn in E. by subst o. }
  unfold open_list, cmd_bind at 1, NewHTTPStore, loadMetadata. destruct (String.eqb_spec (sf_URL (df_Source df)) ""); [done|].
  destruct (String.eqb_spec (sf_CachePath (df_Source df)) ""); [done|].
  rewrite ReadFile_nofault by done. unfold meta_path. cbn [hs_cachePath]. rewrite Hmeta.
  set (store := MkStore _ _ _ _). unfold cmd_bind at 1, must.
  destruct (Get_offline store (sf_MaxAge (df_Source df)) content (tick w)) as (w' & ->); done.
Qed.
End Commands.

(** ** The start of the server *)

Section Start.
Context {K St : Type} `{Env K} `{!Source K St} `{!Factories K St} `{ConfigCodec}.
Implicit Types (r : DBRegistry St) (w : World K).

Lemma rinv_seed sources r w : rinv r -> rinv (fst (seed_sources sources r w)).
Proof.
  revert r w. induction sources as [|src sources IH]; intros r w Hi; [done|]. cbn [seed_sources].
  destruct (AddSource r (seed_config src) w) as [[r1 e] w1] eqn:E. apply IH. by eapply rinv_add.
Qed.

(** Starting over the rows of an earlier run keeps the registry's invariant. *)
Lemma start_registry_inv order cfg rows w r w' :
  rinv (MkRegistry (St := St) rows ∅) -> start_registry order cfg rows w = (r, w') -> rinv r.
Proof.
  intros Hi. unfold start_registry. pose proof (rinv_seed (cfg_Sources cfg) (MkRegistry rows ∅) w Hi) as Hs.
  destruct (seed_sources _ _ w) as [r1 w1]. cbn [fst] in Hs.
  destruct (LoadAll order r1 w1) as [[r2 e] w2] eqn:E. intros [= <- <-]. by eapply rinv_load.
Qed.

(** The row [AddSource] writes. *)
Definition row_of (src : SourceItemConfig) : option Row :=
  let cfg := seed_config src in
  configJSON ← marshal_config (sg_Config cfg);
  Some (MkRow (sg_Provider cfg) (sg_Prefix cfg) (boolToInt (sg_Enabled cfg)) configJSON).

Lemma AddSource_rows (r : DBRegistry St) src w r' e w' :
  AddSource r (seed_config src) w = ((r', e), w') ->
  (e = None /\ exists row, row_of src = Some row /\ reg_db r' = <[si_ID src := row]> (reg_db r)) \/
  (e <> None /\ r' = r).
Proof.
  unfold AddSource, row_of. destruct (check_source _); [intros [= <- <- _]; by right|].
  destruct (createSource _ w) as [[s|er] w1]; [|intros [= <- <- _]; by right].
  destruct (marshal_config _) as [json|]; [|intros [= <- <- _]; by right].
  destruct (db_exec w1) as [[er|] w2]; [intros [= <- <- _]; by right|].
  unfold upsert_row. cbn [mbind option_bind]. destruct (prefix_taken _ _ _); [intros [= <- <- _]; by right|].
  destruct (load_enabled s w2) as [s' w3]. intros [= <- <- _]. left. split; [done|]. eauto.
Qed.

Lemma LoadAll_rows order (r : DBRegistry St) w : reg_db (fst (fst (LoadAll order r w))) = reg_db r.
Proof.
  unfold LoadAll. destruct (db_exec w) as [[e|] w1]; [done|].
  destruct (scan_rows _ _ _ _) as [[m n] w2]. destruct (_ && _); [done|]. by destruct (load_each _ _ _).
Qed.

Lemma seed_rows sources r w :
  NoDup (si_ID <$> sources) ->
  let r' := fst (seed_sources sources r w) in
  (forall id, id ∉ si_ID <$> sources -> reg_db r' !! id = reg_db r !! id) /\
  (forall src, src ∈ sources -> reg_db r' !! si_ID src = row_of src \/ reg_db r' !! si_ID src = reg_db r !! si_ID src).
Proof.
  revert r w. induction sources as [|s sources IH]; intros r w Hnd; cbv zeta; cbn [seed_sources].
  { split; [done|]. by intros src ?%elem_of_nil. }
  rewrite fmap_cons in *. apply NoDup_cons in Hnd as [Hs Hnd].
  destruct (AddSource r (seed_config s) w) as [[r1 e] w1] eqn:Ea. specialize (IH r1 w1 Hnd) as [Hout Hin].
  apply AddSource_rows in Ea as [(_ & row & Hrow & Hdb)|[_ ->]].
  - split.
    + intros id [Hne Hni]%not_elem_of_cons. by rewrite Hout, Hdb, lookup_insert_ne.
    + intros src [->|Hi]%elem_of_cons.
      * left. by rewrite Hout, Hdb, lookup_insert_eq.
      * destruct (Hin src Hi) as [Hl|Hl]; [by left|right]. rewrite Hl, Hdb, lookup_insert_ne; [done|].
        intros Hc. apply Hs. rewrite Hc. by apply list_elem_of_fmap_2.
  - split.
    + intros id [Hne Hni]%not_elem_of_cons. by apply Hout.
    + intros src [->|Hi]%elem_of_cons; [right; by apply Hout|by apply Hin].
Qed.

(** What a start makes of the rows of an earlier run: a source of the configuration that
    can be added gets the row of the configuration, so what was changed through the
    interface is lost; one that is no longer in the configuration keeps its row. *)
Theorem startup_rows order cfg rows w r w' :
  NoDup (si_ID <$> cfg_Sources cfg) -> start_registry order cfg rows w = (r, w') ->
  (forall id, id ∉ si_ID <$> cfg_Sources cfg -> reg_db r !! id = rows !! id) /\
  (forall src, src ∈ cfg_Sources cfg -> reg_db r !! si_ID src = row_of src \/ reg_db r !! si_ID src = rows !! si_ID src).
Proof.
  intros Hnd. unfold start_registry. pose proof (seed_rows (cfg_Sources cfg) (MkRegistry rows ∅) w Hnd) as Hs.
  destruct (seed_sources _ _ w) as [r1 w1]. cbn [fst reg_db] in Hs. pose proof (LoadAll_rows order r1 w1) as Hl.
  destruct (LoadAll order r1 w1) as [[r2 e] w2]. cbn [fst] in Hl. intros [= <- <-]. by rewrite Hl.
Qed.
End Start.
