(* ===== verification/CmdDemo.v ===== *)
(** * Runs of the commands

  A state of the machine with a database, a server with a domain list and a resolver
  that answers every name: the theorems on the commands applied to one run of each. *)

From S2P Require Import Prelude Order GoLib Os Netip NetipText Cidr Aggregator Config Exporter ExporterSpec Cache CacheSpec Migrate Resolver Store Domainlist Sourcereg Orchestrator Cmd CmdSpec.

Local Open Scope Z_scope.

Record Machine := MkMachine { mc_tables : Tables; mc_versions : gset Z; mc_online : bool }.

#[local] Instance tool_env : Env Machine := {|
  fault := fun _ => None;
  torn := fun _ old _ => old;
  exec := fun _ _ k => (None, "", "", k)%string;
  look_path := fun _ _ => true;
  clock := Z.of_nat
|}.

#[local] Instance tool_sqlite : Sqlite Machine := {|
  db_get := mc_tables;
  db_set t k := MkMachine t (mc_versions k) (mc_online k);
  db_get_set t k := eq_refl;
  max_params := 32766
|}.

#[local] Instance tool_schema : SchemaDb Machine := {|
  versions := mc_versions;
  add_version v k := MkMachine (mc_tables k) ({[v]} ∪ mc_versions k) (mc_online k);
  script _ k := Some k;
  versions_add v k := eq_refl;
  versions_script _ k k' E := f_equal mc_versions (eq_sym (Some_inj _ _ E))
|}.

#[local] Instance tool_http : Http Machine := {|
  valid_url _ := true;
  http_get _ _ _ k := ((if mc_online k then Ok (MkResponse 200 "dlc" None "" "") else Err (ErrNew "no route")), k)
|}.
#[local] Instance tool_versions : VersionCodec := {|
  marshal_version _ := "{}"%string; unmarshal_version _ := None
|}.
#[local] Instance tool_digest : Digest := {| sha256_hex s := "0123456789abcdef" +:+ s |}.
#[local] Instance tool_idna : Idna := {| ToASCII s := Some s |}.
#[local] Instance tool_list : ListCodec := {|
  unmarshal_list s :=
    if String.eqb s "dlc"
    then Some [MkGeoSite "RU" [MkDomain Domain_Full "ya.ru" []; MkDomain Domain_Plain "kw" []]] else None
|}.

(** Every name has one address of each family. *)
Definition host4 : Addr := Addr4 (10 * 2 ^ 24 + 1).
Definition host6 : Addr := Addr6 1 "".
Definition tool_batch (cfg : ResolverCfg) (ds : list string) (w : World Machine) : list ResolveResult * World Machine :=
  ((fun d => MkResult d [host4] [host6] StatusValid 0 None) <$> ds, w).

Lemma tool_batch_ok cfg ds w :
  Forall result_ok (fst (tool_batch cfg ds w)) /\ Forall (fun r => rr_Status r <> StatusUnknown) (fst (tool_batch cfg ds w)) /\
  rr_Domain <$> fst (tool_batch cfg ds w) ≡ₚ ds /\ db (snd (tool_batch cfg ds w)) = db w.
Proof.
  cbn [fst snd tool_batch]. split_and!; [..|done].
  - apply Forall_fmap, Forall_true. intros d. split; [|done]. apply (bool_decide_unpack _). vm_compute. exact I.
  - by apply Forall_fmap, Forall_true.
  - rewrite <- list_fmap_compose. rewrite (list_fmap_ext _ id ds); [by rewrite list_fmap_id|done].
Qed.

Lemma tool_http_db url etag since k : db_get (snd (http_get (K := Machine) url etag since k)) = db_get k.
Proof. done. Qed.
Lemma tool_script_db body (k k' : Machine) : script body k = Some k' -> db_get k' = db_get k.
Proof. by intros [= <-]. Qed.
Lemma tool_version_db v (k : Machine) : db_get (add_version v k) = db_get k.
Proof. done. Qed.

Definition tool_fs : gmap string (option string) := {["0001_init.sql"%string := Some "CREATE TABLE domains"%string]}.
Definition tool_start (online : bool) : World Machine := MkWorld ∅ (MkMachine emptyTables ∅ online) 0.

Definition tool_resolve : ResolveFlags := MkResolveFlags default_source ["geosite:ru"%string] "./d2ip.db" "8.8.8.8:53" 64 1000.
Definition resolved_run := resolveCmd tool_fs tool_batch tool_resolve (tool_start true).
Definition tool_export (agg : string) : ExportFlags := MkExportFlags "./d2ip.db" "/o" agg.
Definition exported_run (agg : string) := exportCmd tool_fs elements (tool_export agg) (snd resolved_run).

(** How the runs end. *)
Definition ends {A B} (P : A -> bool) (run : Outcome A * B) : bool :=
  match fst run with Returned a => P a | _ => false end.

Lemma ends_returned {A B} (P : A -> bool) (run : Outcome A * B) :
  ends P run = true -> exists a w, run = (Returned a, w) /\ P a = true /\ w = snd run.
Proof. destruct run as [[a| |] w]; cbn; try done. eauto 6. Qed.

Definition one_domain (s : option ResolveSummary) : bool :=
  match s with Some su => su_Total su =? 1 | None => false end.

Lemma resolved_ends : ends one_domain resolved_run = true.
Proof. vm_compute. reflexivity. Qed.
Lemma exported_ends : ends (fun _ => true) (exported_run "conservative") = true.
Proof. vm_compute. reflexivity. Qed.
Lemma output_fresh : fresh_output "/o" (snd resolved_run).
Proof. vm_compute. by split. Qed.

(** ** The claims at these runs *)


(** Two addresses of a /16, exported with the default level. *)
Definition other4 : Addr := Addr4 (10 * 2 ^ 24 + 2 ^ 15).
Definition two_hosts : list ResolveResult := [MkResult "ya.ru" [host4; other4] [] StatusValid 0 None].
Definition two_stored : World Machine := snd (UpsertBatch two_hosts (tool_start true)).
Definition off_run := exportCmd tool_fs elements (tool_export "off") two_stored.

Lemma two_ok : Forall result_ok two_hosts.
Proof. repeat constructor; vm_compute; try done; by intros []. Qed.
Lemma off_ends : ends (fun _ => true) off_run = true.
Proof. vm_compute. reflexivity. Qed.
Lemma off_fresh : fresh_output "/o" two_stored.
Proof. vm_compute. by split. Qed.
Lemma few_records : Z.of_nat (size (tb_records (db two_stored))) < 2 ^ 53.
Proof. vm_compute. done. Qed.

Lemma two_refined : refines (db two_stored) (spec_upsert ∅ two_hosts).
Proof.
  destruct (upsert_runs two_hosts ∅ (tool_start true)) as (w' & E & Hr); [done|vm_compute; discriminate|exact refines_empty|].
  unfold two_stored. by rewrite E.
Qed.

Lemma two_recs name typ addr :
  spec_rec (spec_upsert ∅ two_hosts) name typ addr <->
  name = "ya.ru"%string /\ answers (MkResult "ya.ru" [host4; other4] [] StatusValid 0 None) typ addr.
Proof.
  rewrite spec_rec_upsert by exact two_ok. split.
  - intros [(e & ip & v & He & _)|(r & Hr & <- & _ & Ha)]; [by rewrite lookup_empty in He|].
    apply list_elem_of_singleton in Hr as ->. by split.
  - intros [-> Ha]. right. eexists. split; [by apply list_elem_of_singleton|]. by split_and!.
Qed.

Lemma two_wf name typ addr : spec_rec (spec_upsert ∅ two_hosts) name typ addr -> addr_wf addr.
Proof.
  intros (_ & Ha)%two_recs.
  assert (Forall addr_wf [host4; other4]) as Hwf by (apply (bool_decide_unpack _); vm_compute; exact I).
  destruct Ha as [[_ Ha]|[_ Ha]]; [by apply (proj1 (Forall_forall _ _) Hwf)|by apply elem_of_nil in Ha].
Qed.

Lemma two_have addr : addr ∈ [host4; other4] -> spec_rec (spec_upsert ∅ two_hosts) "ya.ru" "A" addr.
Proof. intros Ha. apply two_recs. split; [done|]. by left. Qed.

Lemma export_off_merges_witness :
  exists ps4 ps6 p, exported "/o" (snd off_run) ps4 ps6 /\ p ∈ ps4 /\
    Contains p host4 = true /\ Contains p other4 = true.
Proof.
  destruct (ends_returned _ _ off_ends) as (rep & w' & E & _ & Hw'). rewrite <- Hw'.
  apply (export_off_merges tool_fs tool_script_db tool_version_db elements
           (tool_export "off") two_stored rep w' (spec_upsert ∅ two_hosts) (10 * 2 ^ 24 + 1) (10 * 2 ^ 24 + 2 ^ 15) "ya.ru" "ya.ru");
    [intros s; discriminate|exact two_refined|exact off_fresh|reflexivity|exact few_records|exact two_wf
    |apply two_have, list_elem_of_here|apply two_have, list_elem_of_further, list_elem_of_here|vm_compute; discriminate|reflexivity|exact E].
Defined.

(** The list is cached, its metadata is not, and the machine is offline. *)
Definition offline : World Machine := MkWorld {["/tmp/d2ip-dlc.dat"%string := "dlc"%string]} (MkMachine emptyTables ∅ false) 0.
#[local] Instance no_network : Http Machine := {|
  valid_url _ := true;
  http_get _ _ _ k := (Err (ErrNew "no route"), k)
|}.

Lemma list_without_metadata_panics_witness :
  fst (dumpCmd elements (MkDumpFlags default_source ["ru"%string] false) offline) = Panicked.
Proof.
  apply (list_without_metadata_panics tool_fs tool_batch elements (MkDumpFlags default_source ["ru"%string] false) tool_resolve "dlc" offline);
    try reflexivity; try discriminate.
  intros url etag since k. by eexists _, _.
Defined.
