(* ===== verification/Metrics.v ===== *)
(** * [internal/metrics]: the Prometheus registry

  [prom.go]: the metrics of the program, the global registry ([None] before [Setup]) and
  the functions that register collectors with it.  A registry of the library is an
  interface: collectors with metrics of the same name exclude each other.  A panic is
  [None]. *)

From S2P Require Import Prelude GoLib.

(** ** Metrics *)

Inductive Kind := Counter | Histogram (buckets : list Z) | Gauge.

(** A metric of the program; the bounds of the buckets are in thousandths. *)
Record Metric := MkMetric { mt_Kind : Kind; mt_Name : string; mt_Help : string; mt_Labels : list string }.

Definition DNSResolveTotal : Metric :=
  MkMetric Counter "dns_resolve_total" "Total number of DNS resolution attempts by status (success, failed, nxdomain)" ["status"%string].
Definition DNSResolveDuration : Metric :=
  MkMetric (Histogram [5; 10; 25; 50; 100; 250; 500; 1000; 2500; 5000; 10000]%Z) "dns_resolve_duration_seconds"
    "Duration of DNS queries in seconds" [].
Definition PipelineRunsTotal : Metric :=
  MkMetric Counter "pipeline_runs_total" "Total number of pipeline runs by status (success, failed)" ["status"%string].
Definition PipelineStepDuration : Metric :=
  MkMetric (Histogram [5; 10; 25; 50; 100; 250; 500; 1000; 2500; 5000; 10000; 30000; 60000; 120000]%Z)
    "pipeline_step_duration_seconds" "Duration of pipeline steps in seconds" ["step"%string].
Definition PipelineLastSuccess : Metric :=
  MkMetric Gauge "pipeline_last_success_timestamp" "Unix timestamp of last successful pipeline run" [].

Inductive Collector := ProcessCollector | GoCollector | Own (m : Metric).

(** ** The library *)

Class Prometheus (prom_registry : Type) := {
  NewRegistry : prom_registry;
  reg_Register : Collector -> prom_registry -> option error * prom_registry;
  reg_Unregister : Collector -> prom_registry -> bool * prom_registry
}.

Class PrometheusLaws (prom_registry : Type) `{Prometheus prom_registry} := {
  (** the names of the metrics of a collector; what a registry holds *)
  names : Collector -> gset string;
  holds : prom_registry -> Collector -> Prop;
  names_own m : names (Own m) = {[mt_Name m]};
  names_process n : n ∈ names ProcessCollector -> HasPrefix n "process_" = true;
  names_go n : n ∈ names GoCollector -> HasPrefix n "go_" = true;
  holds_new c : ~ holds NewRegistry c;
  register_new c r : (forall c', holds r c' -> names c ## names c') ->
    exists r', reg_Register c r = (None, r') /\ forall c', holds r' c' <-> c' = c \/ holds r c'
}.

Section Metrics.
Context {prom_registry : Type} `{Prometheus prom_registry}.

Definition AlreadyRegisteredError : error := ErrNew "duplicate metrics collector registration attempted".

(** The library's [MustRegister]. *)
Fixpoint reg_MustRegister (cs : list Collector) (r : prom_registry) : option prom_registry :=
  match cs with
  | [] => Some r
  | c :: cs' => match reg_Register c r with (None, r) => reg_MustRegister cs' r | (Some _, _) => None end
  end.

Definition standard_collectors : list Collector :=
  [ProcessCollector; GoCollector; Own DNSResolveTotal; Own DNSResolveDuration;
   Own PipelineRunsTotal; Own PipelineStepDuration; Own PipelineLastSuccess].

(** The registry after [Setup], which forgets the one there was. *)
Definition metrics_Setup : option prom_registry := reg_MustRegister standard_collectors NewRegistry.

(** [Registry] is [None] before [Setup]. *)
Definition MustRegister (cs : list Collector) (Registry : option prom_registry) : option prom_registry :=
  r ← Registry; reg_MustRegister cs r.

Definition Register (c : Collector) (Registry : option prom_registry) : option error * option prom_registry :=
  match Registry with
  | None => (Some AlreadyRegisteredError, None)
  | Some r => let '(e, r) := reg_Register c r in (e, Some r)
  end.

Definition Unregister (c : Collector) (Registry : option prom_registry) : bool * option prom_registry :=
  match Registry with
  | None => (false, None)
  | Some r => let '(b, r) := reg_Unregister c r in (b, Some r)
  end.

(** ** [Setup] does not panic *)

Context `{!PrometheusLaws prom_registry}.

Lemma must_register_distinct cs : forall r,
  ForallOrdPairs (fun c c' => names c ## names c') cs -> (forall c c', c ∈ cs -> holds r c' -> names c ## names c') ->
  exists r', reg_MustRegister cs r = Some r' /\ forall c, holds r' c <-> c ∈ cs \/ holds r c.
Proof.
  induction cs as [|c cs IH]; intros r Hd Hr; cbn [reg_MustRegister].
  { exists r. split; [done|]. intros c. set_solver. }
  inversion Hd as [|? ? Hc Hcs]; subst. destruct (register_new c r) as (r1 & -> & Hh); [intros c' Hc'; apply Hr; [set_solver|done]|].
  destruct (IH r1 Hcs) as (r' & -> & Hh').
  - intros c1 c' Hin [->|Hc']%Hh; [|apply Hr; [set_solver|done]]. rewrite Forall_forall in Hc. symmetry. by apply Hc.
  - exists r'. split; [done|]. intros c'. rewrite Hh', Hh. set_solver.
Qed.

Lemma names_apart c c' : (forall n, n ∈ names c -> n ∈ names c' -> False) -> names c ## names c'.
Proof. intros Hn n. apply Hn. Qed.

(** The names of the library's collectors do not start like those of the program. *)
Lemma standard_distinct : ForallOrdPairs (fun c c' => names c ## names c') standard_collectors.
Proof.
  unfold standard_collectors.
  repeat first [ apply FOP_nil | apply FOP_cons | apply Forall_nil; exact I | apply Forall_cons; split ]; apply names_apart; intros n.
  all: rewrite ?names_own; intros Hn Hn'.
  all: repeat match goal with
    | H : _ ∈ names ProcessCollector |- _ => apply names_process in H
    | H : _ ∈ names GoCollector |- _ => apply names_go in H
    | H : _ ∈ {[_]} |- _ => apply elem_of_singleton in H
    end; subst; try discriminate.
  destruct n as [|[[] [] [] [] [] [] [] []] n]; discriminate.
Qed.

(** [Setup] registers exactly the collectors of the program and of the runtime, whatever
    was registered before. *)
Lemma Setup_holds : exists r, metrics_Setup = Some r /\ forall c, holds r c <-> c ∈ standard_collectors.
Proof.
  destruct (must_register_distinct standard_collectors NewRegistry) as (r & E & Hh);
    [apply standard_distinct|by intros c c' _ ?%holds_new|].
  exists r. split; [done|]. intros c. rewrite Hh. split; [by intros [?|?%holds_new]|by left].
Qed.
End Metrics.

(** ** A registry *)

#[export] Instance kind_eq_dec : EqDecision Kind.
Proof. solve_decision. Defined.
#[export] Instance metric_eq_dec : EqDecision Metric.
Proof. solve_decision. Defined.
#[export] Instance collector_eq_dec : EqDecision Collector.
Proof. solve_decision. Defined.

Definition demo_names (c : Collector) : gset string :=
  match c with
  | ProcessCollector => {["process_cpu_seconds_total"%string]}
  | GoCollector => {["go_goroutines"%string]}
  | Own m => {[mt_Name m]}
  end.

#[export] Instance demo_prometheus : Prometheus (list Collector) := {|
  NewRegistry := [];
  reg_Register c r :=
    if bool_decide (Forall (fun c' => demo_names c ## demo_names c') r) then (None, c :: r)
    else (Some (ErrNew "duplicate metrics collector registration attempted"), r);
  reg_Unregister c r := (bool_decide (c ∈ r), filter (fun c' => c' <> c) r)
|}.

#[export, refine] Instance demo_prometheus_laws : PrometheusLaws (list Collector) := {|
  names := demo_names;
  holds r c := c ∈ r
|}.
Proof.
  - done.
  - cbn. by intros n ->%elem_of_singleton.
  - cbn. by intros n ->%elem_of_singleton.
  - by intros c ?%elem_of_nil.
  - intros c r Hr. cbn. rewrite bool_decide_eq_true_2 by (by apply Forall_forall). eexists. split; [reflexivity|]. intros c'. by rewrite elem_of_cons.
Defined.

Example setup_twice : MustRegister [Own DNSResolveTotal] (metrics_Setup (prom_registry := list Collector)) = None /\ length <$> metrics_Setup (prom_registry := list Collector) = Some 7.
Proof. split; vm_compute; reflexivity. Qed.
