(* ===== verification/Serve.v ===== *)
(** * [serve]: from the configuration to the running server

  [cmd/d2ip/main.go]: the subcommands, and [serveCmd] up to the moment the HTTP server
  listens, as one command that composes the parts of the library the way [main] does; and
  [logging.Setup].  The rows of the [sources] table an earlier run left are an argument. *)

From S2P Require Import Prelude Order GoLib Os Netip NetipText Config Duration Settings Plan Exporter ExporterSpec Events Watcher Routing.
From S2P Require Import Cache Migrate Resolver Store Orchestrator Scheduler Sourcereg Cmd Metrics Server.

Local Open Scope Z_scope.

(** ** Subcommands *)

Inductive Subcommand := SubVersion | SubServe | SubDump | SubResolve | SubExport | SubHelp.

(** The arguments after the program's name; [None]: the usage and exit code 1. *)
Definition subcommand (args : list string) : option Subcommand :=
  match args with
  | [] => None
  | arg :: _ =>
      if one_of arg ["version"; "--version"; "-v"]%string then Some SubVersion
      else if String.eqb arg "serve" then Some SubServe
      else if String.eqb arg "dump" then Some SubDump
      else if String.eqb arg "resolve" then Some SubResolve
      else if String.eqb arg "export" then Some SubExport
      else if one_of arg ["help"; "--help"; "-h"]%string then Some SubHelp
      else None
  end.

(** ** Logging *)

(** [zerolog.ParseLevel] and the level [info]. *)
Class Zerolog (Level : Type) := { ParseLevel : string -> option Level; InfoLevel : Level }.

Record Logger (Level : Type) := MkLogger { lg_Level : Level; lg_JSON : bool }.
Arguments MkLogger {_}. Arguments lg_Level {_}. Arguments lg_JSON {_}.

(** A level that is not known is [info]; there is no error. *)
Definition Setup {Level} `{Zerolog Level} (level : string) (json : bool) : Logger Level := MkLogger (default InfoLevel (ParseLevel level)) json.

(** ** [serveCmd] *)

Record ServeFlags := MkServeFlags { vf_LogLevel : string; vf_LogJSON : bool; vf_ConfigFile : string }.

(** The flag goes over the configuration. *)
Definition serve_logger {Level} `{Zerolog Level} (flags : ServeFlags) (cfg : Config) : Logger Level :=
  Setup (if String.eqb (vf_LogLevel flags) "" then lc_Level (cfg_Logging cfg) else vf_LogLevel flags) (vf_LogJSON flags).

Definition db_path (cfg : Config) : string :=
  if String.eqb (cc_DBPath (cfg_Cache cfg)) "" then "./d2ip.db" else cc_DBPath (cfg_Cache cfg).

(** A server that was started. *)
Record Running (Level prom_registry K St : Type) := MkRunning {
  rn_logger : Logger Level; rn_metrics : prom_registry; rn_deployment : Deployment; rn_state : State K St; rn_resolver : ResolverCfg;
  rn_scheduler : option Scheduler.Sys; rn_listen : string }.
Arguments MkRunning {_ _ K St}. Arguments rn_logger {_ _ K St}. Arguments rn_metrics {_ _ K St}.
Arguments rn_deployment {_ _ K St}. Arguments rn_state {_ _ K St}. Arguments rn_resolver {_ _ K St}.
Arguments rn_scheduler {_ _ K St}. Arguments rn_listen {_ _ K St}.

Definition Version : string := "dev".
Definition BuildTime : string := "unknown".

Section Serve.
Context {K St : Type} `{Env K} `{Sqlite K} `{SchemaDb K} `{!Source K St} `{!Factories K St} `{ConfigCodec} `{Json} `{Viper}.
Context {Level prom_registry : Type} `{Zerolog Level} `{Prometheus prom_registry}.
Context (getenv : string -> string) (order : gset string -> list string).
(** the files of the migrations, the parser of cron expressions, the text of a duration *)
Context (fs : gmap string (option string)) (parse : string -> option error) (duration_string : Z -> string).

Definition serve_options (flags : ServeFlags) : LoadOptions := MkLoadOptions (vf_ConfigFile flags) [] ∅.

(** The overrides of the database; an error is only logged. *)
Definition stored_overrides (cfg : Config) : Command K Config := fun w =>
  match GetAll w with
  | (Err _, w) => (Returned cfg, w)
  | (Ok kvOverrides, w) =>
      (Returned (if Nat.ltb 0 (size kvOverrides)
                 then match ApplyOverrides getenv order cfg kvOverrides with Ok cfg' => cfg' | Err _ => cfg end
                 else cfg), w)
  end.

(** [NewDBRegistry], which creates the table where there is none, and what [main] does
    with the registry. *)
Definition open_registry (cfg : Config) (rows : gmap string Row) : Command K (DBRegistry St) := fun w =>
  match db_exec w with
  | (Some _, w) => (Exited 1, w)
  | (None, w) => let '(r, w) := start_registry order cfg rows w in (Returned r, w)
  end.

Definition check_backends (cfg : Config) : Command K Validator := fun w =>
  match ValidateBackends order NewValidator (ro_Policies (cfg_Routing cfg)) w with
  | (Ok (validator, _), w) => (Returned validator, w)
  | (Err _, w) => (Returned NewValidator, w)
  end.

Definition start_scheduler (cfg : Config) : Command K (option Scheduler.Sys) := fun w =>
  (match scheduler_of parse duration_string cfg with
   | None => Returned None
   | Some (Err _) => Exited 1
   | Some (Ok sched) =>
       match Start parse (Scheduler.MkSys sched [] ∅) with
       | (None, s) => Returned (Some s)
       | (Some _, _) => Exited 1
       end
   end, w).

(** The components of [main]: no list provider and no source store. *)
Definition main_server (rtr : CompositeRouter) : Server :=
  SetPolicyRouter (SetVersion (NewServer true true true true false false true true true) Version BuildTime) rtr.

Definition serveCmd (flags : ServeFlags) (rows : gmap string Row) : Command K (Running Level prom_registry K St) :=
  let! cfg := must_ok (Load getenv order (serve_options flags)) in
  let logger := serve_logger flags cfg in
  let! registered := (fun w => (match metrics_Setup with Some r => Returned r | None => Panicked end, w)) in
  let! _ := must (Open fs (db_path cfg)) in
  let! cfg := stored_overrides cfg in
  let! registry := open_registry cfg rows in
  let! resolverAgent := must_ok (NewResolver (resolver_config cfg)) in
  let! _ := must (New (if String.eqb (ec_Dir (cfg_Export cfg)) "" then "./out" else ec_Dir (cfg_Export cfg))) in
  let cfgWatcher := NewWatcher cfg 1 (Some NewBus) in
  let! validator := check_backends cfg in
  let policyRtr := SetValidator (NewCompositeRouter (cfg_Routing cfg)) validator in
  let! sched := start_scheduler cfg in
  fun w => (Returned (MkRunning logger registered (MkDeployment (main_server policyRtr) (ec_Dir (cfg_Export cfg)) policyRtr)
                        (MkState cfgWatcher registry NewOrchestrator w) resolverAgent sched (cfg_Listen cfg)), w).

(** What happens after the signal, once the HTTP server is shut down: the bus is closed,
    then the deferred [Stop] and [Close].  [None] is a panic. *)
Definition shutdown (rn : Running Level prom_registry K St) (s : State K St) : option (State K St) :=
  match wt_eventBus (ss_watcher s) with
  | None => None
  | Some bus =>
      bus' ← Events.Close bus;
      let s := set_bus bus' s in
      Some (MkState (ss_watcher s) (CloseRegistry (ss_registry s)) (ss_orch s) (ss_world s))
  end.
End Serve.
