(* ===== verification/ServeSpec.v ===== *)
(** * What starting the server means

  A started server is the one [ServerSpec] is about, on the configuration of the file,
  the environment and the stored rows; and a setting that was refused can keep the program
  from starting again. *)

From S2P Require Import Prelude Order GoLib Os Netip NetipText Config ConfigSpec Duration Settings SettingsSpec Scheduler Plan Exporter ExporterSpec Events EventsSpec EventStream Watcher WatcherSpec.
From S2P Require Import Routing Cache CacheSpec Migrate Resolver Store Orchestrator Sourcereg SourceregSpec Api ApiSpec Upload Cmd CmdSpec Metrics Server ServerSpec Serve.

Local Open Scope Z_scope.

Section ServeSpec.
Context {K St : Type} `{Env K} `{Sqlite K} `{SchemaDb K} `{!Source K St} `{!Factories K St} `{ConfigCodec} `{Json} `{ViperLaws} `{!DecodeLaws}.
Context {Level prom_registry : Type} `{Zerolog Level} `{PrometheusLaws prom_registry}.
Context (getenv : string -> string) (order : gset string -> list string) `{!MapOrder order}.
Context (fs : gmap string (option string)) (parse : string -> option error) (duration_string : Z -> string).
Local Notation serveCmd := (serveCmd (K := K) (St := St) (Level := Level) (prom_registry := prom_registry) getenv order fs parse duration_string).

Lemma stored_overrides_startup cfg (w : World K) c w' opts :
  Load getenv order opts = Ok cfg -> stored_overrides getenv order cfg w = (Returned c, w') ->
  startup_config getenv order opts (fst (GetAll w)) = Ok c.
Proof.
  intros Hl. unfold stored_overrides, startup_config. rewrite Hl. cbn [res_bind].
  destruct (GetAll w) as [[kv|e] w1]; cbn [fst]; [|by intros [= <- _]].
  destruct (Nat.ltb_spec 0 (size kv)) as [Hs|Hs]; [destruct (ApplyOverrides getenv order cfg kv); by intros [= <- _]|].
  assert (size kv = 0%nat) as Hz by lia. unfold ApplyOverrides. rewrite Hz. by intros [= <- _].
Qed.

Lemma resolver_accepts cfg rs : NewResolver (resolver_config cfg) = Ok rs ->
  1 <= rc_QPS (cfg_Resolver cfg) /\ 1 <= rc_Concurrency (cfg_Resolver cfg).
Proof.
  unfold NewResolver. case_if; [done|]. cbn [resolver_config rs_Concurrency rs_QPS].
  destruct (Z.ltb_spec (rc_Concurrency (cfg_Resolver cfg)) 1); [done|].
  destruct (Z.ltb_spec (rc_QPS (cfg_Resolver cfg)) 1); [done|]. intros _. lia.
Qed.

(** A start that succeeds, step by step. *)
Lemma serveCmd_ok flags rows w rn w' :
  serveCmd flags rows w = (Returned rn, w') ->
  exists base w1 cfg reg w2 w3,
    Load getenv order (serve_options flags) = Ok base /\ (exists p, Open fs (db_path base) w = (Ok p, w1)) /\
    startup_config getenv order (serve_options flags) (fst (GetAll w1)) = Ok cfg /\
    start_registry order cfg rows w2 = (reg, w3) /\ NewResolver (resolver_config cfg) = Ok (rn_resolver rn) /\
    rn_state rn = started cfg reg w' /\ wired (dp_server (rn_deployment rn)) /\
    (exists w4, start_scheduler (K := K) parse duration_string cfg w4 = (Returned (rn_scheduler rn), w4)).
Proof.
  unfold Serve.serveCmd. intros (base & wl & El & E)%cmd_bind_ok. apply must_ok_returned in El as [El ->].
  apply cmd_bind_ok in E as (prom & wm & Em & E). destruct metrics_Setup as [prom0|]; [injection Em as _ <-|done].
  apply cmd_bind_ok in E as (p & w1 & Eo & E). apply must_returned in Eo.
  apply cmd_bind_ok in E as (cfg & w2 & Es & E). pose proof (stored_overrides_startup base w1 cfg w2 _ El Es) as Hs.
  apply cmd_bind_ok in E as (reg & w3 & Er & E).
  apply cmd_bind_ok in E as (rs & w4 & Ers & E). apply must_ok_returned in Ers as [Ers ->].
  apply cmd_bind_ok in E as (dir & w5 & _ & E). apply cmd_bind_ok in E as (v & w6 & _ & E).
  apply cmd_bind_ok in E as (sched & w7 & Esc & E). injection E as <- <-.
  unfold open_registry in Er. destruct (db_exec w2) as [[e|] w2']; [done|].
  destruct (start_registry order cfg rows w2') as [reg' w3'] eqn:Esr. injection Er as -> ->.
  exists base, w1, cfg, reg, w2', w3. split_and!; try done; [by exists p|]. exists w6.
  unfold start_scheduler in Esc |- *. injection Esc as -> ->. done.
Qed.

(** What the start exits with when the resolver refuses the configuration. *)
Lemma serveCmd_refused flags rows (w : World K) base cfg :
  Load getenv order (serve_options flags) = Ok base ->
  (forall p w1, Open fs (db_path base) w = (Ok p, w1) -> startup_config getenv order (serve_options flags) (fst (GetAll w1)) = Ok cfg) ->
  rc_QPS (cfg_Resolver cfg) < 1 -> fst (serveCmd flags rows w) = Exited 1.
Proof.
  intros El Hs Hq. unfold Serve.serveCmd, cmd_bind. unfold must_ok at 1. rewrite El. cbv beta iota zeta.
  destruct Setup_holds as (prom & -> & _). unfold must at 1.
  destruct (Open fs (db_path base) w) as [[p|e] w1] eqn:Eo; [|done]. specialize (Hs p w1 eq_refl).
  pose proof (stored_overrides_startup base w1) as Hst. destruct (stored_overrides getenv order base w1) as [o w2] eqn:Es.
  assert (exists c, o = Returned c) as [c ->].
  { unfold stored_overrides in Es. destruct (GetAll w1) as [[kv|e] w3]; injection Es as <- _; eauto. }
  specialize (Hst c w2 (serve_options flags) El eq_refl). rewrite Hst in Hs. injection Hs as ->.
  unfold open_registry. destruct (db_exec w2) as [[e|] w3]; [done|].
  destruct (start_registry order cfg rows w3) as [reg w4]. unfold must_ok.
  destruct (NewResolver (resolver_config cfg)) as [rs|e] eqn:Er; [|done].
  apply resolver_accepts in Er as [? _]. lia.
Qed.

Lemma valid_qps c : Validate c = [] -> 1 <= rc_QPS (cfg_Resolver c).
Proof. unfold Validate. rewrite !app_nil_iff. intros (_ & _ & Hr & _). apply resolver_spec in Hr. pose proof (rok_qps _ Hr). lia. Qed.

(** ** Claims *)


Context `{Digest} `{TempNames} `{StateCodec} `{Uuid}.
Context (rec_order : gset RecordKey -> list RecordKey) (addr_order : gset Addr -> list Addr).
Context (batch : list string -> World K -> list ResolveResult * World K) (pragma : string -> Tables -> Z).



(** ** Stopping *)

(** After the signal the server stops if no client of the event stream is connected. *)
Lemma shutdown_quiet rn (s : State K St) b :
  sinv s -> wt_eventBus (ss_watcher s) = Some b -> (forall t, topic_subs b t = []) -> is_Some (shutdown (K := K) (Level := Level) (prom_registry := prom_registry) rn s).
Proof.
  intros Hi Hb Ht. unfold shutdown. rewrite Hb.
  assert (is_Some (Events.Close b)) as [b' ->]; [|by eexists].
  apply (Close_ok_iff (MkSys b []) (wi_bus _ (sv_watch _ Hi) b Hb)). cbn [sys_bus].
  assert (mjoin (map_to_list (b_subs b)).*2 = []) as ->; [|constructor].
  apply elem_of_nil_inv. intros ch (t & Hch)%elem_of_all_subs. rewrite Ht in Hch. by apply elem_of_nil in Hch.
Qed.

(** A client that is still connected makes it panic. *)
Lemma shutdown_with_client rn (s : State K St) b ch :
  sinv s -> wt_eventBus (ss_watcher s) = Some b -> (forall t, t ∈ EventStream.stream_topics -> ch ∈ topic_subs b t) ->
  shutdown (K := K) (Level := Level) (prom_registry := prom_registry) rn s = None.
Proof.
  intros Hi Hb Ht. unfold shutdown. rewrite Hb.
  pose proof (proj1 (Close_ok_iff (MkSys b []) (wi_bus _ (sv_watch _ Hi) b Hb))) as Hc. cbn [sys_bus] in Hc.
  destruct (Events.Close b) as [b'|]; [|done]. exfalso.
  refine (two_topics_dup b "pipeline" "config" ch _ _ _ (Hc ltac:(eauto))); [done| |];
    apply Ht; unfold EventStream.stream_topics; set_solver.
Qed.
End ServeSpec.
