(* ===== verification/ServerDemo.v ===== *)
(** * A server at work

  A machine with the routes of [Machine] and a database, and a server on it: a source and
  a policy are added, the pipeline runs, and the answers show what it did.  A start of the
  program, and one that a refused setting stops.  The theorems of [ServerSpec] and
  [ServeSpec] at these runs. *)

From S2P Require Import Prelude Order GoLib Os Netip NetipText Machine Plaintext PlaintextSpec Config ConfigSpec Duration Settings SettingsDemo Plan.
From S2P Require Import SettingsSpec Exporter ExporterSpec Events Watcher WatcherSpec Routing Cache CacheSpec Migrate Orchestrator OrchestratorSpec Scheduler Sourcereg SourceregSpec.
From S2P Require Import Api ApiSpec ApiDemo Upload Cmd CmdSpec Metrics Server ServerSpec Serve ServeSpec.

Local Open Scope Z_scope.

(** The texts of one list of policies. *)
Definition corp_policy : PolicyConfig := {|
  pc_Name := "corp"; pc_Enabled := true; pc_Categories := ["corp:default"]; pc_Backend := BackendIProute2;
  pc_TableID := 100; pc_Iface := "wg0"; pc_NFTTable := ""; pc_NFTSetV4 := ""; pc_NFTSetV6 := "";
  pc_DryRun := false; pc_ExportFormat := ""; pc_Aggregation := None |}%string.

#[local] Instance host_json : Json := {|
  json_sources _ := Err (ErrNew "invalid character");
  json_policies s := if String.eqb s "[corp]" then Ok [corp_policy] else Err (ErrNew "invalid character");
  show_policies _ := "[corp]"%string
|}.
#[local] Existing Instance demo_viper.
#[local] Existing Instance demo_laws.
#[local] Existing Instance demo_decodes.

(** ** The machine *)

Record Host := MkHost { ht_kernel : Kernel; ht_tables : Tables; ht_versions : gset Z }.

#[local] Instance host_env : Env Host := {|
  fault := fun _ => None;
  torn := fun _ old _ => old;
  exec argv stdin k :=
    let '(e, out, err, k') := interp_nft argv stdin (ht_kernel k) in (e, out, err, MkHost k' (ht_tables k) (ht_versions k));
  look_path := fun _ _ => true;
  clock := Z.of_nat
|}.

#[local] Instance host_sqlite : Sqlite Host := {|
  db_get := ht_tables;
  db_set t k := MkHost (ht_kernel k) t (ht_versions k);
  db_get_set t k := eq_refl;
  max_params := 32766
|}.

#[local] Instance host_schema : SchemaDb Host := {|
  versions := ht_versions;
  add_version v k := MkHost (ht_kernel k) (ht_tables k) ({[v]} ∪ ht_versions k);
  script _ k := Some k;
  versions_add v k := eq_refl;
  versions_script _ k k' E := f_equal ht_versions (eq_sym (Some_inj _ _ E))
|}.

#[local] Instance host_uuid : Uuid := {| new_uuid n := Itoa (Z.of_nat n) |}.

(** Every name has one address. *)
Definition host_batch (ds : list string) (w : World Host) : list ResolveResult * World Host :=
  ((fun d => MkResult d [Addr4 (10 * 2 ^ 24 + Z.of_nat (String.length d))] [] StatusValid 0 None) <$> ds, w).

Definition host_router : CompositeRouter := NewCompositeRouter (cfg_Routing Defaults).
Definition host : Deployment :=
  MkDeployment
    (SetPolicyRouter (SetVersion (NewServer true true true true false false true true true) "dev" "unknown") host_router)
    (ec_Dir (cfg_Export Defaults)) host_router.

Definition host_world : World Host :=
  MkWorld {["/lists/corp.txt"%string := lines_text ["a.example"; "www.example"]%string]}
    (MkHost (MkKernel ∅ ∅) (MkTables ∅ ∅ ∅) ∅) 0.

Definition boot : State Host Provider := started Defaults NewDBRegistry host_world.

(** ** The requests *)

Definition corp_source : SrcConfig :=
  MkSrcConfig "corp" "plaintext" "corp" true {["type"%string := AStr "domains"; "file"%string := AStr "/lists/corp.txt"]}.

Definition request (req : Request) (s : State Host Provider) : option Response * State Host Provider :=
  serve no_environ elements elements elements host_batch (fun _ _ => 0) host req s.

Definition with_source := request (PostSources (Ok corp_source)) boot.
Definition with_policy := request (PostPolicies (Ok corp_policy)) (snd with_source).
Definition after_run := request (PostPipelineRun (MkRequest false false false, None)) (snd with_policy).

(** ** The theorems *)

Definition steps_to (s : State Host Provider) : Prop :=
  server_reach no_environ elements elements elements host_batch (fun _ _ => 0) host boot s.

Lemma request_reaches req s :
  steps_to s -> (wt_version (ss_watcher s) <? 2 ^ 64 - 1) = true -> steps_to (snd (request req s)).
Proof. intros Hs Hv%Z.ltb_lt. eapply sreach_step; [exact Hs|exact Hv|]. apply sstep_request. Qed.

Lemma demo_reached : steps_to (snd after_run).
Proof. do 3 (apply request_reaches; [|vm_compute; reflexivity]). apply sreach_init. Qed.

Lemma host_wired : wired (dp_server host).
Proof. by split_and!. Qed.


(** The snapshot of the routes after the run is a read. *)
Lemma get_requests_read_witness :
  let r := request GetRoutingSnapshot (snd after_run) in
  fst r = Some (jsonOK (BSnapshot "policies" 33 2 0 1)) /\ w_kern (ss_world (snd r)) = w_kern (ss_world (snd after_run)).
Proof.
  cbv zeta. split; [vm_compute; reflexivity|].
  apply (get_requests_read no_environ elements elements elements host_batch (fun _ _ => 0) host GetRoutingSnapshot
           (snd after_run) (fst (request GetRoutingSnapshot (snd after_run)))); [reflexivity|apply surjective_pairing].
Defined.

(** A server that was built with nothing but a watcher. *)
Definition bare : Deployment :=
  MkDeployment (NewServer false false true false false false false false false) "" host_router.

Lemma missing_components_witness :
  serve no_environ elements elements elements host_batch (fun _ _ => 0) bare GetCacheStats boot = (Some no_cache, boot) /\
  serve no_environ elements elements elements host_batch (fun _ _ => 0) bare GetConfigExport boot = (None, boot).
Proof.
  split.
  - by apply (missing_components no_environ elements elements elements host_batch (fun _ _ => 0) bare GetCacheStats boot).
  - by apply (missing_components no_environ elements elements elements host_batch (fun _ _ => 0) bare GetCacheStats boot).
Defined.

Lemma source_state_inv : sinv (snd with_source).
Proof.
  apply (server_reach_inv no_environ elements elements elements host_batch (fun _ _ => 0) host Defaults NewDBRegistry host_world);
    [exact host_wired|vm_compute; reflexivity|apply rinv_new|].
  apply request_reaches; [apply sreach_init|vm_compute; reflexivity].
Qed.

(** The run reports the policy, and its file can be downloaded. *)
Lemma created_policy_runs_witness :
  exists rep, fst after_run = Some (jsonOK (BReport rep)) /\ "corp"%string ∈ pr_Name <$> re_Policies rep /\
    fst (request (GetExportDownload "corp" "ipv4") (snd after_run)) =
      Some (jsonOK (BFile (lines_text ["10.0.0.9/32"; "10.0.0.11/32"]%string))).
Proof.
  assert (exists rep, fst after_run = Some (jsonOK (BReport rep))) as [rep Erep] by (eexists; vm_compute; reflexivity).
  exists rep. split; [exact Erep|]. split; [|vm_compute; reflexivity].
  apply (created_policy_runs no_environ elements elements elements host_batch (fun _ _ => 0) host corp_policy
           (MkRequest false false false, None) (snd with_source) status_ok (snd with_policy) rep (snd after_run)).
  - exact source_state_inv.
  - reflexivity.
  - reflexivity.
  - transitivity (fst with_policy, snd with_policy); [apply surjective_pairing|].
    apply (f_equal (fun r => (r, snd with_policy))). vm_compute. reflexivity.
  - reflexivity.
  - transitivity (fst after_run, snd after_run); [apply surjective_pairing|]. by rewrite Erep.
  - reflexivity.
Defined.

(** ** Starting *)

#[local] Instance host_levels : Zerolog string := {|
  ParseLevel s := if one_of s ["debug"; "info"; "warn"; "error"]%string then Some s else None; InfoLevel := "info"%string
|}.

Definition start_flags : ServeFlags := MkServeFlags "" true "d2ip.yaml".
Definition duration_text (d : Z) : string := Itoa d +:+ "ns".
Definition start_server (rows : gmap string Row) (w : World Host) : Outcome (Running string (list Collector) Host Provider) * World Host :=
  serveCmd no_environ elements ∅ (fun _ => None) duration_text start_flags rows w.



(** The policy of the run above after a restart. *)
Lemma corp_row : kv_of (ss_world (snd with_policy)) = {["routing.policies"%string := "[corp]"%string]}.
Proof. vm_compute. reflexivity. Qed.

Lemma corp_overrides k x : overrides no_environ {["routing.policies"%string := "[corp]"%string]} k x -> k = KPolicies /\ x = VPolicies [corp_policy].
Proof.
  intros (key & raw & [<- <-]%lookup_singleton_Some & Hk & _ & Hx). apply (key_name_inj KPolicies) in Hk as <-.
  split; [done|]. vm_compute in Hx. by injection Hx as <-.
Qed.

Lemma corp_clean : clean {["routing.policies"%string := "[corp]"%string]}.
Proof.
  split.
  - by intros k1 k2 [x1 [<- _]%lookup_singleton_Some] [x2 [<- _]%lookup_singleton_Some].
  - intros key k [x [<- _]%lookup_singleton_Some]. apply (keys_unrelated KPolicies).
Qed.

Definition restarted := start_server ∅ (ss_world (snd with_policy)).

